(** * The neighbour (address-resolution) cache of net/core/neighbour.c

    A shallow embedding of the generic neighbour cache: the hash table
    and entry life cycle, the NUD state machine driven by the per-entry
    timer, the pending-packet queue, the garbage collectors and the
    proxy table.  Every C function that is modelled keeps its name; a
    [struct] becomes a record, a bucket chain becomes the list of the
    entries it links, and the calls that leave the subsystem
    ([kfree_skb], [ops->error_report], [n->output], ...) are recorded in
    an event trace. *)

From Stdlib Require Import ZArith List Bool Lia.
From stdpp Require Import base list.
Import ListNotations.
Open Scope Z_scope.

(** ** Machine integers *)

(** An unsigned [w]-bit value. *)
Definition wrap (w z : Z) : Z := z mod 2 ^ w.

(** A signed [w]-bit value (two's complement). *)
Definition swrap (w z : Z) : Z := (z + 2 ^ (w - 1)) mod 2 ^ w - 2 ^ (w - 1).

Definition u8 (z : Z) : Z := wrap 8 z.
Definition u32 (z : Z) : Z := wrap 32 z.
Definition s32 (z : Z) : Z := swrap 32 z.

(** [int] addition. *)
Definition int_add (a b : Z) : Z := s32 (a + b).

(** The C test [x & mask] used as a condition. *)
Definition tst (x mask : Z) : bool := negb (Z.land x mask =? 0).

(** ** Constants of the absent headers *)

(** Modelled from the spec: include/net/neighbour.h and
    include/linux/rtnetlink.h are not among the sources.  Section 4.2 of
    the specification names the NUD states and the classes "valid",
    "connected" and "in timer"; the bit assigned to each state is the
    one of the header. *)
Definition NUD_INCOMPLETE : Z := 0x01.
Definition NUD_REACHABLE : Z := 0x02.
Definition NUD_STALE : Z := 0x04.
Definition NUD_DELAY : Z := 0x08.
Definition NUD_PROBE : Z := 0x10.
Definition NUD_FAILED : Z := 0x20.
Definition NUD_NOARP : Z := 0x40.
Definition NUD_PERMANENT : Z := 0x80.
Definition NUD_NONE : Z := 0x00.

Definition NUD_IN_TIMER : Z :=
  Z.lor NUD_INCOMPLETE (Z.lor NUD_REACHABLE (Z.lor NUD_DELAY NUD_PROBE)).
Definition NUD_VALID : Z :=
  Z.lor NUD_PERMANENT (Z.lor NUD_NOARP (Z.lor NUD_REACHABLE
    (Z.lor NUD_PROBE (Z.lor NUD_STALE NUD_DELAY)))).
Definition NUD_CONNECTED : Z :=
  Z.lor NUD_PERMANENT (Z.lor NUD_NOARP NUD_REACHABLE).

(** Modelled from the spec: the flag bits of [neigh_update] (section
    4.2: OVERRIDE, WEAK_OVERRIDE, administrative updates) and the
    is-router entry flag, with the values of include/net/neighbour.h. *)
Definition NEIGH_UPDATE_F_OVERRIDE : Z := 0x00000001.
Definition NEIGH_UPDATE_F_WEAK_OVERRIDE : Z := 0x00000002.
Definition NEIGH_UPDATE_F_OVERRIDE_ISROUTER : Z := 0x00000004.
Definition NEIGH_UPDATE_F_ISROUTER : Z := 0x40000000.
Definition NEIGH_UPDATE_F_ADMIN : Z := 0x80000000.
Definition NTF_ROUTER : Z := 0x80.

(** Modelled from the spec: the sizes of the two bucket arrays ("fixed
    size, power-of-two mask", section 3), with the header's masks. *)
Definition NEIGH_HASHMASK : Z := 0x1F.
Definition PNEIGH_HASHMASK : Z := 0xF.

(** Modelled from the spec: the error codes handed back to callers
    (section 7), numbered as in include/asm-generic/errno.h. *)
Definition EPERM : Z := 1.
Definition EINVAL : Z := 22.
Definition ENOBUFS : Z := 105.

(** ** Data model *)

(** A packet.  [skb_dst_neighbour] is the address of
    [skb->dst->neighbour], or 0 when [skb->dst] or that pointer is
    NULL. *)
Record sk_buff := {
  skb_id : Z;
  skb_dst_neighbour : Z
}.

(** [struct neigh_parms]: the tunables an entry reads.  [parms_ptr] is
    the address of the block: an entry points to its block
    ([n->parms]), and the record an entry carries is the block as the
    entry reads it. *)
Record neigh_parms := {
  parms_ptr : Z;
  base_reachable_time : Z;
  retrans_time : Z;
  gc_staletime : Z;
  reachable_time : Z;
  delay_probe_time : Z;
  queue_len : Z;
  ucast_probes : Z;
  app_probes : Z;
  mcast_probes : Z;
  parms_dead : Z
}.

(** The part of [struct net_device] the cache looks at; [dev_ptr] is the
    address of the device, which is what [dev == n->dev] compares. *)
Record net_device := {
  dev_ptr : Z;
  addr_len : Z;
  header_cache_update : bool
}.

(** The function an [output] pointer designates. *)
Inductive output_fn :=
| fn_neigh_blackhole
| fn_ops_output
| fn_ops_connected_output
| fn_ops_hh_output.

(** [struct hh_cache]: a cached hardware header. *)
Record hh_cache := {
  hh_type : Z;
  hh_output : output_fn;
  hh_data : list Z
}.

(** [struct neighbour].  [n_addr] is the address of the structure;
    [timer] is [Some expires] while the entry's timer is pending. *)
Record neighbour := {
  n_addr : Z;
  primary_key : list Z;
  dev : net_device;
  ha : list Z;
  nud_state : Z;
  flags : Z;
  refcnt : Z;
  dead : Z;
  used : Z;
  confirmed : Z;
  updated : Z;
  arp_queue : list sk_buff;
  probes : Z;
  parms : neigh_parms;
  output : output_fn;
  hh : list hh_cache;
  timer : option Z
}.

(** [struct pneigh_entry]: a proxy entry; [pn_dev] is the device
    pointer, 0 for NULL. *)
Record pneigh_entry := {
  pn_addr : Z;
  pn_key : list Z;
  pn_dev : Z
}.

(** What leaves the subsystem. *)
Inductive event :=
| Ev_kfree_skb (skb : sk_buff)
| Ev_kfree_queue_head
| Ev_error_report (skb : sk_buff)
| Ev_output (n1 : Z) (skb : sk_buff)
| Ev_solicit (skb : option sk_buff)
| Ev_warning
| Ev_kmem_cache_free (n : Z).

(** Field updates. *)
Definition set_reachable_time (p : neigh_parms) (v : Z) : neigh_parms :=
  {| parms_ptr := parms_ptr p;
     base_reachable_time := base_reachable_time p;
     retrans_time := retrans_time p; gc_staletime := gc_staletime p;
     reachable_time := v; delay_probe_time := delay_probe_time p;
     queue_len := queue_len p; ucast_probes := ucast_probes p;
     app_probes := app_probes p; mcast_probes := mcast_probes p;
     parms_dead := parms_dead p |}.

Definition set_parms (n : neighbour) (v : neigh_parms) : neighbour :=
  {| n_addr := n_addr n; primary_key := primary_key n; dev := dev n;
     ha := ha n; nud_state := nud_state n; flags := flags n;
     refcnt := refcnt n; dead := dead n; used := used n;
     confirmed := confirmed n; updated := updated n;
     arp_queue := arp_queue n; probes := probes n; parms := v;
     output := output n; hh := hh n; timer := timer n |}.

Definition set_nud_state (n : neighbour) (v : Z) : neighbour :=
  {| n_addr := n_addr n; primary_key := primary_key n; dev := dev n;
     ha := ha n; nud_state := v; flags := flags n; refcnt := refcnt n;
     dead := dead n; used := used n; confirmed := confirmed n;
     updated := updated n; arp_queue := arp_queue n; probes := probes n;
     parms := parms n; output := output n; hh := hh n; timer := timer n |}.

Definition set_flags (n : neighbour) (v : Z) : neighbour :=
  {| n_addr := n_addr n; primary_key := primary_key n; dev := dev n;
     ha := ha n; nud_state := nud_state n; flags := v; refcnt := refcnt n;
     dead := dead n; used := used n; confirmed := confirmed n;
     updated := updated n; arp_queue := arp_queue n; probes := probes n;
     parms := parms n; output := output n; hh := hh n; timer := timer n |}.

Definition set_refcnt (n : neighbour) (v : Z) : neighbour :=
  {| n_addr := n_addr n; primary_key := primary_key n; dev := dev n;
     ha := ha n; nud_state := nud_state n; flags := flags n; refcnt := v;
     dead := dead n; used := used n; confirmed := confirmed n;
     updated := updated n; arp_queue := arp_queue n; probes := probes n;
     parms := parms n; output := output n; hh := hh n; timer := timer n |}.

Definition set_dead (n : neighbour) (v : Z) : neighbour :=
  {| n_addr := n_addr n; primary_key := primary_key n; dev := dev n;
     ha := ha n; nud_state := nud_state n; flags := flags n;
     refcnt := refcnt n; dead := v; used := used n;
     confirmed := confirmed n; updated := updated n;
     arp_queue := arp_queue n; probes := probes n; parms := parms n;
     output := output n; hh := hh n; timer := timer n |}.

Definition set_used (n : neighbour) (v : Z) : neighbour :=
  {| n_addr := n_addr n; primary_key := primary_key n; dev := dev n;
     ha := ha n; nud_state := nud_state n; flags := flags n;
     refcnt := refcnt n; dead := dead n; used := v;
     confirmed := confirmed n; updated := updated n;
     arp_queue := arp_queue n; probes := probes n; parms := parms n;
     output := output n; hh := hh n; timer := timer n |}.

Definition set_confirmed (n : neighbour) (v : Z) : neighbour :=
  {| n_addr := n_addr n; primary_key := primary_key n; dev := dev n;
     ha := ha n; nud_state := nud_state n; flags := flags n;
     refcnt := refcnt n; dead := dead n; used := used n; confirmed := v;
     updated := updated n; arp_queue := arp_queue n; probes := probes n;
     parms := parms n; output := output n; hh := hh n; timer := timer n |}.

Definition set_updated (n : neighbour) (v : Z) : neighbour :=
  {| n_addr := n_addr n; primary_key := primary_key n; dev := dev n;
     ha := ha n; nud_state := nud_state n; flags := flags n;
     refcnt := refcnt n; dead := dead n; used := used n;
     confirmed := confirmed n; updated := v; arp_queue := arp_queue n;
     probes := probes n; parms := parms n; output := output n;
     hh := hh n; timer := timer n |}.

Definition set_arp_queue (n : neighbour) (v : list sk_buff) : neighbour :=
  {| n_addr := n_addr n; primary_key := primary_key n; dev := dev n;
     ha := ha n; nud_state := nud_state n; flags := flags n;
     refcnt := refcnt n; dead := dead n; used := used n;
     confirmed := confirmed n; updated := updated n; arp_queue := v;
     probes := probes n; parms := parms n; output := output n;
     hh := hh n; timer := timer n |}.

Definition set_probes (n : neighbour) (v : Z) : neighbour :=
  {| n_addr := n_addr n; primary_key := primary_key n; dev := dev n;
     ha := ha n; nud_state := nud_state n; flags := flags n;
     refcnt := refcnt n; dead := dead n; used := used n;
     confirmed := confirmed n; updated := updated n;
     arp_queue := arp_queue n; probes := v; parms := parms n;
     output := output n; hh := hh n; timer := timer n |}.

Definition set_output (n : neighbour) (v : output_fn) : neighbour :=
  {| n_addr := n_addr n; primary_key := primary_key n; dev := dev n;
     ha := ha n; nud_state := nud_state n; flags := flags n;
     refcnt := refcnt n; dead := dead n; used := used n;
     confirmed := confirmed n; updated := updated n;
     arp_queue := arp_queue n; probes := probes n; parms := parms n;
     output := v; hh := hh n; timer := timer n |}.

Definition set_hh (n : neighbour) (v : list hh_cache) : neighbour :=
  {| n_addr := n_addr n; primary_key := primary_key n; dev := dev n;
     ha := ha n; nud_state := nud_state n; flags := flags n;
     refcnt := refcnt n; dead := dead n; used := used n;
     confirmed := confirmed n; updated := updated n;
     arp_queue := arp_queue n; probes := probes n; parms := parms n;
     output := output n; hh := v; timer := timer n |}.

Definition set_timer (n : neighbour) (v : option Z) : neighbour :=
  {| n_addr := n_addr n; primary_key := primary_key n; dev := dev n;
     ha := ha n; nud_state := nud_state n; flags := flags n;
     refcnt := refcnt n; dead := dead n; used := used n;
     confirmed := confirmed n; updated := updated n;
     arp_queue := arp_queue n; probes := probes n; parms := parms n;
     output := output n; hh := hh n; timer := v |}.

Definition set_ha (n : neighbour) (v : list Z) : neighbour :=
  {| n_addr := n_addr n; primary_key := primary_key n; dev := dev n;
     ha := v; nud_state := nud_state n; flags := flags n;
     refcnt := refcnt n; dead := dead n; used := used n;
     confirmed := confirmed n; updated := updated n;
     arp_queue := arp_queue n; probes := probes n; parms := parms n;
     output := output n; hh := hh n; timer := timer n |}.

Definition set_primary_key (n : neighbour) (v : list Z) : neighbour :=
  {| n_addr := n_addr n; primary_key := v; dev := dev n;
     ha := ha n; nud_state := nud_state n; flags := flags n;
     refcnt := refcnt n; dead := dead n; used := used n;
     confirmed := confirmed n; updated := updated n;
     arp_queue := arp_queue n; probes := probes n; parms := parms n;
     output := output n; hh := hh n; timer := timer n |}.

Definition set_dev (n : neighbour) (v : net_device) : neighbour :=
  {| n_addr := n_addr n; primary_key := primary_key n; dev := v;
     ha := ha n; nud_state := nud_state n; flags := flags n;
     refcnt := refcnt n; dead := dead n; used := used n;
     confirmed := confirmed n; updated := updated n;
     arp_queue := arp_queue n; probes := probes n; parms := parms n;
     output := output n; hh := hh n; timer := timer n |}.

Definition set_hh_output (h : hh_cache) (v : output_fn) : hh_cache :=
  {| hh_type := hh_type h; hh_output := v; hh_data := hh_data h |}.

Definition set_hh_data (h : hh_cache) (v : list Z) : hh_cache :=
  {| hh_type := hh_type h; hh_output := hh_output h; hh_data := v |}.

(** ** Byte buffers and the packet queue *)

(** [memcmp(a, b, len) == 0]. *)
Definition memcmp_eq (a b : list Z) (len : Z) : bool :=
  bool_decide (take (Z.to_nat len) a = take (Z.to_nat len) b).

(** [memcpy(dst, src, len)]: the first [len] bytes of [dst] are
    replaced. *)
Definition memcpy (dst src : list Z) (len : Z) : list Z :=
  take (Z.to_nat len) src ++ drop (Z.to_nat len) dst.

(** Modelled from the spec: include/linux/skbuff.h is not among the
    sources.  The pending queue is "a bounded FIFO of packets" (section
    4.3): a list with the oldest packet first. *)
Definition skb_queue_len (q : list sk_buff) : Z := Z.of_nat (length q).

Definition __skb_dequeue (q : list sk_buff) : option sk_buff * list sk_buff :=
  match q with
  | [] => (None, [])
  | skb :: rest => (Some skb, rest)
  end.

Definition __skb_queue_tail (q : list sk_buff) (skb : sk_buff) : list sk_buff :=
  q ++ [skb].

Definition skb_peek (q : list sk_buff) : option sk_buff := head q.

(** [skb_queue_purge]: every queued packet is freed. *)
Definition skb_queue_purge (q : list sk_buff) : list event :=
  map Ev_kfree_skb q.

Section Neighbour.

Set Default Proof Using "Type".

(** Ticks per second and the width of [unsigned long]: both belong to
    the architecture. *)
Variable HZ : Z.
Variable BITS_PER_LONG : Z.

(** The protocol callbacks that run with the entry lock dropped.  Each
    may re-enter the cache for the same entry, so each returns the entry
    as the call leaves it.  [output_call n1 neigh skb] is the call
    [n1->output(skb)] made while [neigh] is being updated. *)
Variable error_report : neighbour -> sk_buff -> neighbour.
Variable solicit : neighbour -> option sk_buff -> neighbour.
Variable output_call : Z -> neighbour -> sk_buff -> neighbour.

Definition ulong (z : Z) : Z := wrap BITS_PER_LONG z.

(** Modelled from the spec: the jiffies comparisons of
    include/linux/jiffies.h, which is not among the sources ("has
    exceeded ... since last use", section 4.4): [time_after a b] is
    [(long)b - (long)a < 0]. *)
Definition time_after (a b : Z) : bool := swrap BITS_PER_LONG (b - a) <? 0.
Definition time_before (a b : Z) : bool := time_after b a.
Definition time_after_eq (a b : Z) : bool := 0 <=? swrap BITS_PER_LONG (a - b).
Definition time_before_eq (a b : Z) : bool := time_after_eq b a.

(** *** Reference counting and destruction *)

(** Modelled from the spec: [neigh_hold] of include/net/neighbour.h
    takes a reference (section 3, "reference-counted"). *)
Definition neigh_hold (n : neighbour) : neighbour :=
  set_refcnt n (refcnt n + 1).

(** The body of [neigh_destroy] once the timer has been dealt with:
    every cached header is redirected to the blackhole and dropped, the
    queue is purged and the entry is given back to the slab. *)
Definition neigh_destroy_tail (neigh : neighbour) : neighbour * list event :=
  (set_arp_queue (set_hh neigh []) [],
   skb_queue_purge (arp_queue neigh) ++ [Ev_kmem_cache_free (n_addr neigh)]).

(** [neigh_release] as [neigh_del_timer] calls it: the timer is no
    longer pending, so a destruction it triggers skips the timer. *)
Definition neigh_release_timer (n : neighbour) : neighbour * list event :=
  let n1 := set_refcnt n (refcnt n - 1) in
  if refcnt n1 =? 0 then
    if dead n1 =? 0 then (n1, [Ev_warning]) else neigh_destroy_tail n1
  else (n1, []).

Definition neigh_del_timer (n : neighbour) : neighbour * list event * Z :=
  if tst (nud_state n) NUD_IN_TIMER && bool_decide (timer n <> None) then
    let '(n1, tr) := neigh_release_timer (set_timer n None) in
    (n1, tr, 1)
  else (n, [], 0).

Definition neigh_destroy (neigh : neighbour) : neighbour * list event :=
  if dead neigh =? 0 then (neigh, [Ev_warning])
  else
    let '(n1, tr1, fired) := neigh_del_timer neigh in
    let '(n2, tr2) := neigh_destroy_tail n1 in
    (n2, tr1 ++ (if fired =? 0 then [] else [Ev_warning]) ++ tr2).

(** Modelled from the spec: [neigh_release] of include/net/neighbour.h
    drops a reference and destroys the entry with the last one (section
    4.1, "Destruction"). *)
Definition neigh_release (n : neighbour) : neighbour * list event :=
  let n1 := set_refcnt n (refcnt n - 1) in
  if refcnt n1 =? 0 then neigh_destroy n1 else (n1, []).

(** *** The fast path *)

Definition neigh_suspect (neigh : neighbour) : neighbour :=
  set_hh (set_output neigh fn_ops_output)
         (map (fun h => set_hh_output h fn_ops_output) (hh neigh)).

Definition neigh_connect (neigh : neighbour) : neighbour :=
  set_hh (set_output neigh fn_ops_connected_output)
         (map (fun h => set_hh_output h fn_ops_hh_output) (hh neigh)).

(** *** The per-entry timer *)

Definition neigh_max_probes (n : neighbour) : Z :=
  let p := parms n in
  if tst (nud_state n) NUD_PROBE then ucast_probes p
  else int_add (int_add (ucast_probes p) (app_probes p)) (mcast_probes p).

(** The state step of [neigh_timer_handler] (the [if (state &
    NUD_REACHABLE) ... else if (state & NUD_DELAY) ... else] cascade):
    the entry and the next expiry. *)
Definition timer_transition (neigh : neighbour) (state now : Z)
  : neighbour * Z :=
  let p := parms neigh in
  if tst state NUD_REACHABLE then
    if time_before_eq now (ulong (confirmed neigh + reachable_time p)) then
      (neigh, ulong (confirmed neigh + reachable_time p))
    else if time_before_eq now (ulong (used neigh + delay_probe_time p)) then
      (neigh_suspect (set_nud_state neigh NUD_DELAY),
       ulong (now + delay_probe_time p))
    else
      (neigh_suspect (set_nud_state neigh NUD_STALE), ulong (now + HZ))
  else if tst state NUD_DELAY then
    if time_before_eq now (ulong (confirmed neigh + delay_probe_time p)) then
      (neigh_connect (set_nud_state neigh NUD_REACHABLE),
       ulong (confirmed neigh + reachable_time p))
    else
      (set_probes (set_nud_state neigh NUD_PROBE) 0,
       ulong (now + retrans_time p))
  else
    (neigh, ulong (now + retrans_time p)).

(** The loop [while (neigh->nud_state == NUD_FAILED && (skb =
    __skb_dequeue(&neigh->arp_queue)) != NULL)] with its call of
    [error_report]; [None] when the fuel runs out. *)
Fixpoint timer_report_loop (fuel : nat) (neigh : neighbour)
  : option (neighbour * list event) :=
  match fuel with
  | O => None
  | S fuel' =>
    if nud_state neigh =? NUD_FAILED then
      match __skb_dequeue (arp_queue neigh) with
      | (Some skb, rest) =>
        match timer_report_loop fuel'
                (error_report (set_arp_queue neigh rest) skb) with
        | Some (n', tr) => Some (n', Ev_error_report skb :: tr)
        | None => None
        end
      | (None, _) => Some (neigh, [])
      end
    else Some (neigh, [])
  end.

(** The probe-budget test and what follows it. *)
Definition timer_probe_failure (fuel : nat) (neigh : neighbour)
  : option (neighbour * list event) :=
  if tst (nud_state neigh) (Z.lor NUD_INCOMPLETE NUD_PROBE)
     && (neigh_max_probes neigh <=? probes neigh) then
    match timer_report_loop fuel (set_nud_state neigh NUD_FAILED) with
    | Some (n1, tr) =>
      Some (set_arp_queue n1 [], tr ++ skb_queue_purge (arp_queue n1))
    | None => None
    end
  else Some (neigh, []).

(** Re-arming: [if (neigh->nud_state & NUD_IN_TIMER)]. *)
Definition timer_rearm (neigh : neighbour) (next now : Z) : neighbour :=
  if tst (nud_state neigh) NUD_IN_TIMER then
    let next1 :=
      if time_before next (ulong (now + Z.quot HZ 2))
      then ulong (now + Z.quot HZ 2) else next in
    set_timer (neigh_hold neigh) (Some next1)
  else neigh.

(** Soliciting: [if (neigh->nud_state & (NUD_INCOMPLETE | NUD_PROBE))]. *)
Definition timer_solicit (neigh : neighbour) : neighbour * list event :=
  if tst (nud_state neigh) (Z.lor NUD_INCOMPLETE NUD_PROBE) then
    let skb := skb_peek (arp_queue neigh) in
    let n1 := solicit neigh skb in
    (set_probes n1 (int_add (probes n1) 1), [Ev_solicit skb])
  else (neigh, []).

(** [neigh_timer_handler]: the timer has fired, so it is no longer
    pending when the handler runs; [now] is [jiffies]. *)
Definition neigh_timer_handler (fuel : nat) (neigh : neighbour) (now : Z)
  : option (neighbour * list event) :=
  let neigh0 := set_timer neigh None in
  let state := nud_state neigh0 in
  if negb (tst state NUD_IN_TIMER) then
    let '(n', tr) := neigh_release neigh0 in Some (n', tr)
  else
    let '(n1, next) := timer_transition neigh0 state now in
    match timer_probe_failure fuel n1 with
    | None => None
    | Some (n2, tr2) =>
      let n3 := timer_rearm n2 next now in
      let '(n4, tr4) := timer_solicit n3 in
      let '(n5, tr5) := neigh_release n4 in
      Some (n5, tr2 ++ tr4 ++ tr5)
    end.

(** *** The send path *)

(** [__neigh_event_send]: the entry, the trace and the return code.
    [skb] is [None] for a NULL packet. *)
Definition __neigh_event_send (neigh : neighbour) (skb : option sk_buff)
                              (now : Z) : neighbour * list event * Z :=
  let p := parms neigh in
  if tst (nud_state neigh) (Z.lor NUD_CONNECTED (Z.lor NUD_DELAY NUD_PROBE))
  then (neigh, [], 0)
  else
    let started :=
      if negb (tst (nud_state neigh) (Z.lor NUD_STALE NUD_INCOMPLETE)) then
        if negb (int_add (mcast_probes p) (app_probes p) =? 0) then
          Some (set_timer
                  (neigh_hold
                     (set_nud_state (set_probes neigh (ucast_probes p))
                                    NUD_INCOMPLETE))
                  (Some (ulong (now + 1))))
        else None
      else if tst (nud_state neigh) NUD_STALE then
        Some (set_timer (set_nud_state (neigh_hold neigh) NUD_DELAY)
                        (Some (ulong (now + delay_probe_time p))))
      else Some neigh in
    match started with
    | None =>
      (set_nud_state neigh NUD_FAILED,
       match skb with Some s => [Ev_kfree_skb s] | None => [] end,
       1)
    | Some n1 =>
      if nud_state n1 =? NUD_INCOMPLETE then
        match skb with
        | Some s =>
          if u32 (queue_len (parms n1)) <=? skb_queue_len (arp_queue n1) then
            (* buff = neigh->arp_queue.next; on an empty queue that is
               the queue head itself *)
            match arp_queue n1 with
            | buff :: rest =>
              (set_arp_queue n1 (__skb_queue_tail rest s),
               [Ev_kfree_skb buff], 1)
            | [] =>
              (set_arp_queue n1 (__skb_queue_tail [] s),
               [Ev_kfree_queue_head], 1)
            end
          else (set_arp_queue n1 (__skb_queue_tail (arp_queue n1) s), [], 1)
        | None => (n1, [], 1)
        end
      else (n1, [], 0)
    end.

(** *** The update from the protocol layer *)

(** What the local pointer [lladdr] of [neigh_update] designates once it
    has been compared with the cached address: [neigh->ha] itself, or
    the caller's buffer. *)
Inductive lladdr_ptr :=
| Ll_ha
| Ll_new (a : list Z).

Definition is_ha (l : lladdr_ptr) : bool :=
  match l with Ll_ha => true | Ll_new _ => false end.

Definition neigh_update_hhs (neigh : neighbour) : neighbour :=
  if header_cache_update (dev neigh) then
    set_hh neigh (map (fun h => set_hh_data h (ha neigh)) (hh neigh))
  else neigh.

(** The entry whose [output] transmits a dequeued packet: [neigh], or
    [skb->dst->neighbour] when the packet has one. *)
Definition xmit_target (neigh : neighbour) (skb : sk_buff) : Z :=
  if skb_dst_neighbour skb =? 0 then n_addr neigh
  else skb_dst_neighbour skb.

(** The loop [while (neigh->nud_state & NUD_VALID && (skb =
    __skb_dequeue(&neigh->arp_queue)) != NULL)] with its call of
    [n1->output]; [None] when the fuel runs out. *)
Fixpoint update_xmit_loop (fuel : nat) (neigh : neighbour)
  : option (neighbour * list event) :=
  match fuel with
  | O => None
  | S fuel' =>
    if tst (nud_state neigh) NUD_VALID then
      match __skb_dequeue (arp_queue neigh) with
      | (Some skb, rest) =>
        let n1 := xmit_target neigh skb in
        match update_xmit_loop fuel'
                (output_call n1 (set_arp_queue neigh rest) skb) with
        | Some (n', tr) => Some (n', Ev_output n1 skb :: tr)
        | None => None
        end
      | (None, _) => Some (neigh, [])
      end
    else Some (neigh, [])
  end.

(** The label [out:] of [neigh_update]. *)
Definition update_out (neigh : neighbour) (update_isrouter flgs : Z)
  : neighbour :=
  if update_isrouter =? 0 then neigh
  else
    set_flags neigh
      (if tst flgs NEIGH_UPDATE_F_ISROUTER
       then u8 (Z.lor (flags neigh) NTF_ROUTER)
       else u8 (Z.land (flags neigh) (Z.lnot NTF_ROUTER))).

(** The comparison of the proposed address with the cached one; [None]
    when the request is discarded with [-EINVAL]. *)
Definition update_compare (neigh : neighbour) (lladdr : option (list Z))
  : option lladdr_ptr :=
  let d := dev neigh in
  let old := nud_state neigh in
  if addr_len d =? 0 then Some Ll_ha
  else
    match lladdr with
    | Some a =>
      if tst old NUD_VALID && memcmp_eq a (ha neigh) (addr_len d)
      then Some Ll_ha else Some (Ll_new a)
    | None => if negb (tst old NUD_VALID) then None else Some Ll_ha
    end.

(** The override policy ([if (old & NUD_VALID) ...]): the address, the
    new state and [update_isrouter] to go on with, or [None] for the
    [goto out] that gives the update up. *)
Definition update_override (old new flgs update_isrouter : Z)
                           (ll : lladdr_ptr)
  : option (lladdr_ptr * Z * Z) :=
  if tst old NUD_VALID then
    if negb (is_ha ll) && negb (tst flgs NEIGH_UPDATE_F_OVERRIDE) then
      if tst flgs NEIGH_UPDATE_F_WEAK_OVERRIDE && tst old NUD_CONNECTED
      then Some (Ll_ha, NUD_STALE, 0)
      else None
    else
      if is_ha ll && (new =? NUD_STALE)
         && (tst flgs NEIGH_UPDATE_F_WEAK_OVERRIDE || tst old NUD_CONNECTED)
      then Some (ll, old, update_isrouter)
      else Some (ll, new, update_isrouter)
  else Some (ll, new, update_isrouter).

(** [neigh_update]: the entry, the trace and the return code; [new] is
    a [u8], [flgs] a [u32], [lladdr] is [None] for a NULL pointer. *)
Definition neigh_update (fuel : nat) (neigh : neighbour)
                        (lladdr : option (list Z)) (new flgs now : Z)
  : option (neighbour * list event * Z) :=
  let d := dev neigh in
  let old := nud_state neigh in
  if negb (tst flgs NEIGH_UPDATE_F_ADMIN)
     && tst old (Z.lor NUD_NOARP NUD_PERMANENT)
  then Some (neigh, [], - EPERM)
  else if negb (tst new NUD_VALID) then
    let '(n1, tr1, _) := neigh_del_timer neigh in
    let n2 := if tst old NUD_CONNECTED then neigh_suspect n1 else n1 in
    Some (set_nud_state n2 new, tr1, 0)
  else
    match update_compare neigh lladdr with
    | None => Some (neigh, [], - EINVAL)
    | Some ll =>
      let n1 := if tst new NUD_CONNECTED then set_confirmed neigh now
                else neigh in
      let n2 := set_updated n1 now in
      match update_override old new flgs
              (Z.land flgs NEIGH_UPDATE_F_OVERRIDE_ISROUTER) ll with
      | None => Some (n2, [], 0)
      | Some (ll1, new1, uir) =>
        let '(n3, tr3) :=
          if negb (new1 =? old) then
            let '(m, tr, _) := neigh_del_timer n2 in
            let m1 :=
              if tst new1 NUD_IN_TIMER then
                set_timer (neigh_hold m)
                  (Some (ulong (now + (if tst new1 NUD_REACHABLE
                                       then reachable_time (parms m)
                                       else 0))))
              else m in
            (set_nud_state m1 new1, tr)
          else (n2, []) in
        let n4 :=
          match ll1 with
          | Ll_ha => n3
          | Ll_new a =>
            let m := neigh_update_hhs
                       (set_ha n3 (memcpy (ha n3) a (addr_len d))) in
            if negb (tst new1 NUD_CONNECTED) then
              set_confirmed m
                (ulong (now - s32 (Z.shiftl (base_reachable_time (parms m)) 1)))
            else m
          end in
        if new1 =? old then Some (update_out n4 uir flgs, tr3, 0)
        else
          let n5 := if tst new1 NUD_CONNECTED then neigh_connect n4
                    else neigh_suspect n4 in
          if negb (tst old NUD_VALID) then
            match update_xmit_loop fuel n5 with
            | None => None
            | Some (n6, tr6) =>
              Some (update_out (set_arp_queue n6 []) uir flgs,
                    tr3 ++ tr6 ++ skb_queue_purge (arp_queue n6), 0)
            end
          else Some (update_out n5 uir flgs, tr3, 0)
      end
    end.

(** *** The table *)

(** What a creation hands back: the entry (its address) or
    [ERR_PTR(err)]. *)
Inductive neigh_ptr :=
| Neigh (a : Z)
| ERR_PTR (err : Z).

(** [struct neigh_table].  A bucket is the chain of the entries linked
    in it, head first.  [hash] reads the [key_len] bytes of the key and
    the device pointer.  [parms_neigh_setup] is the hook
    [n->parms->neigh_setup]; like [constructor] it reports an error code
    and leaves the entry as it set it up.  [tbl_parms] is the table's
    own parameter block and [parms_next] the blocks linked behind it
    ([tbl->parms.next] and on). *)
Record neigh_table := {
  key_len : Z;
  hash : list Z -> Z -> Z;
  constructor : option (neighbour -> Z * neighbour);
  parms_neigh_setup : option (neighbour -> Z * neighbour);
  pconstructor : option (pneigh_entry -> Z);
  tbl_parms : neigh_parms;
  parms_next : list neigh_parms;
  gc_interval : Z;
  gc_thresh2 : Z;
  gc_thresh3 : Z;
  last_flush : Z;
  last_rand : Z;
  entries : Z;
  hash_buckets : list (list neighbour);
  phash_buckets : list (list pneigh_entry)
}.

Definition set_hash_buckets (t : neigh_table) (v : list (list neighbour))
  : neigh_table :=
  {| key_len := key_len t; hash := hash t; constructor := constructor t;
     parms_neigh_setup := parms_neigh_setup t;
     pconstructor := pconstructor t; tbl_parms := tbl_parms t;
     parms_next := parms_next t; gc_interval := gc_interval t;
     gc_thresh2 := gc_thresh2 t; gc_thresh3 := gc_thresh3 t;
     last_flush := last_flush t; last_rand := last_rand t;
     entries := entries t;
     hash_buckets := v; phash_buckets := phash_buckets t |}.

Definition set_phash_buckets (t : neigh_table)
                             (v : list (list pneigh_entry)) : neigh_table :=
  {| key_len := key_len t; hash := hash t; constructor := constructor t;
     parms_neigh_setup := parms_neigh_setup t;
     pconstructor := pconstructor t; tbl_parms := tbl_parms t;
     parms_next := parms_next t; gc_interval := gc_interval t;
     gc_thresh2 := gc_thresh2 t; gc_thresh3 := gc_thresh3 t;
     last_flush := last_flush t; last_rand := last_rand t;
     entries := entries t;
     hash_buckets := hash_buckets t; phash_buckets := v |}.

Definition set_entries (t : neigh_table) (v : Z) : neigh_table :=
  {| key_len := key_len t; hash := hash t; constructor := constructor t;
     parms_neigh_setup := parms_neigh_setup t;
     pconstructor := pconstructor t; tbl_parms := tbl_parms t;
     parms_next := parms_next t; gc_interval := gc_interval t;
     gc_thresh2 := gc_thresh2 t; gc_thresh3 := gc_thresh3 t;
     last_flush := last_flush t; last_rand := last_rand t; entries := v;
     hash_buckets := hash_buckets t; phash_buckets := phash_buckets t |}.

Definition set_last_flush (t : neigh_table) (v : Z) : neigh_table :=
  {| key_len := key_len t; hash := hash t; constructor := constructor t;
     parms_neigh_setup := parms_neigh_setup t;
     pconstructor := pconstructor t; tbl_parms := tbl_parms t;
     parms_next := parms_next t; gc_interval := gc_interval t;
     gc_thresh2 := gc_thresh2 t; gc_thresh3 := gc_thresh3 t;
     last_flush := v; last_rand := last_rand t; entries := entries t;
     hash_buckets := hash_buckets t; phash_buckets := phash_buckets t |}.

(** The parameter blocks, the buckets and [last_rand] after a refresh. *)
Definition set_refreshed (t : neigh_table) (p : neigh_parms)
                         (rest : list neigh_parms)
                         (buckets : list (list neighbour)) (now : Z)
  : neigh_table :=
  {| key_len := key_len t; hash := hash t; constructor := constructor t;
     parms_neigh_setup := parms_neigh_setup t;
     pconstructor := pconstructor t; tbl_parms := p;
     parms_next := rest; gc_interval := gc_interval t;
     gc_thresh2 := gc_thresh2 t; gc_thresh3 := gc_thresh3 t;
     last_flush := last_flush t; last_rand := now; entries := entries t;
     hash_buckets := buckets; phash_buckets := phash_buckets t |}.

(** Every entry the hash table links. *)
Definition linked (t : neigh_table) : list neighbour :=
  concat (hash_buckets t).

(** [neigh_destroy] ends with [neigh->tbl->entries--] and
    [kmem_cache_free]: the entries a trace has given back. *)
Fixpoint entries_freed (tr : list event) : Z :=
  match tr with
  | [] => 0
  | Ev_kmem_cache_free _ :: tr' => 1 + entries_freed tr'
  | _ :: tr' => entries_freed tr'
  end.

(** [neigh_release] on each unlinked entry, in the order of the walk. *)
Fixpoint release_all (gone : list neighbour) : list event :=
  match gone with
  | [] => []
  | n :: rest => snd (neigh_release n) ++ release_all rest
  end.

(** *** Forced garbage collection *)

(** The test under which [neigh_forced_gc] discards an entry. *)
Definition forced_gc_discard (n : neighbour) (now : Z) : bool :=
  (refcnt n =? 1)
  && negb (tst (nud_state n) NUD_PERMANENT)
  && (negb (nud_state n =? NUD_INCOMPLETE)
      || time_after now (ulong (used n + retrans_time (parms n)))).

(** The walk [while ((n = *np) != NULL)] over one chain: the chain that
    is left and the entries unlinked, each with [dead = 1]. *)
Fixpoint forced_gc_chain (chain : list neighbour) (now : Z)
  : list neighbour * list neighbour :=
  match chain with
  | [] => ([], [])
  | n :: rest =>
    let '(kept, gone) := forced_gc_chain rest now in
    if forced_gc_discard n now then (kept, set_dead n 1 :: gone)
    else (n :: kept, gone)
  end.

(** The entries [neigh_forced_gc] unlinks, bucket after bucket. *)
Definition forced_gc_unlinked (tbl : neigh_table) (now : Z)
  : list neighbour :=
  concat (map (fun chain => snd (forced_gc_chain chain now))
              (hash_buckets tbl)).

(** [neigh_forced_gc]: [shrunk], the table and the trace. *)
Definition neigh_forced_gc (tbl : neigh_table) (now : Z)
  : Z * neigh_table * list event :=
  let gone := forced_gc_unlinked tbl now in
  let tr := release_all gone in
  let buckets := map (fun chain => fst (forced_gc_chain chain now))
                     (hash_buckets tbl) in
  (match gone with [] => 0 | _ => 1 end,
   set_last_flush
     (set_entries (set_hash_buckets tbl buckets)
                  (entries tbl - entries_freed tr))
     now,
   tr).

(** *** Periodic garbage collection *)

(** One entry of the sweep of [neigh_periodic_timer]: [inl] the entry
    as it stays linked, [inr] the entry unlinked with [dead = 1]. *)
Definition periodic_visit (n : neighbour) (now : Z)
  : neighbour + neighbour :=
  let state := nud_state n in
  if tst state (Z.lor NUD_PERMANENT NUD_IN_TIMER) then inl n
  else
    let n1 := if time_before (used n) (confirmed n)
              then set_used n (confirmed n) else n in
    if (refcnt n1 =? 1)
       && ((state =? NUD_FAILED)
           || time_after now (ulong (used n1 + gc_staletime (parms n1))))
    then inr (set_dead n1 1)
    else inl n1.

Fixpoint periodic_chain (chain : list neighbour) (now : Z)
  : list neighbour * list neighbour :=
  match chain with
  | [] => ([], [])
  | n :: rest =>
    let '(kept, gone) := periodic_chain rest now in
    match periodic_visit n now with
    | inl n1 => (n1 :: kept, gone)
    | inr n1 => (kept, n1 :: gone)
    end
  end.

Definition periodic_unlinked (tbl : neigh_table) (now : Z)
  : list neighbour :=
  concat (map (fun chain => snd (periodic_chain chain now))
              (hash_buckets tbl)).

(** The sweep of [neigh_periodic_timer] over the buckets. *)
Definition periodic_sweep (tbl : neigh_table) (now : Z)
  : neigh_table * list event :=
  let tr := release_all (periodic_unlinked tbl now) in
  let buckets := map (fun chain => fst (periodic_chain chain now))
                     (hash_buckets tbl) in
  (set_entries (set_hash_buckets tbl buckets)
               (entries tbl - entries_freed tr),
   tr).

(** [neigh_rand_reach_time]: [base] is an [unsigned long], [rnd] is
    what [net_random()] returns; [None] is the division by a zero
    [base]. *)
Definition neigh_rand_reach_time (base rnd : Z) : option Z :=
  if base =? 0 then None
  else Some (ulong (rnd mod base + Z.shiftr base 1)).

(** [p->reachable_time = neigh_rand_reach_time(p->base_reachable_time)]
    for one block; both fields are [int]s.  [rnd] gives, by the address
    of the block, what [net_random()] returns when the block is
    refreshed. *)
Definition parms_refresh (rnd : Z -> Z) (p : neigh_parms)
  : option neigh_parms :=
  match neigh_rand_reach_time (ulong (base_reachable_time p))
                              (rnd (parms_ptr p)) with
  | Some r => Some (set_reachable_time p (s32 r))
  | None => None
  end.

(** The loop [for (p = &tbl->parms; p; p = p->next)] over the blocks
    behind the first. *)
Fixpoint parms_refresh_all (rnd : Z -> Z) (blocks : list neigh_parms)
  : option (list neigh_parms) :=
  match blocks with
  | [] => Some []
  | p :: rest =>
    match parms_refresh rnd p with
    | None => None
    | Some p1 =>
      match parms_refresh_all rnd rest with
      | None => None
      | Some rest1 => Some (p1 :: rest1)
      end
    end
  end.

(** An entry reads its block through [n->parms]: when the block is one
    of those refreshed, the entry reads the new [reachable_time]. *)
Definition parms_reread (blocks : list neigh_parms) (n : neighbour)
  : neighbour :=
  match List.find (fun b => parms_ptr b =? parms_ptr (parms n)) blocks with
  | Some b => set_parms n (set_reachable_time (parms n) (reachable_time b))
  | None => n
  end.

(** The refresh [neigh_periodic_timer] starts with, due when [now] is
    after [last_rand + 300 * HZ]. *)
Definition periodic_refresh (tbl : neigh_table) (rnd : Z -> Z) (now : Z)
  : option neigh_table :=
  if time_after now (ulong (last_rand tbl + 300 * HZ)) then
    match parms_refresh rnd (tbl_parms tbl) with
    | None => None
    | Some p =>
      match parms_refresh_all rnd (parms_next tbl) with
      | None => None
      | Some rest =>
        Some (set_refreshed tbl p rest
                (map (map (parms_reread (p :: rest))) (hash_buckets tbl))
                now)
      end
    end
  else Some tbl.

(** [neigh_periodic_timer]: the refresh, the sweep, and
    [mod_timer(&tbl->gc_timer, now + tbl->gc_interval)]; the table, the
    trace and the time the timer of the table is set to.  [None] is the
    division by zero in the refresh. *)
Definition neigh_periodic_timer (tbl : neigh_table) (rnd : Z -> Z)
                                (now : Z)
  : option (neigh_table * list event * Z) :=
  match periodic_refresh tbl rnd now with
  | None => None
  | Some tbl1 =>
    let '(tbl2, tr) := periodic_sweep tbl1 now in
    Some (tbl2, tr, ulong (now + gc_interval tbl1))
  end.

(** *** Device removal *)

(** [neigh_changeaddr] on one entry that is unlinked: [dead = 1], then
    [neigh_del_timer]. *)
Definition changeaddr_unlink (n : neighbour) : neighbour * list event :=
  let '(n1, tr, _) := neigh_del_timer (set_dead n 1) in (n1, tr).

(** [neigh_ifdown] on one entry that is unlinked: the timer is deleted,
    [dead = 1], and an entry somebody still uses is moved to a safe
    state. *)
Definition ifdown_unlink (n : neighbour) : neighbour * list event :=
  let '(n1, tr, _) := neigh_del_timer n in
  let n2 := set_dead n1 1 in
  if negb (refcnt n2 =? 1) then
    let n3 := set_output (set_arp_queue n2 []) fn_neigh_blackhole in
    (set_nud_state n3 (if tst (nud_state n3) NUD_VALID then NUD_NOARP
                       else NUD_NONE),
     tr ++ skb_queue_purge (arp_queue n2))
  else (n2, tr).

(** The walk both functions share: an entry of another device stays,
    every other one goes through [unlink] and [neigh_release].  [d] is
    the device pointer, 0 for NULL. *)
Fixpoint dev_chain (unlink : neighbour -> neighbour * list event)
                   (chain : list neighbour) (d : Z)
  : list neighbour * list event :=
  match chain with
  | [] => ([], [])
  | n :: rest =>
    let '(kept, tr) := dev_chain unlink rest d in
    if negb (d =? 0) && negb (dev_ptr (dev n) =? d) then (n :: kept, tr)
    else
      let '(n1, tr1) := unlink n in
      (kept, tr1 ++ snd (neigh_release n1) ++ tr)
  end.

Definition neigh_changeaddr (tbl : neigh_table) (d : Z)
  : neigh_table * list event :=
  let walked := map (fun chain => dev_chain changeaddr_unlink chain d)
                    (hash_buckets tbl) in
  let tr := concat (map snd walked) in
  (set_entries (set_hash_buckets tbl (map fst walked))
               (entries tbl - entries_freed tr),
   tr).

(** [pneigh_ifdown]: the proxy entries of the device (all of them for a
    NULL device) are unlinked and freed. *)
Fixpoint pneigh_ifdown_chain (chain : list pneigh_entry) (d : Z)
  : list pneigh_entry :=
  match chain with
  | [] => []
  | n :: rest =>
    if (d =? 0) || (pn_dev n =? d) then pneigh_ifdown_chain rest d
    else n :: pneigh_ifdown_chain rest d
  end.

Definition pneigh_ifdown (tbl : neigh_table) (d : Z) : neigh_table :=
  set_phash_buckets tbl
    (map (fun chain => pneigh_ifdown_chain chain d) (phash_buckets tbl)).

Definition neigh_ifdown (tbl : neigh_table) (d : Z)
  : neigh_table * list event :=
  let walked := map (fun chain => dev_chain ifdown_unlink chain d)
                    (hash_buckets tbl) in
  let tr := concat (map snd walked) in
  (pneigh_ifdown
     (set_entries (set_hash_buckets tbl (map fst walked))
                  (entries tbl - entries_freed tr)) d,
   tr).

(** *** Allocation, lookup and creation *)

Definition null_device : net_device :=
  {| dev_ptr := 0; addr_len := 0; header_cache_update := false |}.

(** The condition under which [neigh_alloc] runs the forced
    collection. *)
Definition alloc_gc_trigger (tbl : neigh_table) (now : Z) : bool :=
  (gc_thresh3 tbl <? entries tbl)
  || ((gc_thresh2 tbl <? entries tbl)
      && time_after now (ulong (last_flush tbl + 5 * HZ))).

(** [neigh_alloc]: [mem] is what [kmem_cache_alloc] returns, [None] for
    NULL. *)
Definition neigh_alloc (tbl : neigh_table) (now : Z) (mem : option Z)
  : option neighbour * neigh_table * list event :=
  let '(refused, tbl1, tr) :=
    if alloc_gc_trigger tbl now then
      let '(shrunk, t, tr) := neigh_forced_gc tbl now in
      ((shrunk =? 0) && (gc_thresh3 t <? entries t), t, tr)
    else (false, tbl, []) in
  if refused then (None, tbl1, tr)
  else
    match mem with
    | None => (None, tbl1, tr)
    | Some a =>
      (Some {| n_addr := a; primary_key := []; dev := null_device;
               ha := []; nud_state := NUD_NONE; flags := 0; refcnt := 1;
               dead := 1; used := now; confirmed := 0; updated := now;
               arp_queue := []; probes := 0; parms := tbl_parms tbl1;
               output := fn_neigh_blackhole; hh := []; timer := None |},
       set_entries tbl1 (entries tbl1 + 1), tr)
    end.

(** The key a [pkey] pointer designates: [key_len] bytes. *)
Definition key_of (tbl : neigh_table) (pkey : list Z) : list Z :=
  take (Z.to_nat (key_len tbl)) pkey.

(** [tbl->hash(pkey, dev) & NEIGH_HASHMASK] as a bucket index. *)
Definition hash_val (tbl : neigh_table) (pkey : list Z) (d : Z) : nat :=
  Z.to_nat (Z.land (hash tbl (key_of tbl pkey) d) NEIGH_HASHMASK).

(** [dev == n->dev && !memcmp(n->primary_key, pkey, key_len)]. *)
Definition neigh_match (tbl : neigh_table) (pkey : list Z) (d : Z)
                       (n : neighbour) : bool :=
  (d =? dev_ptr (dev n)) && memcmp_eq (primary_key n) pkey (key_len tbl).

(** The scan of a chain that [neigh_lookup] and [neigh_create] make:
    the first match, with the reference [neigh_hold] takes, and the
    chain with that entry held. *)
Fixpoint chain_find_hold (tbl : neigh_table) (pkey : list Z) (d : Z)
                         (chain : list neighbour)
  : option (neighbour * list neighbour) :=
  match chain with
  | [] => None
  | n :: rest =>
    if neigh_match tbl pkey d n then
      Some (neigh_hold n, neigh_hold n :: rest)
    else
      match chain_find_hold tbl pkey d rest with
      | Some (n1, rest1) => Some (n1, n :: rest1)
      | None => None
      end
  end.

Definition bucket (tbl : neigh_table) (i : nat) : list neighbour :=
  default [] (hash_buckets tbl !! i).

Definition neigh_lookup (tbl : neigh_table) (pkey : list Z) (d : Z)
  : option neighbour * neigh_table :=
  let h := hash_val tbl pkey d in
  match chain_find_hold tbl pkey d (bucket tbl h) with
  | Some (n, chain) =>
    (Some n, set_hash_buckets tbl (<[h := chain]> (hash_buckets tbl)))
  | None => (None, tbl)
  end.

(** A hook that may be absent: [if (f && (error = f(n)) < 0)]. *)
Definition run_setup (f : option (neighbour -> Z * neighbour))
                     (n : neighbour) : Z * neighbour :=
  match f with
  | Some g => g n
  | None => (0, n)
  end.

(** The labels [out_tbl_unlock] / [out_neigh_release]: the new entry is
    released, which destroys it and takes it off the entry count. *)
Definition create_release (tbl : neigh_table) (n : neighbour)
                          (tr : list event) : neigh_table * list event :=
  let tr1 := snd (neigh_release n) in
  (set_entries tbl (entries tbl - entries_freed tr1), tr ++ tr1).

(** The part of [neigh_create] that runs under the table write lock. *)
Definition create_link (tbl : neigh_table) (pkey : list Z)
                       (d : net_device) (n : neighbour) (tr : list event)
  : neigh_ptr * neigh_table * list event :=
  let h := hash_val tbl pkey (dev_ptr d) in
  if negb (parms_dead (parms n) =? 0) then
    let '(t, tr1) := create_release tbl n tr in (ERR_PTR (- EINVAL), t, tr1)
  else
    match chain_find_hold tbl pkey (dev_ptr d) (bucket tbl h) with
    | Some (n1, chain) =>
      let '(t, tr1) :=
        create_release
          (set_hash_buckets tbl (<[h := chain]> (hash_buckets tbl))) n tr in
      (Neigh (n_addr n1), t, tr1)
    | None =>
      let n2 := neigh_hold (set_dead n 0) in
      (Neigh (n_addr n2),
       set_hash_buckets tbl (<[h := n2 :: bucket tbl h]> (hash_buckets tbl)),
       tr)
    end.

(** [neigh_create]; [now] is [jiffies], [mem] what the slab returns. *)
Definition neigh_create (tbl : neigh_table) (pkey : list Z)
                        (d : net_device) (now : Z) (mem : option Z)
  : neigh_ptr * neigh_table * list event :=
  let '(on, tbl1, tr) := neigh_alloc tbl now mem in
  match on with
  | None => (ERR_PTR (- ENOBUFS), tbl1, tr)
  | Some n0 =>
    let n1 := set_dev (set_primary_key n0
                         (memcpy (primary_key n0) pkey (key_len tbl1))) d in
    let '(error, n2) := run_setup (constructor tbl1) n1 in
    if error <? 0 then
      let '(t, tr1) := create_release tbl1 n2 tr in (ERR_PTR error, t, tr1)
    else
      let '(error, n3) := run_setup (parms_neigh_setup tbl1) n2 in
      if error <? 0 then
        let '(t, tr1) := create_release tbl1 n3 tr in (ERR_PTR error, t, tr1)
      else
        let n4 :=
          set_confirmed n3
            (ulong (now - s32 (Z.shiftl (base_reachable_time (parms n3)) 1))) in
        create_link tbl1 pkey d n4 tr
  end.

(** *** The proxy table *)

(** The byte order in which a [u32] is read from four bytes belongs to
    the architecture. *)
Variable load_u32 : list Z -> Z.

(** The bucket of a proxy key: the last four bytes, folded. *)
Definition pneigh_hash (tbl : neigh_table) (pkey : list Z) : nat :=
  let h0 := load_u32 (take 4 (drop (Z.to_nat (key_len tbl - 4)) pkey)) in
  let h1 := Z.lxor h0 (Z.shiftr h0 16) in
  let h2 := Z.lxor h1 (Z.shiftr h1 8) in
  let h3 := Z.lxor h2 (Z.shiftr h2 4) in
  Z.to_nat (Z.land h3 PNEIGH_HASHMASK).

(** [!memcmp(n->key, pkey, key_len) && (n->dev == dev || !n->dev)]. *)
Definition pneigh_match (tbl : neigh_table) (pkey : list Z) (d : Z)
                        (n : pneigh_entry) : bool :=
  memcmp_eq (pn_key n) pkey (key_len tbl)
  && ((pn_dev n =? d) || (pn_dev n =? 0)).

Fixpoint pneigh_find (tbl : neigh_table) (pkey : list Z) (d : Z)
                     (chain : list pneigh_entry) : option pneigh_entry :=
  match chain with
  | [] => None
  | n :: rest =>
    if pneigh_match tbl pkey d n then Some n
    else pneigh_find tbl pkey d rest
  end.

Definition pbucket (tbl : neigh_table) (i : nat) : list pneigh_entry :=
  default [] (phash_buckets tbl !! i).

(** [pneigh_lookup]: [d] is the device pointer (0 for NULL), [mem] what
    [kmalloc] returns. *)
Definition pneigh_lookup (tbl : neigh_table) (pkey : list Z) (d : Z)
                         (creat : Z) (mem : option Z)
  : option pneigh_entry * neigh_table :=
  let h := pneigh_hash tbl pkey in
  match pneigh_find tbl pkey d (pbucket tbl h) with
  | Some n => (Some n, tbl)
  | None =>
    if creat =? 0 then (None, tbl)
    else
      match mem with
      | None => (None, tbl)
      | Some a =>
        let n := {| pn_addr := a;
                    pn_key := memcpy [] pkey (key_len tbl);
                    pn_dev := d |} in
        if match pconstructor tbl with
           | Some f => negb (f n =? 0)
           | None => false
           end
        then (None, tbl)
        else
          (Some n,
           set_phash_buckets tbl
             (<[h := n :: pbucket tbl h]> (phash_buckets tbl)))
      end
  end.

(** ** The drains as the specification words them *)

(** Section 4.2: a failed entry's queued packets are drained and
    error-reported "one at a time", the state being re-checked on each
    iteration.  [failed_drain n reported n'] holds when, starting from
    [n], the packets [reported] are taken off the queue oldest first and
    handed to [error_report], each while the entry is still FAILED, and
    [n'] is the entry when the drain stops. *)
Inductive failed_drain : neighbour -> list sk_buff -> neighbour -> Prop :=
| failed_drain_changed n :
    nud_state n <> NUD_FAILED -> failed_drain n [] n
| failed_drain_empty n :
    nud_state n = NUD_FAILED -> arp_queue n = [] -> failed_drain n [] n
| failed_drain_report n skb rest reported n' :
    nud_state n = NUD_FAILED ->
    arp_queue n = skb :: rest ->
    failed_drain (error_report (set_arp_queue n rest) skb) reported n' ->
    failed_drain n (skb :: reported) n'.

(** Sections 4.2 and 5: once an entry becomes valid its queued packets
    are "drained and transmitted in FIFO (enqueue) order".
    [valid_drain n sent n'] holds when, starting from [n], the packets
    of [sent] are taken off the queue oldest first and transmitted, each
    through the entry paired with it and while [n] is still valid. *)
Inductive valid_drain
  : neighbour -> list (Z * sk_buff) -> neighbour -> Prop :=
| valid_drain_invalid n :
    tst (nud_state n) NUD_VALID = false -> valid_drain n [] n
| valid_drain_empty n :
    tst (nud_state n) NUD_VALID = true -> arp_queue n = [] ->
    valid_drain n [] n
| valid_drain_xmit n skb rest sent n' :
    tst (nud_state n) NUD_VALID = true ->
    arp_queue n = skb :: rest ->
    valid_drain (output_call (xmit_target n skb) (set_arp_queue n rest) skb)
                sent n' ->
    valid_drain n ((xmit_target n skb, skb) :: sent) n'.

(** ** The queue bound *)

(** An entry's pending queue is within its configured limit, the limit
    being a positive [int]. *)
Definition queue_ok (n : neighbour) : Prop :=
  0 < queue_len (parms n) < 2 ^ 31 /\
  skb_queue_len (arp_queue n) <= queue_len (parms n).

(** ** The uniqueness invariant *)

(** What identifies an entry in its table: the [key_len] bytes of its
    key and its device. *)
Definition key_dev (tbl : neigh_table) (n : neighbour) : list Z * Z :=
  (key_of tbl (primary_key n), dev_ptr (dev n)).

(** A chain of bucket [i] is in order when no two of its entries have
    the same key and device, and each entry is alive, counts the
    table's reference and hashes to [i]. *)
Definition chain_ok (tbl : neigh_table) (i : nat) (chain : list neighbour)
  : Prop :=
  NoDup (map (key_dev tbl) chain) /\
  Forall (fun n => dead n = 0 /\ 1 <= refcnt n /\
                   hash_val tbl (primary_key n) (dev_ptr (dev n)) = i) chain.

(** A protocol or device hook sets an entry up without touching its
    key, its device or its reference count. *)
Definition hook_ok (f : option (neighbour -> Z * neighbour)) : Prop :=
  forall g n, f = Some g ->
    primary_key (snd (g n)) = primary_key n /\
    dev (snd (g n)) = dev n /\
    refcnt (snd (g n)) = refcnt n.


Definition tbl_ok (tbl : neigh_table) : Prop :=
  length (hash_buckets tbl) = Z.to_nat (NEIGH_HASHMASK + 1) /\
  hook_ok (constructor tbl) /\
  hook_ok (parms_neigh_setup tbl) /\
  forall i chain, hash_buckets tbl !! i = Some chain -> chain_ok tbl i chain.

(** The live entries the table links for a key and a device. *)
Definition live_matches (tbl : neigh_table) (pkey : list Z) (d : Z)
  : list neighbour :=
  List.filter (fun n => neigh_match tbl pkey d n && (dead n =? 0))
              (linked tbl).

(** An operation on a linked entry keeps its identity: key, device and
    dead flag stay, and the table's reference is still counted. *)
Definition entry_kept (n n' : neighbour) : Prop :=
  primary_key n' = primary_key n /\ dev n' = dev n /\ dead n' = dead n /\
  (1 <= refcnt n -> 1 <= refcnt n').

(** [entry_held k n n']: an operation kept the identity of the entry
    and dropped at most [k] of its references. *)
Definition entry_held (k : Z) (n n' : neighbour) : Prop :=
  primary_key n' = primary_key n /\ dev n' = dev n /\ dead n' = dead n /\
  refcnt n - k <= refcnt n'.

(** [chain_shrink c c']: the chain [c'] is what is left of [c] when some
    entries are unlinked and the others keep their identity. *)
Inductive chain_shrink : list neighbour -> list neighbour -> Prop :=
| shrink_nil : chain_shrink [] []
| shrink_drop n c c' : chain_shrink c c' -> chain_shrink (n :: c) c'
| shrink_keep n n' c c' :
    entry_kept n n' -> chain_shrink c c' -> chain_shrink (n :: c) (n' :: c').

(** What can happen to a table: a creation, a lookup, a collection, the
    removal of a device, or an operation on one linked entry (the send
    path, the timer, an update, a caller taking or dropping a
    reference). *)
Inductive tbl_step : neigh_table -> neigh_table -> Prop :=
| step_create tbl pkey d now mem :
    tbl_step tbl (snd (fst (neigh_create tbl pkey d now mem)))
| step_lookup tbl pkey d :
    tbl_step tbl (snd (neigh_lookup tbl pkey d))
| step_forced_gc tbl now :
    tbl_step tbl (snd (fst (neigh_forced_gc tbl now)))
| step_periodic tbl rnd now tbl' tr expires :
    neigh_periodic_timer tbl rnd now = Some (tbl', tr, expires) ->
    tbl_step tbl tbl'
| step_ifdown tbl d :
    tbl_step tbl (fst (neigh_ifdown tbl d))
| step_changeaddr tbl d :
    tbl_step tbl (fst (neigh_changeaddr tbl d))
| step_entry tbl i chain k n n' :
    hash_buckets tbl !! i = Some chain ->
    chain !! k = Some n ->
    entry_kept n n' ->
    tbl_step tbl
      (set_hash_buckets tbl (<[i := <[k := n']> chain]> (hash_buckets tbl))).


(** ** Sample data *)

(** A parameter block with the given queue limit and probe counts. *)
Definition sample_parms (qlen ucast app mcast : Z) : neigh_parms :=
  {| parms_ptr := 0x8000;
     base_reachable_time := 3000; retrans_time := 100; gc_staletime := 6000;
     reachable_time := 3000; delay_probe_time := 500; queue_len := qlen;
     ucast_probes := ucast; app_probes := app; mcast_probes := mcast;
     parms_dead := 0 |}.

Definition sample_dev : net_device :=
  {| dev_ptr := 0x1000; addr_len := 6; header_cache_update := true |}.

(** Packet number [i], with no route attached. *)
Definition pkt (i : Z) : sk_buff := {| skb_id := i; skb_dst_neighbour := 0 |}.

(** A linked entry at address [a] with key [key], in state [state],
    with [refs] references and the queue [q]. *)
Definition sample_neigh (a : Z) (key : list Z) (state refs : Z)
                        (q : list sk_buff) (p : neigh_parms) : neighbour :=
  {| n_addr := a; primary_key := key; dev := sample_dev;
     ha := [0; 1; 2; 3; 4; 5]; nud_state := state; flags := 0;
     refcnt := refs; dead := 0; used := 0; confirmed := 0; updated := 0;
     arp_queue := q; probes := 0; parms := p; output := fn_ops_output;
     hh := []; timer := None |}.

(** A hash on the last byte of the key. *)
Definition sample_hash (key : list Z) (d : Z) : Z := List.last key 0.

(** A table for four-byte keys with the given thresholds, entry count
    and buckets; no protocol hooks. *)
Definition sample_tbl (thresh2 thresh3 count : Z)
                      (buckets : list (list neighbour)) : neigh_table :=
  {| key_len := 4; hash := sample_hash; constructor := None;
     parms_neigh_setup := None; pconstructor := None;
     tbl_parms := sample_parms 3 3 0 3; parms_next := [];
     gc_interval := 3000;
     gc_thresh2 := thresh2; gc_thresh3 := thresh3; last_flush := 0;
     last_rand := 0; entries := count; hash_buckets := buckets;
     phash_buckets := replicate 16 [] |}.

(** The bucket array of a table that links nothing. *)
Definition empty_buckets : list (list neighbour) := replicate 32 [].

(** Four bytes read least significant first. *)
Definition le32 (bytes : list Z) : Z :=
  fold_right (fun b acc => b + 256 * acc) 0 bytes.

(** A table of three linked entries with keys 10.0.0.1, 10.0.0.2 and
    10.0.0.3, each in the bucket of its key, the first with [refs1]
    references and state [state1], the others held by a caller. *)
Definition three_entries (refs1 state1 : Z) : list (list neighbour) :=
  <[1%nat := [sample_neigh 0x2001 [10; 0; 0; 1] state1 refs1 []
                (sample_parms 3 3 0 3)]]>
    (<[2%nat := [sample_neigh 0x2002 [10; 0; 0; 2] NUD_STALE 2 []
                   (sample_parms 3 3 0 3)]]>
       (<[3%nat := [sample_neigh 0x2003 [10; 0; 0; 3] NUD_REACHABLE 2 []
                      (sample_parms 3 3 0 3)]]> empty_buckets)).

(** Sending the packets of [pkts] one after the other. *)
Fixpoint send_all (neigh : neighbour) (pkts : list sk_buff) (now : Z)
  : neighbour :=
  match pkts with
  | [] => neigh
  | p :: rest =>
    send_all (fst (fst (__neigh_event_send neigh (Some p) now))) rest now
  end.

(** A callback that does not touch the entry. *)
Definition cb_idle {A : Type} (n : neighbour) (_ : A) : neighbour := n.

(** ** Proof automation *)

(** Evaluates the bit tests on constant states. *)
Ltac tst_eval :=
  repeat match goal with
  | |- context [tst ?a ?b] =>
    let v := eval vm_compute in (tst a b) in
    match v with
    | true => change (tst a b) with true
    | false => change (tst a b) with false
    end
  end.


(** ** Further definitions: lookups *)

(** What a lookup does to a linked entry: the entry it finds gets the
    caller's reference. *)
Definition hold_match (tbl : neigh_table) (pkey : list Z) (d : Z)
                      (n : neighbour) : neighbour :=
  if neigh_match tbl pkey d n then neigh_hold n else n.

(** ** Further definitions: the timer's reference *)

(** The states an entry is given by the cache itself. *)
Definition nud_states : list Z :=
  [NUD_NONE; NUD_INCOMPLETE; NUD_REACHABLE; NUD_STALE; NUD_DELAY;
   NUD_PROBE; NUD_FAILED; NUD_NOARP; NUD_PERMANENT].

(** A pending timer belongs to an entry in a timer state. *)
Definition timer_ok (n : neighbour) : Prop :=
  timer n <> None -> tst (nud_state n) NUD_IN_TIMER = true.

(** The references an entry counts besides the one its pending timer
    holds. *)
Definition refs_held (n : neighbour) : Z :=
  refcnt n - match timer n with Some _ => 1 | None => 0 end.

(** ** Further definitions: what an update leaves alone *)

(** Two views of an entry with the same state, timer and reference
    count. *)
Definition same_trc (n n' : neighbour) : Prop :=
  nud_state n' = nud_state n /\ timer n' = timer n /\ refcnt n' = refcnt n.

(** An entry in a timer state has its timer pending. *)
Definition timer_armed (n : neighbour) : Prop :=
  tst (nud_state n) NUD_IN_TIMER = true -> timer n <> None.

(** ** Further definitions: the timer firing again and again *)

(** The expiry [neigh_timer_handler] re-arms the timer with: never
    sooner than half a second from now. *)
Definition timer_clamp (next now : Z) : Z :=
  if time_before next (ulong (now + Z.quot HZ 2))
  then ulong (now + Z.quot HZ 2) else next.

(** The timer of an entry firing at each of the times [nows], one
    firing after the other. *)
Fixpoint timer_fires (fuel : nat) (neigh : neighbour) (nows : list Z)
  : option (neighbour * list event) :=
  match nows with
  | [] => Some (neigh, [])
  | now :: rest =>
    match neigh_timer_handler fuel neigh now with
    | None => None
    | Some (n1, tr1) =>
      match timer_fires fuel n1 rest with
      | None => None
      | Some (n2, tr2) => Some (n2, tr1 ++ tr2)
      end
    end
  end.

(** ** Further definitions: what a collection gives back *)

(** What freeing one entry emits: its queued packets are freed, oldest
    first, then the entry itself. *)
Definition free_events (n : neighbour) : list event :=
  skb_queue_purge (arp_queue n) ++ [Ev_kmem_cache_free (n_addr n)].

(** No reference is held on the entry besides the table's and, when the
    timer is pending, the timer's. *)
Definition unreferenced (n : neighbour) : Prop :=
  timer_ok n /\ refs_held n = 1.

(** The entries of another device than [d]; none when [d] is NULL. *)
Definition other_dev (d : Z) (n : neighbour) : bool :=
  negb (d =? 0) && negb (dev_ptr (dev n) =? d).

Definition pother_dev (d : Z) (n : pneigh_entry) : bool :=
  negb ((d =? 0) || (pn_dev n =? d)).

(** The condition under which [neigh_periodic_timer] discards an entry:
    not PERMANENT, not in a timer state, referenced by the table only,
    and FAILED or not used (nor confirmed) for [gc_staletime]. *)
Definition periodic_discard (n : neighbour) (now : Z) : bool :=
  negb (tst (nud_state n) (Z.lor NUD_PERMANENT NUD_IN_TIMER))
  && (refcnt n =? 1)
  && ((nud_state n =? NUD_FAILED)
      || time_after now
           (ulong ((if time_before (used n) (confirmed n)
                    then confirmed n else used n)
                   + gc_staletime (parms n)))).

(** What the sweep does to an entry it looks at: [used] is moved up to
    [confirmed] when it is behind; PERMANENT entries and entries in a
    timer state are not looked at. *)
Definition periodic_fixup (n : neighbour) : neighbour :=
  if tst (nud_state n) (Z.lor NUD_PERMANENT NUD_IN_TIMER) then n
  else if time_before (used n) (confirmed n) then set_used n (confirmed n)
  else n.

(** What unlinking one entry emits: the events of [unlink], then those
    of the [neigh_release] that follows. *)
Definition unlink_events (unlink : neighbour -> neighbour * list event)
                         (n : neighbour) : list event :=
  snd (unlink n) ++ snd (neigh_release (fst (unlink n))).

(** ** Further definitions: deleting a proxy entry *)

(** Modelled from the spec: the "negative error code" of a missing
    entry (section 7), numbered as in include/asm-generic/errno-base.h. *)
Definition ENOENT : Z := 2.

(** What leaves the proxy table. *)
Inductive pevent :=
| Pev_pdestructor (n : pneigh_entry)
| Pev_kfree (n : pneigh_entry).

(** [!memcmp(n->key, pkey, key_len) && n->dev == dev]: the test of
    [pneigh_delete], which takes no NULL device for a wildcard. *)
Definition pneigh_exact (tbl : neigh_table) (pkey : list Z) (d : Z)
                        (n : pneigh_entry) : bool :=
  memcmp_eq (pn_key n) pkey (key_len tbl) && (pn_dev n =? d).

(** The walk of [pneigh_delete] over a chain: the first entry that
    passes the test, and the chain without it. *)
Fixpoint pneigh_unlink (tbl : neigh_table) (pkey : list Z) (d : Z)
                       (chain : list pneigh_entry)
  : option (pneigh_entry * list pneigh_entry) :=
  match chain with
  | [] => None
  | n :: rest =>
    if pneigh_exact tbl pkey d n then Some (n, rest)
    else
      match pneigh_unlink tbl pkey d rest with
      | Some (m, rest1) => Some (m, n :: rest1)
      | None => None
      end
  end.

(** [pneigh_delete]: the return code, the table and what was called.
    [pdestructor] tells whether the table's [pdestructor] pointer, which
    [neigh_table] does not carry, is set. *)
Definition pneigh_delete (pdestructor : bool) (tbl : neigh_table)
                         (pkey : list Z) (d : Z)
  : Z * neigh_table * list pevent :=
  let h := pneigh_hash tbl pkey in
  match pneigh_unlink tbl pkey d (pbucket tbl h) with
  | Some (n, chain) =>
    (0,
     set_phash_buckets tbl (<[h := chain]> (phash_buckets tbl)),
     (if pdestructor then [Pev_pdestructor n] else []) ++ [Pev_kfree n])
  | None => (- ENOENT, tbl, [])
  end.

(** What identifies a proxy entry: the [key_len] bytes of its key and
    its device. *)
Definition pkey_dev (tbl : neigh_table) (n : pneigh_entry) : list Z * Z :=
  (key_of tbl (pn_key n), pn_dev n).

(** The proxy table is in order when it has its sixteen buckets and no
    chain holds two entries with the same key and device. *)
Definition ptbl_ok (tbl : neigh_table) : Prop :=
  length (phash_buckets tbl) = Z.to_nat (PNEIGH_HASHMASK + 1) /\
  forall i chain, phash_buckets tbl !! i = Some chain ->
                  NoDup (map (pkey_dev tbl) chain).

(** A proxy table holding, in the bucket of 10.0.0.9, an entry for every
    device in front of an entry for the sample device. *)
Definition sample_ptbl : neigh_table :=
  let t := sample_tbl 8 16 0 empty_buckets in
  set_phash_buckets t
    (<[pneigh_hash t [10; 0; 0; 9] :=
         [ {| pn_addr := 0x7000; pn_key := [10; 0; 0; 9]; pn_dev := 0 |};
           {| pn_addr := 0x7100; pn_key := [10; 0; 0; 9];
              pn_dev := 0x1000 |} ]]>
       (phash_buckets t)).

(** ** Further definitions: the proxy queue *)

(** Modelled from the spec: the mark [pneigh_enqueue] leaves in
    [skb->stamp.tv_sec] of a packet it delays (section 4.5, "enqueued
    with a randomized delay"), valued as in include/net/neighbour.h. *)
Definition LOCALLY_ENQUEUED : Z := -2.

(** The part of a packet the proxy queue looks at: its device, its
    route ([skb->dst], 0 for NULL) and its time stamp. *)
Record psk_buff := {
  ps_id : Z;
  ps_dev : Z;
  ps_dst : Z;
  ps_stamp_sec : Z;
  ps_stamp_usec : Z
}.

(** The proxy queue of a table and its timer ([Some expires] while
    pending). *)
Record proxy_state := {
  proxy_queue : list psk_buff;
  proxy_timer : option Z
}.

(** What leaves the proxy queue. *)
Inductive proxy_event :=
| Px_kfree_skb (skb : psk_buff)
| Px_proxy_redo (skb : psk_buff)
| Px_dev_hold (d : Z)
| Px_dev_put (d : Z)
| Px_dst_release (dst : Z).

(** [pneigh_enqueue]: [proxy_delay] and [proxy_qlen] are the two fields
    of [p] it reads, [rnd] is what [net_random()] returns, [now] is
    [jiffies].  The model covers a positive [proxy_delay]: a zero one
    divides by zero, and what a negative one is converted to depends on
    the type of [net_random()], which is declared outside this file;
    both give [None].  [stamp.tv_usec] is a [long]. *)
Definition pneigh_enqueue (st : proxy_state) (proxy_delay proxy_qlen : Z)
                          (skb : psk_buff) (now rnd : Z)
  : option (proxy_state * list proxy_event) :=
  if proxy_delay <=? 0 then None
  else
    let sched_next := ulong (now + rnd mod proxy_delay) in
    if u32 proxy_qlen <? u32 (Z.of_nat (length (proxy_queue st))) then
      Some (st, [Px_kfree_skb skb])
    else
      let skb1 := {| ps_id := ps_id skb; ps_dev := ps_dev skb; ps_dst := 0;
                     ps_stamp_sec := LOCALLY_ENQUEUED;
                     ps_stamp_usec := swrap BITS_PER_LONG sched_next |} in
      let sched1 :=
        match proxy_timer st with
        | Some expires =>
          if time_before expires sched_next then expires else sched_next
        | None => sched_next
        end in
      Some ({| proxy_queue := proxy_queue st ++ [skb1];
               proxy_timer := Some sched1 |},
            [Px_dst_release (ps_dst skb); Px_dev_hold (ps_dev skb)]).

(** [long tdif = back->stamp.tv_usec - now]. *)
Definition proxy_tdif (skb : psk_buff) (now : Z) : Z :=
  swrap BITS_PER_LONG (ps_stamp_usec skb - now).

(** The walk of [neigh_proxy_process] over the queue: what stays
    queued, what is called, and [sched_next]. *)
Fixpoint proxy_walk (proxy_redo : bool) (running : Z -> bool)
                    (q : list psk_buff) (now sched_next : Z)
  : list psk_buff * list proxy_event * Z :=
  match q with
  | [] => ([], [], sched_next)
  | back :: rest =>
    let tdif := proxy_tdif back now in
    if tdif <=? 0 then
      let '(kept, tr, s) := proxy_walk proxy_redo running rest now sched_next in
      (kept,
       (if proxy_redo && running (ps_dev back)
        then Px_proxy_redo back else Px_kfree_skb back)
       :: Px_dev_put (ps_dev back) :: tr,
       s)
    else
      let s1 := if (sched_next =? 0) || (tdif <? sched_next)
                then tdif else sched_next in
      let '(kept, tr, s) := proxy_walk proxy_redo running rest now s1 in
      (back :: kept, tr, s)
  end.

(** [neigh_proxy_process]: the timer has fired; [now] is [jiffies] when
    the handler starts, [later] when it re-arms the timer.
    [proxy_redo] tells whether the table has a [proxy_redo] callback,
    [running] is [netif_running]. *)
Definition neigh_proxy_process (st : proxy_state) (proxy_redo : bool)
                               (running : Z -> bool) (now later : Z)
  : proxy_state * list proxy_event :=
  let '(kept, tr, sched_next) :=
    proxy_walk proxy_redo running (proxy_queue st) now 0 in
  ({| proxy_queue := kept;
      proxy_timer := if sched_next =? 0 then None
                     else Some (ulong (later + sched_next)) |},
   tr).

(** [pneigh_queue_purge]: every packet is dequeued, its device put and
    the packet freed. *)
Definition pneigh_queue_purge (q : list psk_buff) : list proxy_event :=
  concat (map (fun skb => [Px_dev_put (ps_dev skb); Px_kfree_skb skb]) q).

(** The packet as [pneigh_enqueue] queues it when it is to wait [k]
    ticks from [now]. *)
Definition proxy_stamped (skb : psk_buff) (now k : Z) : psk_buff :=
  {| ps_id := ps_id skb; ps_dev := ps_dev skb; ps_dst := 0;
     ps_stamp_sec := LOCALLY_ENQUEUED;
     ps_stamp_usec := swrap BITS_PER_LONG (ulong (now + k)) |}.

(** What [neigh_proxy_process] does with a packet that is due. *)
Definition proxy_deliver (proxy_redo : bool) (running : Z -> bool)
                         (skb : psk_buff) : list proxy_event :=
  [if proxy_redo && running (ps_dev skb)
   then Px_proxy_redo skb else Px_kfree_skb skb;
   Px_dev_put (ps_dev skb)].

(** References on device [d]: taken and dropped in a trace, and owned
    by the packets of a queue. *)
Definition dev_holds (d : Z) (tr : list proxy_event) : nat :=
  length (List.filter (fun e => match e with
                                | Px_dev_hold d' => d' =? d
                                | _ => false
                                end) tr).

Definition dev_puts (d : Z) (tr : list proxy_event) : nat :=
  length (List.filter (fun e => match e with
                                | Px_dev_put d' => d' =? d
                                | _ => false
                                end) tr).

Definition queued_on (d : Z) (q : list psk_buff) : nat :=
  length (List.filter (fun skb => ps_dev skb =? d) q).

(** A request received on the sample device, for the examples. *)
Definition sample_pskb (i : Z) : psk_buff :=
  {| ps_id := i; ps_dev := 0x1000; ps_dst := 0x9000;
     ps_stamp_sec := 0; ps_stamp_usec := 0 |}.

(** ** Further definitions: releasing entries under a callback *)

(** The walk of [__neigh_for_each_release] over one chain.  [cb] looks
    at an entry under its lock, may change it, and says whether to
    release it; an entry to release is unlinked with [dead = 1].  The
    result is the chain that is left and the entries unlinked. *)
Fixpoint for_each_release_chain (cb : neighbour -> Z * neighbour)
                                (chain : list neighbour)
  : list neighbour * list neighbour :=
  match chain with
  | [] => ([], [])
  | n :: rest =>
    let '(release, n1) := cb n in
    let '(kept, gone) := for_each_release_chain cb rest in
    if negb (release =? 0) then (kept, set_dead n1 1 :: gone)
    else (n1 :: kept, gone)
  end.

(** [__neigh_for_each_release]: [neigh_release] on each unlinked entry
    follows its unlinking; the table and the trace. *)
Definition __neigh_for_each_release (tbl : neigh_table)
                                    (cb : neighbour -> Z * neighbour)
  : neigh_table * list event :=
  let walked := map (for_each_release_chain cb) (hash_buckets tbl) in
  let tr := release_all (concat (map snd walked)) in
  (set_entries (set_hash_buckets tbl (map fst walked))
               (entries tbl - entries_freed tr),
   tr).

(** The test of [neigh_forced_gc] as a callback. *)
Definition forced_gc_cb (now : Z) (n : neighbour) : Z * neighbour :=
  (if forced_gc_discard n now then 1 else 0, n).

(** ** Further definitions: unloading a table *)

(** The last two statements of [neigh_ifdown], which act on the proxy
    queue: [del_timer_sync(&tbl->proxy_timer)] and
    [pneigh_queue_purge]. *)
Definition ifdown_proxy (st : proxy_state) : proxy_state * list proxy_event :=
  ({| proxy_queue := []; proxy_timer := None |},
   pneigh_queue_purge (proxy_queue st)).

(** The loop of [neigh_table_clear] over [neigh_tables], the registered
    tables by address: the first occurrence is unlinked. *)
Fixpoint tables_unlink (tables : list Z) (a : Z) : list Z :=
  match tables with
  | [] => []
  | t :: rest => if t =? a then rest else t :: tables_unlink rest a
  end.

(** What [neigh_table_clear] leaves: its return value, the table, its
    two timers and proxy queue, [neigh_tables], whether "neighbour
    leakage" was printed, and the traces. *)
Record clear_result := {
  cr_ret : Z;
  cr_tbl : neigh_table;
  cr_gc_timer : option Z;
  cr_proxy : proxy_state;
  cr_tables : list Z;
  cr_leak : bool;
  cr_events : list event;
  cr_pevents : list proxy_event
}.

(** [neigh_table_clear]; the table is at address [tbl_addr]. *)
Definition neigh_table_clear (tbl : neigh_table) (tbl_addr : Z)
                             (gc_timer : option Z) (st : proxy_state)
                             (neigh_tables : list Z) : clear_result :=
  let st1 := {| proxy_queue := proxy_queue st; proxy_timer := None |} in
  let tr1 := pneigh_queue_purge (proxy_queue st1) in
  let st2 := {| proxy_queue := []; proxy_timer := proxy_timer st1 |} in
  let '(tbl1, tr) := neigh_ifdown tbl 0 in
  let '(st3, tr2) := ifdown_proxy st2 in
  {| cr_ret := 0;
     cr_tbl := tbl1;
     cr_gc_timer := None;
     cr_proxy := st3;
     cr_tables := tables_unlink neigh_tables tbl_addr;
     cr_leak := negb (entries tbl1 =? 0);
     cr_events := tr;
     cr_pevents := tr1 ++ tr2 |}.

(** ** Further definitions: the entry count *)

(** The entries a table counts without linking them: those unlinked
    while somebody held them, which leave the count with their last
    reference. *)
Definition count_drift (tbl : neigh_table) : Z :=
  entries tbl - Z.of_nat (length (linked tbl)).

(** A protocol or device hook that leaves the dead flag of the entry it
    sets up alone. *)
Definition hook_alive (f : option (neighbour -> Z * neighbour)) : Prop :=
  forall g n, f = Some g -> dead (snd (g n)) = dead n.


(** ** Bit tests and machine integers *)

Lemma tst_lor x a b : tst x (Z.lor a b) = tst x a || tst x b.
Proof.
  unfold tst. rewrite Z.land_lor_distr_r.
  destruct (Z.eqb_spec (Z.land x a) 0) as [Ha|Ha];
    destruct (Z.eqb_spec (Z.land x b) 0) as [Hb|Hb]; simpl;
    destruct (Z.eqb_spec (Z.lor (Z.land x a) (Z.land x b)) 0) as [Hc|Hc];
    try reflexivity; exfalso.
  - apply Hc. rewrite Ha, Hb. reflexivity.
  - apply Z.lor_eq_0_iff in Hc as [_ Hc]. contradiction.
  - apply Z.lor_eq_0_iff in Hc as [Hc _]. contradiction.
  - apply Z.lor_eq_0_iff in Hc as [Hc _]. contradiction.
Qed.

Lemma u32_small z : 0 <= z < 2 ^ 32 -> u32 z = z.
Proof. intros H. unfold u32, wrap. apply Z.mod_small. exact H. Qed.

(** ** The send path *)

(** C4, as the code has it: on an entry that is in none of the states
    CONNECTED, DELAY, PROBE, STALE, INCOMPLETE, with [mcast_probes +
    app_probes] equal to zero, [__neigh_event_send] sets the state to
    FAILED, frees the packet with [kfree_skb] and returns 1; the packet
    is not handed to [error_report] and the queue is left alone. *)
Theorem event_send_zero_probes neigh s now :
  tst (nud_state neigh)
      (Z.lor NUD_CONNECTED (Z.lor NUD_DELAY (Z.lor NUD_PROBE
         (Z.lor NUD_STALE NUD_INCOMPLETE)))) = false ->
  int_add (mcast_probes (parms neigh)) (app_probes (parms neigh)) = 0 ->
  exists n',
    __neigh_event_send neigh (Some s) now = (n', [Ev_kfree_skb s], 1) /\
    nud_state n' = NUD_FAILED /\
    arp_queue n' = arp_queue neigh /\
    forall s', Ev_error_report s' ∉ [Ev_kfree_skb s].
Proof.
  intros Hst Hz.
  rewrite !tst_lor in Hst.
  apply orb_false_iff in Hst as [Hc Hst].
  apply orb_false_iff in Hst as [Hd Hst].
  apply orb_false_iff in Hst as [Hp Hst].
  apply orb_false_iff in Hst as [Hs Hi].
  unfold __neigh_event_send.
  rewrite !tst_lor, Hc, Hd, Hp, Hs, Hi. simpl.
  rewrite Hz. simpl.
  eexists. split; [reflexivity|]. split; [reflexivity|]. split; [reflexivity|].
  intros s' Hin. apply list_elem_of_singleton in Hin. discriminate.
Qed.

(** ** The queue bound across the entry's operations *)

Lemma queue_ok_frame n n' :
  arp_queue n' = arp_queue n -> parms n' = parms n ->
  queue_ok n -> queue_ok n'.
Proof. unfold queue_ok. intros -> ->. auto. Qed.

Lemma queue_ok_purged n n' :
  arp_queue n' = [] -> parms n' = parms n -> queue_ok n -> queue_ok n'.
Proof.
  unfold queue_ok, skb_queue_len. intros -> ->. simpl. intros [H _].
  split; [exact H|lia].
Qed.

Lemma queue_ok_dequeued n skb rest :
  arp_queue n = skb :: rest -> queue_ok n -> queue_ok (set_arp_queue n rest).
Proof.
  unfold queue_ok, skb_queue_len. simpl. intros -> [H Hb]. simpl in Hb.
  split; [exact H|lia].
Qed.

Lemma neigh_del_timer_queue_ok n :
  queue_ok n -> queue_ok (fst (fst (neigh_del_timer n))).
Proof.
  intros Hok. unfold neigh_del_timer, neigh_release_timer, neigh_destroy_tail.
  repeat (match goal with |- context [if ?c then _ else _] => destruct c end;
          simpl); try exact Hok;
    first [ apply (queue_ok_frame n); [reflexivity|reflexivity|exact Hok]
          | apply (queue_ok_purged n); [reflexivity|reflexivity|exact Hok] ].
Qed.

Lemma neigh_release_queue_ok n :
  queue_ok n -> queue_ok (fst (neigh_release n)).
Proof.
  intros Hok.
  unfold neigh_release, neigh_destroy, neigh_del_timer, neigh_release_timer,
    neigh_destroy_tail.
  repeat (match goal with |- context [if ?c then _ else _] => destruct c end;
          simpl); try exact Hok;
    first [ apply (queue_ok_frame n); [reflexivity|reflexivity|exact Hok]
          | apply (queue_ok_purged n); [reflexivity|reflexivity|exact Hok] ].
Qed.

Lemma event_send_queue_ok neigh skb now :
  queue_ok neigh -> queue_ok (fst (fst (__neigh_event_send neigh skb now))).
Proof.
  intros Hok. pose proof Hok as [Hq Hb].
  assert (Hu : u32 (queue_len (parms neigh)) = queue_len (parms neigh))
    by (apply u32_small; lia).
  unfold __neigh_event_send.
  destruct (tst (nud_state neigh)
              (Z.lor NUD_CONNECTED (Z.lor NUD_DELAY NUD_PROBE)));
    [exact Hok|].
  destruct (negb (tst (nud_state neigh) (Z.lor NUD_STALE NUD_INCOMPLETE))).
  - destruct (negb (int_add _ _ =? 0)); simpl;
      [|apply (queue_ok_frame neigh); auto].
    destruct skb as [s|]; [|apply (queue_ok_frame neigh); auto].
    rewrite Hu. unfold __skb_queue_tail, queue_ok, skb_queue_len in *.
    destruct (Z.leb_spec (queue_len (parms neigh))
                (Z.of_nat (length (arp_queue neigh)))).
    + destruct (arp_queue neigh) as [|b rest]; simpl in *; [lia|].
      rewrite length_app. simpl. split; [exact Hq|lia].
    + simpl. rewrite length_app. simpl. split; [exact Hq|lia].
  - destruct (tst (nud_state neigh) NUD_STALE); simpl;
      [apply (queue_ok_frame neigh); auto|].
    destruct (nud_state neigh =? NUD_INCOMPLETE); [|exact Hok].
    destruct skb as [s|]; [|exact Hok].
    rewrite Hu. unfold __skb_queue_tail, queue_ok, skb_queue_len in *.
    destruct (Z.leb_spec (queue_len (parms neigh))
                (Z.of_nat (length (arp_queue neigh)))).
    + destruct (arp_queue neigh) as [|b rest]; simpl in *; [lia|].
      rewrite length_app. simpl. split; [exact Hq|lia].
    + simpl. rewrite length_app. simpl. split; [exact Hq|lia].
Qed.

Lemma timer_report_loop_queue_ok :
  (forall m s, queue_ok m -> queue_ok (error_report m s)) ->
  forall fuel n n' tr,
    queue_ok n -> timer_report_loop fuel n = Some (n', tr) -> queue_ok n'.
Proof.
  intros Hcb fuel. induction fuel as [|fuel IH]; intros n n' tr Hok;
    [discriminate|].
  simpl. destruct (nud_state n =? NUD_FAILED); [|intros [= <- _]; exact Hok].
  destruct (arp_queue n) as [|skb rest] eqn:Hq; simpl;
    [intros [= <- _]; exact Hok|].
  destruct (timer_report_loop fuel (error_report (set_arp_queue n rest) skb))
    as [[m tr0]|] eqn:Hrun; [|discriminate].
  intros [= <- _]. eapply IH; [|exact Hrun].
  apply Hcb. eapply queue_ok_dequeued; eauto.
Qed.

Lemma update_xmit_loop_queue_ok :
  (forall t m s, queue_ok m -> queue_ok (output_call t m s)) ->
  forall fuel n n' tr,
    queue_ok n -> update_xmit_loop fuel n = Some (n', tr) -> queue_ok n'.
Proof.
  intros Hcb fuel. induction fuel as [|fuel IH]; intros n n' tr Hok;
    [discriminate|].
  simpl. destruct (tst (nud_state n) NUD_VALID); [|intros [= <- _]; exact Hok].
  destruct (arp_queue n) as [|skb rest] eqn:Hq; simpl;
    [intros [= <- _]; exact Hok|].
  destruct (update_xmit_loop fuel
              (output_call (xmit_target n skb) (set_arp_queue n rest) skb))
    as [[m tr0]|] eqn:Hrun; [|discriminate].
  intros [= <- _]. eapply IH; [|exact Hrun].
  apply Hcb. eapply queue_ok_dequeued; eauto.
Qed.

Lemma timer_handler_queue_ok fuel neigh now n' tr :
  (forall m s, queue_ok m -> queue_ok (error_report m s)) ->
  (forall m s, queue_ok m -> queue_ok (solicit m s)) ->
  queue_ok neigh ->
  neigh_timer_handler fuel neigh now = Some (n', tr) -> queue_ok n'.
Proof.
  intros Her Hso Hok. unfold neigh_timer_handler.
  assert (Hok0 : queue_ok (set_timer neigh None))
    by (apply (queue_ok_frame neigh); auto).
  destruct (negb (tst (nud_state (set_timer neigh None)) NUD_IN_TIMER)).
  { pose proof (neigh_release_queue_ok _ Hok0) as Hr.
    destruct (neigh_release (set_timer neigh None)) as [m tr0].
    intros [= <- _]. exact Hr. }
  destruct (timer_transition (set_timer neigh None)
              (nud_state (set_timer neigh None)) now) as [n1 next] eqn:Htr.
  assert (Hok1 : queue_ok n1).
  { unfold timer_transition in Htr.
    repeat match type of Htr with
           | (if ?c then _ else _) = _ => destruct c
           end; injection Htr as <- _;
      first [exact Hok0 | apply (queue_ok_frame neigh); auto]. }
  destruct (timer_probe_failure fuel n1) as [[n2 tr2]|] eqn:Hf; [|discriminate].
  assert (Hok2 : queue_ok n2).
  { unfold timer_probe_failure in Hf.
    destruct (_ && _); [|injection Hf as <- _; exact Hok1].
    destruct (timer_report_loop fuel (set_nud_state n1 NUD_FAILED))
      as [[m tr0]|] eqn:Hrun; [|discriminate].
    injection Hf as <- _.
    apply (queue_ok_purged m); auto.
    eapply timer_report_loop_queue_ok; [exact Her| |exact Hrun].
    apply (queue_ok_frame n1); auto. }
  assert (Hok3 : queue_ok (timer_rearm n2 next now)).
  { unfold timer_rearm. destruct (tst _ _); [|exact Hok2].
    apply (queue_ok_frame n2); auto. }
  destruct (timer_solicit (timer_rearm n2 next now)) as [n4 tr4] eqn:Hs.
  assert (Hok4 : queue_ok n4).
  { unfold timer_solicit in Hs.
    destruct (tst _ _); injection Hs as <- _; [|exact Hok3].
    eapply queue_ok_frame; [| |apply Hso; exact Hok3]; reflexivity. }
  pose proof (neigh_release_queue_ok _ Hok4) as Hr.
  destruct (neigh_release n4) as [n5 tr5].
  intros [= <- _]. exact Hr.
Qed.

Lemma update_out_queue_ok n uir flgs :
  queue_ok n -> queue_ok (update_out n uir flgs).
Proof.
  intros Hok. unfold update_out. destruct (uir =? 0); [exact Hok|].
  apply (queue_ok_frame n); auto.
Qed.

Lemma neigh_update_queue_ok fuel neigh lladdr new flgs now n' tr err :
  (forall t m s, queue_ok m -> queue_ok (output_call t m s)) ->
  queue_ok neigh ->
  neigh_update fuel neigh lladdr new flgs now = Some (n', tr, err) ->
  queue_ok n'.
Proof.
  intros Hcb Hok. unfold neigh_update.
  destruct (_ && _); [intros [= <- _ _]; exact Hok|].
  destruct (negb (tst new NUD_VALID)).
  { pose proof (neigh_del_timer_queue_ok _ Hok) as Hd.
    destruct (neigh_del_timer neigh) as [[m tr0] r]. simpl in Hd.
    intros [= <- _ _].
    destruct (tst (nud_state neigh) NUD_CONNECTED);
      apply (queue_ok_frame m); auto. }
  destruct (update_compare neigh lladdr) as [ll|];
    [|intros [= <- _ _]; exact Hok].
  set (n2 := set_updated _ now).
  assert (Hok2 : queue_ok n2).
  { subst n2. destruct (tst new NUD_CONNECTED);
      apply (queue_ok_frame neigh); auto. }
  destruct (update_override _ _ _ _ _) as [[[ll1 new1] uir]|];
    [|intros [= <- _ _]; exact Hok2].
  match goal with
  | |- (let '(n3, tr3) := ?e in _) = _ -> _ =>
    destruct e as [n3 tr3] eqn:H3
  end.
  assert (Hok3 : queue_ok n3).
  { destruct (negb (new1 =? nud_state neigh));
      [|injection H3 as <- _; exact Hok2].
    pose proof (neigh_del_timer_queue_ok _ Hok2) as Hd.
    destruct (neigh_del_timer n2) as [[m tr0] r]. simpl in Hd.
    injection H3 as <- _.
    destruct (tst new1 NUD_IN_TIMER); apply (queue_ok_frame m); auto. }
  match goal with
  | |- context [update_out ?x uir flgs] => set (n4 := x)
  end.
  assert (Hok4 : queue_ok n4).
  { subst n4. destruct ll1 as [|a]; [exact Hok3|].
    unfold neigh_update_hhs.
    destruct (negb (tst new1 NUD_CONNECTED));
      destruct (header_cache_update _);
      apply (queue_ok_frame n3); auto. }
  destruct (new1 =? nud_state neigh).
  { intros [= <- _ _]. apply update_out_queue_ok. exact Hok4. }
  match goal with
  | |- context [update_xmit_loop fuel ?x] => set (n5 := x)
  end.
  assert (Hok5 : queue_ok n5).
  { subst n5. destruct (tst new1 NUD_CONNECTED);
      apply (queue_ok_frame n4); auto. }
  destruct (negb (tst (nud_state neigh) NUD_VALID)).
  - destruct (update_xmit_loop fuel n5) as [[n6 tr6]|] eqn:Hrun;
      [|discriminate].
    intros [= <- _ _]. apply update_out_queue_ok.
    apply (queue_ok_purged n6); auto.
    eapply update_xmit_loop_queue_ok; eauto.
  - intros [= <- _ _]. apply update_out_queue_ok. exact Hok5.
Qed.

Lemma alloc_queue_ok tbl now mem n tbl' tr :
  0 < queue_len (tbl_parms tbl) < 2 ^ 31 ->
  neigh_alloc tbl now mem = (Some n, tbl', tr) -> queue_ok n.
Proof.
  intros Hq. unfold neigh_alloc.
  destruct (alloc_gc_trigger tbl now).
  - destruct (neigh_forced_gc tbl now) as [[shrunk t] tr0] eqn:Hgc.
    unfold neigh_forced_gc in Hgc. injection Hgc as _ <- _.
    match goal with
    | |- context [if ?c then _ else _] => destruct c
    end; [discriminate|].
    destruct mem as [a|]; [|discriminate].
    intros [= <- _ _]. unfold queue_ok, skb_queue_len. simpl.
    split; [exact Hq|lia].
  - destruct mem as [a|]; [|discriminate].
    intros [= <- _ _]. unfold queue_ok, skb_queue_len. simpl.
    split; [exact Hq|lia].
Qed.

(** What [__neigh_event_send] does to the queue when it queues: the
    entry is INCOMPLETE when the function returns exactly when the
    packet went onto the queue. *)
Lemma event_send_enqueue neigh s now n' tr rc :
  queue_ok neigh ->
  __neigh_event_send neigh (Some s) now = (n', tr, rc) ->
  nud_state n' = NUD_INCOMPLETE ->
  (queue_len (parms neigh) <= skb_queue_len (arp_queue neigh) ->
   exists oldest rest,
     arp_queue neigh = oldest :: rest /\
     arp_queue n' = rest ++ [s] /\
     tr = [Ev_kfree_skb oldest]) /\
  (skb_queue_len (arp_queue neigh) < queue_len (parms neigh) ->
   arp_queue n' = arp_queue neigh ++ [s] /\ tr = []).
Proof.
  intros [Hq Hb].
  assert (Hu : u32 (queue_len (parms neigh)) = queue_len (parms neigh))
    by (apply u32_small; lia).
  unfold __neigh_event_send.
  destruct (tst (nud_state neigh)
              (Z.lor NUD_CONNECTED (Z.lor NUD_DELAY NUD_PROBE))) eqn:Hconn.
  { intros [= <- _ _] Hinc. rewrite Hinc in Hconn. discriminate. }
  destruct (tst (nud_state neigh) (Z.lor NUD_STALE NUD_INCOMPLETE)) eqn:Hsi;
    simpl.
  - destruct (tst (nud_state neigh) NUD_STALE) eqn:Hs; simpl.
    { intros [= <- _ _] Hinc. discriminate. }
    destruct (Z.eqb_spec (nud_state neigh) NUD_INCOMPLETE) as [Hinc|Hinc];
      [|intros [= <- _ _] Hinc'; contradiction].
    rewrite Hu. unfold __skb_queue_tail.
    destruct (Z.leb_spec (queue_len (parms neigh))
                (skb_queue_len (arp_queue neigh))) as [Hfull|Hroom].
    + destruct (arp_queue neigh) as [|oldest rest] eqn:Hqueue.
      { unfold skb_queue_len in Hfull. simpl in Hfull. lia. }
      intros [= <- <- _] _. simpl. split; [|intros Hlt; lia].
      intros _. exists oldest, rest. auto.
    + intros [= <- <- _] _. simpl. split; [intros Hge; lia|]. auto.
  - destruct (int_add (mcast_probes (parms neigh))
                (app_probes (parms neigh)) =? 0) eqn:Hz; simpl.
    { intros [= <- _ _] Hinc. discriminate. }
    rewrite Hu. unfold __skb_queue_tail.
    destruct (Z.leb_spec (queue_len (parms neigh))
                (skb_queue_len (arp_queue neigh))) as [Hfull|Hroom].
    + destruct (arp_queue neigh) as [|oldest rest] eqn:Hqueue.
      { unfold skb_queue_len in Hfull. simpl in Hfull. lia. }
      intros [= <- <- _] _. simpl. split; [|intros Hlt; lia].
      intros _. exists oldest, rest. auto.
    + intros [= <- <- _] _. simpl. split; [intros Hge; lia|]. auto.
Qed.

(** C2, as the code has it: with a configured [queue_len] of at least
    one, an entry's queue stays within [queue_len].  It is empty when
    [neigh_alloc] makes the entry; [__neigh_event_send], the only
    function that queues, keeps it within the limit, and so do
    [neigh_timer_handler] and [neigh_update] as long as the protocol
    callbacks do.  When [__neigh_event_send] queues a packet, which is
    when it leaves the entry INCOMPLETE, a queue holding at least
    [queue_len] packets loses exactly its oldest packet, freed with
    [kfree_skb], and gets the new one at the tail; a queue with room
    only gets the new packet at the tail. *)
Theorem arp_queue_bound :
  (forall tbl now mem n tbl' tr,
     0 < queue_len (tbl_parms tbl) < 2 ^ 31 ->
     neigh_alloc tbl now mem = (Some n, tbl', tr) ->
     queue_ok n /\ arp_queue n = []) /\
  (forall neigh skb now n' tr rc,
     queue_ok neigh ->
     __neigh_event_send neigh skb now = (n', tr, rc) ->
     queue_ok n' /\
     queue_len (parms n') = queue_len (parms neigh) /\
     forall s, skb = Some s -> nud_state n' = NUD_INCOMPLETE ->
       (queue_len (parms neigh) <= skb_queue_len (arp_queue neigh) ->
        exists oldest rest,
          arp_queue neigh = oldest :: rest /\
          arp_queue n' = rest ++ [s] /\
          tr = [Ev_kfree_skb oldest]) /\
       (skb_queue_len (arp_queue neigh) < queue_len (parms neigh) ->
        arp_queue n' = arp_queue neigh ++ [s] /\ tr = [])) /\
  (forall fuel neigh now n' tr,
     (forall m s, queue_ok m -> queue_ok (error_report m s)) ->
     (forall m s, queue_ok m -> queue_ok (solicit m s)) ->
     queue_ok neigh ->
     neigh_timer_handler fuel neigh now = Some (n', tr) ->
     queue_ok n') /\
  (forall fuel neigh lladdr new flgs now n' tr err,
     (forall t m s, queue_ok m -> queue_ok (output_call t m s)) ->
     queue_ok neigh ->
     neigh_update fuel neigh lladdr new flgs now = Some (n', tr, err) ->
     queue_ok n').
Proof.
  split; [|split; [|split]].
  - intros tbl now mem n tbl' tr Hq Ha. split.
    + eapply alloc_queue_ok; eauto.
    + revert Ha. unfold neigh_alloc.
      destruct (alloc_gc_trigger tbl now);
        [destruct (neigh_forced_gc tbl now) as [[shrunk t] tr0];
         destruct (_ && _); [discriminate|]|];
        (destruct mem as [a|]; [|discriminate]);
        intros [= <- _ _]; reflexivity.
  - intros neigh skb now n' tr rc Hok Hsend.
    pose proof (event_send_queue_ok neigh skb now Hok) as Hok'.
    rewrite Hsend in Hok'. simpl in Hok'.
    split; [exact Hok'|]. split.
    + revert Hsend. unfold __neigh_event_send.
      repeat match goal with
             | |- context [if ?c then _ else _] => destruct c
             | |- context [match ?c with Some _ => _ | None => _ end] =>
               destruct c
             | |- context [match ?c with [] => _ | _ :: _ => _ end] =>
               destruct c
             end; simpl; intros [= <- _ _]; reflexivity.
    + intros s -> Hinc. eapply event_send_enqueue; eauto.
  - intros fuel neigh now n' tr Her Hso Hok Hrun.
    eapply timer_handler_queue_ok; eauto.
  - intros fuel neigh lladdr new flgs now n' tr err Hcb Hok Hrun.
    eapply neigh_update_queue_ok; eauto.
Qed.

(** ** The per-entry timer *)

Lemma neigh_release_state n : nud_state (fst (neigh_release n)) = nud_state n.
Proof.
  unfold neigh_release, neigh_destroy, neigh_del_timer, neigh_release_timer,
    neigh_destroy_tail.
  repeat (match goal with |- context [if ?c then _ else _] => destruct c end;
          simpl); reflexivity.
Qed.

Lemma neigh_release_queue_nil n :
  arp_queue n = [] -> arp_queue (fst (neigh_release n)) = [].
Proof.
  intros Hq.
  unfold neigh_release, neigh_destroy, neigh_del_timer, neigh_release_timer,
    neigh_destroy_tail.
  repeat (match goal with |- context [if ?c then _ else _] => destruct c end;
          simpl); auto.
Qed.

Lemma timer_report_loop_drain :
  (forall m s, nud_state (error_report m s) = NUD_FAILED ->
     (length (arp_queue (error_report m s)) <= length (arp_queue m))%nat) ->
  forall fuel n,
    (0 < fuel)%nat ->
    (nud_state n = NUD_FAILED -> (length (arp_queue n) < fuel)%nat) ->
    exists reported n1,
      timer_report_loop fuel n = Some (n1, map Ev_error_report reported) /\
      failed_drain n reported n1.
Proof.
  intros Hcb fuel. induction fuel as [|fuel IH]; intros n Hpos Hlen; [lia|].
  simpl.
  destruct (Z.eqb_spec (nud_state n) NUD_FAILED) as [Hf|Hf].
  - specialize (Hlen Hf).
    destruct (arp_queue n) as [|skb rest] eqn:Hq; simpl.
    + exists [], n. split; [reflexivity|]. now apply failed_drain_empty.
    + simpl in Hlen.
      destruct (IH (error_report (set_arp_queue n rest) skb))
        as (reported & n1 & Hrun & Hdrain).
      * lia.
      * intros Hst. specialize (Hcb _ _ Hst). simpl in Hcb. lia.
      * rewrite Hrun. exists (skb :: reported), n1.
        split; [reflexivity|]. eapply failed_drain_report; eauto.
  - exists [], n. split; [reflexivity|]. now apply failed_drain_changed.
Qed.

Lemma failed_drain_idle :
  (forall m s, nud_state (error_report m s) = nud_state m /\
               arp_queue (error_report m s) = arp_queue m) ->
  forall n reported n1,
    failed_drain n reported n1 ->
    nud_state n = NUD_FAILED ->
    reported = arp_queue n /\ nud_state n1 = NUD_FAILED /\ arp_queue n1 = [].
Proof.
  intros Hcb n reported n1 Hd.
  induction Hd as [n Hne|n Hf Hq|n skb rest reported n' Hf Hq Hd IH];
    intros Hst.
  - contradiction.
  - rewrite Hq. auto.
  - destruct (Hcb (set_arp_queue n rest) skb) as [Hs Ha].
    simpl in Hs, Ha.
    destruct IH as (Hr & Hs1 & Hq1); [congruence|].
    rewrite Hq, Hr, Ha. auto.
Qed.

Lemma timer_rearm_failed n next now :
  nud_state n = NUD_FAILED -> timer_rearm n next now = n.
Proof. intros H. unfold timer_rearm. rewrite H. reflexivity. Qed.

Lemma timer_solicit_failed n :
  nud_state n = NUD_FAILED -> timer_solicit n = (n, []).
Proof. intros H. unfold timer_solicit. rewrite H. reflexivity. Qed.

(** C3: when the timer fires on a PROBE entry whose probe counter has
    reached [ucast_probes], or on an INCOMPLETE entry whose counter has
    reached [ucast_probes + app_probes + mcast_probes], the state is set
    to FAILED and the queue is drained as [failed_drain] words it: the
    packets are dequeued oldest first and handed to [error_report] one
    at a time, each while the entry is still FAILED, and what the loop
    leaves is purged.  With a callback that leaves the entry alone every
    queued packet is reported, in order, and the entry ends FAILED with
    an empty queue. *)
Theorem timer_probe_budget_failure fuel neigh now :
  (nud_state neigh = NUD_PROBE /\
   ucast_probes (parms neigh) <= probes neigh) \/
  (nud_state neigh = NUD_INCOMPLETE /\
   int_add (int_add (ucast_probes (parms neigh)) (app_probes (parms neigh)))
           (mcast_probes (parms neigh)) <= probes neigh) ->
  (forall m s, nud_state (error_report m s) = NUD_FAILED ->
     (length (arp_queue (error_report m s)) <= length (arp_queue m))%nat) ->
  (length (arp_queue neigh) < fuel)%nat ->
  exists reported n1 n' tr',
    neigh_timer_handler fuel neigh now =
      Some (n', map Ev_error_report reported
                ++ skb_queue_purge (arp_queue n1) ++ tr') /\
    failed_drain (set_nud_state (set_timer neigh None) NUD_FAILED)
                 reported n1 /\
    ((forall m s, nud_state (error_report m s) = nud_state m /\
                  arp_queue (error_report m s) = arp_queue m) ->
     reported = arp_queue neigh /\
     nud_state n' = NUD_FAILED /\
     arp_queue n' = []).
Proof.
  intros Hst Hcb Hfuel.
  destruct (timer_report_loop_drain Hcb fuel
              (set_nud_state (set_timer neigh None) NUD_FAILED))
    as (reported & n1 & Hrun & Hdrain); [lia | simpl; lia |].
  assert (Hfail : timer_probe_failure fuel (set_timer neigh None) =
                  Some (set_arp_queue n1 [],
                        map Ev_error_report reported
                          ++ skb_queue_purge (arp_queue n1))).
  { unfold timer_probe_failure, neigh_max_probes. simpl.
    destruct Hst as [[Hs Hp]|[Hs Hp]]; rewrite Hs; tst_eval; simpl;
      match goal with
      | |- context [?a <=? ?b] => destruct (Z.leb_spec a b); [|lia]
      end; simpl; rewrite Hrun; reflexivity. }
  assert (Htr : timer_transition (set_timer neigh None) (nud_state neigh) now
                = (set_timer neigh None,
                   ulong (now + retrans_time (parms neigh)))).
  { unfold timer_transition.
    destruct Hst as [[Hs _]|[Hs _]]; rewrite Hs; tst_eval; reflexivity. }
  exists reported, n1.
  unfold neigh_timer_handler.
  change (nud_state (set_timer neigh None)) with (nud_state neigh).
  assert (Hin : tst (nud_state neigh) NUD_IN_TIMER = true)
    by (destruct Hst as [[Hs _]|[Hs _]]; rewrite Hs; reflexivity).
  rewrite Hin, Htr. simpl negb. cbv iota.
  rewrite Hfail.
  destruct (timer_solicit
              (timer_rearm (set_arp_queue n1 [])
                 (ulong (now + retrans_time (parms neigh))) now))
    as [n4 tr4] eqn:Hsol.
  destruct (neigh_release n4) as [n5 tr5] eqn:Hrel.
  exists n5, (tr4 ++ tr5).
  split; [rewrite <- app_assoc; reflexivity|].
  split; [exact Hdrain|].
  intros Hidle.
  destruct (failed_drain_idle Hidle _ _ _ Hdrain) as (Hr & Hs1 & Hq1);
    [reflexivity|].
  split; [exact Hr|].
  assert (Hs0 : nud_state (set_arp_queue n1 []) = NUD_FAILED) by exact Hs1.
  rewrite (timer_rearm_failed _ _ _ Hs0), (timer_solicit_failed _ Hs0) in Hsol.
  injection Hsol as <- <-.
  replace n5 with (fst (neigh_release (set_arp_queue n1 [])))
    by (rewrite Hrel; reflexivity).
  split.
  - rewrite neigh_release_state. exact Hs1.
  - apply neigh_release_queue_nil. reflexivity.
Qed.

Lemma neigh_release_frame n :
  output (fst (neigh_release n)) = output n /\
  probes (fst (neigh_release n)) = probes n /\
  (hh (fst (neigh_release n)) = hh n \/ hh (fst (neigh_release n)) = []).
Proof.
  unfold neigh_release, neigh_destroy, neigh_del_timer, neigh_release_timer,
    neigh_destroy_tail.
  repeat (match goal with |- context [if ?c then _ else _] => destruct c end;
          simpl); auto.
Qed.

Lemma timer_no_failure fuel n :
  tst (nud_state n) (Z.lor NUD_INCOMPLETE NUD_PROBE) = false ->
  timer_probe_failure fuel n = Some (n, []).
Proof. intros H. unfold timer_probe_failure. rewrite H. reflexivity. Qed.

Lemma timer_solicit_none n :
  tst (nud_state n) (Z.lor NUD_INCOMPLETE NUD_PROBE) = false ->
  timer_solicit n = (n, []).
Proof. intros H. unfold timer_solicit. rewrite H. reflexivity. Qed.

Lemma timer_rearm_frame n next now :
  nud_state (timer_rearm n next now) = nud_state n /\
  output (timer_rearm n next now) = output n /\
  hh (timer_rearm n next now) = hh n /\
  probes (timer_rearm n next now) = probes n /\
  arp_queue (timer_rearm n next now) = arp_queue n.
Proof. unfold timer_rearm. destruct (tst _ _); simpl; auto. Qed.

(** The handler on an entry whose state step ends in a state that is
    neither INCOMPLETE nor PROBE: nothing is reported or solicited. *)
Lemma timer_handler_quiet fuel neigh now n1 next :
  tst (nud_state neigh) NUD_IN_TIMER = true ->
  timer_transition (set_timer neigh None) (nud_state neigh) now = (n1, next) ->
  tst (nud_state n1) (Z.lor NUD_INCOMPLETE NUD_PROBE) = false ->
  exists n' tr,
    neigh_timer_handler fuel neigh now = Some (n', tr) /\
    nud_state n' = nud_state n1 /\
    output n' = output n1 /\
    (hh n' = hh n1 \/ hh n' = []).
Proof.
  intros Hin Htr Hq.
  unfold neigh_timer_handler.
  change (nud_state (set_timer neigh None)) with (nud_state neigh).
  rewrite Hin, Htr. simpl negb. cbv iota.
  rewrite (timer_no_failure _ _ Hq).
  destruct (timer_rearm_frame n1 next now) as (Hs & Ho & Hh & _).
  rewrite timer_solicit_none by (rewrite Hs; exact Hq).
  destruct (neigh_release (timer_rearm n1 next now)) as [n5 tr5] eqn:Hrel.
  exists n5, ([] ++ [] ++ tr5). split; [reflexivity|].
  replace n5 with (fst (neigh_release (timer_rearm n1 next now)))
    by (rewrite Hrel; reflexivity).
  rewrite neigh_release_state.
  destruct (neigh_release_frame (timer_rearm n1 next now)) as (Ho' & _ & Hh').
  rewrite Ho', Hs, Ho, <- Hh. auto.
Qed.

(** C7, as the code has it: when the timer fires on a REACHABLE entry
    whose reachable-time window has elapsed, the fast path is suspended
    and the entry moves to DELAY if it was used within
    [delay_probe_time], to STALE otherwise.  When it fires on a DELAY
    entry, the entry returns to REACHABLE (fast path installed) if it
    was confirmed within [delay_probe_time]; otherwise the state step
    makes it PROBE with the probe counter reset to zero, and with a
    positive [ucast_probes] it is in that state that the entry is
    solicited. *)
Theorem timer_reachable_delay_step fuel neigh now :
  (nud_state neigh = NUD_REACHABLE ->
   time_before_eq now
     (ulong (confirmed neigh + reachable_time (parms neigh))) = false ->
   exists n' tr,
     neigh_timer_handler fuel neigh now = Some (n', tr) /\
     nud_state n' =
       (if time_before_eq now
             (ulong (used neigh + delay_probe_time (parms neigh)))
        then NUD_DELAY else NUD_STALE) /\
     output n' = fn_ops_output /\
     Forall (fun h => hh_output h = fn_ops_output) (hh n')) /\
  (nud_state neigh = NUD_DELAY ->
   time_before_eq now
     (ulong (confirmed neigh + delay_probe_time (parms neigh))) = true ->
   exists n' tr,
     neigh_timer_handler fuel neigh now = Some (n', tr) /\
     nud_state n' = NUD_REACHABLE /\
     output n' = fn_ops_connected_output /\
     Forall (fun h => hh_output h = fn_ops_hh_output) (hh n')) /\
  (nud_state neigh = NUD_DELAY ->
   time_before_eq now
     (ulong (confirmed neigh + delay_probe_time (parms neigh))) = false ->
   let n1 := fst (timer_transition (set_timer neigh None) NUD_DELAY now) in
   nud_state n1 = NUD_PROBE /\
   probes n1 = 0 /\
   (0 < ucast_probes (parms neigh) ->
    exists n3,
      nud_state n3 = NUD_PROBE /\ probes n3 = 0 /\
      let n4 := solicit n3 (skb_peek (arp_queue n3)) in
      let r := neigh_release (set_probes n4 (int_add (probes n4) 1)) in
      neigh_timer_handler fuel neigh now =
        Some (fst r, Ev_solicit (skb_peek (arp_queue n3)) :: snd r))).
Proof.
  split; [|split].
  - intros Hs Hwin.
    destruct (time_before_eq now
                (ulong (used neigh + delay_probe_time (parms neigh))))
      eqn:Hused.
    + destruct (timer_handler_quiet fuel neigh now
                  (neigh_suspect (set_nud_state (set_timer neigh None) NUD_DELAY))
                  (ulong (now + delay_probe_time (parms neigh))))
        as (n' & tr & Hrun & Hst & Ho & Hh).
      * rewrite Hs. reflexivity.
      * unfold timer_transition. rewrite Hs. tst_eval. simpl.
        rewrite Hwin, Hused. reflexivity.
      * reflexivity.
      * exists n', tr. repeat split; auto.
        destruct Hh as [-> | ->]; [|constructor].
        simpl. apply Forall_forall. intros h Hin.
        apply list_elem_of_In, in_map_iff in Hin as (h0 & <- & _). reflexivity.
    + destruct (timer_handler_quiet fuel neigh now
                  (neigh_suspect (set_nud_state (set_timer neigh None) NUD_STALE))
                  (ulong (now + HZ)))
        as (n' & tr & Hrun & Hst & Ho & Hh).
      * rewrite Hs. reflexivity.
      * unfold timer_transition. rewrite Hs. tst_eval. simpl.
        rewrite Hwin, Hused. reflexivity.
      * reflexivity.
      * exists n', tr. repeat split; auto.
        destruct Hh as [-> | ->]; [|constructor].
        simpl. apply Forall_forall. intros h Hin.
        apply list_elem_of_In, in_map_iff in Hin as (h0 & <- & _). reflexivity.
  - intros Hs Hwin.
    destruct (timer_handler_quiet fuel neigh now
                (neigh_connect (set_nud_state (set_timer neigh None) NUD_REACHABLE))
                (ulong (confirmed neigh + reachable_time (parms neigh))))
      as (n' & tr & Hrun & Hst & Ho & Hh).
    + rewrite Hs. reflexivity.
    + unfold timer_transition. rewrite Hs. tst_eval. simpl.
      rewrite Hwin. reflexivity.
    + reflexivity.
    + exists n', tr. repeat split; auto.
      destruct Hh as [-> | ->]; [|constructor].
      simpl. apply Forall_forall. intros h Hin.
      apply list_elem_of_In, in_map_iff in Hin as (h0 & <- & _). reflexivity.
  - intros Hs Hwin n1.
    assert (Htr : timer_transition (set_timer neigh None) NUD_DELAY now =
                  (set_probes (set_nud_state (set_timer neigh None) NUD_PROBE) 0,
                   ulong (now + retrans_time (parms neigh)))).
    { unfold timer_transition. tst_eval. simpl. rewrite Hwin. reflexivity. }
    subst n1. rewrite Htr. simpl.
    split; [reflexivity|]. split; [reflexivity|].
    intros Hucast.
    set (m := set_probes (set_nud_state (set_timer neigh None) NUD_PROBE) 0)
      in *.
    exists (timer_rearm m (ulong (now + retrans_time (parms neigh))) now).
    destruct (timer_rearm_frame m (ulong (now + retrans_time (parms neigh))) now)
      as (Hrs & _ & _ & Hrp & _).
    split; [rewrite Hrs; reflexivity|].
    split; [rewrite Hrp; reflexivity|].
    unfold neigh_timer_handler.
    change (nud_state (set_timer neigh None)) with (nud_state neigh).
    rewrite Hs.
    replace (tst NUD_DELAY NUD_IN_TIMER) with true by reflexivity.
    simpl negb. cbv iota. rewrite Htr.
    assert (Hnf : timer_probe_failure fuel m = Some (m, [])).
    { unfold timer_probe_failure, neigh_max_probes. subst m. simpl.
      tst_eval. simpl.
      destruct (Z.leb_spec (ucast_probes (parms neigh)) 0); [lia|].
      reflexivity. }
    rewrite Hnf.
    unfold timer_solicit. rewrite Hrs. subst m. simpl nud_state.
    replace (tst NUD_PROBE (Z.lor NUD_INCOMPLETE NUD_PROBE)) with true
      by reflexivity.
    cbv iota.
    match goal with
    | |- context [neigh_release ?x] => destruct (neigh_release x) as [n5 tr5]
    end.
    reflexivity.
Qed.

(** ** The update from the protocol layer *)

Lemma neigh_del_timer_frame n :
  let n1 := fst (fst (neigh_del_timer n)) in
  nud_state n1 = nud_state n /\ ha n1 = ha n /\ dev n1 = dev n /\
  parms n1 = parms n /\ flags n1 = flags n /\ n_addr n1 = n_addr n /\
  confirmed n1 = confirmed n /\ output n1 = output n.
Proof.
  unfold neigh_del_timer, neigh_release_timer, neigh_destroy_tail.
  repeat (match goal with |- context [if ?c then _ else _] => destruct c end;
          simpl); repeat split; reflexivity.
Qed.

Lemma neigh_del_timer_held n :
  (timer n <> None -> refcnt n <> 1) ->
  snd (fst (neigh_del_timer n)) = [] /\
  arp_queue (fst (fst (neigh_del_timer n))) = arp_queue n /\
  hh (fst (fst (neigh_del_timer n))) = hh n.
Proof.
  intros Hheld.
  unfold neigh_del_timer, neigh_release_timer.
  destruct (tst (nud_state n) NUD_IN_TIMER); simpl; auto.
  destruct (bool_decide_reflect (timer n <> None)) as [Hp|Hp]; simpl; auto.
  specialize (Hheld Hp).
  destruct (Z.eqb_spec (refcnt n - 1) 0); [lia|]. simpl. auto.
Qed.

Lemma update_out_frame n uir flgs :
  nud_state (update_out n uir flgs) = nud_state n /\
  ha (update_out n uir flgs) = ha n /\
  arp_queue (update_out n uir flgs) = arp_queue n /\
  timer (update_out n uir flgs) = timer n /\
  output (update_out n uir flgs) = output n /\
  hh (update_out n uir flgs) = hh n /\
  refcnt (update_out n uir flgs) = refcnt n /\
  confirmed (update_out n uir flgs) = confirmed n.
Proof.
  unfold update_out. destruct (uir =? 0); simpl; repeat split; reflexivity.
Qed.

(** C8: the weak-override policy of [neigh_update], for an update that
    is permitted (administrative, or on an entry that is neither NOARP
    nor PERMANENT), proposes a valid state and finds a valid entry.  A
    proposed address that differs from the cached one, without OVERRIDE
    but with WEAK_OVERRIDE on a connected entry, leaves the cached
    address in place and makes the entry STALE, suspected.  A proposed
    address equal to the cached one with the new state STALE, under
    WEAK_OVERRIDE or on a connected entry, keeps the old state: nothing
    is transmitted, and state, address, queue, timer, output and
    confirmation time stay as they were. *)
Theorem update_weak_override fuel neigh a new flgs now :
  (tst flgs NEIGH_UPDATE_F_ADMIN = true \/
   tst (nud_state neigh) (Z.lor NUD_NOARP NUD_PERMANENT) = false) ->
  tst new NUD_VALID = true ->
  tst (nud_state neigh) NUD_VALID = true ->
  (addr_len (dev neigh) <> 0 ->
   memcmp_eq a (ha neigh) (addr_len (dev neigh)) = false ->
   tst flgs NEIGH_UPDATE_F_OVERRIDE = false ->
   tst flgs NEIGH_UPDATE_F_WEAK_OVERRIDE = true ->
   tst (nud_state neigh) NUD_CONNECTED = true ->
   exists n' tr,
     neigh_update fuel neigh (Some a) new flgs now = Some (n', tr, 0) /\
     ha n' = ha neigh /\
     nud_state n' = NUD_STALE /\
     output n' = fn_ops_output) /\
  (memcmp_eq a (ha neigh) (addr_len (dev neigh)) = true ->
   new = NUD_STALE ->
   (tst flgs NEIGH_UPDATE_F_WEAK_OVERRIDE = true \/
    tst (nud_state neigh) NUD_CONNECTED = true) ->
   exists n',
     neigh_update fuel neigh (Some a) new flgs now = Some (n', [], 0) /\
     nud_state n' = nud_state neigh /\
     ha n' = ha neigh /\
     arp_queue n' = arp_queue neigh /\
     timer n' = timer neigh /\
     output n' = output neigh /\
     hh n' = hh neigh /\
     refcnt n' = refcnt neigh /\
     confirmed n' = confirmed neigh).
Proof.
  intros Hperm Hnew Hold.
  assert (Hadm : negb (tst flgs NEIGH_UPDATE_F_ADMIN)
                 && tst (nud_state neigh) (Z.lor NUD_NOARP NUD_PERMANENT)
                 = false).
  { destruct Hperm as [-> | ->]; [reflexivity|]. apply andb_false_r. }
  split.
  - intros Hlen Hcmp Hov Hweak Hconn.
    unfold neigh_update. rewrite Hadm, Hnew. simpl negb. cbv iota.
    unfold update_compare.
    destruct (Z.eqb_spec (addr_len (dev neigh)) 0) as [|_]; [contradiction|].
    rewrite Hold, Hcmp. simpl andb. cbv iota.
    unfold update_override. rewrite Hold, Hov, Hweak, Hconn.
    cbn [is_ha negb andb].
    destruct (Z.eqb_spec NUD_STALE (nud_state neigh)) as [Heq|Hne].
    { rewrite <- Heq in Hconn. discriminate. }
    simpl negb. cbv iota.
    set (n2 := set_updated _ now).
    destruct (neigh_del_timer n2) as [[m tr] r] eqn:Hdel.
    pose proof (neigh_del_timer_frame n2) as Hfr. rewrite Hdel in Hfr.
    simpl in Hfr. destruct Hfr as (_ & Hha & _).
    replace (tst NUD_STALE NUD_IN_TIMER) with false by reflexivity.
    replace (tst NUD_STALE NUD_CONNECTED) with false by reflexivity.
    cbv iota.
    eexists. exists tr. split; [reflexivity|].
    destruct (update_out_frame
                (neigh_suspect (set_nud_state m NUD_STALE)) 0 flgs)
      as (Hs & Ha & _ & _ & Ho & _).
    rewrite Hs, Ha, Ho. simpl. rewrite Hha. subst n2.
    destruct (tst new NUD_CONNECTED); auto.
  - intros Hcmp -> Hwc.
    unfold neigh_update. rewrite Hadm, Hnew. simpl negb. cbv iota.
    assert (Hc : update_compare neigh (Some a) = Some Ll_ha).
    { unfold update_compare. destruct (addr_len (dev neigh) =? 0); auto.
      rewrite Hold, Hcmp. reflexivity. }
    rewrite Hc.
    unfold update_override. rewrite Hold. cbn [is_ha negb andb].
    assert (Hor : tst flgs NEIGH_UPDATE_F_WEAK_OVERRIDE
                  || tst (nud_state neigh) NUD_CONNECTED = true).
    { destruct Hwc as [-> | ->]; [reflexivity|apply orb_true_r]. }
    rewrite Hor, Z.eqb_refl. cbn [andb]. cbv iota beta.
    rewrite Z.eqb_refl. cbn [negb]. cbv iota beta.
    replace (tst NUD_STALE NUD_CONNECTED) with false by reflexivity.
    eexists. split; [reflexivity|].
    match goal with
    | |- context [update_out ?n ?u ?f] =>
      destruct (update_out_frame n u f)
        as (Hs & Ha & Hq & Ht & Ho & Hh & Hr & Hcf)
    end.
    rewrite Hs, Ha, Hq, Ht, Ho, Hh, Hr, Hcf. simpl. repeat split.
Qed.

Lemma update_xmit_loop_drain :
  (forall t m s, tst (nud_state (output_call t m s)) NUD_VALID = true ->
     (length (arp_queue (output_call t m s)) <= length (arp_queue m))%nat) ->
  forall fuel n,
    (0 < fuel)%nat ->
    (tst (nud_state n) NUD_VALID = true ->
     (length (arp_queue n) < fuel)%nat) ->
    exists sent n1,
      update_xmit_loop fuel n =
        Some (n1, map (fun ts => Ev_output (fst ts) (snd ts)) sent) /\
      valid_drain n sent n1.
Proof.
  intros Hcb fuel. induction fuel as [|fuel IH]; intros n Hpos Hlen; [lia|].
  simpl.
  destruct (tst (nud_state n) NUD_VALID) eqn:Hv.
  - specialize (Hlen eq_refl).
    destruct (arp_queue n) as [|skb rest] eqn:Hq; simpl.
    + exists [], n. split; [reflexivity|]. now apply valid_drain_empty.
    + simpl in Hlen.
      destruct (IH (output_call (xmit_target n skb) (set_arp_queue n rest) skb))
        as (sent & n1 & Hrun & Hdrain).
      * lia.
      * intros Hst. specialize (Hcb _ _ _ Hst). simpl in Hcb. lia.
      * rewrite Hrun. exists ((xmit_target n skb, skb) :: sent), n1.
        split; [reflexivity|]. eapply valid_drain_xmit; eauto.
  - exists [], n. split; [reflexivity|]. now apply valid_drain_invalid.
Qed.

Lemma valid_drain_fifo :
  (forall t m s, tst (nud_state m) NUD_VALID = true ->
     tst (nud_state (output_call t m s)) NUD_VALID = true /\
     arp_queue (output_call t m s) = arp_queue m) ->
  forall n sent n1,
    valid_drain n sent n1 ->
    tst (nud_state n) NUD_VALID = true ->
    map snd sent = arp_queue n /\
    tst (nud_state n1) NUD_VALID = true /\ arp_queue n1 = [].
Proof.
  intros Hcb n sent n1 Hd.
  induction Hd as [n Hne|n Hv Hq|n skb rest sent n' Hv Hq Hd IH]; intros Hst.
  - congruence.
  - rewrite Hq. auto.
  - destruct (Hcb (xmit_target n skb) (set_arp_queue n rest) skb) as [Hs Ha];
      [exact Hv|].
    simpl in Ha.
    destruct (IH Hs) as (Hr & Hs1 & Hq1).
    simpl. rewrite Hq, Hr, Ha. auto.
Qed.

(** C5: when [neigh_update] takes an entry from a state that is not
    valid to a valid state (an address is supplied, or the device needs
    none; the caller holds its own reference), the queue is drained as
    [valid_drain] words it: the packets are dequeued oldest first and
    transmitted through the output function, each while the entry is
    still valid, and what the loop leaves is purged, so the queue ends
    empty.  With output functions that keep the entry valid and leave
    its queue alone, the packets transmitted are exactly the queued
    ones, in queue order, whatever their number. *)
Theorem update_fifo_delivery fuel neigh lladdr new flgs now :
  tst (nud_state neigh) NUD_VALID = false ->
  tst new NUD_VALID = true ->
  (addr_len (dev neigh) = 0 \/ lladdr <> None) ->
  (timer neigh <> None -> refcnt neigh <> 1) ->
  (forall t m s, tst (nud_state (output_call t m s)) NUD_VALID = true ->
     (length (arp_queue (output_call t m s)) <= length (arp_queue m))%nat) ->
  (length (arp_queue neigh) < fuel)%nat ->
  exists n0 sent n1 n',
    neigh_update fuel neigh lladdr new flgs now =
      Some (n', map (fun ts => Ev_output (fst ts) (snd ts)) sent
                ++ skb_queue_purge (arp_queue n1), 0) /\
    nud_state n0 = new /\
    arp_queue n0 = arp_queue neigh /\
    valid_drain n0 sent n1 /\
    arp_queue n' = [] /\
    ((forall t m s, tst (nud_state m) NUD_VALID = true ->
        tst (nud_state (output_call t m s)) NUD_VALID = true /\
        arp_queue (output_call t m s) = arp_queue m) ->
     map snd sent = arp_queue neigh /\ arp_queue n1 = []).
Proof.
  intros Hold Hnew Hll Hheld Hcb Hfuel.
  assert (Hadm : tst (nud_state neigh) (Z.lor NUD_NOARP NUD_PERMANENT) = false).
  { unfold NUD_VALID in Hold. rewrite !tst_lor in Hold.
    rewrite tst_lor.
    apply orb_false_iff in Hold as [Hp Hold].
    apply orb_false_iff in Hold as [Hn _].
    rewrite Hp, Hn. reflexivity. }
  assert (Hne : (new =? nud_state neigh) = false).
  { destruct (Z.eqb_spec new (nud_state neigh)) as [Heq|]; [|reflexivity].
    rewrite Heq in Hnew. congruence. }
  assert (Hc : exists ll, update_compare neigh lladdr = Some ll).
  { unfold update_compare.
    destruct (Z.eqb_spec (addr_len (dev neigh)) 0) as [|Hz]; [eauto|].
    destruct Hll as [|Hll]; [contradiction|].
    destruct lladdr as [b|]; [|contradiction].
    rewrite Hold. simpl. eauto. }
  destruct Hc as [ll Hc].
  unfold neigh_update.
  rewrite Hadm, andb_false_r, Hnew. cbn [negb]. cbv iota.
  rewrite Hc. unfold update_override. rewrite Hold. cbv iota.
  rewrite Hne. cbn [negb]. cbv iota.
  set (n2 := set_updated _ now).
  assert (Hheld2 : timer n2 <> None -> refcnt n2 <> 1).
  { subst n2. destruct (tst new NUD_CONNECTED); exact Hheld. }
  assert (Hq2 : arp_queue n2 = arp_queue neigh).
  { subst n2. destruct (tst new NUD_CONNECTED); reflexivity. }
  destruct (neigh_del_timer_held n2 Hheld2) as (Htr & Hq & _).
  destruct (neigh_del_timer n2) as [[m tr] r].
  simpl in Htr, Hq. subst tr.
  cbv iota beta.
  match goal with
  | |- context [update_xmit_loop fuel ?x] => set (n5 := x)
  end.
  assert (Hs5 : nud_state n5 = new).
  { subst n5. destruct ll; destruct (tst new NUD_CONNECTED);
      destruct (tst new NUD_IN_TIMER); try reflexivity;
      unfold neigh_update_hhs;
      destruct (header_cache_update _); reflexivity. }
  assert (Hq5 : arp_queue n5 = arp_queue neigh).
  { transitivity (arp_queue m); [|rewrite Hq; exact Hq2].
    subst n5.
    destruct ll; destruct (tst new NUD_CONNECTED);
      destruct (tst new NUD_IN_TIMER); try reflexivity;
      unfold neigh_update_hhs;
      destruct (header_cache_update _); reflexivity. }
  destruct (update_xmit_loop_drain Hcb fuel n5) as (sent & n1 & Hrun & Hdrain).
  { lia. }
  { intros _. rewrite Hq5. exact Hfuel. }
  rewrite Hrun.
  exists n5, sent, n1. eexists.
  split; [reflexivity|].
  split; [exact Hs5|]. split; [exact Hq5|]. split; [exact Hdrain|].
  split.
  { destruct (update_out_frame (set_arp_queue n1 [])
                (Z.land flgs NEIGH_UPDATE_F_OVERRIDE_ISROUTER) flgs)
      as (_ & _ & Hqo & _).
    rewrite Hqo. reflexivity. }
  intros Hframe.
  destruct (valid_drain_fifo Hframe _ _ _ Hdrain) as (Hf & _ & Hq1).
  { rewrite Hs5. exact Hnew. }
  rewrite Hf, Hq5. auto.
Qed.

(** ** Allocation *)

(** C9, as the code has it: when [neigh_alloc] runs the forced
    collection, it gives up (no entry, hence [-ENOBUFS] from
    [neigh_create]) exactly when the collection unlinked nothing and the
    entry count is above [gc_thresh3]; when the collection unlinked at
    least one entry the allocation goes on, whatever the count that is
    left. *)
Theorem alloc_hard_limit tbl now mem shrunk t tr :
  alloc_gc_trigger tbl now = true ->
  neigh_forced_gc tbl now = (shrunk, t, tr) ->
  (shrunk = 0 -> gc_thresh3 t < entries t ->
   neigh_alloc tbl now mem = (None, t, tr) /\
   forall pkey d,
     neigh_create tbl pkey d now mem = (ERR_PTR (- ENOBUFS), t, tr)) /\
  (shrunk <> 0 -> forall a, mem = Some a ->
   exists n,
     neigh_alloc tbl now mem = (Some n, set_entries t (entries t + 1), tr) /\
     n_addr n = a /\ nud_state n = NUD_NONE /\ refcnt n = 1 /\ dead n = 1).
Proof.
  intros Htrig Hgc. split.
  - intros -> Hover.
    assert (Ha : neigh_alloc tbl now mem = (None, t, tr)).
    { unfold neigh_alloc. rewrite Htrig, Hgc. simpl.
      destruct (Z.ltb_spec (gc_thresh3 t) (entries t)); [reflexivity|lia]. }
    split; [exact Ha|].
    intros pkey d. unfold neigh_create. rewrite Ha. reflexivity.
  - intros Hs a ->.
    unfold neigh_alloc. rewrite Htrig, Hgc.
    destruct (Z.eqb_spec shrunk 0) as [|_]; [contradiction|]. simpl.
    eexists. split; [reflexivity|]. simpl. auto.
Qed.

(** ** The proxy table *)

Lemma memcmp_eq_memcpy pkey len : memcmp_eq (memcpy [] pkey len) pkey len = true.
Proof.
  unfold memcmp_eq, memcpy. apply bool_decide_eq_true.
  rewrite drop_nil, app_nil_r. apply take_idemp.
Qed.

Lemma pneigh_find_some tbl pkey d chain n :
  pneigh_find tbl pkey d chain = Some n ->
  In n chain /\ pneigh_match tbl pkey d n = true.
Proof.
  induction chain as [|m rest IH]; simpl; [discriminate|].
  destruct (pneigh_match tbl pkey d m) eqn:Hm.
  - intros [= <-]. auto.
  - intros H. destruct (IH H). auto.
Qed.

Lemma pneigh_find_none tbl pkey d chain :
  pneigh_find tbl pkey d chain = None ->
  forall n, In n chain -> pneigh_match tbl pkey d n = false.
Proof.
  induction chain as [|m rest IH]; simpl; [contradiction|].
  destruct (pneigh_match tbl pkey d m) eqn:Hm; [discriminate|].
  intros H n [<-|Hin]; auto.
Qed.

Lemma pneigh_match_spec tbl pkey d n :
  pneigh_match tbl pkey d n = true <->
  memcmp_eq (pn_key n) pkey (key_len tbl) = true /\
  (pn_dev n = d \/ pn_dev n = 0).
Proof.
  unfold pneigh_match. rewrite andb_true_iff, orb_true_iff, !Z.eqb_eq.
  reflexivity.
Qed.

(** C10: [pneigh_lookup] only returns an entry whose key equals the
    given key and whose device is the given one or NULL; the entry it
    returns was either already linked, in which case the table is left
    as it was, or is created because the create flag is set and no
    linked entry matches.  Hence an entry linked with a NULL device
    answers the lookups of its key for every device, and such a lookup
    creates nothing even with the create flag set. *)
Theorem pneigh_lookup_wildcard tbl pkey d creat mem :
  (forall n tbl',
     pneigh_lookup tbl pkey d creat mem = (Some n, tbl') ->
     memcmp_eq (pn_key n) pkey (key_len tbl) = true /\
     (pn_dev n = d \/ pn_dev n = 0) /\
     ((In n (pbucket tbl (pneigh_hash tbl pkey)) /\ tbl' = tbl) \/
      (creat <> 0 /\
       (forall m, In m (pbucket tbl (pneigh_hash tbl pkey)) ->
                  pneigh_match tbl pkey d m = false) /\
       pn_dev n = d /\ mem = Some (pn_addr n)))) /\
  (forall w,
     In w (pbucket tbl (pneigh_hash tbl pkey)) ->
     memcmp_eq (pn_key w) pkey (key_len tbl) = true ->
     pn_dev w = 0 ->
     exists n,
       pneigh_lookup tbl pkey d creat mem = (Some n, tbl) /\
       In n (pbucket tbl (pneigh_hash tbl pkey))).
Proof.
  split.
  - intros n tbl'. unfold pneigh_lookup.
    destruct (pneigh_find tbl pkey d (pbucket tbl (pneigh_hash tbl pkey)))
      as [m|] eqn:Hfind.
    + intros [= <- <-].
      destruct (pneigh_find_some _ _ _ _ _ Hfind) as [Hin Hm].
      apply pneigh_match_spec in Hm as [Hk Hd]. auto.
    + destruct (Z.eqb_spec creat 0) as [|Hc]; [discriminate|].
      destruct mem as [a|]; [|discriminate].
      destruct (pconstructor tbl) as [f|].
      * destruct (negb (f _ =? 0)); [discriminate|].
        intros [= <- <-]. simpl.
        split; [apply memcmp_eq_memcpy|]. split; [auto|].
        right. repeat split; auto.
        apply pneigh_find_none. exact Hfind.
      * intros [= <- <-]. simpl.
        split; [apply memcmp_eq_memcpy|]. split; [auto|].
        right. repeat split; auto.
        apply pneigh_find_none. exact Hfind.
  - intros w Hin Hk Hd. unfold pneigh_lookup.
    destruct (pneigh_find tbl pkey d (pbucket tbl (pneigh_hash tbl pkey)))
      as [m|] eqn:Hfind.
    + exists m. split; [reflexivity|].
      apply (pneigh_find_some _ _ _ _ _ Hfind).
    + pose proof (pneigh_find_none _ _ _ _ Hfind w Hin) as Hno.
      assert (pneigh_match tbl pkey d w = true)
        by (apply pneigh_match_spec; auto).
      congruence.
Qed.

(** ** Garbage collection *)

Lemma forced_gc_chain_unlinked chain now n :
  In n (snd (forced_gc_chain chain now)) ->
  exists n0, In n0 chain /\ n = set_dead n0 1 /\
             forced_gc_discard n0 now = true.
Proof.
  induction chain as [|m rest IH]; simpl; [contradiction|].
  destruct (forced_gc_chain rest now) as [kept gone].
  destruct (forced_gc_discard m now) eqn:Hd; simpl in *.
  - intros [<-|Hin].
    + exists m. auto.
    + destruct (IH Hin) as (n0 & H0 & H1 & H2). exists n0. auto.
  - intros Hin. destruct (IH Hin) as (n0 & H0 & H1 & H2). exists n0. auto.
Qed.

Lemma forced_gc_chain_kept chain now n :
  In n chain -> forced_gc_discard n now = false ->
  In n (fst (forced_gc_chain chain now)).
Proof.
  induction chain as [|m rest IH]; simpl; [contradiction|].
  destruct (forced_gc_chain rest now) as [kept gone].
  intros [->|Hin] Hd.
  - rewrite Hd. left. reflexivity.
  - destruct (forced_gc_discard m now); simpl in *; auto.
Qed.

Lemma periodic_chain_unlinked chain now n :
  In n (snd (periodic_chain chain now)) ->
  exists n0, In n0 chain /\ periodic_visit n0 now = inr n.
Proof.
  induction chain as [|m rest IH]; simpl; [contradiction|].
  destruct (periodic_chain rest now) as [kept gone].
  destruct (periodic_visit m now) as [m1|m1] eqn:Hv; simpl in *.
  - intros Hin. destruct (IH Hin) as (n0 & H0 & H1). exists n0. auto.
  - intros [<-|Hin].
    + exists m. auto.
    + destruct (IH Hin) as (n0 & H0 & H1). exists n0. auto.
Qed.

Lemma periodic_chain_kept chain now n n1 :
  In n chain -> periodic_visit n now = inl n1 ->
  In n1 (fst (periodic_chain chain now)).
Proof.
  induction chain as [|m rest IH]; simpl; [contradiction|].
  destruct (periodic_chain rest now) as [kept gone].
  intros [->|Hin] Hv.
  - rewrite Hv. left. reflexivity.
  - destruct (periodic_visit m now); simpl in *; auto.
Qed.

(** What [periodic_visit] requires of an entry it unlinks. *)
Lemma periodic_visit_unlinks n now n1 :
  periodic_visit n now = inr n1 ->
  n_addr n1 = n_addr n /\ dead n1 = 1 /\ refcnt n = 1 /\
  tst (nud_state n) NUD_PERMANENT = false /\
  tst (nud_state n) NUD_IN_TIMER = false.
Proof.
  unfold periodic_visit.
  destruct (tst (nud_state n) (Z.lor NUD_PERMANENT NUD_IN_TIMER)) eqn:Ht;
    [discriminate|].
  rewrite tst_lor in Ht. apply orb_false_iff in Ht as [Hp Hi].
  destruct (time_before (used n) (confirmed n)); simpl;
    match goal with
    | |- context [(refcnt n =? 1) && ?c] =>
      destruct (Z.eqb_spec (refcnt n) 1); [|discriminate];
      destruct c; [|discriminate]
    end; intros [= <-]; simpl; auto.
Qed.

Lemma periodic_sweep_unlinked tbl now n :
  In n (periodic_unlinked tbl now) ->
  exists n0,
    In n0 (linked tbl) /\ n_addr n = n_addr n0 /\ dead n = 1 /\
    refcnt n0 = 1 /\
    tst (nud_state n0) NUD_PERMANENT = false /\
    nud_state n0 <> NUD_INCOMPLETE.
Proof.
  intros Hin. unfold periodic_unlinked in Hin.
  apply in_concat in Hin as (gone & Hg & Hin).
  apply in_map_iff in Hg as (chain & <- & Hc).
  apply periodic_chain_unlinked in Hin as (n0 & H0 & Hv).
  apply periodic_visit_unlinks in Hv as (Ha & Hd & Href & Hperm & Htimer).
  exists n0. split.
  { unfold linked. apply in_concat. eauto. }
  repeat split; auto.
  intros Hinc. rewrite Hinc in Htimer. discriminate.
Qed.

Lemma periodic_sweep_keeps tbl now n0 :
  In n0 (linked tbl) ->
  1 < refcnt n0 \/
  tst (nud_state n0) NUD_PERMANENT = true \/
  nud_state n0 = NUD_INCOMPLETE ->
  exists n1,
    In n1 (linked (fst (periodic_sweep tbl now))) /\
    n_addr n1 = n_addr n0 /\ refcnt n1 = refcnt n0 /\
    nud_state n1 = nud_state n0 /\ dead n1 = dead n0.
Proof.
  intros Hin Hsafe. unfold linked in *. simpl.
  apply in_concat in Hin as (chain & Hc & Hin).
  destruct (periodic_visit n0 now) as [n1|n1] eqn:Hv.
  + exists n1. split.
    { apply in_concat. exists (fst (periodic_chain chain now)). split.
      - apply in_map_iff. eauto.
      - eapply periodic_chain_kept; eauto. }
    unfold periodic_visit in Hv.
    destruct (tst (nud_state n0) (Z.lor NUD_PERMANENT NUD_IN_TIMER)).
    { injection Hv as <-. auto. }
    destruct (time_before (used n0) (confirmed n0));
      match type of Hv with
      | (if ?c then _ else _) = _ => destruct c; [discriminate|]
      end; injection Hv as <-; auto.
  + apply periodic_visit_unlinks in Hv as (_ & _ & Href & Hperm & Htimer).
    destruct Hsafe as [H|[H|H]].
    * lia.
    * congruence.
    * rewrite H in Htimer. discriminate.
Qed.

(** Reading the parameters anew changes nothing else of an entry. *)
Lemma parms_reread_frame blocks n :
  let n' := parms_reread blocks n in
  n_addr n' = n_addr n /\ primary_key n' = primary_key n /\
  dev n' = dev n /\ refcnt n' = refcnt n /\ dead n' = dead n /\
  nud_state n' = nud_state n.
Proof.
  cbv zeta. unfold parms_reread.
  destruct (List.find _ blocks); cbn; auto 10.
Qed.

(** The refresh leaves the table as it is, or has every linked entry
    read its parameters anew. *)
Lemma periodic_refresh_linked tbl rnd now tbl1 :
  periodic_refresh tbl rnd now = Some tbl1 ->
  key_len tbl1 = key_len tbl /\ hash tbl1 = hash tbl /\
  constructor tbl1 = constructor tbl /\
  parms_neigh_setup tbl1 = parms_neigh_setup tbl /\
  entries tbl1 = entries tbl /\ gc_interval tbl1 = gc_interval tbl /\
  exists blocks,
    hash_buckets tbl1 = map (map (parms_reread blocks)) (hash_buckets tbl) /\
    linked tbl1 = map (parms_reread blocks) (linked tbl).
Proof.
  unfold periodic_refresh.
  destruct (time_after now (ulong (last_rand tbl + 300 * HZ))).
  - destruct (parms_refresh rnd (tbl_parms tbl)) as [p|]; [|discriminate].
    destruct (parms_refresh_all rnd (parms_next tbl)) as [rest|];
      [|discriminate].
    intros [= <-]. cbn. repeat split.
    exists (p :: rest). split; [reflexivity|].
    unfold linked. cbn. symmetry. apply concat_map.
  - intros [= <-]. repeat split. exists [].
    assert (Hid : forall c : list neighbour, map (parms_reread []) c = c).
    { intros c. induction c as [|x c IH]; [reflexivity|].
      cbn [map]. rewrite IH. reflexivity. }
    split.
    + induction (hash_buckets tbl) as [|c l IH]; [reflexivity|].
      cbn [map]. rewrite Hid, <- IH. reflexivity.
    + symmetry. apply Hid.
Qed.

(** The refresh divides by zero only. *)
Lemma periodic_refresh_total tbl rnd now :
  time_after now (ulong (last_rand tbl + 300 * HZ)) = false \/
  Forall (fun p => ulong (base_reachable_time p) <> 0)
         (tbl_parms tbl :: parms_next tbl) ->
  exists tbl1, periodic_refresh tbl rnd now = Some tbl1.
Proof.
  unfold periodic_refresh. intros [-> | Hall]; [eauto|].
  destruct (time_after now (ulong (last_rand tbl + 300 * HZ))); [|eauto].
  assert (Hone : forall p, ulong (base_reachable_time p) <> 0 ->
                           exists p1, parms_refresh rnd p = Some p1).
  { intros p Hp. unfold parms_refresh, neigh_rand_reach_time.
    destruct (Z.eqb_spec (ulong (base_reachable_time p)) 0) as [|_];
      [contradiction|eauto]. }
  apply Forall_cons_1 in Hall as [Hp Hrest].
  destruct (Hone _ Hp) as [p1 ->].
  assert (Hall : exists rest, parms_refresh_all rnd (parms_next tbl) = Some rest).
  { induction Hrest as [|q l Hq _ IH]; [cbn; eauto|].
    cbn [parms_refresh_all]. destruct (Hone _ Hq) as [q1 ->].
    destruct IH as [rest ->]. eauto. }
  destruct Hall as [rest ->]. eauto.
Qed.

Lemma neigh_periodic_timer_run tbl rnd now tbl' tr expires :
  neigh_periodic_timer tbl rnd now = Some (tbl', tr, expires) ->
  exists tbl1,
    periodic_refresh tbl rnd now = Some tbl1 /\
    tbl' = fst (periodic_sweep tbl1 now) /\
    tr = release_all (periodic_unlinked tbl1 now) /\
    expires = ulong (now + gc_interval tbl).
Proof.
  unfold neigh_periodic_timer.
  destruct (periodic_refresh tbl rnd now) as [tbl1|] eqn:Hr; [|discriminate].
  apply periodic_refresh_linked in Hr as Hl.
  destruct Hl as (_ & _ & _ & _ & _ & Hg & _).
  intros [= <- <- <-]. exists tbl1. rewrite Hg. auto.
Qed.

(** C6: neither collector unlinks an entry that somebody else still
    references, a PERMANENT entry, or an INCOMPLETE entry inside its
    retransmit-time window.  Every entry [neigh_forced_gc] unlinks had
    [refcnt == 1], was not PERMANENT and, if INCOMPLETE, was last used
    more than [retrans_time] ago; every entry [neigh_periodic_timer]
    unlinks had [refcnt == 1] and was neither PERMANENT nor INCOMPLETE.
    An entry outside these conditions is still linked afterwards.  A
    run of [neigh_periodic_timer] is the refresh of the reachable times
    when it is due, then the sweep; it completes unless a refresh that
    is due divides by a zero [base_reachable_time]. *)
Theorem gc_safety tbl now :
  (forall n, In n (forced_gc_unlinked tbl now) ->
     exists n0,
       In n0 (linked tbl) /\ n = set_dead n0 1 /\
       refcnt n0 = 1 /\
       tst (nud_state n0) NUD_PERMANENT = false /\
       (nud_state n0 = NUD_INCOMPLETE ->
        time_after now (ulong (used n0 + retrans_time (parms n0))) = true)) /\
  (forall n0, In n0 (linked tbl) ->
     1 < refcnt n0 \/
     tst (nud_state n0) NUD_PERMANENT = true \/
     (nud_state n0 = NUD_INCOMPLETE /\
      time_after now (ulong (used n0 + retrans_time (parms n0))) = false) ->
     In n0 (linked (snd (fst (neigh_forced_gc tbl now))))) /\
  (forall rnd tbl' tr expires,
     neigh_periodic_timer tbl rnd now = Some (tbl', tr, expires) ->
     exists tbl1,
       periodic_refresh tbl rnd now = Some tbl1 /\
       tr = release_all (periodic_unlinked tbl1 now) /\
       forall n, In n (periodic_unlinked tbl1 now) ->
         exists n0,
           In n0 (linked tbl) /\ n_addr n = n_addr n0 /\ dead n = 1 /\
           refcnt n0 = 1 /\
           tst (nud_state n0) NUD_PERMANENT = false /\
           nud_state n0 <> NUD_INCOMPLETE) /\
  (forall rnd tbl' tr expires,
     neigh_periodic_timer tbl rnd now = Some (tbl', tr, expires) ->
     forall n0, In n0 (linked tbl) ->
       1 < refcnt n0 \/
       tst (nud_state n0) NUD_PERMANENT = true \/
       nud_state n0 = NUD_INCOMPLETE ->
       exists n1,
         In n1 (linked tbl') /\
         n_addr n1 = n_addr n0 /\ refcnt n1 = refcnt n0 /\
         nud_state n1 = nud_state n0 /\ dead n1 = dead n0) /\
  (forall rnd,
     time_after now (ulong (last_rand tbl + 300 * HZ)) = false \/
     Forall (fun p => ulong (base_reachable_time p) <> 0)
            (tbl_parms tbl :: parms_next tbl) ->
     exists tbl' tr expires,
       neigh_periodic_timer tbl rnd now = Some (tbl', tr, expires)).
Proof.
  split; [|split; [|split; [|split]]].
  - intros n Hin. unfold forced_gc_unlinked in Hin.
    apply in_concat in Hin as (gone & Hg & Hin).
    apply in_map_iff in Hg as (chain & <- & Hc).
    apply forced_gc_chain_unlinked in Hin as (n0 & H0 & -> & Hd).
    exists n0. split.
    { unfold linked. apply in_concat. eauto. }
    split; [reflexivity|].
    unfold forced_gc_discard in Hd.
    apply andb_true_iff in Hd as [Hd Hgrace].
    apply andb_true_iff in Hd as [Href Hperm].
    apply Z.eqb_eq in Href. apply negb_true_iff in Hperm.
    repeat split; auto.
    intros Hinc. rewrite Hinc in Hgrace. simpl in Hgrace. exact Hgrace.
  - intros n0 Hin Hsafe. unfold linked in *. simpl.
    apply in_concat in Hin as (chain & Hc & Hin).
    apply in_concat. exists (fst (forced_gc_chain chain now)). split.
    { apply in_map_iff. eauto. }
    apply forced_gc_chain_kept; [exact Hin|].
    unfold forced_gc_discard.
    destruct Hsafe as [Href|[Hperm|[Hinc Hgrace]]].
    + destruct (Z.eqb_spec (refcnt n0) 1); [lia|]. reflexivity.
    + rewrite Hperm. apply andb_false_iff. left. apply andb_false_r.
    + rewrite Hinc, Hgrace. simpl. apply andb_false_r.
  - intros rnd tbl' tr expires Hrun.
    apply neigh_periodic_timer_run in Hrun as (tbl1 & Hr & _ & Htr & _).
    exists tbl1. split; [exact Hr|]. split; [exact Htr|].
    intros n Hin.
    apply periodic_sweep_unlinked in Hin
      as (m & Hm & Ha & Hd & Href & Hperm & Hinc).
    apply periodic_refresh_linked in Hr
      as (_ & _ & _ & _ & _ & _ & blocks & _ & Hl).
    rewrite Hl in Hm. apply in_map_iff in Hm as (n0 & <- & Hn0).
    destruct (parms_reread_frame blocks n0) as (Ea & _ & _ & Er & _ & Es).
    exists n0. rewrite <- Ea, <- Er, <- Es. auto 10.
  - intros rnd tbl' tr expires Hrun n0 Hin Hsafe.
    apply neigh_periodic_timer_run in Hrun as (tbl1 & Hr & -> & _ & _).
    apply periodic_refresh_linked in Hr
      as (_ & _ & _ & _ & _ & _ & blocks & _ & Hl).
    destruct (parms_reread_frame blocks n0) as (Ea & _ & _ & Er & Ed & Es).
    destruct (periodic_sweep_keeps tbl1 now (parms_reread blocks n0))
      as (n1 & Hn1 & Ha1 & Hr1 & Hs1 & Hd1).
    { rewrite Hl. apply in_map. exact Hin. }
    { rewrite Er, Es. exact Hsafe. }
    exists n1. split; [exact Hn1|]. repeat split; congruence.
  - intros rnd Hdue.
    destruct (periodic_refresh_total tbl rnd now Hdue) as [tbl1 Hr].
    unfold neigh_periodic_timer. rewrite Hr.
    destruct (periodic_sweep tbl1 now) as [tbl2 tr]. eauto.
Qed.

(** ** Uniqueness of linked entries *)

Lemma neigh_match_key_dev tbl pkey d n :
  neigh_match tbl pkey d n = true <-> key_dev tbl n = (key_of tbl pkey, d).
Proof.
  unfold neigh_match, key_dev, memcmp_eq, key_of.
  rewrite andb_true_iff, Z.eqb_eq, bool_decide_eq_true.
  split.
  - intros [-> ->]. reflexivity.
  - intros [= -> ->]. auto.
Qed.

Lemma hash_val_key tbl pkey d :
  hash_val tbl (key_of tbl pkey) d = hash_val tbl pkey d.
Proof. unfold hash_val, key_of. rewrite take_idemp. reflexivity. Qed.

Lemma key_dev_hash tbl n pkey d :
  key_dev tbl n = (key_of tbl pkey, d) ->
  hash_val tbl (primary_key n) (dev_ptr (dev n)) = hash_val tbl pkey d.
Proof.
  unfold key_dev. intros [= Hk ->].
  rewrite <- (hash_val_key tbl (primary_key n)), Hk. apply hash_val_key.
Qed.

Lemma hash_val_bound tbl pkey d :
  (hash_val tbl pkey d < Z.to_nat (NEIGH_HASHMASK + 1))%nat.
Proof.
  unfold hash_val.
  change NEIGH_HASHMASK with (Z.ones 5).
  rewrite Z.land_ones by lia.
  pose proof (Z.mod_pos_bound (hash tbl (key_of tbl pkey) d) (2 ^ 5)).
  change (Z.ones 5 + 1) with 32. lia.
Qed.

Lemma NoDup_map_inj {A B} (f : A -> B) (l : list A) x y :
  NoDup (map f l) -> x ∈ l -> y ∈ l -> f x = f y ->
  forall i j, l !! i = Some x -> l !! j = Some y -> i = j.
Proof.
  intros Hnd _ _ Hf i j Hi Hj.
  eapply NoDup_lookup; [exact Hnd| |].
  - rewrite list_lookup_fmap, Hi. reflexivity.
  - change (map f l) with (f <$> l). rewrite list_lookup_fmap, Hj. simpl.
    congruence.
Qed.

Lemma NoDup_map_eq {A B} (f : A -> B) (l : list A) x y :
  NoDup (map f l) -> x ∈ l -> y ∈ l -> f x = f y -> x = y.
Proof.
  intros Hnd Hx Hy Hf.
  apply list_elem_of_lookup in Hx as [i Hi].
  apply list_elem_of_lookup in Hy as [j Hj].
  assert (i = j) by (eapply (NoDup_map_inj f l x y); eauto;
                     eapply list_elem_of_lookup_2; eauto).
  subst. congruence.
Qed.

Lemma chain_shrink_keys tbl c c' :
  chain_shrink c c' ->
  forall k, k ∈ map (key_dev tbl) c' -> k ∈ map (key_dev tbl) c.
Proof.
  induction 1 as [|n c c' Hs IH|n n' c c' (Hk & Hd & _) Hs IH]; intros k Hin.
  - exact Hin.
  - simpl. apply elem_of_cons. right. auto.
  - simpl in *. apply elem_of_cons in Hin as [->|Hin]; apply elem_of_cons.
    + left. unfold key_dev. rewrite Hk, Hd. reflexivity.
    + right. auto.
Qed.

Lemma chain_shrink_ok tbl i c c' :
  chain_shrink c c' -> chain_ok tbl i c -> chain_ok tbl i c'.
Proof.
  induction 1 as [|n c c' Hs IH|n n' c c' Hkept Hs IH]; intros [Hnd Hall].
  - split; constructor.
  - simpl in Hnd. apply NoDup_cons in Hnd as [_ Hnd].
    apply Forall_cons in Hall as [_ Hall]. apply IH. split; assumption.
  - simpl in Hnd. apply NoDup_cons in Hnd as [Hnin Hnd].
    apply Forall_cons in Hall as [(Hd & Hr & Hh) Hall].
    destruct (IH (conj Hnd Hall)) as [Hnd' Hall'].
    pose proof Hkept as (Hk & Hdev & Hdead & Href).
    split.
    + simpl. apply NoDup_cons. split; [|exact Hnd'].
      intros Hin. apply Hnin.
      apply (chain_shrink_keys tbl _ _ Hs).
      unfold key_dev in *. rewrite <- Hk, <- Hdev. exact Hin.
    + apply Forall_cons. split; [|exact Hall'].
      rewrite Hk, Hdev, Hdead. auto.
Qed.

Lemma chain_shrink_refl c : chain_shrink c c.
Proof.
  induction c as [|n c IH]; constructor; [|exact IH].
  unfold entry_kept. auto.
Qed.

Lemma forced_gc_chain_shrink c now :
  chain_shrink c (fst (forced_gc_chain c now)).
Proof.
  induction c as [|n c IH]; simpl; [constructor|].
  destruct (forced_gc_chain c now) as [kept gone].
  destruct (forced_gc_discard n now); simpl in *.
  - now apply shrink_drop.
  - apply shrink_keep; [unfold entry_kept; auto | exact IH].
Qed.

Lemma periodic_visit_kept n now n1 :
  periodic_visit n now = inl n1 -> entry_kept n n1.
Proof.
  unfold periodic_visit, entry_kept.
  destruct (tst _ _); [intros [= <-]; auto|].
  destruct (time_before _ _);
    match goal with
    | |- (if ?c then _ else _) = _ -> _ => destruct c; [discriminate|]
    end; intros [= <-]; simpl; auto.
Qed.

Lemma periodic_chain_shrink c now :
  chain_shrink c (fst (periodic_chain c now)).
Proof.
  induction c as [|n c IH]; simpl; [constructor|].
  destruct (periodic_chain c now) as [kept gone].
  destruct (periodic_visit n now) as [n1|n1] eqn:Hv; simpl in *.
  - apply shrink_keep; [eapply periodic_visit_kept; eauto | exact IH].
  - now apply shrink_drop.
Qed.

Lemma dev_chain_shrink unlink c d :
  chain_shrink c (fst (dev_chain unlink c d)).
Proof.
  induction c as [|n c IH]; simpl; [constructor|].
  destruct (dev_chain unlink c d) as [kept tr].
  destruct (negb (d =? 0) && negb (dev_ptr (dev n) =? d)); simpl in *.
  - apply shrink_keep; [unfold entry_kept; auto | exact IH].
  - destruct (unlink n) as [n1 tr1]. simpl. now apply shrink_drop.
Qed.

Lemma chain_find_hold_none tbl pkey d c :
  chain_find_hold tbl pkey d c = None ->
  forall n, n ∈ c -> neigh_match tbl pkey d n = false.
Proof.
  induction c as [|m c IH]; simpl; intros H n Hin.
  - apply elem_of_nil in Hin. contradiction.
  - destruct (neigh_match tbl pkey d m) eqn:Hm; [discriminate|].
    destruct (chain_find_hold tbl pkey d c) as [[n1 c1]|]; [discriminate|].
    apply elem_of_cons in Hin as [->|Hin]; auto.
Qed.

Lemma chain_find_hold_some tbl pkey d c n1 c' :
  chain_find_hold tbl pkey d c = Some (n1, c') ->
  exists n0,
    n0 ∈ c /\ neigh_match tbl pkey d n0 = true /\ n1 = neigh_hold n0 /\
    n1 ∈ c' /\ chain_shrink c c' /\
    map n_addr c' = map n_addr c.
Proof.
  revert c'. induction c as [|m c IH]; simpl; intros c'; [discriminate|].
  destruct (neigh_match tbl pkey d m) eqn:Hm.
  - intros [= <- <-]. exists m. repeat split; auto.
    + apply elem_of_cons. auto.
    + apply elem_of_cons. auto.
    + apply shrink_keep; [|apply chain_shrink_refl].
      unfold entry_kept. simpl. repeat split; auto. lia.
  - destruct (chain_find_hold tbl pkey d c) as [[n2 c2]|] eqn:Hf;
      [|discriminate].
    intros [= <- <-].
    destruct (IH c2 eq_refl) as (n0 & Hin & Hmatch & -> & Hin' & Hs & Ha).
    exists n0. repeat split; auto.
    + apply elem_of_cons. auto.
    + apply elem_of_cons. auto.
    + apply shrink_keep; [unfold entry_kept; auto | exact Hs].
    + simpl. rewrite Ha. reflexivity.
Qed.

Lemma chain_shrink_insert c k n n' :
  c !! k = Some n -> entry_kept n n' -> chain_shrink c (<[k := n']> c).
Proof.
  revert k. induction c as [|m c IH]; intros k Hk Hkept; [discriminate|].
  destruct k as [|k]; simpl in *.
  - injection Hk as ->. apply shrink_keep; [exact Hkept|].
    apply chain_shrink_refl.
  - apply shrink_keep; [unfold entry_kept; auto|]. now apply IH.
Qed.

Lemma Forall2_map_self {A} (P : A -> A -> Prop) (f : A -> A) (l : list A) :
  (forall x, P x (f x)) -> Forall2 P l (map f l).
Proof. intros H. induction l; simpl; constructor; auto. Qed.

Lemma Forall2_insert_self {A} (P : A -> A -> Prop) (l : list A) i x y :
  (forall z, P z z) -> l !! i = Some x -> P x y ->
  Forall2 P l (<[i := y]> l).
Proof.
  intros Hrefl. revert i. induction l as [|z l IH]; intros i Hi Hxy;
    [discriminate|].
  destruct i as [|i]; simpl in *.
  - injection Hi as ->. constructor; [exact Hxy|].
    clear IH. induction l; constructor; auto.
  - constructor; auto.
Qed.

Lemma chain_ok_ext tbl tbl' i c :
  key_len tbl' = key_len tbl -> hash tbl' = hash tbl ->
  chain_ok tbl i c -> chain_ok tbl' i c.
Proof.
  intros Hk Hh [Hnd Hall]. split.
  - replace (map (key_dev tbl') c) with (map (key_dev tbl) c); [exact Hnd|].
    apply map_ext. intros n. unfold key_dev, key_of. rewrite Hk. reflexivity.
  - eapply Forall_impl; [exact Hall|]. intros n (Hd & Hr & Hv).
    repeat split; auto.
    unfold hash_val, key_of in *. rewrite Hk, Hh. exact Hv.
Qed.

(** A table whose buckets shrink stays in order. *)
Lemma tbl_ok_shrink tbl tbl' :
  key_len tbl' = key_len tbl -> hash tbl' = hash tbl ->
  constructor tbl' = constructor tbl ->
  parms_neigh_setup tbl' = parms_neigh_setup tbl ->
  Forall2 chain_shrink (hash_buckets tbl) (hash_buckets tbl') ->
  tbl_ok tbl -> tbl_ok tbl'.
Proof.
  intros Hk Hh Hc Hp Hf (Hlen & Hc1 & Hc2 & Hall).
  split; [|split; [|split]].
  - rewrite <- Hlen. symmetry. eapply Forall2_length. exact Hf.
  - rewrite Hc. exact Hc1.
  - rewrite Hp. exact Hc2.
  - intros i c' Hi.
    destruct (Forall2_lookup_r _ _ _ _ _ Hf Hi) as (c & Hci & Hs).
    apply (chain_ok_ext tbl tbl'); auto.
    eapply chain_shrink_ok; eauto.
Qed.

Lemma linked_lookup tbl n :
  n ∈ linked tbl <->
  exists i c, hash_buckets tbl !! i = Some c /\ n ∈ c.
Proof.
  unfold linked. rewrite list_elem_of_In, in_concat. split.
  - intros (c & Hc & Hn). apply list_elem_of_In in Hc, Hn.
    apply list_elem_of_lookup in Hc as [i Hi]. eauto.
  - intros (i & c & Hi & Hn). exists c. split; apply list_elem_of_In; auto.
    eapply list_elem_of_lookup_2; eauto.
Qed.

Lemma filter_nil_all {A} (P : A -> bool) (l : list A) :
  (forall x, x ∈ l -> P x = false) -> List.filter P l = [].
Proof.
  induction l as [|x l IH]; intros H; simpl; [reflexivity|].
  rewrite (H x) by (apply elem_of_cons; auto).
  apply IH. intros y Hy. apply H. apply elem_of_cons. auto.
Qed.

Lemma filter_concat_nil {A} (P : A -> bool) (l : list (list A)) :
  (forall i c, l !! i = Some c -> List.filter P c = []) ->
  List.filter P (concat l) = [].
Proof.
  induction l as [|c l IH]; intros H; simpl; [reflexivity|].
  rewrite List.filter_app, (H 0%nat c eq_refl). simpl.
  apply IH. intros i c' Hi. apply (H (S i) c' Hi).
Qed.

Lemma filter_concat_le1 {A} (P : A -> bool) (l : list (list A)) h :
  (forall i c, l !! i = Some c -> i <> h -> List.filter P c = []) ->
  (forall c, l !! h = Some c -> (length (List.filter P c) <= 1)%nat) ->
  (length (List.filter P (concat l)) <= 1)%nat.
Proof.
  revert h. induction l as [|c l IH]; intros h Hother Hh; simpl; [lia|].
  rewrite List.filter_app, length_app.
  destruct h as [|h].
  - rewrite (filter_concat_nil P l).
    + specialize (Hh c eq_refl). simpl. lia.
    + intros i c' Hi. apply (Hother (S i) c' Hi). lia.
  - rewrite (Hother 0%nat c eq_refl) by lia. simpl.
    apply (IH h).
    + intros i c' Hi Hne. apply (Hother (S i) c' Hi). lia.
    + intros c' Hc'. apply (Hh c' Hc').
Qed.

Lemma filter_key_le1 {A B} (f : A -> B) (P : A -> bool) (k : B) (l : list A) :
  NoDup (map f l) -> (forall x, P x = true -> f x = k) ->
  (length (List.filter P l) <= 1)%nat.
Proof.
  intros Hnd HP. induction l as [|x l IH]; simpl; [lia|].
  simpl in Hnd. apply NoDup_cons in Hnd as [Hnin Hnd].
  destruct (P x) eqn:Hx; [|auto].
  rewrite filter_nil_all; [simpl; lia|].
  intros y Hy. destruct (P y) eqn:Hpy; [|reflexivity].
  exfalso. apply Hnin. rewrite (HP x Hx), <- (HP y Hpy).
  apply list_elem_of_In, in_map, list_elem_of_In. exact Hy.
Qed.

(** In a table that is in order at most one live entry is linked for a
    key and a device. *)
Lemma tbl_ok_unique tbl pkey d :
  tbl_ok tbl -> (length (live_matches tbl pkey d) <= 1)%nat.
Proof.
  intros (_ & _ & _ & Hall). unfold live_matches, linked.
  apply (filter_concat_le1 _ _ (hash_val tbl pkey d)).
  - intros i c Hi Hne. apply filter_nil_all. intros n Hn.
    destruct (neigh_match tbl pkey d n) eqn:Hm; [|reflexivity].
    exfalso. apply Hne.
    destruct (Hall i c Hi) as [_ Hf].
    rewrite Forall_forall in Hf. destruct (Hf n Hn) as (_ & _ & <-).
    apply key_dev_hash. apply neigh_match_key_dev. exact Hm.
  - intros c Hc. destruct (Hall _ c Hc) as [Hnd _].
    apply (filter_key_le1 (key_dev tbl) _ (key_of tbl pkey, d)); [exact Hnd|].
    intros n Hn. apply andb_true_iff in Hn as [Hm _].
    apply neigh_match_key_dev. exact Hm.
Qed.

Lemma live_matches_elem tbl pkey d n :
  n ∈ live_matches tbl pkey d <->
  n ∈ linked tbl /\ neigh_match tbl pkey d n = true /\ dead n = 0.
Proof.
  unfold live_matches.
  rewrite !list_elem_of_In, List.filter_In, andb_true_iff, Z.eqb_eq.
  reflexivity.
Qed.

Lemma live_matches_single tbl pkey d n :
  tbl_ok tbl -> n ∈ linked tbl -> neigh_match tbl pkey d n = true ->
  dead n = 0 -> live_matches tbl pkey d = [n].
Proof.
  intros Hok Hin Hm Hd.
  pose proof (tbl_ok_unique tbl pkey d Hok) as Hlen.
  assert (Hn : n ∈ live_matches tbl pkey d)
    by (apply live_matches_elem; auto).
  destruct (live_matches tbl pkey d) as [|x [|y l]]; simpl in Hlen.
  - apply elem_of_nil in Hn. contradiction.
  - apply list_elem_of_singleton in Hn. subst. reflexivity.
  - lia.
Qed.

(** ** The entry's own operations keep its identity *)

Lemma held_refl n : entry_held 0 n n.
Proof. unfold entry_held. repeat split; lia. Qed.

Lemma held_frame n n' :
  primary_key n' = primary_key n -> dev n' = dev n -> dead n' = dead n ->
  refcnt n <= refcnt n' -> entry_held 0 n n'.
Proof. unfold entry_held. intros -> -> -> H. repeat split; lia. Qed.

Lemma held_trans a b n m p :
  entry_held a n m -> entry_held b m p -> entry_held (a + b) n p.
Proof.
  unfold entry_held. intros (-> & -> & -> & H1) (-> & -> & -> & H2).
  repeat split; lia.
Qed.

Lemma held_weaken a b n m : a <= b -> entry_held a n m -> entry_held b n m.
Proof.
  unfold entry_held. intros Hab (-> & -> & -> & H). repeat split; lia.
Qed.

Lemma held_kept n n' : entry_held 1 n n' -> 2 <= refcnt n -> entry_kept n n'.
Proof.
  unfold entry_held, entry_kept. intros (-> & -> & -> & H) H2.
  repeat split; lia.
Qed.

Lemma held0_kept n n' : entry_held 0 n n' -> entry_kept n n'.
Proof.
  unfold entry_held, entry_kept. intros (-> & -> & -> & H).
  repeat split; lia.
Qed.

Lemma neigh_del_timer_held1 n :
  (timer n <> None -> 2 <= refcnt n) ->
  entry_held 1 n (fst (fst (neigh_del_timer n))) /\
  (timer n = None -> fst (fst (neigh_del_timer n)) = n).
Proof.
  intros Hheld. unfold neigh_del_timer.
  destruct (tst (nud_state n) NUD_IN_TIMER); simpl;
    [|split; [apply held_weaken with 0; [lia|apply held_refl]|reflexivity]].
  case_bool_decide as Ht; simpl;
    [|split; [apply held_weaken with 0; [lia|apply held_refl]|reflexivity]].
  split; [|intros Hn; contradiction].
  specialize (Hheld Ht). unfold neigh_release_timer. simpl.
  destruct (Z.eqb_spec (refcnt n - 1) 0) as [Hz|Hz]; [lia|].
  simpl. unfold entry_held. simpl. repeat split; lia.
Qed.

Lemma neigh_release_held1 n :
  2 <= refcnt n -> entry_held 1 n (fst (neigh_release n)).
Proof.
  intros Hheld. unfold neigh_release. simpl.
  destruct (Z.eqb_spec (refcnt n - 1) 0) as [Hz|Hz]; [lia|].
  simpl. unfold entry_held. simpl. repeat split; lia.
Qed.

(** A protocol callback that keeps the identity of the entry it is
    given and releases no reference of it. *)
Lemma timer_report_loop_held :
  (forall m s, entry_held 0 m (error_report m s)) ->
  forall fuel n n' tr,
    timer_report_loop fuel n = Some (n', tr) -> entry_held 0 n n'.
Proof.
  intros Hcb fuel. induction fuel as [|fuel IH]; intros n n' tr;
    [discriminate|].
  simpl. destruct (nud_state n =? NUD_FAILED);
    [|intros [= <- _]; apply held_refl].
  destruct (arp_queue n) as [|skb rest] eqn:Hq; simpl;
    [intros [= <- _]; apply held_refl|].
  destruct (timer_report_loop fuel (error_report (set_arp_queue n rest) skb))
    as [[m tr0]|] eqn:Hrun; [|discriminate].
  intros [= <- _].
  apply (held_trans 0 0 n (error_report (set_arp_queue n rest) skb) m);
    [|eapply IH; exact Hrun].
  apply (held_trans 0 0 n (set_arp_queue n rest)); [|apply Hcb].
  apply held_frame; reflexivity || (simpl; lia).
Qed.

Lemma update_xmit_loop_held :
  (forall t m s, entry_held 0 m (output_call t m s)) ->
  forall fuel n n' tr,
    update_xmit_loop fuel n = Some (n', tr) -> entry_held 0 n n'.
Proof.
  intros Hcb fuel. induction fuel as [|fuel IH]; intros n n' tr;
    [discriminate|].
  simpl. destruct (tst (nud_state n) NUD_VALID);
    [|intros [= <- _]; apply held_refl].
  destruct (arp_queue n) as [|skb rest] eqn:Hq; simpl;
    [intros [= <- _]; apply held_refl|].
  destruct (update_xmit_loop fuel
              (output_call (xmit_target n skb) (set_arp_queue n rest) skb))
    as [[m tr0]|] eqn:Hrun; [|discriminate].
  intros [= <- _].
  apply (held_trans 0 0 n
           (output_call (xmit_target n skb) (set_arp_queue n rest) skb) m);
    [|eapply IH; exact Hrun].
  apply (held_trans 0 0 n (set_arp_queue n rest)); [|apply Hcb].
  apply held_frame; reflexivity || (simpl; lia).
Qed.

Lemma event_send_held neigh skb now :
  entry_held 0 neigh (fst (fst (__neigh_event_send neigh skb now))).
Proof.
  unfold __neigh_event_send, neigh_hold.
  repeat match goal with
         | |- context [if ?c then _ else _] => destruct c
         | |- context [match ?c with Some _ => _ | None => _ end] =>
           destruct c
         | |- context [match ?c with [] => _ | _ :: _ => _ end] =>
           destruct c
         end; simpl; apply held_frame; simpl; reflexivity || lia.
Qed.

Lemma timer_handler_held fuel neigh now n' tr :
  (forall m s, entry_held 0 m (error_report m s)) ->
  (forall m s, entry_held 0 m (solicit m s)) ->
  2 <= refcnt neigh ->
  neigh_timer_handler fuel neigh now = Some (n', tr) ->
  entry_held 1 neigh n'.
Proof.
  intros Her Hso Hheld. unfold neigh_timer_handler.
  assert (H0 : entry_held 0 neigh (set_timer neigh None))
    by (apply held_frame; simpl; reflexivity || lia).
  destruct (negb (tst (nud_state (set_timer neigh None)) NUD_IN_TIMER)).
  { pose proof (neigh_release_held1 (set_timer neigh None) Hheld) as Hr.
    destruct (neigh_release (set_timer neigh None)) as [m tr0].
    intros [= <- _]. exact (held_trans 0 1 _ _ _ H0 Hr). }
  destruct (timer_transition (set_timer neigh None)
              (nud_state (set_timer neigh None)) now) as [n1 next] eqn:Htr.
  assert (H1 : entry_held 0 neigh n1).
  { unfold timer_transition in Htr.
    repeat match type of Htr with
           | (if ?c then _ else _) = _ => destruct c
           end; injection Htr as <- _;
      apply held_frame; simpl; reflexivity || lia. }
  destruct (timer_probe_failure fuel n1) as [[n2 tr2]|] eqn:Hf; [|discriminate].
  assert (H2 : entry_held 0 neigh n2).
  { unfold timer_probe_failure in Hf.
    destruct (_ && _); [|injection Hf as <- _; exact H1].
    destruct (timer_report_loop fuel (set_nud_state n1 NUD_FAILED))
      as [[m tr0]|] eqn:Hrun; [|discriminate].
    injection Hf as <- _.
    apply (held_trans 0 0 _ _ _ H1).
    apply (held_trans 0 0 _ (set_nud_state n1 NUD_FAILED));
      [apply held_frame; simpl; reflexivity || lia|].
    apply (held_trans 0 0 _ m);
      [eapply timer_report_loop_held; eauto|].
    apply held_frame; simpl; reflexivity || lia. }
  assert (H3 : entry_held 0 neigh (timer_rearm n2 next now)).
  { apply (held_trans 0 0 _ _ _ H2). unfold timer_rearm, neigh_hold.
    destruct (tst _ _); apply held_frame; simpl; reflexivity || lia. }
  destruct (timer_solicit (timer_rearm n2 next now)) as [n4 tr4] eqn:Hs.
  assert (H4 : entry_held 0 neigh n4).
  { unfold timer_solicit in Hs.
    destruct (tst _ _); injection Hs as <- _; [|exact H3].
    apply (held_trans 0 0 _ _ _ H3).
    eapply (held_trans 0 0); [apply Hso|].
    apply held_frame; simpl; reflexivity || lia. }
  assert (Hheld4 : 2 <= refcnt n4).
  { destruct H4 as (_ & _ & _ & H4). lia. }
  pose proof (neigh_release_held1 n4 Hheld4) as Hr.
  destruct (neigh_release n4) as [n5 tr5].
  intros [= <- _]. exact (held_trans 0 1 _ _ _ H4 Hr).
Qed.

Lemma update_out_held n uir flgs : entry_held 0 n (update_out n uir flgs).
Proof.
  unfold update_out. destruct (uir =? 0); [apply held_refl|].
  apply held_frame; simpl; reflexivity || lia.
Qed.

Lemma neigh_update_held fuel neigh lladdr new flgs now n' tr err :
  (forall t m s, entry_held 0 m (output_call t m s)) ->
  (timer neigh <> None -> 2 <= refcnt neigh) ->
  neigh_update fuel neigh lladdr new flgs now = Some (n', tr, err) ->
  entry_held 1 neigh n' /\ (timer neigh = None -> entry_held 0 neigh n').
Proof.
  intros Hcb Hheld. unfold neigh_update.
  assert (Hboth : forall a m, entry_held 1 neigh a /\
                    (timer neigh = None -> entry_held 0 neigh a) ->
                    entry_held 0 a m ->
                    entry_held 1 neigh m /\
                    (timer neigh = None -> entry_held 0 neigh m)).
  { intros a m [Ha Ha0] Hm. split.
    - exact (held_trans 1 0 _ _ _ Ha Hm).
    - intros Ht. exact (held_trans 0 0 _ _ _ (Ha0 Ht) Hm). }
  assert (Hrefl : entry_held 1 neigh neigh /\
                  (timer neigh = None -> entry_held 0 neigh neigh)).
  { split; [apply held_weaken with 0; [lia|]|intros _]; apply held_refl. }
  assert (Hdel : forall n2, timer n2 = timer neigh -> refcnt n2 = refcnt neigh ->
                   entry_held 0 neigh n2 ->
                   entry_held 1 neigh (fst (fst (neigh_del_timer n2))) /\
                   (timer neigh = None ->
                    entry_held 0 neigh (fst (fst (neigh_del_timer n2))))).
  { intros n2 Ht Hr H2.
    destruct (neigh_del_timer_held1 n2) as [Hd Hd0].
    { rewrite Ht, Hr. exact Hheld. }
    split.
    - exact (held_trans 0 1 _ _ _ H2 Hd).
    - intros Hn. rewrite Hd0 by (rewrite Ht; exact Hn). exact H2. }
  destruct (_ && _); [intros [= <- _ _]; exact Hrefl|].
  destruct (negb (tst new NUD_VALID)).
  { pose proof (Hdel neigh eq_refl eq_refl (held_refl neigh)) as Hd.
    destruct (neigh_del_timer neigh) as [[m tr0] r]. simpl in Hd.
    intros [= <- _ _]. apply (Hboth m); [exact Hd|].
    destruct (tst (nud_state neigh) NUD_CONNECTED);
      apply held_frame; simpl; reflexivity || lia. }
  destruct (update_compare neigh lladdr) as [ll|];
    [|intros [= <- _ _]; exact Hrefl].
  set (n2 := set_updated _ now).
  assert (H2 : entry_held 0 neigh n2 /\ timer n2 = timer neigh /\
               refcnt n2 = refcnt neigh).
  { subst n2. destruct (tst new NUD_CONNECTED); simpl;
      (split; [apply held_frame; simpl; reflexivity || lia|split; reflexivity]). }
  destruct H2 as (H2 & Ht2 & Hr2).
  destruct (update_override _ _ _ _ _) as [[[ll1 new1] uir]|];
    [|intros [= <- _ _]; apply (Hboth neigh); [exact Hrefl|exact H2]].
  match goal with
  | |- (let '(n3, tr3) := ?e in _) = _ -> _ =>
    destruct e as [n3 tr3] eqn:H3
  end.
  assert (Hk3 : entry_held 1 neigh n3 /\
                (timer neigh = None -> entry_held 0 neigh n3)).
  { destruct (negb (new1 =? nud_state neigh));
      [|injection H3 as <- _; apply (Hboth neigh); [exact Hrefl|exact H2]].
    pose proof (Hdel n2 Ht2 Hr2 H2) as Hd.
    destruct (neigh_del_timer n2) as [[m tr0] r]. simpl in Hd.
    injection H3 as <- _. apply (Hboth m); [exact Hd|].
    unfold neigh_hold.
    destruct (tst new1 NUD_IN_TIMER);
      apply held_frame; simpl; reflexivity || lia. }
  match goal with
  | |- context [update_out ?x uir flgs] => set (n4 := x)
  end.
  assert (Hk4 : entry_held 1 neigh n4 /\
                (timer neigh = None -> entry_held 0 neigh n4)).
  { apply (Hboth n3); [exact Hk3|]. subst n4.
    destruct ll1 as [|a]; [apply held_refl|].
    unfold neigh_update_hhs.
    destruct (negb (tst new1 NUD_CONNECTED));
      destruct (header_cache_update _);
      apply held_frame; simpl; reflexivity || lia. }
  destruct (new1 =? nud_state neigh).
  { intros [= <- _ _]. apply (Hboth n4); [exact Hk4|apply update_out_held]. }
  match goal with
  | |- context [update_xmit_loop fuel ?x] => set (n5 := x)
  end.
  assert (Hk5 : entry_held 1 neigh n5 /\
                (timer neigh = None -> entry_held 0 neigh n5)).
  { apply (Hboth n4); [exact Hk4|]. subst n5.
    destruct (tst new1 NUD_CONNECTED);
      apply held_frame; simpl; reflexivity || lia. }
  destruct (negb (tst (nud_state neigh) NUD_VALID)).
  - destruct (update_xmit_loop fuel n5) as [[n6 tr6]|] eqn:Hrun;
      [|discriminate].
    intros [= <- _ _].
    apply (Hboth (set_arp_queue n6 [])); [|apply update_out_held].
    apply (Hboth n6);
      [|apply held_frame; simpl; reflexivity || lia].
    apply (Hboth n5); [exact Hk5|].
    eapply update_xmit_loop_held; eauto.
  - intros [= <- _ _]. apply (Hboth n5); [exact Hk5|apply update_out_held].
Qed.

(** X30: the operations on one entry are steps that keep its identity
    (key, device and dead flag unchanged, the table's reference still
    counted), as [step_entry] of [tbl_step] asks: the send path always;
    the timer handler and the update when the protocol callbacks keep
    the identity of the entry and release none of its references, the
    pending timer holding a reference of its own next to the table's;
    [neigh_hold] always, and [neigh_release] when the caller's
    reference is counted next to the table's. *)
Lemma entry_ops_kept :
  (forall neigh skb now,
     entry_kept neigh (fst (fst (__neigh_event_send neigh skb now)))) /\
  (forall fuel neigh now n' tr,
     (forall m s, entry_held 0 m (error_report m s)) ->
     (forall m s, entry_held 0 m (solicit m s)) ->
     2 <= refcnt neigh ->
     neigh_timer_handler fuel neigh now = Some (n', tr) ->
     entry_kept neigh n') /\
  (forall fuel neigh lladdr new flgs now n' tr err,
     (forall t m s, entry_held 0 m (output_call t m s)) ->
     (timer neigh <> None -> 2 <= refcnt neigh) ->
     neigh_update fuel neigh lladdr new flgs now = Some (n', tr, err) ->
     entry_kept neigh n') /\
  (forall neigh, entry_kept neigh (neigh_hold neigh)) /\
  (forall neigh, 2 <= refcnt neigh ->
     entry_kept neigh (fst (neigh_release neigh))).
Proof.
  split; [|split; [|split; [|split]]].
  - intros neigh skb now. apply held0_kept, event_send_held.
  - intros fuel neigh now n' tr Her Hso Hheld Hrun.
    apply held_kept; [|exact Hheld]. eapply timer_handler_held; eauto.
  - intros fuel neigh lladdr new flgs now n' tr err Hcb Hheld Hrun.
    destruct (neigh_update_held _ _ _ _ _ _ _ _ _ Hcb Hheld Hrun) as [H1 H0].
    destruct (timer neigh) as [e|] eqn:Ht.
    + apply held_kept; [exact H1|]. apply Hheld. discriminate.
    + apply held0_kept. apply H0. reflexivity.
  - intros neigh. apply held0_kept. unfold neigh_hold.
    apply held_frame; simpl; reflexivity || lia.
  - intros neigh Hheld. apply held_kept; [|exact Hheld].
    apply neigh_release_held1. exact Hheld.
Qed.

(** *** The steps keep the table in order *)

Lemma forced_gc_ok tbl now :
  tbl_ok tbl -> tbl_ok (snd (fst (neigh_forced_gc tbl now))).
Proof.
  apply tbl_ok_shrink; try reflexivity. simpl.
  apply Forall2_map_self. intros c. apply forced_gc_chain_shrink.
Qed.

Lemma chain_shrink_map (f : neighbour -> neighbour) c :
  (forall n, entry_kept n (f n)) -> chain_shrink c (map f c).
Proof.
  intros Hf. induction c as [|n c IH]; cbn [map];
    [constructor | apply shrink_keep; auto].
Qed.

Lemma periodic_refresh_ok tbl rnd now tbl1 :
  periodic_refresh tbl rnd now = Some tbl1 -> tbl_ok tbl -> tbl_ok tbl1.
Proof.
  intros Hr.
  apply periodic_refresh_linked in Hr
    as (Hk & Hh & Hc & Hp & _ & _ & blocks & Hb & _).
  apply tbl_ok_shrink; auto.
  rewrite Hb. apply Forall2_map_self. intros c.
  apply chain_shrink_map. intros n.
  destruct (parms_reread_frame blocks n) as (_ & Ek & Ed & Er & Edd & _).
  unfold entry_kept. rewrite Ek, Ed, Er, Edd. auto.
Qed.

Lemma periodic_sweep_ok tbl now :
  tbl_ok tbl -> tbl_ok (fst (periodic_sweep tbl now)).
Proof.
  apply tbl_ok_shrink; try reflexivity. simpl.
  apply Forall2_map_self. intros c. apply periodic_chain_shrink.
Qed.

Lemma periodic_ok tbl rnd now tbl' tr expires :
  neigh_periodic_timer tbl rnd now = Some (tbl', tr, expires) ->
  tbl_ok tbl -> tbl_ok tbl'.
Proof.
  intros Hrun Hok.
  apply neigh_periodic_timer_run in Hrun as (tbl1 & Hr & -> & _).
  apply periodic_sweep_ok. eapply periodic_refresh_ok; eauto.
Qed.

Lemma ifdown_ok tbl d : tbl_ok tbl -> tbl_ok (fst (neigh_ifdown tbl d)).
Proof.
  apply tbl_ok_shrink; try reflexivity. simpl. rewrite map_map.
  apply Forall2_map_self. intros c. apply dev_chain_shrink.
Qed.

Lemma changeaddr_ok tbl d :
  tbl_ok tbl -> tbl_ok (fst (neigh_changeaddr tbl d)).
Proof.
  apply tbl_ok_shrink; try reflexivity. simpl. rewrite map_map.
  apply Forall2_map_self. intros c. apply dev_chain_shrink.
Qed.

Lemma Forall2_shrink_refl l : Forall2 chain_shrink l l.
Proof. induction l; constructor; auto. apply chain_shrink_refl. Qed.

Lemma bucket_lookup tbl h :
  (h < length (hash_buckets tbl))%nat ->
  hash_buckets tbl !! h = Some (bucket tbl h).
Proof.
  intros Hlt. unfold bucket.
  destruct (lookup_lt_is_Some_2 (hash_buckets tbl) h Hlt) as [c Hc].
  rewrite Hc. reflexivity.
Qed.

Lemma lookup_ok tbl pkey d :
  tbl_ok tbl -> tbl_ok (snd (neigh_lookup tbl pkey d)).
Proof.
  intros Hok. unfold neigh_lookup.
  destruct (chain_find_hold tbl pkey d (bucket tbl (hash_val tbl pkey d)))
    as [[n c]|] eqn:Hf; simpl; [|exact Hok].
  pose proof Hok as [Hlen _].
  revert Hok. apply tbl_ok_shrink; try reflexivity. simpl.
  apply chain_find_hold_some in Hf as (_ & _ & _ & _ & _ & Hs & _).
  apply Forall2_insert_self with (x := bucket tbl (hash_val tbl pkey d)).
  - apply chain_shrink_refl.
  - apply bucket_lookup. rewrite Hlen. apply hash_val_bound.
  - exact Hs.
Qed.

Lemma step_entry_ok tbl i chain k n n' :
  hash_buckets tbl !! i = Some chain -> chain !! k = Some n ->
  entry_kept n n' -> tbl_ok tbl ->
  tbl_ok (set_hash_buckets tbl (<[i := <[k := n']> chain]> (hash_buckets tbl))).
Proof.
  intros Hi Hk Hkept. apply tbl_ok_shrink; try reflexivity. simpl.
  apply Forall2_insert_self with (x := chain).
  - apply chain_shrink_refl.
  - exact Hi.
  - eapply chain_shrink_insert; eauto.
Qed.

Lemma neigh_match_ext tbl tbl' pkey d n :
  key_len tbl' = key_len tbl ->
  neigh_match tbl' pkey d n = neigh_match tbl pkey d n.
Proof. intros Hk. unfold neigh_match. rewrite Hk. reflexivity. Qed.

Lemma linked_match_bucket tbl pkey d m :
  tbl_ok tbl -> m ∈ linked tbl -> neigh_match tbl pkey d m = true ->
  m ∈ bucket tbl (hash_val tbl pkey d).
Proof.
  intros (Hlen & _ & _ & Hall) Hin Hm.
  apply linked_lookup in Hin as (i & c & Hi & Hc).
  destruct (Hall i c Hi) as [_ Hf]. rewrite Forall_forall in Hf.
  destruct (Hf m Hc) as (_ & _ & Hh).
  apply neigh_match_key_dev, key_dev_hash in Hm.
  unfold bucket. rewrite <- Hm, Hh, Hi. exact Hc.
Qed.

Lemma bucket_linked tbl h m :
  (h < length (hash_buckets tbl))%nat -> m ∈ bucket tbl h -> m ∈ linked tbl.
Proof.
  intros Hlt Hm. apply linked_lookup. exists h, (bucket tbl h).
  split; [apply bucket_lookup; exact Hlt | exact Hm].
Qed.

(** What the locked part of [neigh_create] does to a table in order. *)
Lemma create_link_spec tbl pkey d n tr rc tbl' tr' :
  tbl_ok tbl ->
  primary_key n = key_of tbl pkey -> dev n = d -> refcnt n = 1 ->
  create_link tbl pkey d n tr = (rc, tbl', tr') ->
  tbl_ok tbl' /\ key_len tbl' = key_len tbl /\
  (((exists e, rc = ERR_PTR e) /\ hash_buckets tbl' = hash_buckets tbl) \/
   (exists n0,
      n0 ∈ linked tbl /\ neigh_match tbl pkey (dev_ptr d) n0 = true /\
      dead n0 = 0 /\ 1 <= refcnt n0 /\
      rc = Neigh (n_addr n0) /\ neigh_hold n0 ∈ linked tbl') \/
   ((forall m, m ∈ linked tbl ->
               neigh_match tbl pkey (dev_ptr d) m = false) /\
    rc = Neigh (n_addr n) /\ neigh_hold (set_dead n 0) ∈ linked tbl')).
Proof.
  intros Hok Hkey Hdev Href. pose proof Hok as (Hlen & Hc1 & Hc2 & Hall).
  assert (Hh : (hash_val tbl pkey (dev_ptr d) < length (hash_buckets tbl))%nat)
    by (rewrite Hlen; apply hash_val_bound).
  pose proof (bucket_lookup tbl _ Hh) as Hb.
  unfold create_link, create_release.
  destruct (negb (parms_dead (parms n) =? 0)).
  { intros [= <- <- <-]. split; [|split; [reflexivity|]].
    - revert Hok. apply tbl_ok_shrink; try reflexivity.
      apply Forall2_shrink_refl.
    - left. split; [eauto|reflexivity]. }
  destruct (chain_find_hold tbl pkey (dev_ptr d)
              (bucket tbl (hash_val tbl pkey (dev_ptr d))))
    as [[n1 c']|] eqn:Hf.
  - intros [= <- <- <-].
    apply chain_find_hold_some in Hf as (n0 & Hin & Hm & -> & Hin' & Hs & _).
    split; [|split; [reflexivity|]].
    + revert Hok. apply tbl_ok_shrink; try reflexivity. simpl.
      apply Forall2_insert_self
        with (x := bucket tbl (hash_val tbl pkey (dev_ptr d))); auto.
      apply chain_shrink_refl.
    + right. left. exists n0.
      destruct (Hall _ _ Hb) as [_ Hfa]. rewrite Forall_forall in Hfa.
      destruct (Hfa n0 Hin) as (Hd0 & Hr0 & _).
      split; [eapply bucket_linked; eauto|].
      repeat split; auto.
      apply linked_lookup. simpl.
      exists (hash_val tbl pkey (dev_ptr d)), c'. split; [|exact Hin'].
      apply list_lookup_insert_eq. exact Hh.
  - intros [= <- <- <-].
    pose proof (chain_find_hold_none _ _ _ _ Hf) as Hnone.
    split; [|split; [reflexivity|]].
    + split; [|split; [|split]]; simpl.
      * rewrite length_insert. exact Hlen.
      * exact Hc1.
      * exact Hc2.
      * intros i c Hi.
        destruct (decide (i = hash_val tbl pkey (dev_ptr d))) as [->|Hne].
        -- rewrite list_lookup_insert_eq in Hi by exact Hh.
           injection Hi as <-.
           apply (chain_ok_ext tbl); try reflexivity.
           destruct (Hall _ _ Hb) as [Hnd Hfa].
           split.
           ++ simpl. apply NoDup_cons. split; [|exact Hnd].
              intros Hin. apply list_elem_of_In, in_map_iff in Hin
                as (m & Hkm & Hm).
              apply list_elem_of_In in Hm.
              assert (neigh_match tbl pkey (dev_ptr d) m = true).
              { apply neigh_match_key_dev. rewrite Hkm.
                unfold key_dev. simpl. rewrite Hkey, Hdev.
                unfold key_of. rewrite take_idemp. reflexivity. }
              rewrite (Hnone m Hm) in *. discriminate.
           ++ apply Forall_cons. split; [|exact Hfa]. simpl.
              repeat split; [lia|].
              rewrite Hkey, Hdev. apply hash_val_key.
        -- rewrite list_lookup_insert_ne in Hi by auto.
           apply (chain_ok_ext tbl); try reflexivity. auto.
    + right. right. split; [|split; [reflexivity|]].
      * intros m Hm. destruct (neigh_match tbl pkey (dev_ptr d) m) eqn:Hmm;
          [|reflexivity].
        rewrite <- (Hnone m); [symmetry; exact Hmm|].
        apply linked_match_bucket; auto.
      * apply linked_lookup. simpl.
        exists (hash_val tbl pkey (dev_ptr d)). eexists.
        split; [apply list_lookup_insert_eq; exact Hh|].
        apply elem_of_cons. auto.
Qed.

Lemma alloc_spec tbl now mem on tbl1 tr :
  neigh_alloc tbl now mem = (on, tbl1, tr) ->
  key_len tbl1 = key_len tbl /\ hash tbl1 = hash tbl /\
  constructor tbl1 = constructor tbl /\
  parms_neigh_setup tbl1 = parms_neigh_setup tbl /\
  (hash_buckets tbl1 = hash_buckets tbl \/
   hash_buckets tbl1 =
     map (fun chain => fst (forced_gc_chain chain now)) (hash_buckets tbl)) /\
  (forall n0, on = Some n0 -> primary_key n0 = [] /\ refcnt n0 = 1).
Proof.
  unfold neigh_alloc.
  destruct (alloc_gc_trigger tbl now).
  - destruct (neigh_forced_gc tbl now) as [[shrunk t] tr0] eqn:Hgc.
    unfold neigh_forced_gc in Hgc. injection Hgc as _ <- _.
    match goal with
    | |- context [if ?c then _ else _] => destruct c
    end.
    + intros [= <- <- <-]. simpl. repeat split; auto; discriminate.
    + destruct mem as [a|]; intros [= <- <- <-]; simpl;
        repeat split; auto; try discriminate;
        match goal with
        | H : Some _ = Some _ |- _ => injection H as <-; reflexivity
        end.
  - destruct mem as [a|]; intros [= <- <- <-]; simpl;
      repeat split; auto; try discriminate;
      match goal with
      | H : Some _ = Some _ |- _ => injection H as <-; reflexivity
      end.
Qed.

Lemma alloc_ok tbl now mem on tbl1 tr :
  neigh_alloc tbl now mem = (on, tbl1, tr) -> tbl_ok tbl -> tbl_ok tbl1.
Proof.
  intros Ha. apply alloc_spec in Ha as (Hk & Hh & Hc & Hp & Hb & _).
  apply tbl_ok_shrink; auto.
  destruct Hb as [-> | ->].
  - apply Forall2_shrink_refl.
  - apply Forall2_map_self. intros c. apply forced_gc_chain_shrink.
Qed.

(** An entry that somebody else references survives the collection
    [neigh_alloc] may run. *)
Lemma alloc_keeps_held tbl now mem on tbl1 tr n :
  neigh_alloc tbl now mem = (on, tbl1, tr) ->
  n ∈ linked tbl -> 1 < refcnt n -> n ∈ linked tbl1.
Proof.
  intros Ha Hin Href. apply alloc_spec in Ha as (_ & _ & _ & _ & Hb & _).
  unfold linked in *. destruct Hb as [-> | ->]; [exact Hin|].
  apply list_elem_of_In in Hin. apply list_elem_of_In.
  apply in_concat in Hin as (c & Hc & Hn).
  apply in_concat. exists (fst (forced_gc_chain c now)). split.
  - apply in_map_iff. eauto.
  - apply forced_gc_chain_kept; [exact Hn|].
    unfold forced_gc_discard.
    destruct (Z.eqb_spec (refcnt n) 1); [lia|]. reflexivity.
Qed.

Lemma run_setup_kept f n :
  hook_ok f ->
  primary_key (snd (run_setup f n)) = primary_key n /\
  dev (snd (run_setup f n)) = dev n /\
  refcnt (snd (run_setup f n)) = refcnt n.
Proof.
  intros Hf. unfold run_setup. destruct f as [g|]; [|auto].
  apply (Hf g n). reflexivity.
Qed.

Lemma create_release_spec tbl n tr t tr1 :
  create_release tbl n tr = (t, tr1) ->
  tbl_ok tbl -> tbl_ok t /\ key_len t = key_len tbl /\
                hash_buckets t = hash_buckets tbl.
Proof.
  unfold create_release. intros [= <- <-] Hok.
  split; [|split; reflexivity].
  revert Hok. apply tbl_ok_shrink; try reflexivity.
  apply Forall2_shrink_refl.
Qed.

(** What [neigh_create] does to a table in order: [tbl1] is the table
    as [neigh_alloc] leaves it. *)
Lemma create_spec tbl pkey d now mem rc tbl' tr :
  tbl_ok tbl ->
  neigh_create tbl pkey d now mem = (rc, tbl', tr) ->
  exists tbl1,
    tbl_ok tbl1 /\ key_len tbl1 = key_len tbl /\
    (forall n, n ∈ linked tbl -> 1 < refcnt n -> n ∈ linked tbl1) /\
    tbl_ok tbl' /\ key_len tbl' = key_len tbl /\
    (((exists e, rc = ERR_PTR e) /\ hash_buckets tbl' = hash_buckets tbl1) \/
     (exists n0,
        n0 ∈ linked tbl1 /\ neigh_match tbl pkey (dev_ptr d) n0 = true /\
        dead n0 = 0 /\ 1 <= refcnt n0 /\
        rc = Neigh (n_addr n0) /\ neigh_hold n0 ∈ linked tbl') \/
     ((forall m, m ∈ linked tbl1 ->
                 neigh_match tbl pkey (dev_ptr d) m = false) /\
      exists n,
        rc = Neigh (n_addr n) /\ n ∈ linked tbl' /\
        neigh_match tbl pkey (dev_ptr d) n = true /\
        dead n = 0 /\ refcnt n = 2)).
Proof.
  intros Hok. unfold neigh_create.
  destruct (neigh_alloc tbl now mem) as [[on tbl1] tr0] eqn:Ha.
  pose proof (alloc_ok _ _ _ _ _ _ Ha Hok) as Hok1.
  pose proof (fun n => alloc_keeps_held _ _ _ _ _ _ n Ha) as Hheld.
  pose proof (alloc_spec _ _ _ _ _ _ Ha) as (Hk1 & _ & _ & _ & _ & Hnew).
  pose proof Hok1 as (_ & Hc1 & Hc2 & _).
  destruct on as [n0|].
  2:{ intros [= <- <- <-]. exists tbl1.
      split; [exact Hok1|]. split; [exact Hk1|]. split; [exact Hheld|].
      split; [exact Hok1|]. split; [exact Hk1|]. left. eauto. }
  destruct (Hnew n0 eq_refl) as [Hkey0 Href0].
  set (n1 := set_dev _ d).
  destruct (run_setup_kept (constructor tbl1) n1 Hc1) as (Hk2 & Hd2 & Hr2).
  destruct (run_setup (constructor tbl1) n1) as [error n2].
  cbn [fst snd] in *.
  destruct (error <? 0).
  { destruct (create_release tbl1 n2 tr0) as [t tr1] eqn:Hrel.
    apply create_release_spec in Hrel as (Hokt & Hkt & Hbt); [|exact Hok1].
    intros [= <- <- <-]. exists tbl1.
    split; [exact Hok1|]. split; [exact Hk1|]. split; [exact Hheld|].
    split; [exact Hokt|]. split; [congruence|]. left. eauto. }
  destruct (run_setup_kept (parms_neigh_setup tbl1) n2 Hc2)
    as (Hk3 & Hd3 & Hr3).
  destruct (run_setup (parms_neigh_setup tbl1) n2) as [error' n3].
  cbn [fst snd] in *.
  destruct (error' <? 0).
  { destruct (create_release tbl1 n3 tr0) as [t tr1] eqn:Hrel.
    apply create_release_spec in Hrel as (Hokt & Hkt & Hbt); [|exact Hok1].
    intros [= <- <- <-]. exists tbl1.
    split; [exact Hok1|]. split; [exact Hk1|]. split; [exact Hheld|].
    split; [exact Hokt|]. split; [congruence|]. left. eauto. }
  intros Hlink.
  assert (Hkey : primary_key n3 = key_of tbl1 pkey).
  { rewrite Hk3, Hk2. subst n1. simpl. rewrite Hkey0.
    unfold memcpy, key_of. rewrite drop_nil, app_nil_r. reflexivity. }
  assert (Hdev : dev n3 = d) by (rewrite Hd3, Hd2; reflexivity).
  assert (Href : refcnt n3 = 1)
    by (rewrite Hr3, Hr2; subst n1; simpl; exact Href0).
  apply create_link_spec in Hlink as (Hok' & Hk' & Hcases); auto.
  exists tbl1.
  split; [exact Hok1|]. split; [exact Hk1|]. split; [exact Hheld|].
  split; [exact Hok'|]. split; [congruence|].
  destruct Hcases as [Herr|[(m & Hm1 & Hm2 & Hm3 & Hm4 & Hm5 & Hm6)|
                            (Hnone & Hrc & Hin)]].
  - left. exact Herr.
  - right. left. exists m. repeat split; auto.
    rewrite <- (neigh_match_ext tbl tbl1) by exact Hk1. exact Hm2.
  - right. right. split.
    + intros m Hm. rewrite <- (neigh_match_ext tbl tbl1) by exact Hk1. auto.
    + match type of Hin with ?x ∈ _ => exists x end.
      split; [exact Hrc|]. split; [exact Hin|].
      split; [|split; [reflexivity|simpl; lia]].
      apply neigh_match_key_dev. unfold key_dev. simpl.
      rewrite Hkey, Hdev. unfold key_of. rewrite Hk1, take_idemp.
      reflexivity.
Qed.

Lemma linked_alive tbl n :
  tbl_ok tbl -> n ∈ linked tbl -> dead n = 0 /\ 1 <= refcnt n.
Proof.
  intros (_ & _ & _ & Hall) Hin.
  apply linked_lookup in Hin as (i & c & Hi & Hc).
  destruct (Hall i c Hi) as [_ Hf]. rewrite Forall_forall in Hf.
  destruct (Hf n Hc) as (Hd & Hr & _). auto.
Qed.


Lemma tbl_step_ok tbl tbl' : tbl_ok tbl -> tbl_step tbl tbl' -> tbl_ok tbl'.
Proof.
  intros Hok Hstep. destruct Hstep.
  - destruct (neigh_create tbl pkey d now mem) as [[rc t] tr] eqn:Hc.
    apply create_spec in Hc as (tbl1 & _ & _ & _ & Hok' & _); auto.
  - now apply lookup_ok.
  - now apply forced_gc_ok.
  - eapply periodic_ok; eauto.
  - now apply ifdown_ok.
  - now apply changeaddr_ok.
  - eapply step_entry_ok; eauto.
Qed.

Lemma create_returns_single tbl pkey d now mem a tbl' tr :
  tbl_ok tbl ->
  neigh_create tbl pkey d now mem = (Neigh a, tbl', tr) ->
  exists n,
    live_matches tbl' pkey (dev_ptr d) = [n] /\ n_addr n = a /\
    2 <= refcnt n.
Proof.
  intros Hok Hc.
  apply create_spec in Hc
    as (tbl1 & Hok1 & Hk1 & _ & Hok' & Hk' & Hcases); [|exact Hok].
  destruct Hcases as [[[e He] _]|[(n0 & Hin & Hm & Hd & Hr & Hrc & Hin')|
                                  (_ & n & Hrc & Hin & Hm & Hd & Hr)]].
  - discriminate.
  - injection Hrc as ->. exists (neigh_hold n0).
    split; [|split; [reflexivity|simpl; lia]].
    apply live_matches_single; auto.
    rewrite (neigh_match_ext tbl tbl') by exact Hk'. exact Hm.
  - injection Hrc as ->. exists n.
    split; [|split; [reflexivity|lia]].
    apply live_matches_single; auto.
    rewrite (neigh_match_ext tbl tbl') by exact Hk'. exact Hm.
Qed.







(** A table that links nothing and whose hooks are in order is in
    order. *)
Lemma tbl_ok_empty tbl :
  hash_buckets tbl = replicate (Z.to_nat (NEIGH_HASHMASK + 1)) [] ->
  hook_ok (constructor tbl) -> hook_ok (parms_neigh_setup tbl) ->
  tbl_ok tbl.
Proof.
  intros Hb Hc Hp. split; [|split; [exact Hc|split; [exact Hp|]]].
  - rewrite Hb. apply length_replicate.
  - intros i chain Hi. rewrite Hb in Hi.
    apply lookup_replicate in Hi as [-> _].
    split; constructor.
Qed.

Lemma hook_ok_none : hook_ok None.
Proof. intros g n H. discriminate H. Qed.

(** ** Lookups *)

Lemma map_hold_nomatch tbl pkey d c :
  (forall n, n ∈ c -> neigh_match tbl pkey d n = false) ->
  map (hold_match tbl pkey d) c = c.
Proof.
  induction c as [|n c IH]; intros H; simpl; [reflexivity|].
  unfold hold_match at 1. rewrite (H n) by (apply elem_of_cons; auto).
  f_equal. apply IH. intros m Hm. apply H. apply elem_of_cons. auto.
Qed.

Lemma chain_find_hold_unique tbl pkey d c :
  NoDup (map (key_dev tbl) c) ->
  chain_find_hold tbl pkey d c =
    match List.filter (neigh_match tbl pkey d) c with
    | [] => None
    | n :: _ => Some (neigh_hold n, map (hold_match tbl pkey d) c)
    end.
Proof.
  induction c as [|n c IH]; intros Hnd; simpl; [reflexivity|].
  simpl in Hnd. apply NoDup_cons in Hnd as [Hnotin Hnd].
  destruct (neigh_match tbl pkey d n) eqn:Hm.
  - unfold hold_match at 1. rewrite Hm. do 3 f_equal. symmetry.
    apply map_hold_nomatch. intros m Hin.
    destruct (neigh_match tbl pkey d m) eqn:Hmm; [|reflexivity].
    exfalso. apply Hnotin.
    apply neigh_match_key_dev in Hm, Hmm. rewrite Hm, <- Hmm.
    apply list_elem_of_In, in_map, list_elem_of_In. exact Hin.
  - rewrite (IH Hnd). unfold hold_match at 2. rewrite Hm.
    destruct (List.filter (neigh_match tbl pkey d) c); reflexivity.
Qed.

Lemma other_bucket_nomatch tbl pkey d i c :
  tbl_ok tbl -> hash_buckets tbl !! i = Some c -> i <> hash_val tbl pkey d ->
  forall n, n ∈ c -> neigh_match tbl pkey d n = false.
Proof.
  intros (_ & _ & _ & Hall) Hi Hne n Hin.
  destruct (neigh_match tbl pkey d n) eqn:Hm; [|reflexivity].
  exfalso. apply Hne.
  destruct (Hall i c Hi) as [_ Hf].
  rewrite Forall_forall in Hf.
  destruct (Hf n Hin) as (_ & _ & Hh).
  rewrite <- Hh. apply key_dev_hash. apply neigh_match_key_dev. exact Hm.
Qed.

Lemma lookup_buckets tbl pkey d :
  tbl_ok tbl ->
  hash_buckets (snd (neigh_lookup tbl pkey d)) =
    map (map (hold_match tbl pkey d)) (hash_buckets tbl).
Proof.
  intros Hok. pose proof Hok as (Hlen & _ & _ & Hall).
  set (h := hash_val tbl pkey d).
  assert (Hh : (h < length (hash_buckets tbl))%nat).
  { rewrite Hlen. apply hash_val_bound. }
  pose proof (bucket_lookup tbl h Hh) as Hb.
  destruct (Hall h _ Hb) as [Hnd _].
  unfold neigh_lookup. fold h.
  rewrite (chain_find_hold_unique _ _ _ _ Hnd).
  assert (Hother : forall i c, hash_buckets tbl !! i = Some c -> i <> h ->
                     map (hold_match tbl pkey d) c = c).
  { intros i c Hi Hne. apply map_hold_nomatch.
    eapply other_bucket_nomatch; eauto. }
  assert (Hgoal : <[h := map (hold_match tbl pkey d) (bucket tbl h)]>
                    (hash_buckets tbl) =
                  map (map (hold_match tbl pkey d)) (hash_buckets tbl)).
  { apply list_eq. intros i.
    change (map (map (hold_match tbl pkey d)) (hash_buckets tbl))
      with (map (hold_match tbl pkey d) <$> hash_buckets tbl).
    rewrite list_lookup_fmap.
    destruct (Nat.eq_dec i h) as [->|Hne].
    - rewrite list_lookup_insert_eq by exact Hh. rewrite Hb. reflexivity.
    - rewrite list_lookup_insert_ne by auto.
      destruct (hash_buckets tbl !! i) as [c|] eqn:Hi; simpl; [|reflexivity].
      rewrite (Hother i c Hi Hne). reflexivity. }
  destruct (List.filter (neigh_match tbl pkey d) (bucket tbl h))
    as [|n0 l] eqn:Hfil; simpl.
  - rewrite <- Hgoal. symmetry.
    replace (map (hold_match tbl pkey d) (bucket tbl h)) with (bucket tbl h).
    + apply list_insert_id. exact Hb.
    + symmetry. apply map_hold_nomatch. intros n Hin.
      destruct (neigh_match tbl pkey d n) eqn:Hm; [|reflexivity].
      assert (Hf : In n (List.filter (neigh_match tbl pkey d) (bucket tbl h))).
      { apply filter_In. split; [apply list_elem_of_In; exact Hin|exact Hm]. }
      rewrite Hfil in Hf. destruct Hf.
  - exact Hgoal.
Qed.

Lemma lookup_result tbl pkey d :
  tbl_ok tbl ->
  fst (neigh_lookup tbl pkey d) =
    option_map neigh_hold (head (live_matches tbl pkey d)).
Proof.
  intros Hok. pose proof Hok as (Hlen & _ & _ & Hall).
  set (h := hash_val tbl pkey d).
  assert (Hh : (h < length (hash_buckets tbl))%nat).
  { rewrite Hlen. apply hash_val_bound. }
  unfold neigh_lookup. fold h.
  destruct (chain_find_hold tbl pkey d (bucket tbl h)) as [[n1 c']|] eqn:Hf.
  - destruct (chain_find_hold_some _ _ _ _ _ _ Hf)
      as (n0 & Hin & Hm & -> & _).
    assert (Hl : n0 ∈ linked tbl) by (eapply bucket_linked; eauto).
    destruct (linked_alive _ _ Hok Hl) as [Hd _].
    rewrite (live_matches_single _ _ _ _ Hok Hl Hm Hd). reflexivity.
  - simpl.
    assert (Hnil : live_matches tbl pkey d = []).
    { unfold live_matches. apply filter_nil_all. intros m Hm.
      destruct (neigh_match tbl pkey d m) eqn:Hmm; [|reflexivity].
      exfalso.
      pose proof (linked_match_bucket _ _ _ _ Hok Hm Hmm) as Hb.
      rewrite (chain_find_hold_none _ _ _ _ Hf m Hb) in Hmm. discriminate. }
    rewrite Hnil. reflexivity.
Qed.

(** X1: [neigh_lookup] on a table in order returns the live entry linked
    for the key and the device, with the caller's reference taken, or
    NULL when there is none; the only change to the table is that
    reference. *)
Theorem neigh_lookup_linked tbl pkey d :
  tbl_ok tbl ->
  fst (neigh_lookup tbl pkey d) =
    option_map neigh_hold (head (live_matches tbl pkey d)) /\
  hash_buckets (snd (neigh_lookup tbl pkey d)) =
    map (map (hold_match tbl pkey d)) (hash_buckets tbl) /\
  phash_buckets (snd (neigh_lookup tbl pkey d)) = phash_buckets tbl /\
  entries (snd (neigh_lookup tbl pkey d)) = entries tbl /\
  (forall n, n ∈ linked tbl -> neigh_match tbl pkey d n = true ->
     fst (neigh_lookup tbl pkey d) = Some (neigh_hold n)) /\
  ((forall n, n ∈ linked tbl -> neigh_match tbl pkey d n = false) ->
   neigh_lookup tbl pkey d = (None, tbl)).
Proof.
  intros Hok.
  split; [apply lookup_result; exact Hok|].
  split; [apply lookup_buckets; exact Hok|].
  split; [|split; [|split]].
  - unfold neigh_lookup. destruct (chain_find_hold _ _ _ _) as [[n c]|];
      reflexivity.
  - unfold neigh_lookup. destruct (chain_find_hold _ _ _ _) as [[n c]|];
      reflexivity.
  - intros n Hl Hm. rewrite (lookup_result _ _ _ Hok).
    destruct (linked_alive _ _ Hok Hl) as [Hd _].
    rewrite (live_matches_single _ _ _ _ Hok Hl Hm Hd). reflexivity.
  - intros Hnone. unfold neigh_lookup.
    destruct (chain_find_hold tbl pkey d (bucket tbl (hash_val tbl pkey d)))
      as [[n1 c']|] eqn:Hf; [|reflexivity].
    exfalso.
    destruct (chain_find_hold_some _ _ _ _ _ _ Hf) as (n0 & Hin & Hm & _).
    pose proof Hok as (Hlen & _).
    assert (Hl : n0 ∈ linked tbl).
    { eapply bucket_linked; [|exact Hin]. rewrite Hlen. apply hash_val_bound. }
    rewrite (Hnone n0 Hl) in Hm. discriminate.
Qed.

(** X2: a lookup after a creation finds the entry the creation
    returned, with one more reference. *)
Theorem create_then_lookup tbl pkey d now mem a tbl' tr :
  tbl_ok tbl ->
  neigh_create tbl pkey d now mem = (Neigh a, tbl', tr) ->
  exists n,
    fst (neigh_lookup tbl' pkey (dev_ptr d)) = Some n /\
    n_addr n = a /\ 3 <= refcnt n /\ dead n = 0 /\
    tbl_ok (snd (neigh_lookup tbl' pkey (dev_ptr d))).
Proof.
  intros Hok Hc.
  destruct (create_returns_single _ _ _ _ _ _ _ _ Hok Hc)
    as (n & Hlive & Ha & Hr).
  destruct (create_spec _ _ _ _ _ _ _ _ Hok Hc)
    as (tbl1 & _ & _ & _ & Hok' & _).
  assert (Hin : n ∈ live_matches tbl' pkey (dev_ptr d)).
  { rewrite Hlive. apply list_elem_of_singleton. reflexivity. }
  apply live_matches_elem in Hin as (Hl & Hm & Hd).
  exists (neigh_hold n). split.
  - rewrite (lookup_result _ _ _ Hok'), Hlive. reflexivity.
  - unfold neigh_hold. simpl. split; [exact Ha|]. split; [lia|].
    split; [exact Hd|]. apply lookup_ok. exact Hok'.
Qed.

(** ** The send path: who owns the packet, who owns the references *)

(** X3: [__neigh_event_send] either leaves the packet to the caller
    (return 0: nothing queued, nothing freed) or takes it over (return
    1): it is then freed at once, on an entry that has just failed, or
    it is the newest packet of the queue, at most one older packet
    having been dropped to make room. *)
Theorem event_send_ownership neigh s now :
  let n' := fst (fst (__neigh_event_send neigh (Some s) now)) in
  let tr := snd (fst (__neigh_event_send neigh (Some s) now)) in
  let rc := snd (__neigh_event_send neigh (Some s) now) in
  (rc = 0 /\ tr = [] /\ arp_queue n' = arp_queue neigh) \/
  (rc = 1 /\ tr = [Ev_kfree_skb s] /\ arp_queue n' = arp_queue neigh /\
   nud_state n' = NUD_FAILED) \/
  (rc = 1 /\ nud_state n' = NUD_INCOMPLETE /\
   ((tr = [] /\ arp_queue n' = arp_queue neigh ++ [s]) \/
    (exists oldest rest,
       arp_queue neigh = oldest :: rest /\ tr = [Ev_kfree_skb oldest] /\
       arp_queue n' = rest ++ [s]) \/
    (arp_queue neigh = [] /\ tr = [Ev_kfree_queue_head] /\
     arp_queue n' = [s]))).
Proof.
  unfold __neigh_event_send, __skb_queue_tail.
  destruct (tst (nud_state neigh)
              (Z.lor NUD_CONNECTED (Z.lor NUD_DELAY NUD_PROBE)));
    [left; simpl; auto|].
  destruct (negb (tst (nud_state neigh) (Z.lor NUD_STALE NUD_INCOMPLETE))).
  - destruct (negb (int_add _ _ =? 0)); cbn [fst snd];
      [|right; left; simpl; auto].
    cbn [nud_state set_timer neigh_hold set_refcnt set_nud_state].
    change (NUD_INCOMPLETE =? NUD_INCOMPLETE) with true. cbv iota.
    right; right.
    destruct (u32 _ <=? skb_queue_len _); [|simpl; auto].
    cbn [arp_queue set_timer neigh_hold set_refcnt set_nud_state set_probes].
    destruct (arp_queue neigh) as [|b rest] eqn:Hq; simpl.
    + split; [reflexivity|]. split; [reflexivity|]. right; right. auto.
    + split; [reflexivity|]. split; [reflexivity|]. right; left.
      exists b, rest. auto.
  - destruct (tst (nud_state neigh) NUD_STALE); cbn [fst snd].
    + left. simpl. auto.
    + destruct (Z.eqb_spec (nud_state neigh) NUD_INCOMPLETE) as [Hi|Hi];
        [|left; simpl; auto].
      right; right.
      destruct (u32 _ <=? skb_queue_len _); [|simpl; auto].
      destruct (arp_queue neigh) as [|b rest] eqn:Hq; simpl.
      * split; [reflexivity|]. split; [exact Hi|]. right; right. auto.
      * split; [reflexivity|]. split; [exact Hi|]. right; left.
        exists b, rest. auto.
Qed.

Lemma timer_ok_none n :
  timer_ok n -> tst (nud_state n) NUD_IN_TIMER = false -> timer n = None.
Proof.
  unfold timer_ok. intros Hok Hf. destruct (timer n) as [e|]; [|reflexivity].
  rewrite Hok in Hf by discriminate. discriminate.
Qed.

(** What [__neigh_event_send] does to the state, the timer and the
    reference count. *)
Lemma event_send_shape neigh skb now :
  let n' := fst (fst (__neigh_event_send neigh skb now)) in
  (nud_state n' = nud_state neigh /\ timer n' = timer neigh /\
   refcnt n' = refcnt neigh) \/
  (tst (nud_state neigh)
       (Z.lor NUD_CONNECTED (Z.lor NUD_DELAY NUD_PROBE)) = false /\
   tst (nud_state neigh) (Z.lor NUD_STALE NUD_INCOMPLETE) = false /\
   ((nud_state n' = NUD_INCOMPLETE /\ timer n' = Some (ulong (now + 1)) /\
     refcnt n' = refcnt neigh + 1) \/
    (nud_state n' = NUD_FAILED /\ timer n' = timer neigh /\
     refcnt n' = refcnt neigh))) \/
  (tst (nud_state neigh)
       (Z.lor NUD_CONNECTED (Z.lor NUD_DELAY NUD_PROBE)) = false /\
   tst (nud_state neigh) NUD_STALE = true /\
   nud_state n' = NUD_DELAY /\
   timer n' = Some (ulong (now + delay_probe_time (parms neigh))) /\
   refcnt n' = refcnt neigh + 1).
Proof.
  unfold __neigh_event_send.
  destruct (tst (nud_state neigh)
              (Z.lor NUD_CONNECTED (Z.lor NUD_DELAY NUD_PROBE))) eqn:Hc;
    [left; cbn [fst]; auto|].
  destruct (tst (nud_state neigh) (Z.lor NUD_STALE NUD_INCOMPLETE)) eqn:Hsi;
    cbn [negb]; cbv iota.
  - destruct (tst (nud_state neigh) NUD_STALE) eqn:Hs.
    + right; right.
      cbn [nud_state timer refcnt set_timer set_nud_state set_refcnt
           neigh_hold].
      change (NUD_DELAY =? NUD_INCOMPLETE) with false. cbv iota.
      cbn [fst nud_state timer refcnt set_timer set_nud_state set_refcnt
           neigh_hold].
      auto.
    + left.
      destruct (nud_state neigh =? NUD_INCOMPLETE); [|cbn [fst]; auto].
      destruct skb as [s|]; [|cbn [fst]; auto].
      destruct (u32 _ <=? skb_queue_len _);
        [destruct (arp_queue neigh)|]; cbn [fst]; simpl; auto.
  - right; left. split; [reflexivity|]. split; [reflexivity|].
    destruct (negb (int_add _ _ =? 0)).
    + left.
      cbn [nud_state set_timer set_nud_state set_refcnt neigh_hold
           set_probes].
      change (NUD_INCOMPLETE =? NUD_INCOMPLETE) with true. cbv iota.
      destruct skb as [s|]; [|cbn [fst]; simpl; auto].
      destruct (u32 _ <=? skb_queue_len _);
        [destruct (arp_queue _)|]; cbn [fst]; simpl; auto.
    + right. cbn [fst]. simpl. auto.
Qed.

Lemma nud_states_in_timer s :
  In s nud_states ->
  tst s NUD_IN_TIMER = true ->
  s = NUD_INCOMPLETE \/ s = NUD_REACHABLE \/ s = NUD_DELAY \/ s = NUD_PROBE.
Proof.
  unfold nud_states. simpl.
  intros [H|[H|[H|[H|[H|[H|[H|[H|[H|[]]]]]]]]]] Ht; subst s;
    try (vm_compute in Ht; discriminate); auto.
Qed.

(** X4: on an entry in one of the cache's own states whose timer, if
    pending, belongs to a timer state, [__neigh_event_send] keeps that
    discipline: the entry ends in one of the cache's states, a pending
    timer still belongs to a timer state, an entry in a timer state
    still has its timer pending, and every timer the call arms takes
    exactly one reference, so the references held besides the timer's
    are what they were. *)
Theorem event_send_timer_refs neigh skb now :
  In (nud_state neigh) nud_states ->
  timer_ok neigh ->
  let n' := fst (fst (__neigh_event_send neigh skb now)) in
  In (nud_state n') nud_states /\
  timer_ok n' /\
  refs_held n' = refs_held neigh /\
  ((tst (nud_state neigh) NUD_IN_TIMER = true -> timer neigh <> None) ->
   tst (nud_state n') NUD_IN_TIMER = true -> timer n' <> None).
Proof.
  intros Hst Hok. cbv zeta.
  pose proof (event_send_shape neigh skb now) as Hshape. cbv zeta in Hshape.
  set (m := fst (fst (__neigh_event_send neigh skb now))) in *.
  destruct Hshape
    as [(Hs & Ht & Hr)|[(Hc & Hsi & Hcase)|(Hc & Hstale & Hs & Ht & Hr)]].
  - unfold timer_ok, refs_held in *. rewrite Hs, Ht, Hr. auto.
  - assert (Hnone : timer neigh = None).
    { apply timer_ok_none; [exact Hok|].
      unfold nud_states in Hst. simpl in Hst.
      destruct Hst as [H|[H|[H|[H|[H|[H|[H|[H|[H|[]]]]]]]]]];
        rewrite <- H in Hc, Hsi |- *; try reflexivity;
        vm_compute in Hc; vm_compute in Hsi; discriminate. }
    destruct Hcase as [(Hs & Ht & Hr)|(Hs & Ht & Hr)];
      unfold timer_ok, refs_held; rewrite Hs, Ht, Hr, ?Hnone.
    + split; [unfold nud_states; simpl; auto|].
      split; [reflexivity|]. split; [lia|]. intros _ _. discriminate.
    + split; [unfold nud_states; simpl; repeat (first [left; reflexivity|right])|].
      split; [intros H; contradiction|]. split; [reflexivity|].
      intros _ H. vm_compute in H. discriminate.
  - assert (Hnone : timer neigh = None).
    { apply timer_ok_none; [exact Hok|].
      unfold nud_states in Hst. simpl in Hst.
      destruct Hst as [H|[H|[H|[H|[H|[H|[H|[H|[H|[]]]]]]]]]];
        rewrite <- H in Hc, Hstale |- *; try reflexivity;
        vm_compute in Hc; vm_compute in Hstale; discriminate. }
    unfold timer_ok, refs_held. rewrite Hs, Ht, Hr, Hnone.
    split; [unfold nud_states; simpl; repeat (first [left; reflexivity|right])|].
    split; [reflexivity|]. split; [lia|]. intros _ _. discriminate.
Qed.

(** ** The update: errors, references, flags *)

(** The return code of [neigh_update], when it returns. *)
Lemma neigh_update_err_code fuel neigh lladdr new flgs now n' tr err :
  neigh_update fuel neigh lladdr new flgs now = Some (n', tr, err) ->
  let eperm := negb (tst flgs NEIGH_UPDATE_F_ADMIN)
               && tst (nud_state neigh) (Z.lor NUD_NOARP NUD_PERMANENT) in
  let einval := negb eperm && tst new NUD_VALID
                && negb (addr_len (dev neigh) =? 0)
                && negb (tst (nud_state neigh) NUD_VALID)
                && match lladdr with None => true | Some _ => false end in
  err = (if eperm then - EPERM else if einval then - EINVAL else 0) /\
  (err <> 0 -> n' = neigh /\ tr = []).
Proof.
  unfold neigh_update.
  destruct (negb (tst flgs NEIGH_UPDATE_F_ADMIN)
            && tst (nud_state neigh) (Z.lor NUD_NOARP NUD_PERMANENT)).
  { intros [= <- <- <-]. cbv zeta. auto. }
  cbn [negb andb]. cbv zeta.
  destruct (tst new NUD_VALID); cbn [negb andb]; cbv iota.
  2: { destruct (neigh_del_timer neigh) as [[m tr0] r].
       intros [= <- <- <-]. split; [reflexivity|]. intros H. contradiction. }
  unfold update_compare.
  destruct (addr_len (dev neigh) =? 0); cbn [negb andb]; cbv iota.
  - destruct (update_override _ _ _ _ _) as [[[ll1 new1] uir]|];
      [|intros [= <- <- <-]; split; [reflexivity|intros H; contradiction]].
    match goal with
    | |- (let '(n3, tr3) := ?e in _) = _ -> _ => destruct e as [n3 tr3]
    end.
    destruct (new1 =? nud_state neigh);
      [intros [= <- <- <-]; split; [reflexivity|intros H; contradiction]|].
    destruct (negb (tst (nud_state neigh) NUD_VALID));
      [destruct (update_xmit_loop _ _) as [[n6 tr6]|]; [|discriminate]|];
      intros [= <- <- <-]; split; try reflexivity; intros H; contradiction.
  - destruct lladdr as [a|].
    + assert (Hz : forall b, b && false = false) by (intros []; reflexivity).
      rewrite Hz.
      destruct (tst (nud_state neigh) NUD_VALID && memcmp_eq _ _ _);
        (destruct (update_override _ _ _ _ _) as [[[ll1 new1] uir]|];
         [|intros [= <- <- <-]; split; [reflexivity|intros H; contradiction]];
         match goal with
         | |- (let '(n3, tr3) := ?e in _) = _ -> _ => destruct e as [n3 tr3]
         end;
         destruct (new1 =? nud_state neigh);
         [intros [= <- <- <-]; split; [reflexivity|intros H; contradiction]|];
         destruct (negb (tst (nud_state neigh) NUD_VALID));
         [destruct (update_xmit_loop _ _) as [[n6 tr6]|]; [|discriminate]|];
         intros [= <- <- <-]; split; try reflexivity; intros H; contradiction).
    + destruct (tst (nud_state neigh) NUD_VALID) eqn:Hv; cbn [negb andb].
      * cbv iota.
        destruct (update_override _ _ _ _ _) as [[[ll1 new1] uir]|];
          [|intros [= <- <- <-]; split; [reflexivity|intros H; contradiction]].
        match goal with
        | |- (let '(n3, tr3) := ?e in _) = _ -> _ => destruct e as [n3 tr3]
        end.
        destruct (new1 =? nud_state neigh);
          [intros [= <- <- <-]; split; [reflexivity|intros H; contradiction]|].
        cbn [negb]. cbv iota.
        intros [= <- <- <-]; split; try reflexivity; intros H; contradiction.
      * cbv iota. intros [= <- <- <-]. auto.
Qed.

Lemma neigh_del_timer_queue_le n :
  (length (arp_queue (fst (fst (neigh_del_timer n))))
   <= length (arp_queue n))%nat.
Proof.
  unfold neigh_del_timer, neigh_release_timer, neigh_destroy_tail.
  repeat (match goal with |- context [if ?c then _ else _] => destruct c end;
          simpl); lia.
Qed.

(** [neigh_update] returns: its only loop sends the queued packets, and
    ends when the output functions do not queue more on an entry they
    leave valid. *)
Lemma neigh_update_returns fuel neigh lladdr new flgs now :
  (forall t m s, tst (nud_state (output_call t m s)) NUD_VALID = true ->
     (length (arp_queue (output_call t m s)) <= length (arp_queue m))%nat) ->
  (length (arp_queue neigh) < fuel)%nat ->
  exists n' tr err,
    neigh_update fuel neigh lladdr new flgs now = Some (n', tr, err).
Proof.
  intros Hcb Hfuel. unfold neigh_update.
  destruct (_ && _); [eauto|].
  destruct (tst new NUD_VALID); cbn [negb]; cbv iota.
  2: { destruct (neigh_del_timer neigh) as [[m tr0] r]. eauto. }
  destruct (update_compare neigh lladdr) as [ll|]; [|eauto].
  set (n2 := set_updated _ now).
  assert (H2 : arp_queue n2 = arp_queue neigh).
  { subst n2. destruct (tst new NUD_CONNECTED); reflexivity. }
  clearbody n2.
  destruct (update_override _ _ _ _ _) as [[[ll1 new1] uir]|]; [|eauto].
  match goal with
  | |- context [let '(n3, tr3) := ?e in _] => destruct e as [n3 tr3] eqn:H3
  end.
  assert (Hq3 : (length (arp_queue n3) <= length (arp_queue neigh))%nat).
  { destruct (negb (new1 =? nud_state neigh));
      [|injection H3 as <- _; rewrite H2; lia].
    pose proof (neigh_del_timer_queue_le n2) as Hle.
    destruct (neigh_del_timer n2) as [[m tr0] r]. cbn [fst] in Hle.
    rewrite H2 in Hle. injection H3 as <- _.
    destruct (tst new1 NUD_IN_TIMER); cbn; lia. }
  clear H3.
  match goal with
  | |- context [update_out ?x uir flgs] =>
    match x with
    | match ll1 with _ => _ end => set (n4 := x)
    end
  end.
  assert (Hq4 : arp_queue n4 = arp_queue n3).
  { subst n4. destruct ll1 as [|b]; [reflexivity|].
    unfold neigh_update_hhs. cbn [dev set_ha].
    destruct (header_cache_update (dev n3));
      destruct (negb (tst new1 NUD_CONNECTED)); reflexivity. }
  clearbody n4.
  destruct (new1 =? nud_state neigh); [eauto|].
  destruct (negb (tst (nud_state neigh) NUD_VALID)); [|eauto].
  match goal with
  | |- context [update_xmit_loop fuel ?x] => set (n5 := x)
  end.
  assert (Hq5 : arp_queue n5 = arp_queue n4).
  { subst n5. destruct (tst new1 NUD_CONNECTED); reflexivity. }
  destruct (update_xmit_loop_drain Hcb fuel n5) as (sent & n1 & Hrun & _);
    [lia|intros _; rewrite Hq5, Hq4; lia|].
  rewrite Hrun. eauto.
Qed.

(** X5: the errors of [neigh_update].  It returns [-EPERM] exactly for a
    non-administrative update of a NOARP or PERMANENT entry, [-EINVAL]
    exactly for a permitted update to a valid state that supplies no
    address to an entry that has none (not valid, on a device that uses
    addresses), and 0 otherwise.  A refused update returns at once,
    whatever the output functions do, leaves the entry as it was and
    calls nothing; every other update returns 0 once its loop over the
    queue has ended, which it does when the output functions queue
    nothing more on an entry they leave valid. *)
Theorem neigh_update_errors neigh lladdr new flgs now :
  let eperm := negb (tst flgs NEIGH_UPDATE_F_ADMIN)
               && tst (nud_state neigh) (Z.lor NUD_NOARP NUD_PERMANENT) in
  let einval := negb eperm && tst new NUD_VALID
                && negb (addr_len (dev neigh) =? 0)
                && negb (tst (nud_state neigh) NUD_VALID)
                && match lladdr with None => true | Some _ => false end in
  (forall fuel,
     eperm || einval = true ->
     neigh_update fuel neigh lladdr new flgs now =
       Some (neigh, [], if eperm then - EPERM else - EINVAL)) /\
  (forall fuel,
     (forall t m s, tst (nud_state (output_call t m s)) NUD_VALID = true ->
        (length (arp_queue (output_call t m s)) <= length (arp_queue m))%nat) ->
     (length (arp_queue neigh) < fuel)%nat ->
     eperm || einval = false ->
     exists n' tr,
       neigh_update fuel neigh lladdr new flgs now = Some (n', tr, 0)).
Proof.
  cbv zeta. split.
  - intros fuel Href. unfold neigh_update.
    destruct (negb (tst flgs NEIGH_UPDATE_F_ADMIN)
              && tst (nud_state neigh) (Z.lor NUD_NOARP NUD_PERMANENT));
      [reflexivity|].
    cbn [negb andb orb] in Href.
    apply andb_true_iff in Href as [Href Hll].
    apply andb_true_iff in Href as [Href Hold].
    apply andb_true_iff in Href as [Hnv Hlen].
    rewrite Hnv. cbn [negb]. cbv iota.
    unfold update_compare. cbv zeta.
    apply negb_true_iff in Hlen. rewrite Hlen.
    destruct lladdr as [a|]; [discriminate|].
    rewrite Hold. reflexivity.
  - intros fuel Hcb Hfuel Hno.
    destruct (neigh_update_returns fuel neigh lladdr new flgs now Hcb Hfuel)
      as (n' & tr & err & Hrun).
    destruct (neigh_update_err_code _ _ _ _ _ _ _ _ _ Hrun) as [Herr _].
    cbv zeta in Herr. apply orb_false_iff in Hno as [Hp Hi].
    rewrite Hp in Herr. rewrite Hp in Hi. rewrite Hi in Herr.
    exists n', tr. rewrite Hrun, Herr. reflexivity.
Qed.

Lemma same_trc_refl n : same_trc n n.
Proof. unfold same_trc. auto. Qed.

Lemma same_trc_trans n m p : same_trc n m -> same_trc m p -> same_trc n p.
Proof.
  unfold same_trc. intros (-> & -> & ->) (-> & -> & ->). auto.
Qed.

Lemma same_trc_frame n n' :
  nud_state n' = nud_state n -> timer n' = timer n -> refcnt n' = refcnt n ->
  same_trc n n'.
Proof. unfold same_trc. auto. Qed.

(** [neigh_del_timer] on an entry whose timer, if pending, belongs to a
    timer state and holds a reference next to another one: the timer is
    stopped, its reference dropped, nothing else happens. *)
Lemma neigh_del_timer_shape n :
  timer_ok n -> (timer n <> None -> 2 <= refcnt n) ->
  neigh_del_timer n =
    (match timer n with
     | Some _ => set_refcnt (set_timer n None) (refcnt n - 1)
     | None => n
     end, [], match timer n with Some _ => 1 | None => 0 end).
Proof.
  intros Hok Hheld. unfold timer_ok in Hok. unfold neigh_del_timer.
  destruct (timer n) as [e|] eqn:Ht.
  - rewrite Hok by discriminate.
    rewrite bool_decide_eq_true_2 by discriminate. cbn [andb].
    unfold neigh_release_timer. cbn [refcnt set_refcnt set_timer].
    specialize (Hheld ltac:(discriminate)).
    destruct (Z.eqb_spec (refcnt n - 1) 0) as [Hz|Hz]; [lia|]. reflexivity.
  - rewrite bool_decide_eq_false_2 by (intros H; apply H; reflexivity).
    rewrite andb_false_r. reflexivity.
Qed.

Lemma update_xmit_loop_same_trc :
  (forall t m s, same_trc m (output_call t m s)) ->
  forall fuel n n' tr,
    update_xmit_loop fuel n = Some (n', tr) -> same_trc n n'.
Proof.
  intros Hcb fuel. induction fuel as [|fuel IH]; intros n n' tr;
    [discriminate|].
  simpl. destruct (tst (nud_state n) NUD_VALID);
    [|intros [= <- _]; apply same_trc_refl].
  destruct (arp_queue n) as [|skb rest] eqn:Hq; simpl;
    [intros [= <- _]; apply same_trc_refl|].
  destruct (update_xmit_loop fuel
              (output_call (xmit_target n skb) (set_arp_queue n rest) skb))
    as [[m tr0]|] eqn:Hrun; [|discriminate].
  intros [= <- _].
  eapply same_trc_trans; [|eapply IH; exact Hrun].
  eapply same_trc_trans; [|apply Hcb].
  apply same_trc_frame; reflexivity.
Qed.

Lemma update_out_same_trc n uir flgs : same_trc n (update_out n uir flgs).
Proof.
  unfold update_out. destruct (uir =? 0); [apply same_trc_refl|].
  apply same_trc_frame; reflexivity.
Qed.

(** X6: [neigh_update] and the entry's timer.  On an entry whose
    pending timer belongs to a timer state and holds its own reference,
    with output functions that leave state, timer and reference count
    alone, an update keeps a pending timer in a timer state and changes
    the reference count only by the timer references it drops and
    takes; an update to a valid state also leaves no entry in a timer
    state without its timer. *)
Theorem neigh_update_timer_refs fuel neigh lladdr new flgs now n' tr err :
  (forall t m s, same_trc m (output_call t m s)) ->
  timer_ok neigh ->
  (timer neigh <> None -> 2 <= refcnt neigh) ->
  neigh_update fuel neigh lladdr new flgs now = Some (n', tr, err) ->
  timer_ok n' /\
  refs_held n' = refs_held neigh /\
  (tst new NUD_VALID = true -> timer_armed neigh -> timer_armed n').
Proof.
  intros Hcb Hok Hheld. unfold neigh_update.
  assert (Hlift : forall a m,
            timer_ok a /\ refs_held a = refs_held neigh ->
            same_trc a m ->
            timer_ok m /\ refs_held m = refs_held neigh).
  { unfold timer_ok, refs_held, same_trc.
    intros a m [Ha Hr] (-> & -> & ->). auto. }
  assert (Hlift3 : forall a m (P : Prop),
            timer_ok a /\ refs_held a = refs_held neigh /\
            (P -> timer_armed neigh -> timer_armed a) ->
            same_trc a m ->
            timer_ok m /\ refs_held m = refs_held neigh /\
            (P -> timer_armed neigh -> timer_armed m)).
  { unfold timer_ok, refs_held, timer_armed, same_trc.
    intros a m P (Ha & Hr & Hp) (-> & -> & ->). auto. }
  assert (Hrefl : forall P : Prop,
            timer_ok neigh /\ refs_held neigh = refs_held neigh /\
            (P -> timer_armed neigh -> timer_armed neigh)) by auto.
  destruct (_ && _); [intros [= <- _ _]; apply Hrefl|].
  destruct (tst new NUD_VALID) eqn:Hnv; cbn [negb]; cbv iota.
  2: { rewrite (neigh_del_timer_shape _ Hok Hheld).
       intros [= <- _ _].
       split; [|split; [|intros H; discriminate]].
       - unfold timer_ok.
         destruct (timer neigh) eqn:Ht,
                  (tst (nud_state neigh) NUD_CONNECTED);
           cbn; rewrite ?Ht; intros H; exfalso; apply H; reflexivity.
       - unfold refs_held.
         destruct (timer neigh) eqn:Ht,
                  (tst (nud_state neigh) NUD_CONNECTED);
           cbn; rewrite ?Ht; lia. }
  destruct (update_compare neigh lladdr) as [ll|];
    [|intros [= <- _ _]; apply Hrefl].
  set (n2 := set_updated _ now).
  assert (H2 : same_trc neigh n2).
  { subst n2. destruct (tst new NUD_CONNECTED);
      apply same_trc_frame; reflexivity. }
  assert (Hok2 : timer_ok n2).
  { destruct H2 as (Hs & Ht & Hr). unfold timer_ok. rewrite Hs, Ht.
    exact Hok. }
  assert (Hheld2 : timer n2 <> None -> 2 <= refcnt n2).
  { destruct H2 as (Hs & Ht & Hr). rewrite Ht, Hr. exact Hheld. }
  clearbody n2.
  destruct (update_override _ _ _ _ _) as [[[ll1 new1] uir]|];
    [|intros [= <- _ _]; apply (Hlift3 neigh); [apply Hrefl|exact H2]].
  match goal with
  | |- (let '(n3, tr3) := ?e in _) = _ -> _ =>
    destruct e as [n3 tr3] eqn:H3
  end.
  assert (Hk3 : timer_ok n3 /\ refs_held n3 = refs_held neigh /\
                (True -> timer_armed neigh -> timer_armed n3)).
  { destruct (Z.eqb_spec new1 (nud_state neigh)) as [Heq|Hne];
      cbn [negb] in H3.
    - injection H3 as <- _. apply (Hlift3 neigh); [apply Hrefl|exact H2].
    - rewrite (neigh_del_timer_shape _ Hok2 Hheld2) in H3.
      destruct H2 as (Hs & Ht & Hr).
      injection H3 as <- _.
      unfold timer_ok, refs_held, timer_armed, neigh_hold.
      rewrite Ht, Hr.
      destruct (tst new1 NUD_IN_TIMER) eqn:Hin;
        destruct (timer neigh) as [e|]; cbn;
        rewrite ?Hin, ?Ht, ?Hr; (split; [|split]); intros; try lia;
        try congruence; try discriminate. }
  match goal with
  | |- context [update_out ?x uir flgs] => set (n4 := x)
  end.
  assert (H4 : same_trc n3 n4).
  { subst n4. destruct ll1 as [|a]; [apply same_trc_refl|].
    unfold neigh_update_hhs.
    destruct (negb (tst new1 NUD_CONNECTED));
      destruct (header_cache_update _);
      apply same_trc_frame; reflexivity. }
  assert (Hfin : forall m, same_trc n4 m ->
            timer_ok m /\ refs_held m = refs_held neigh /\
            (true = true -> timer_armed neigh -> timer_armed m)).
  { intros m Hm.
    destruct (Hlift3 n3 m True Hk3 (same_trc_trans _ _ _ H4 Hm))
      as (Ha & Hb & Hc).
    auto. }
  destruct (new1 =? nud_state neigh).
  { intros [= <- _ _]. apply Hfin. apply update_out_same_trc. }
  match goal with
  | |- context [update_xmit_loop fuel ?x] => set (n5 := x)
  end.
  assert (H5 : same_trc n4 n5).
  { subst n5. destruct (tst new1 NUD_CONNECTED);
      apply same_trc_frame; reflexivity. }
  destruct (negb (tst (nud_state neigh) NUD_VALID)).
  - destruct (update_xmit_loop fuel n5) as [[n6 tr6]|] eqn:Hrun;
      [|discriminate].
    intros [= <- _ _]. apply Hfin.
    eapply same_trc_trans; [exact H5|].
    eapply same_trc_trans;
      [eapply update_xmit_loop_same_trc; eauto|].
    eapply same_trc_trans; [|apply update_out_same_trc].
    apply same_trc_frame; reflexivity.
  - intros [= <- _ _]. apply Hfin.
    eapply same_trc_trans; [exact H5|apply update_out_same_trc].
Qed.

Lemma u8_testbit x i :
  0 <= i -> Z.testbit (u8 x) i = (i <? 8) && Z.testbit x i.
Proof.
  intros Hi. unfold u8, wrap.
  destruct (Z.ltb_spec i 8).
  - rewrite Z.mod_pow2_bits_low by lia. reflexivity.
  - rewrite Z.mod_pow2_bits_high by lia. reflexivity.
Qed.

Lemma u8_range_testbit x i : 0 <= x < 256 -> 8 <= i -> Z.testbit x i = false.
Proof.
  intros Hx Hi.
  destruct (Z.eq_dec x 0) as [->|Hne]; [apply Z.bits_0|].
  apply Z.bits_above_log2; [lia|].
  assert (Z.log2 x < 8); [|lia].
  apply Z.log2_lt_pow2; lia.
Qed.

Lemma update_xmit_loop_flags :
  (forall t m s, flags (output_call t m s) = flags m) ->
  forall fuel n n' tr,
    update_xmit_loop fuel n = Some (n', tr) -> flags n' = flags n.
Proof.
  intros Hcb fuel. induction fuel as [|fuel IH]; intros n n' tr;
    [discriminate|].
  simpl. destruct (tst (nud_state n) NUD_VALID);
    [|intros [= <- _]; reflexivity].
  destruct (arp_queue n) as [|skb rest] eqn:Hq; simpl;
    [intros [= <- _]; reflexivity|].
  destruct (update_xmit_loop fuel
              (output_call (xmit_target n skb) (set_arp_queue n rest) skb))
    as [[m tr0]|] eqn:Hrun; [|discriminate].
  intros [= <- _]. rewrite (IH _ _ _ Hrun), Hcb. reflexivity.
Qed.

(** The flags of the entry before the label [out:] are the ones it had,
    and [update_isrouter] is nonzero only when OVERRIDE_ISROUTER was
    passed. *)
Lemma update_out_flags n uir flgs i :
  0 <= flags n < 256 -> 0 <= i -> i <> 7 ->
  Z.testbit (flags (update_out n uir flgs)) i = Z.testbit (flags n) i.
Proof.
  intros Hr Hi Hne. unfold update_out.
  destruct (uir =? 0); [reflexivity|].
  cbn [flags set_flags].
  destruct (Z.ltb_spec i 8) as [Hlt|Hge].
  - destruct (tst flgs NEIGH_UPDATE_F_ISROUTER);
      rewrite u8_testbit by exact Hi;
      (destruct (Z.ltb_spec i 8); [|lia]); cbn [andb].
    + rewrite Z.lor_spec.
      assert (Hb : Z.testbit NTF_ROUTER i = false).
      { unfold NTF_ROUTER. change 128 with (2 ^ 7).
        apply Z.pow2_bits_false. lia. }
      rewrite Hb. apply orb_false_r.
    + rewrite Z.land_spec, Z.lnot_spec by exact Hi.
      assert (Hb : Z.testbit NTF_ROUTER i = false).
      { unfold NTF_ROUTER. change 128 with (2 ^ 7).
        apply Z.pow2_bits_false. lia. }
      rewrite Hb. apply andb_true_r.
  - rewrite (u8_range_testbit (flags n) i Hr Hge).
    destruct (tst flgs NEIGH_UPDATE_F_ISROUTER);
      rewrite u8_testbit by exact Hi;
      (destruct (Z.ltb_spec i 8); [lia|]); reflexivity.
Qed.

Lemma update_out_router n uir flgs :
  uir <> 0 ->
  Z.testbit (flags (update_out n uir flgs)) 7 =
    tst flgs NEIGH_UPDATE_F_ISROUTER.
Proof.
  intros Hu. unfold update_out.
  destruct (Z.eqb_spec uir 0); [contradiction|].
  cbn [flags set_flags].
  destruct (tst flgs NEIGH_UPDATE_F_ISROUTER);
    rewrite u8_testbit by lia; change (7 <? 8) with true; cbn [andb].
  - rewrite Z.lor_spec. change (Z.testbit NTF_ROUTER 7) with true.
    apply orb_true_r.
  - rewrite Z.land_spec, Z.lnot_spec by lia.
    change (Z.testbit NTF_ROUTER 7) with true. apply andb_false_r.
Qed.

Lemma update_override_uir old new flgs u0 ll ll1 new1 uir :
  update_override old new flgs u0 ll = Some (ll1, new1, uir) ->
  (uir = 0 \/ uir = u0) /\
  (tst flgs NEIGH_UPDATE_F_OVERRIDE = true -> uir = u0).
Proof.
  unfold update_override.
  destruct (tst old NUD_VALID); [|intros [= _ _ <-]; auto].
  destruct (tst flgs NEIGH_UPDATE_F_OVERRIDE); cbn [negb andb].
  - rewrite andb_false_r.
    destruct (is_ha ll && _ && _); intros [= _ _ <-]; auto.
  - rewrite andb_true_r.
    destruct (negb (is_ha ll)).
    + destruct (_ && _); [|discriminate].
      intros [= _ _ <-]. split; [auto|discriminate].
    + destruct (is_ha ll && _ && _); intros [= _ _ <-];
        (split; [auto|discriminate]).
Qed.

Lemma update_override_none old new flgs u0 ll :
  update_override old new flgs u0 ll = None ->
  tst flgs NEIGH_UPDATE_F_OVERRIDE = false.
Proof.
  unfold update_override.
  destruct (tst old NUD_VALID); [|discriminate].
  destruct (tst flgs NEIGH_UPDATE_F_OVERRIDE); [|reflexivity].
  cbn [negb]. rewrite andb_false_r.
  destruct (is_ha ll && _ && _); discriminate.
Qed.

(** Every return of [neigh_update] goes through the label [out:]. *)
Lemma neigh_update_out_form fuel neigh lladdr new flgs now n' tr err :
  (forall t m s, flags (output_call t m s) = flags m) ->
  neigh_update fuel neigh lladdr new flgs now = Some (n', tr, err) ->
  exists m uir,
    n' = update_out m uir flgs /\ flags m = flags neigh /\
    (uir = 0 \/ uir = Z.land flgs NEIGH_UPDATE_F_OVERRIDE_ISROUTER) /\
    (err = 0 -> tst new NUD_VALID = true ->
     tst flgs NEIGH_UPDATE_F_OVERRIDE = true ->
     uir = Z.land flgs NEIGH_UPDATE_F_OVERRIDE_ISROUTER).
Proof.
  intros Hcb. unfold neigh_update.
  assert (Hzero : forall m, flags m = flags neigh ->
                    (err = 0 -> tst new NUD_VALID = true ->
                     tst flgs NEIGH_UPDATE_F_OVERRIDE = true -> False) ->
                    n' = m ->
                    exists m0 uir,
                      n' = update_out m0 uir flgs /\ flags m0 = flags neigh /\
                      (uir = 0 \/
                       uir = Z.land flgs NEIGH_UPDATE_F_OVERRIDE_ISROUTER) /\
                      (err = 0 -> tst new NUD_VALID = true ->
                       tst flgs NEIGH_UPDATE_F_OVERRIDE = true ->
                       uir = Z.land flgs NEIGH_UPDATE_F_OVERRIDE_ISROUTER)).
  { intros m Hm Hno ->. exists m, 0. split; [reflexivity|].
    split; [exact Hm|]. split; [auto|]. intros H1 H2 H3.
    destruct (Hno H1 H2 H3). }
  destruct (_ && _).
  { intros [= <- _ <-]. apply (Hzero neigh); auto.
    intros H. vm_compute in H. discriminate. }
  destruct (tst new NUD_VALID) eqn:Hnv; cbn [negb]; cbv iota.
  2: { destruct (neigh_del_timer_frame neigh) as (_ & _ & _ & _ & Hfl & _).
       destruct (neigh_del_timer neigh) as [[m tr0] r]. cbn [fst] in Hfl.
       intros [= <- _ <-].
       apply (Hzero (set_nud_state
                       (if tst (nud_state neigh) NUD_CONNECTED
                        then neigh_suspect m else m) new));
         [|intros _ H; discriminate|reflexivity].
       destruct (tst (nud_state neigh) NUD_CONNECTED); exact Hfl. }
  destruct (update_compare neigh lladdr) as [ll|].
  2: { intros [= <- _ <-]. apply (Hzero neigh); auto.
       intros H. vm_compute in H. discriminate. }
  set (n2 := set_updated _ now).
  assert (H2 : flags n2 = flags neigh).
  { subst n2. destruct (tst new NUD_CONNECTED); reflexivity. }
  clearbody n2.
  destruct (update_override _ _ _ _ _) as [[[ll1 new1] uir]|] eqn:Hov.
  2: { intros [= <- _ <-]. apply (Hzero n2); auto.
       intros _ _ H. rewrite (update_override_none _ _ _ _ _ Hov) in H.
       discriminate. }
  destruct (update_override_uir _ _ _ _ _ _ _ _ Hov) as [Hu1 Hu2].
  match goal with
  | |- (let '(n3, tr3) := ?e in _) = _ -> _ =>
    destruct e as [n3 tr3] eqn:H3
  end.
  assert (Hf3 : flags n3 = flags neigh).
  { destruct (negb (new1 =? nud_state neigh));
      [|injection H3 as <- _; exact H2].
    destruct (neigh_del_timer_frame n2) as (_ & _ & _ & _ & Hfl & _).
    destruct (neigh_del_timer n2) as [[m tr0] r]. cbn [fst] in Hfl.
    injection H3 as <- _.
    destruct (tst new1 NUD_IN_TIMER); cbn; rewrite Hfl; exact H2. }
  match goal with
  | |- context [update_out ?x uir flgs] => set (n4 := x)
  end.
  assert (Hf4 : flags n4 = flags neigh).
  { subst n4. destruct ll1 as [|a]; [exact Hf3|].
    unfold neigh_update_hhs.
    destruct (negb (tst new1 NUD_CONNECTED));
      destruct (header_cache_update _); exact Hf3. }
  clearbody n4.
  destruct (new1 =? nud_state neigh).
  { intros [= <- _ <-]. exists n4, uir. auto. }
  match goal with
  | |- context [update_xmit_loop fuel ?x] => set (n5 := x)
  end.
  assert (Hf5 : flags n5 = flags neigh).
  { subst n5. destruct (tst new1 NUD_CONNECTED); exact Hf4. }
  clearbody n5.
  destruct (negb (tst (nud_state neigh) NUD_VALID)).
  - destruct (update_xmit_loop fuel n5) as [[n6 tr6]|] eqn:Hrun;
      [|discriminate].
    intros [= <- _ <-]. exists (set_arp_queue n6 []), uir.
    split; [reflexivity|]. split; [|auto].
    cbn. rewrite (update_xmit_loop_flags Hcb _ _ _ _ Hrun). exact Hf5.
  - intros [= <- _ <-]. exists n5, uir. auto.
Qed.

(** X7: the is-router flag.  Of the entry's flags [neigh_update] can
    change only NTF_ROUTER, and only when OVERRIDE_ISROUTER is passed;
    a successful update to a valid state with OVERRIDE and
    OVERRIDE_ISROUTER leaves NTF_ROUTER set exactly when ISROUTER was
    passed. *)
Theorem neigh_update_router_flag fuel neigh lladdr new flgs now n' tr err :
  (forall t m s, flags (output_call t m s) = flags m) ->
  0 <= flags neigh < 256 ->
  neigh_update fuel neigh lladdr new flgs now = Some (n', tr, err) ->
  (forall i, 0 <= i -> i <> 7 ->
     Z.testbit (flags n') i = Z.testbit (flags neigh) i) /\
  (tst flgs NEIGH_UPDATE_F_OVERRIDE_ISROUTER = false ->
   flags n' = flags neigh) /\
  (tst flgs NEIGH_UPDATE_F_OVERRIDE_ISROUTER = true ->
   tst flgs NEIGH_UPDATE_F_OVERRIDE = true ->
   tst new NUD_VALID = true -> err = 0 ->
   Z.testbit (flags n') 7 = tst flgs NEIGH_UPDATE_F_ISROUTER).
Proof.
  intros Hcb Hr Hrun.
  destruct (neigh_update_out_form _ _ _ _ _ _ _ _ _ Hcb Hrun)
    as (m & uir & -> & Hm & Hu & Hset).
  split; [|split].
  - intros i Hi Hne. rewrite <- Hm. apply update_out_flags; auto.
    rewrite Hm. exact Hr.
  - intros Hno. unfold tst in Hno. apply negb_false_iff in Hno.
    apply Z.eqb_eq in Hno.
    assert (Hz : uir = 0) by (destruct Hu as [|Hu]; [auto|congruence]).
    rewrite Hz. unfold update_out. cbn. exact Hm.
  - intros Hyes Hov Hnv He. apply update_out_router.
    rewrite (Hset He Hnv Hov). unfold tst in Hyes.
    apply negb_true_iff in Hyes. apply Z.eqb_neq in Hyes. exact Hyes.
Qed.

Lemma update_xmit_loop_ha :
  (forall t m s, ha (output_call t m s) = ha m) ->
  forall fuel n n' tr,
    update_xmit_loop fuel n = Some (n', tr) -> ha n' = ha n.
Proof.
  intros Hcb fuel. induction fuel as [|fuel IH]; intros n n' tr;
    [discriminate|].
  simpl. destruct (tst (nud_state n) NUD_VALID);
    [|intros [= <- _]; reflexivity].
  destruct (arp_queue n) as [|skb rest] eqn:Hq; simpl;
    [intros [= <- _]; reflexivity|].
  destruct (update_xmit_loop fuel
              (output_call (xmit_target n skb) (set_arp_queue n rest) skb))
    as [[m tr0]|] eqn:Hrun; [|discriminate].
  intros [= <- _]. rewrite (IH _ _ _ Hrun), Hcb. reflexivity.
Qed.

Lemma memcpy_installed dst src len :
  (Z.to_nat len <= length src)%nat ->
  memcmp_eq src (memcpy dst src len) len = true /\
  drop (Z.to_nat len) (memcpy dst src len) = drop (Z.to_nat len) dst.
Proof.
  intros Hlen. unfold memcmp_eq, memcpy.
  assert (Hl : length (take (Z.to_nat len) src) = Z.to_nat len)
    by (rewrite length_take; lia).
  split.
  - apply bool_decide_eq_true.
    rewrite take_app_le by lia. rewrite take_idemp. reflexivity.
  - rewrite drop_app_ge by lia. rewrite Hl, Nat.sub_diag. reflexivity.
Qed.

(** What an update that may replace the address leaves, when it
    returns. *)
Lemma neigh_update_installs_if fuel neigh a new flgs now n' tr err :
  (forall t m s, ha (output_call t m s) = ha m) ->
  (tst flgs NEIGH_UPDATE_F_ADMIN = true \/
   tst (nud_state neigh) (Z.lor NUD_NOARP NUD_PERMANENT) = false) ->
  tst new NUD_VALID = true ->
  0 < addr_len (dev neigh) ->
  (Z.to_nat (addr_len (dev neigh)) <= length a)%nat ->
  (tst flgs NEIGH_UPDATE_F_OVERRIDE = true \/
   tst (nud_state neigh) NUD_VALID = false) ->
  neigh_update fuel neigh (Some a) new flgs now = Some (n', tr, err) ->
  err = 0 /\
  memcmp_eq a (ha n') (addr_len (dev neigh)) = true /\
  drop (Z.to_nat (addr_len (dev neigh))) (ha n') =
    drop (Z.to_nat (addr_len (dev neigh))) (ha neigh).
Proof.
  intros Hcb Hperm Hnv Hlen Hbuf Hov. unfold neigh_update.
  assert (Hadm : negb (tst flgs NEIGH_UPDATE_F_ADMIN)
                 && tst (nud_state neigh) (Z.lor NUD_NOARP NUD_PERMANENT)
                 = false).
  { destruct Hperm as [-> | ->]; [reflexivity|apply andb_false_r]. }
  rewrite Hadm, Hnv. cbn [negb]. cbv iota.
  unfold update_compare.
  destruct (Z.eqb_spec (addr_len (dev neigh)) 0) as [Hz|_]; [lia|].
  set (same := tst (nud_state neigh) NUD_VALID
               && memcmp_eq a (ha neigh) (addr_len (dev neigh))).
  assert (Hll : exists ll new1 uir,
            update_override (nud_state neigh) new flgs
              (Z.land flgs NEIGH_UPDATE_F_OVERRIDE_ISROUTER)
              (if same then Ll_ha else Ll_new a) =
              Some (if same then Ll_ha else Ll_new a, new1, uir) /\
            ll = (if same then Ll_ha else Ll_new a)).
  { unfold update_override.
    destruct (tst (nud_state neigh) NUD_VALID) eqn:Hold.
    - destruct Hov as [Hov|Hov]; [|discriminate]. rewrite Hov.
      cbn [negb]. rewrite andb_false_r.
      destruct (is_ha _ && _ && _); eauto.
    - eauto. }
  destruct Hll as (ll & new1 & uir & Hovr & Hlleq).
  assert (Hsame : same = true ->
            memcmp_eq a (ha neigh) (addr_len (dev neigh)) = true).
  { unfold same. intros H. apply andb_true_iff in H as [_ H]. exact H. }
  replace (if same then Some Ll_ha else Some (Ll_new a))
    with (Some (if same then Ll_ha else Ll_new a))
    by (destruct same; reflexivity).
  cbv iota beta.
  set (n2 := set_updated _ now).
  assert (H2 : ha n2 = ha neigh /\ dev n2 = dev neigh).
  { subst n2. destruct (tst new NUD_CONNECTED); split; reflexivity. }
  clearbody n2. destruct H2 as [H2 Hd2].
  rewrite Hovr.
  match goal with
  | |- (let '(n3, tr3) := ?e in _) = _ -> _ =>
    destruct e as [n3 tr3] eqn:H3
  end.
  assert (Hf3 : ha n3 = ha neigh).
  { destruct (negb (new1 =? nud_state neigh));
      [|injection H3 as <- _; exact H2].
    destruct (neigh_del_timer_frame n2) as (_ & Hha & _).
    destruct (neigh_del_timer n2) as [[m tr0] r]. cbn [fst] in Hha.
    injection H3 as <- _.
    destruct (tst new1 NUD_IN_TIMER); cbn; rewrite Hha; exact H2. }
  match goal with
  | |- context [update_out ?x uir flgs] => set (n4 := x)
  end.
  assert (Hf4 : memcmp_eq a (ha n4) (addr_len (dev neigh)) = true /\
                drop (Z.to_nat (addr_len (dev neigh))) (ha n4) =
                  drop (Z.to_nat (addr_len (dev neigh))) (ha neigh)).
  { subst n4. destruct same.
    - rewrite Hf3. split; [apply Hsame|]; reflexivity.
    - assert (Hha : forall m, ha (neigh_update_hhs m) = ha m).
      { intros m. unfold neigh_update_hhs.
        destruct (header_cache_update _); reflexivity. }
      destruct (negb (tst new1 NUD_CONNECTED)); cbn [ha set_confirmed];
        rewrite Hha; cbn [ha set_ha]; rewrite Hf3;
        apply memcpy_installed; exact Hbuf. }
  clearbody n4.
  assert (Hout : forall m, ha (update_out m uir flgs) = ha m).
  { intros m. unfold update_out. destruct (uir =? 0); reflexivity. }
  destruct (new1 =? nud_state neigh).
  { intros [= <- _ <-]. rewrite Hout. auto. }
  match goal with
  | |- context [update_xmit_loop fuel ?x] => set (n5 := x)
  end.
  assert (Hf5 : ha n5 = ha n4).
  { subst n5. destruct (tst new1 NUD_CONNECTED); reflexivity. }
  clearbody n5.
  destruct (negb (tst (nud_state neigh) NUD_VALID)).
  - destruct (update_xmit_loop fuel n5) as [[n6 tr6]|] eqn:Hrun;
      [|discriminate].
    intros [= <- _ <-]. rewrite Hout. cbn [ha set_arp_queue].
    rewrite (update_xmit_loop_ha Hcb _ _ _ _ Hrun), Hf5. auto.
  - intros [= <- _ <-]. rewrite Hout, Hf5. auto.
Qed.

(** X8: an update that may replace the address does.  A permitted
    update to a valid state that supplies an address, on a device that
    uses addresses, with OVERRIDE or on an entry that had no valid
    address, returns 0 and leaves the supplied address cached: the first
    [addr_len] bytes of [ha] are the supplied ones, the bytes behind
    them are untouched.  The output functions called for the queued
    packets are taken to leave [ha] alone and to queue nothing more on
    an entry they leave valid. *)
Theorem neigh_update_installs fuel neigh a new flgs now :
  (forall t m s, ha (output_call t m s) = ha m) ->
  (forall t m s, tst (nud_state (output_call t m s)) NUD_VALID = true ->
     (length (arp_queue (output_call t m s)) <= length (arp_queue m))%nat) ->
  (length (arp_queue neigh) < fuel)%nat ->
  (tst flgs NEIGH_UPDATE_F_ADMIN = true \/
   tst (nud_state neigh) (Z.lor NUD_NOARP NUD_PERMANENT) = false) ->
  tst new NUD_VALID = true ->
  0 < addr_len (dev neigh) ->
  (Z.to_nat (addr_len (dev neigh)) <= length a)%nat ->
  (tst flgs NEIGH_UPDATE_F_OVERRIDE = true \/
   tst (nud_state neigh) NUD_VALID = false) ->
  exists n' tr,
    neigh_update fuel neigh (Some a) new flgs now = Some (n', tr, 0) /\
    memcmp_eq a (ha n') (addr_len (dev neigh)) = true /\
    drop (Z.to_nat (addr_len (dev neigh))) (ha n') =
      drop (Z.to_nat (addr_len (dev neigh))) (ha neigh).
Proof.
  intros Hha Hcb Hfuel Hperm Hnv Hlen Hbuf Hov.
  destruct (neigh_update_returns fuel neigh (Some a) new flgs now Hcb Hfuel)
    as (n' & tr & err & Hrun).
  destruct (neigh_update_installs_if _ _ _ _ _ _ _ _ _
              Hha Hperm Hnv Hlen Hbuf Hov Hrun) as (-> & Hcmp & Hdrop).
  exists n', tr. auto.
Qed.

(** X9: an update to a state that is not valid (FAILED, NONE,
    INCOMPLETE), when permitted, always succeeds: the state is set, the
    timer is stopped and its reference dropped, the fast path is
    suspended if the entry was connected, and nothing else happens; in
    particular the packets queued on the entry stay queued, none is
    freed, reported or transmitted. *)
Theorem neigh_update_invalidate fuel neigh lladdr new flgs now :
  (tst flgs NEIGH_UPDATE_F_ADMIN = true \/
   tst (nud_state neigh) (Z.lor NUD_NOARP NUD_PERMANENT) = false) ->
  tst new NUD_VALID = false ->
  timer_ok neigh ->
  (timer neigh <> None -> 2 <= refcnt neigh) ->
  exists n',
    neigh_update fuel neigh lladdr new flgs now = Some (n', [], 0) /\
    nud_state n' = new /\ timer n' = None /\
    refs_held n' = refs_held neigh /\
    arp_queue n' = arp_queue neigh /\ ha n' = ha neigh /\
    flags n' = flags neigh /\ dead n' = dead neigh /\
    output n' = (if tst (nud_state neigh) NUD_CONNECTED
                 then fn_ops_output else output neigh) /\
    map hh_data (hh n') = map hh_data (hh neigh) /\
    (tst (nud_state neigh) NUD_CONNECTED = true ->
     Forall (fun h => hh_output h = fn_ops_output) (hh n')).
Proof.
  intros Hperm Hnv Hok Hheld. unfold neigh_update.
  assert (Hadm : negb (tst flgs NEIGH_UPDATE_F_ADMIN)
                 && tst (nud_state neigh) (Z.lor NUD_NOARP NUD_PERMANENT)
                 = false).
  { destruct Hperm as [-> | ->]; [reflexivity|apply andb_false_r]. }
  rewrite Hadm, Hnv. cbn [negb]. cbv iota.
  rewrite (neigh_del_timer_shape _ Hok Hheld).
  eexists. split; [reflexivity|].
  unfold refs_held, neigh_suspect.
  destruct (timer neigh) as [e|] eqn:Ht;
    destruct (tst (nud_state neigh) NUD_CONNECTED); cbn; rewrite ?Ht;
    repeat (split; [first [reflexivity | lia
                          | rewrite map_map; reflexivity]|]);
    try discriminate;
    intros _; apply Forall_forall; intros h Hin;
    apply list_elem_of_In, in_map_iff in Hin as (h0 & <- & _); reflexivity.
Qed.

(** ** The per-entry timer: re-arming, soliciting, giving up *)

Lemma swrap_0 w : swrap w 0 = 0.
Proof.
  unfold swrap. rewrite Z.add_0_l.
  destruct (Z.le_gt_cases 1 w) as [Hw|Hw].
  - rewrite Z.mod_small; [lia|].
    split; [apply Z.pow_nonneg; lia|].
    apply Z.pow_lt_mono_r; lia.
  - rewrite (Z.pow_neg_r 2 (w - 1)) by lia. rewrite Zmod_0_l. reflexivity.
Qed.

Lemma timer_clamp_bound next now :
  time_before (timer_clamp next now) (ulong (now + Z.quot HZ 2)) = false.
Proof.
  unfold timer_clamp.
  destruct (time_before next (ulong (now + Z.quot HZ 2))) eqn:Hb;
    [|exact Hb].
  unfold time_before, time_after. rewrite Z.sub_diag, swrap_0. reflexivity.
Qed.

(** [neigh_release] of a reference that is not the last one, or of the
    last one when no timer is pending. *)
Lemma neigh_release_shape n :
  (timer n <> None -> 2 <= refcnt n) ->
  same_trc (set_refcnt n (refcnt n - 1)) (fst (neigh_release n)) /\
  (2 <= refcnt n ->
   neigh_release n = (set_refcnt n (refcnt n - 1), [])).
Proof.
  intros Hheld. unfold neigh_release. cbn [refcnt set_refcnt].
  destruct (Z.eqb_spec (refcnt n - 1) 0) as [Hz|Hz].
  - split; [|intros H; lia].
    assert (Hnone : timer n = None).
    { destruct (timer n) as [e|]; [|reflexivity].
      specialize (Hheld ltac:(discriminate)). lia. }
    unfold neigh_destroy. cbn [dead set_refcnt].
    destruct (dead n =? 0); [apply same_trc_refl|].
    unfold neigh_del_timer. cbn [timer set_refcnt nud_state]. rewrite Hnone.
    rewrite bool_decide_eq_false_2 by (intros H; apply H; reflexivity).
    rewrite andb_false_r. cbn. apply same_trc_frame; reflexivity.
  - split; [apply same_trc_refl|reflexivity].
Qed.

Lemma timer_report_loop_same_trc :
  (forall m s, same_trc m (error_report m s)) ->
  forall fuel n n' tr,
    timer_report_loop fuel n = Some (n', tr) -> same_trc n n'.
Proof.
  intros Hcb fuel. induction fuel as [|fuel IH]; intros n n' tr;
    [discriminate|].
  simpl. destruct (nud_state n =? NUD_FAILED);
    [|intros [= <- _]; apply same_trc_refl].
  destruct (arp_queue n) as [|skb rest] eqn:Hq; simpl;
    [intros [= <- _]; apply same_trc_refl|].
  destruct (timer_report_loop fuel (error_report (set_arp_queue n rest) skb))
    as [[m tr0]|] eqn:Hrun; [|discriminate].
  intros [= <- _].
  eapply same_trc_trans; [|eapply IH; exact Hrun].
  eapply same_trc_trans; [|apply Hcb].
  apply same_trc_frame; reflexivity.
Qed.

(** X10: the timer after [neigh_timer_handler].  With callbacks that
    leave state, timer and reference count alone, and the fired timer's
    reference counted, the handler leaves the timer pending exactly when
    the entry is in a timer state; the reference the fired timer held is
    dropped, or handed to the timer it re-arms, so the references held
    besides a timer's do not change; and the timer it re-arms never
    expires sooner than [HZ/2] ticks from now. *)
Theorem timer_handler_rearm fuel neigh now n' tr :
  (forall m s, same_trc m (error_report m s)) ->
  (forall m s, same_trc m (solicit m s)) ->
  1 <= refcnt neigh ->
  neigh_timer_handler fuel neigh now = Some (n', tr) ->
  timer_ok n' /\ timer_armed n' /\
  refs_held n' = refcnt neigh - 1 /\
  (forall e, timer n' = Some e ->
     time_before e (ulong (now + Z.quot HZ 2)) = false).
Proof.
  intros Her Hso Href. unfold neigh_timer_handler.
  assert (Hfinal : forall m,
            timer m = None \/
            (exists next, timer m = Some (timer_clamp next now) /\
                          tst (nud_state m) NUD_IN_TIMER = true) ->
            (timer m = None -> tst (nud_state m) NUD_IN_TIMER = false) ->
            refs_held m = refcnt neigh ->
            1 <= refcnt neigh ->
            timer_ok (fst (neigh_release m)) /\
            timer_armed (fst (neigh_release m)) /\
            refs_held (fst (neigh_release m)) = refcnt neigh - 1 /\
            (forall e, timer (fst (neigh_release m)) = Some e ->
               time_before e (ulong (now + Z.quot HZ 2)) = false)).
  { intros m Ht Hst Hr H1.
    destruct (neigh_release_shape m) as [(Hs & Htm & Hrc) _].
    { intros Hp. unfold refs_held in Hr.
      destruct (timer m); [lia|contradiction]. }
    cbn [nud_state timer refcnt set_refcnt] in Hs, Htm, Hrc.
    unfold timer_ok, timer_armed, refs_held in *.
    rewrite Hs, Htm, Hrc.
    destruct Ht as [Ht|(next & Ht & Hin)]; rewrite Ht in *.
    - split; [intros H; contradiction|].
      split; [intros H; rewrite Hst in H by reflexivity; discriminate|].
      split; [lia|discriminate].
    - split; [intros _; exact Hin|]. split; [intros _; discriminate|].
      split; [lia|]. intros e [= <-]. apply timer_clamp_bound. }
  destruct (tst (nud_state (set_timer neigh None)) NUD_IN_TIMER) eqn:Hin0;
    cbn [negb]; cbv iota.
  2: { destruct (neigh_release (set_timer neigh None)) as [m tr0] eqn:Hrel.
       intros [= <- _].
       replace m with (fst (neigh_release (set_timer neigh None)))
         by (rewrite Hrel; reflexivity).
       apply Hfinal;
         [left; reflexivity|intros _; exact Hin0
         |unfold refs_held; cbn; lia|exact Href]. }
  destruct (timer_transition (set_timer neigh None)
              (nud_state (set_timer neigh None)) now) as [n1 next] eqn:Htr.
  assert (H1 : timer n1 = None /\ refcnt n1 = refcnt neigh).
  { unfold timer_transition in Htr.
    repeat match type of Htr with
           | (if ?c then _ else _) = _ => destruct c
           end; injection Htr as <- _; split; reflexivity. }
  destruct H1 as [Ht1 Hr1]. clear Htr.
  destruct (timer_probe_failure fuel n1) as [[n2 tr2]|] eqn:Hf; [|discriminate].
  assert (H2 : timer n2 = None /\ refcnt n2 = refcnt neigh).
  { unfold timer_probe_failure in Hf.
    destruct (_ && _); [|injection Hf as <- _; auto].
    destruct (timer_report_loop fuel (set_nud_state n1 NUD_FAILED))
      as [[m tr0]|] eqn:Hrun; [|discriminate].
    injection Hf as <- _.
    destruct (timer_report_loop_same_trc Her _ _ _ _ Hrun) as (_ & Ht & Hr).
    cbn. rewrite Ht, Hr. auto. }
  destruct H2 as [Ht2 Hr2]. clear Hf.
  set (n3 := timer_rearm n2 next now).
  assert (H3 : (timer n3 = None \/
                (exists nx, timer n3 = Some (timer_clamp nx now) /\
                            tst (nud_state n3) NUD_IN_TIMER = true)) /\
               (timer n3 = None -> tst (nud_state n3) NUD_IN_TIMER = false) /\
               refs_held n3 = refcnt neigh).
  { subst n3. unfold timer_rearm, refs_held, neigh_hold.
    destruct (tst (nud_state n2) NUD_IN_TIMER) eqn:Hin2.
    - cbn. fold (timer_clamp next now).
      split; [right; exists next; auto|]. split; [discriminate|lia].
    - rewrite Ht2, Hin2. split; [auto|]. split; [auto|lia]. }
  clearbody n3. destruct H3 as (Ht3 & Hst3 & Hr3).
  destruct (timer_solicit n3) as [n4 tr4] eqn:Hs.
  assert (H4 : same_trc n3 n4).
  { unfold timer_solicit in Hs. cbv zeta in Hs.
    destruct (tst (nud_state n3) (Z.lor NUD_INCOMPLETE NUD_PROBE));
      injection Hs as <- _; [|apply same_trc_refl].
    eapply same_trc_trans; [apply Hso|].
    apply same_trc_frame; reflexivity. }
  destruct H4 as (Hs4 & Ht4 & Hr4).
  destruct (neigh_release n4) as [n5 tr5] eqn:Hrel.
  intros [= <- _].
  replace n5 with (fst (neigh_release n4)) by (rewrite Hrel; reflexivity).
  apply Hfinal; [| | |exact Href].
  - rewrite Ht4, Hs4. exact Ht3.
  - rewrite Ht4, Hs4. exact Hst3.
  - unfold refs_held in *. rewrite Ht4, Hr4. exact Hr3.
Qed.

(** One firing on an entry that is resolving or probing and has probes
    left, with a [solicit] that only transmits. *)
Lemma timer_handler_probe_step fuel neigh now :
  (forall m s, solicit m s = m) ->
  nud_state neigh = NUD_INCOMPLETE \/ nud_state neigh = NUD_PROBE ->
  probes neigh < neigh_max_probes neigh ->
  1 <= refcnt neigh ->
  neigh_timer_handler fuel neigh now =
    Some (set_refcnt
            (set_probes
               (set_timer (neigh_hold (set_timer neigh None))
                  (Some (timer_clamp
                           (ulong (now + retrans_time (parms neigh))) now)))
               (int_add (probes neigh) 1))
            (refcnt neigh + 1 - 1),
          [Ev_solicit (skb_peek (arp_queue neigh))]).
Proof.
  intros Hso Hst Hp Href. unfold neigh_timer_handler.
  assert (Hin : tst (nud_state neigh) NUD_IN_TIMER = true)
    by (destruct Hst as [-> | ->]; reflexivity).
  assert (Hr : tst (nud_state neigh) NUD_REACHABLE = false)
    by (destruct Hst as [-> | ->]; reflexivity).
  assert (Hd : tst (nud_state neigh) NUD_DELAY = false)
    by (destruct Hst as [-> | ->]; reflexivity).
  assert (Hip : tst (nud_state neigh) (Z.lor NUD_INCOMPLETE NUD_PROBE) = true)
    by (destruct Hst as [-> | ->]; reflexivity).
  cbn [nud_state set_timer]. rewrite Hin. cbn [negb]. cbv iota.
  unfold timer_transition. rewrite Hr, Hd.
  unfold timer_probe_failure.
  cbn [nud_state set_timer probes parms].
  change (neigh_max_probes (set_timer neigh None))
    with (neigh_max_probes neigh).
  rewrite Hip.
  destruct (Z.leb_spec (neigh_max_probes neigh) (probes neigh)) as [Hle|_];
    [lia|].
  cbn [andb]. cbv iota beta.
  unfold timer_rearm. cbn [nud_state set_timer]. rewrite Hin.
  fold (timer_clamp (ulong (now + retrans_time (parms neigh))) now).
  unfold timer_solicit.
  cbn [nud_state set_timer neigh_hold set_refcnt arp_queue].
  rewrite Hip. rewrite Hso.
  cbn [probes set_timer set_refcnt].
  unfold neigh_release.
  cbn [refcnt probes set_probes set_timer set_refcnt neigh_hold].
  destruct (Z.eqb_spec (refcnt neigh + 1 - 1) 0) as [Hz|_]; [lia|].
  reflexivity.
Qed.

(** X11: one firing of the timer on an entry that is resolving
    (INCOMPLETE) or probing (PROBE) and has probes left, with a
    [solicit] that only transmits: exactly one solicitation is sent,
    for the oldest queued packet, and counted; the entry keeps its
    state, its queue and its references, and its timer is pending
    again, [retrans_time] from now but no sooner than [HZ/2]. *)
Theorem timer_handler_solicits fuel neigh now :
  (forall m s, solicit m s = m) ->
  nud_state neigh = NUD_INCOMPLETE \/ nud_state neigh = NUD_PROBE ->
  probes neigh < neigh_max_probes neigh ->
  1 <= refcnt neigh ->
  exists n',
    neigh_timer_handler fuel neigh now =
      Some (n', [Ev_solicit (skb_peek (arp_queue neigh))]) /\
    nud_state n' = nud_state neigh /\
    probes n' = int_add (probes neigh) 1 /\
    arp_queue n' = arp_queue neigh /\
    refcnt n' = refcnt neigh /\
    parms n' = parms neigh /\
    ha n' = ha neigh /\ output n' = output neigh /\ dead n' = dead neigh /\
    timer n' =
      Some (timer_clamp (ulong (now + retrans_time (parms neigh))) now).
Proof.
  intros Hso Hst Hp Href.
  rewrite (timer_handler_probe_step fuel neigh now Hso Hst Hp Href).
  eexists. split; [reflexivity|]. cbn.
  repeat (split; [first [reflexivity|lia]|]). reflexivity.
Qed.

(** The last firing on an entry that has used its probes, with an
    [error_report] that only reports. *)
Lemma timer_handler_fail_step fuel neigh now :
  (forall m s, error_report m s = m) ->
  nud_state neigh = NUD_INCOMPLETE \/ nud_state neigh = NUD_PROBE ->
  neigh_max_probes neigh <= probes neigh ->
  2 <= refcnt neigh ->
  (length (arp_queue neigh) < fuel)%nat ->
  exists n',
    neigh_timer_handler fuel neigh now =
      Some (n', map Ev_error_report (arp_queue neigh)) /\
    nud_state n' = NUD_FAILED /\ arp_queue n' = [] /\ timer n' = None /\
    refcnt n' = refcnt neigh - 1.
Proof.
  intros Her Hst Hp Href Hfuel. unfold neigh_timer_handler.
  assert (Hin : tst (nud_state neigh) NUD_IN_TIMER = true)
    by (destruct Hst as [-> | ->]; reflexivity).
  assert (Hr : tst (nud_state neigh) NUD_REACHABLE = false)
    by (destruct Hst as [-> | ->]; reflexivity).
  assert (Hd : tst (nud_state neigh) NUD_DELAY = false)
    by (destruct Hst as [-> | ->]; reflexivity).
  assert (Hip : tst (nud_state neigh) (Z.lor NUD_INCOMPLETE NUD_PROBE) = true)
    by (destruct Hst as [-> | ->]; reflexivity).
  cbn [nud_state set_timer]. rewrite Hin. cbn [negb]. cbv iota.
  unfold timer_transition. rewrite Hr, Hd.
  unfold timer_probe_failure.
  cbn [nud_state set_timer probes parms].
  change (neigh_max_probes (set_timer neigh None))
    with (neigh_max_probes neigh).
  rewrite Hip.
  destruct (Z.leb_spec (neigh_max_probes neigh) (probes neigh)) as [_|Hlt];
    [|lia].
  cbn [andb]. cbv iota beta.
  set (n0 := set_nud_state (set_timer neigh None) NUD_FAILED).
  destruct (timer_report_loop_drain
              (fun m s _ => eq_ind_r (fun x => (length (arp_queue x) <= _)%nat)
                                     (le_n _) (Her m s))
              fuel n0 ltac:(lia) (fun _ => Hfuel))
    as (reported & n1 & Hloop & Hdrain).
  destruct (failed_drain_idle
              (fun m s => eq_ind_r (fun x => nud_state x = nud_state m /\
                                             arp_queue x = arp_queue m)
                                   (conj eq_refl eq_refl) (Her m s))
              _ _ _ Hdrain eq_refl)
    as (Hrep & Hs1 & Hq1).
  destruct (timer_report_loop_same_trc
              (fun m s => eq_ind_r (fun x => same_trc m x)
                                   (same_trc_refl m) (Her m s))
              _ _ _ _ Hloop) as (_ & Ht1 & Hr1).
  rewrite Hloop. cbv iota beta.
  rewrite (timer_rearm_failed (set_arp_queue n1 []) _ _ Hs1).
  rewrite (timer_solicit_failed (set_arp_queue n1 []) Hs1).
  destruct (neigh_release_shape (set_arp_queue n1 [])) as [_ Hrel].
  { cbn. rewrite Ht1. intros H. exfalso. apply H. reflexivity. }
  rewrite Hrel by (cbn; rewrite Hr1; exact Href).
  eexists. split.
  - rewrite Hq1, Hrep. cbn [skb_queue_purge map arp_queue set_nud_state
                              set_timer n0].
    rewrite !app_nil_r. reflexivity.
  - cbn. rewrite Hr1. cbn. auto.
Qed.

Lemma timer_fires_resolving fuel st q :
  (forall m s, solicit m s = m) ->
  (forall m s, error_report m s = m) ->
  st = NUD_INCOMPLETE \/ st = NUD_PROBE ->
  (length q < fuel)%nat ->
  forall k neigh nows,
    nud_state neigh = st -> arp_queue neigh = q ->
    0 <= probes neigh ->
    probes neigh + Z.of_nat k = neigh_max_probes neigh ->
    neigh_max_probes neigh < 2 ^ 31 - 1 ->
    2 <= refcnt neigh ->
    length nows = S k ->
    exists n',
      timer_fires fuel neigh nows =
        Some (n', replicate k (Ev_solicit (skb_peek q))
                  ++ map Ev_error_report q) /\
      nud_state n' = NUD_FAILED /\ arp_queue n' = [] /\ timer n' = None /\
      refcnt n' = refcnt neigh - 1.
Proof.
  intros Hso Her Hst Hfuel k.
  induction k as [|k IH]; intros neigh nows Hs Hq Hp0 Hpk Hmax Href Hlen.
  - destruct nows as [|now [|? ?]]; try discriminate.
    destruct (timer_handler_fail_step fuel neigh now Her) as (n' & Hrun & Hres);
      [rewrite Hs; exact Hst|lia|exact Href|rewrite Hq; exact Hfuel|].
    exists n'. split; [|exact Hres].
    simpl. rewrite Hrun, Hq. rewrite app_nil_r. reflexivity.
  - destruct nows as [|now rest]; [discriminate|].
    simpl in Hlen. injection Hlen as Hlen.
    assert (Hstn : nud_state neigh = NUD_INCOMPLETE \/
                   nud_state neigh = NUD_PROBE) by (rewrite Hs; exact Hst).
    pose proof (timer_handler_probe_step fuel neigh now Hso Hstn
                  ltac:(lia) ltac:(lia)) as Hrun.
    set (n1 := set_refcnt _ (refcnt neigh + 1 - 1)) in Hrun.
    assert (Hadd : int_add (probes neigh) 1 = probes neigh + 1).
    { unfold int_add, s32, swrap. rewrite Z.mod_small; lia. }
    destruct (IH n1 rest) as (n' & Hfires & Hs' & Hq' & Ht' & Hr').
    + exact Hs.
    + exact Hq.
    + subst n1. cbn. rewrite Hadd. lia.
    + subst n1. unfold neigh_max_probes in *. cbn. rewrite Hadd. lia.
    + subst n1. unfold neigh_max_probes in *. cbn. exact Hmax.
    + subst n1. cbn. lia.
    + exact Hlen.
    + exists n'. split.
      * cbn [timer_fires]. rewrite Hrun, Hfires, Hq. reflexivity.
      * subst n1. cbn in Hr'. repeat split; auto. lia.
Qed.

(** X12: resolution gives up after its probe budget.  On an entry that
    is resolving or probing with [probes] of its budget
    ([neigh_max_probes]) used, with callbacks that only transmit and
    report, the timer firing again and again sends exactly budget minus
    [probes] solicitations, each for the oldest queued packet, and the
    next firing fails the entry: every queued packet is reported
    unreachable, oldest first, the queue is empty, the timer is no
    longer pending and its reference is dropped. *)
Theorem resolution_gives_up fuel neigh nows :
  (forall m s, solicit m s = m) ->
  (forall m s, error_report m s = m) ->
  nud_state neigh = NUD_INCOMPLETE \/ nud_state neigh = NUD_PROBE ->
  0 <= probes neigh <= neigh_max_probes neigh ->
  neigh_max_probes neigh < 2 ^ 31 - 1 ->
  2 <= refcnt neigh ->
  length nows = S (Z.to_nat (neigh_max_probes neigh - probes neigh)) ->
  (length (arp_queue neigh) < fuel)%nat ->
  exists n',
    timer_fires fuel neigh nows =
      Some (n', replicate (Z.to_nat (neigh_max_probes neigh - probes neigh))
                  (Ev_solicit (skb_peek (arp_queue neigh)))
                ++ map Ev_error_report (arp_queue neigh)) /\
    nud_state n' = NUD_FAILED /\ arp_queue n' = [] /\ timer n' = None /\
    refcnt n' = refcnt neigh - 1.
Proof.
  intros Hso Her Hst Hp Hmax Href Hlen Hfuel.
  apply (timer_fires_resolving fuel (nud_state neigh) (arp_queue neigh)
           Hso Her Hst Hfuel
           (Z.to_nat (neigh_max_probes neigh - probes neigh)) neigh nows);
    auto; lia.
Qed.

Lemma int_add_small a b :
  - 2 ^ 31 <= a + b < 2 ^ 31 -> int_add a b = a + b.
Proof.
  intros H. unfold int_add, s32, swrap. rewrite Z.mod_small; lia.
Qed.

(** X13: a resolution from scratch.  A packet sent through an entry
    that has no address and is not resolving (NONE or FAILED, empty
    queue) starts a resolution with the unicast probes counted as used,
    so with callbacks that only transmit and report the timer sends
    exactly [app_probes + mcast_probes] solicitations for that packet;
    the firing after them fails the entry and reports the packet
    unreachable.  The entry then holds the references it held before the
    packet was sent. *)
Theorem resolution_from_scratch fuel neigh s now0 nows :
  (forall m s, solicit m s = m) ->
  (forall m s, error_report m s = m) ->
  nud_state neigh = NUD_NONE \/ nud_state neigh = NUD_FAILED ->
  arp_queue neigh = [] ->
  0 < queue_len (parms neigh) < 2 ^ 31 ->
  0 <= ucast_probes (parms neigh) ->
  0 <= app_probes (parms neigh) ->
  0 <= mcast_probes (parms neigh) ->
  0 < app_probes (parms neigh) + mcast_probes (parms neigh) ->
  ucast_probes (parms neigh) + app_probes (parms neigh)
    + mcast_probes (parms neigh) < 2 ^ 31 - 1 ->
  1 <= refcnt neigh ->
  length nows =
    S (Z.to_nat (app_probes (parms neigh) + mcast_probes (parms neigh))) ->
  (1 < fuel)%nat ->
  snd (__neigh_event_send neigh (Some s) now0) = 1 /\
  exists n',
    timer_fires fuel (fst (fst (__neigh_event_send neigh (Some s) now0))) nows =
      Some (n', replicate
                  (Z.to_nat (app_probes (parms neigh)
                             + mcast_probes (parms neigh)))
                  (Ev_solicit (Some s))
                ++ [Ev_error_report s]) /\
    nud_state n' = NUD_FAILED /\ arp_queue n' = [] /\ timer n' = None /\
    refcnt n' = refcnt neigh.
Proof.
  intros Hso Her Hst Hq Hql Hu Ha Hm Ham Hsum Href Hlen Hfuel.
  assert (Hsend :
    __neigh_event_send neigh (Some s) now0 =
      (set_arp_queue
         (set_timer
            (neigh_hold
               (set_nud_state
                  (set_probes neigh (ucast_probes (parms neigh)))
                  NUD_INCOMPLETE))
            (Some (ulong (now0 + 1))))
         [s], [], 1)).
  { unfold __neigh_event_send.
    assert (Hc : tst (nud_state neigh)
                   (Z.lor NUD_CONNECTED (Z.lor NUD_DELAY NUD_PROBE)) = false)
      by (destruct Hst as [-> | ->]; reflexivity).
    assert (Hsi : tst (nud_state neigh) (Z.lor NUD_STALE NUD_INCOMPLETE)
                  = false)
      by (destruct Hst as [-> | ->]; reflexivity).
    rewrite Hc, Hsi. cbn [negb]. cbv iota.
    rewrite (int_add_small (mcast_probes (parms neigh))
               (app_probes (parms neigh))) by lia.
    destruct (Z.eqb_spec (mcast_probes (parms neigh)
                          + app_probes (parms neigh)) 0) as [Hz|_]; [lia|].
    cbn [negb]. cbv iota.
    cbn [nud_state parms arp_queue set_timer neigh_hold set_refcnt
         set_nud_state set_probes].
    change (NUD_INCOMPLETE =? NUD_INCOMPLETE) with true. cbv iota.
    rewrite Hq. rewrite u32_small by lia.
    destruct (Z.leb_spec (queue_len (parms neigh)) (skb_queue_len []))
      as [Hle|_]; [unfold skb_queue_len in Hle; simpl in Hle; lia|].
    reflexivity. }
  rewrite Hsend. cbn [fst snd]. split; [reflexivity|].
  set (n1 := set_arp_queue _ [s]).
  assert (Hmaxp : neigh_max_probes n1 =
                  ucast_probes (parms neigh) + app_probes (parms neigh)
                  + mcast_probes (parms neigh)).
  { subst n1. unfold neigh_max_probes. cbn.
    rewrite (int_add_small (ucast_probes (parms neigh))) by lia.
    apply int_add_small. lia. }
  destruct (timer_fires_resolving fuel NUD_INCOMPLETE [s] Hso Her
              (or_introl eq_refl) Hfuel
              (Z.to_nat (app_probes (parms neigh) + mcast_probes (parms neigh)))
              n1 nows)
    as (n' & Hrun & Hs' & Hq' & Ht' & Hr'); try reflexivity.
  - subst n1. cbn. exact Hu.
  - rewrite Hmaxp. subst n1. cbn. lia.
  - rewrite Hmaxp. exact Hsum.
  - subst n1. cbn. unfold neigh_hold. cbn. lia.
  - exact Hlen.
  - exists n'. split; [exact Hrun|]. repeat split; auto.
    rewrite Hr'. subst n1. cbn. lia.
Qed.

(** ** Releasing and freeing *)

(** The last reference of a dead entry: the entry is freed, after a
    warning if its timer was still pending. *)
Lemma release_last_dead n :
  refcnt n = 1 -> dead n <> 0 ->
  exists w,
    (w = [] \/ w = [Ev_warning]) /\
    snd (neigh_release n) = w ++ free_events n /\
    (timer n = None -> w = []).
Proof.
  intros Hr Hd. unfold neigh_release. cbn [refcnt set_refcnt].
  rewrite Hr. change (1 - 1 =? 0) with true. cbv iota.
  unfold neigh_destroy. cbn [dead set_refcnt].
  destruct (Z.eqb_spec (dead n) 0) as [|_]; [contradiction|].
  unfold neigh_del_timer. cbn [nud_state timer set_refcnt].
  destruct (tst (nud_state n) NUD_IN_TIMER && bool_decide (timer n <> None))
    eqn:Hfire.
  - unfold neigh_release_timer. cbn [refcnt set_refcnt set_timer].
    change (0 - 1 =? 0) with false. cbv iota.
    unfold neigh_destroy_tail, free_events. cbn.
    exists [Ev_warning]. split; [auto|]. split; [reflexivity|].
    intros Hn. rewrite Hn in Hfire.
    rewrite bool_decide_eq_false_2 in Hfire
      by (intros H; apply H; reflexivity).
    rewrite andb_false_r in Hfire. discriminate.
  - unfold neigh_destroy_tail, free_events. cbn.
    exists []. auto.
Qed.

(** X14: the slab gets an entry back only with its last reference.
    [neigh_release] frees the entry exactly when it drops the last
    reference of a dead entry, and then frees its queued packets,
    oldest first, before the entry; any other release frees nothing. *)
Theorem neigh_release_frees n :
  ((refcnt n = 1 /\ dead n <> 0) ->
   exists w, (w = [] \/ w = [Ev_warning]) /\
             snd (neigh_release n) = w ++ free_events n) /\
  (~ (refcnt n = 1 /\ dead n <> 0) ->
   forall e, In e (snd (neigh_release n)) -> e = Ev_warning) /\
  (forall a, In (Ev_kmem_cache_free a) (snd (neigh_release n)) ->
     refcnt n = 1 /\ dead n <> 0 /\ a = n_addr n).
Proof.
  assert (Hother : ~ (refcnt n = 1 /\ dead n <> 0) ->
                   forall e, In e (snd (neigh_release n)) -> e = Ev_warning).
  { intros Hno e. unfold neigh_release. cbn [refcnt set_refcnt].
    destruct (Z.eqb_spec (refcnt n - 1) 0) as [Hz|Hz]; [|intros []].
    unfold neigh_destroy. cbn [dead set_refcnt].
    destruct (Z.eqb_spec (dead n) 0) as [Hd|Hd].
    - intros [<-|[]]. reflexivity.
    - exfalso. apply Hno. split; [lia|exact Hd]. }
  split; [|split].
  - intros [Hr Hd]. destruct (release_last_dead n Hr Hd) as (w & Hw & Htr & _).
    exists w. auto.
  - exact Hother.
  - intros a Hin.
    destruct (Z.eq_dec (refcnt n) 1) as [Hr|Hr].
    + destruct (Z.eq_dec (dead n) 0) as [Hd|Hd].
      * specialize (Hother ltac:(intros [_ H]; contradiction) _ Hin).
        discriminate.
      * split; [exact Hr|]. split; [exact Hd|].
        destruct (release_last_dead n Hr Hd) as (w & Hw & Htr & _).
        rewrite Htr in Hin. unfold free_events, skb_queue_purge in Hin.
        rewrite !in_app_iff in Hin.
        destruct Hin as [Hin|[Hin|[Hin|[]]]].
        -- destruct Hw as [-> | ->]; [destruct Hin|].
           destruct Hin as [Hin|[]]. discriminate.
        -- apply in_map_iff in Hin as (s & Hs & _). discriminate.
        -- congruence.
    + specialize (Hother ltac:(intros [H _]; contradiction) _ Hin).
      discriminate.
Qed.

(** ** The collectors: what they take and what they give back *)

Lemma entries_freed_app a b :
  entries_freed (a ++ b) = entries_freed a + entries_freed b.
Proof.
  induction a as [|e a IH]; simpl; [reflexivity|].
  destruct e; rewrite ?IH; lia.
Qed.

Lemma entries_freed_purge q : entries_freed (skb_queue_purge q) = 0.
Proof. induction q as [|s q IH]; simpl; auto. Qed.

Lemma entries_freed_free_events n : entries_freed (free_events n) = 1.
Proof.
  unfold free_events. rewrite entries_freed_app, entries_freed_purge.
  reflexivity.
Qed.

Lemma entries_freed_count tr :
  entries_freed tr =
    Z.of_nat (length (List.filter
                        (fun e => match e with
                                  | Ev_kmem_cache_free _ => true
                                  | _ => false
                                  end) tr)).
Proof.
  induction tr as [|e tr IH]; [reflexivity|].
  destruct e; simpl; rewrite IH; lia.
Qed.

(** Releasing entries the table alone referenced, already marked
    dead. *)
Lemma release_all_last gone :
  Forall (fun n => refcnt n = 1 /\ dead n <> 0) gone ->
  entries_freed (release_all gone) = Z.of_nat (length gone) /\
  (forall a, In (Ev_kmem_cache_free a) (release_all gone) <->
             In a (map n_addr gone)) /\
  (forall s, In (Ev_kfree_skb s) (release_all gone) <->
             exists n, In n gone /\ In s (arp_queue n)).
Proof.
  induction gone as [|n gone IH]; intros Hall.
  - simpl. split; [reflexivity|].
    split; intros x; split;
      first [solve [intros []] | intros (n & [] & _)].
  - apply Forall_cons in Hall as [[Hr Hd] Hall].
    destruct (IH Hall) as (IH1 & IH2 & IH3).
    destruct (release_last_dead n Hr Hd) as (w & Hw & Htr & _).
    cbn [release_all]. rewrite Htr.
    assert (Hwf : entries_freed w = 0) by (destruct Hw as [-> | ->]; reflexivity).
    assert (Hwin : forall e, In e w -> e = Ev_warning).
    { intros e He. destruct Hw as [-> | ->]; [destruct He|].
      destruct He as [<-|[]]. reflexivity. }
    split; [|split].
    + rewrite !entries_freed_app, Hwf, entries_freed_free_events, IH1.
      cbn [length]. lia.
    + intros a. rewrite !in_app_iff. unfold free_events, skb_queue_purge.
      rewrite in_app_iff, IH2. cbn [map In]. split.
      * intros [[Hin|[Hin|[Hin|[]]]]|Hin];
          [apply Hwin in Hin; discriminate
          |apply in_map_iff in Hin as (s & Hs & _); discriminate
          |left; congruence
          |right; exact Hin].
      * intros [<-|Hin]; [|right; exact Hin].
        left. right. right. left. reflexivity.
    + intros s. rewrite !in_app_iff. unfold free_events, skb_queue_purge.
      rewrite in_app_iff, IH3. cbn [In]. split.
      * intros [[Hin|[Hin|[Hin|[]]]]|(m & Hm & Hs)].
        -- apply Hwin in Hin. discriminate.
        -- apply in_map_iff in Hin as (s0 & [= ->] & Hs0).
           exists n. auto.
        -- discriminate.
        -- exists m. auto.
      * intros (m & [<-|Hm] & Hs).
        -- left. right. left. apply in_map. exact Hs.
        -- right. exists m. auto.
Qed.

Lemma forced_gc_chain_filter chain now :
  forced_gc_chain chain now =
    (List.filter (fun n => negb (forced_gc_discard n now)) chain,
     map (fun n => set_dead n 1)
         (List.filter (fun n => forced_gc_discard n now) chain)).
Proof.
  induction chain as [|n rest IH]; [reflexivity|].
  simpl. rewrite IH. destruct (forced_gc_discard n now); reflexivity.
Qed.

Lemma forced_gc_unlinked_filter tbl now :
  forced_gc_unlinked tbl now =
    map (fun n => set_dead n 1)
        (List.filter (fun n => forced_gc_discard n now) (linked tbl)).
Proof.
  unfold forced_gc_unlinked, linked.
  induction (hash_buckets tbl) as [|c l IH]; [reflexivity|].
  simpl. rewrite IH, forced_gc_chain_filter. simpl.
  rewrite List.filter_app, List.map_app. reflexivity.
Qed.

Lemma forced_gc_discard_refcnt n now :
  forced_gc_discard n now = true -> refcnt n = 1.
Proof.
  unfold forced_gc_discard. intros H.
  apply andb_true_iff in H as [H _]. apply andb_true_iff in H as [H _].
  apply Z.eqb_eq. exact H.
Qed.

(** X15: what [neigh_forced_gc] takes and gives back.  It unlinks
    exactly the entries that pass its test (referenced by the table
    only, not PERMANENT, not INCOMPLETE within [retrans_time] of their
    last use), bucket by bucket and in order; it frees every entry it
    unlinks, together with the packets queued on it, and nothing else;
    the entry count drops by the number of entries unlinked; it returns
    1 exactly when it unlinked something, and stamps [last_flush]. *)
Theorem forced_gc_collects tbl now :
  let shrunk := fst (fst (neigh_forced_gc tbl now)) in
  let tbl' := snd (fst (neigh_forced_gc tbl now)) in
  let tr := snd (neigh_forced_gc tbl now) in
  let taken := List.filter (fun n => forced_gc_discard n now) (linked tbl) in
  hash_buckets tbl' =
    map (List.filter (fun n => negb (forced_gc_discard n now)))
        (hash_buckets tbl) /\
  entries tbl' = entries tbl - Z.of_nat (length taken) /\
  shrunk = (if decide (taken = []) then 0 else 1) /\
  last_flush tbl' = now /\
  (forall a, In (Ev_kmem_cache_free a) tr <-> In a (map n_addr taken)) /\
  (forall s, In (Ev_kfree_skb s) tr <->
             exists n, In n taken /\ In s (arp_queue n)).
Proof.
  cbv zeta. unfold neigh_forced_gc. cbn [fst snd].
  rewrite forced_gc_unlinked_filter.
  set (taken := List.filter (fun n => forced_gc_discard n now) (linked tbl)).
  assert (Hall : Forall (fun n => refcnt n = 1 /\ dead n <> 0)
                        (map (fun n => set_dead n 1) taken)).
  { apply Forall_forall. intros m Hm.
    apply list_elem_of_In, in_map_iff in Hm as (n & <- & Hn).
    apply filter_In in Hn as [_ Hd]. cbn.
    split; [apply (forced_gc_discard_refcnt _ _ Hd)|discriminate]. }
  destruct (release_all_last _ Hall) as (Hcount & Hfree & Hskb).
  split; [|split; [|split; [|split; [|split]]]].
  - cbn. apply map_ext. intros c. rewrite forced_gc_chain_filter. reflexivity.
  - cbn. rewrite Hcount, length_map. reflexivity.
  - destruct taken; reflexivity.
  - reflexivity.
  - intros a. rewrite Hfree, map_map. reflexivity.
  - intros s. rewrite Hskb. split.
    + intros (m & Hm & Hs). apply in_map_iff in Hm as (n & <- & Hn).
      exists n. auto.
    + intros (n & Hn & Hs). exists (set_dead n 1). split; [|exact Hs].
      apply (in_map (fun n => set_dead n 1)). exact Hn.
Qed.

Lemma periodic_visit_discard n now :
  periodic_visit n now =
    if periodic_discard n now then inr (set_dead (periodic_fixup n) 1)
    else inl (periodic_fixup n).
Proof.
  unfold periodic_visit, periodic_discard, periodic_fixup.
  destruct (tst (nud_state n) (Z.lor NUD_PERMANENT NUD_IN_TIMER));
    [reflexivity|].
  cbn [negb andb].
  destruct (time_before (used n) (confirmed n)); cbn [refcnt used parms
    set_used]; destruct (refcnt n =? 1); cbn [andb];
    try reflexivity;
    destruct ((nud_state n =? NUD_FAILED) || _); reflexivity.
Qed.

Lemma periodic_chain_filter chain now :
  periodic_chain chain now =
    (map periodic_fixup
         (List.filter (fun n => negb (periodic_discard n now)) chain),
     map (fun n => set_dead (periodic_fixup n) 1)
         (List.filter (fun n => periodic_discard n now) chain)).
Proof.
  induction chain as [|n rest IH]; [reflexivity|].
  simpl. rewrite IH, periodic_visit_discard.
  destruct (periodic_discard n now); reflexivity.
Qed.

Lemma periodic_unlinked_filter tbl now :
  periodic_unlinked tbl now =
    map (fun n => set_dead (periodic_fixup n) 1)
        (List.filter (fun n => periodic_discard n now) (linked tbl)).
Proof.
  unfold periodic_unlinked, linked.
  induction (hash_buckets tbl) as [|c l IH]; [reflexivity|].
  simpl. rewrite IH, periodic_chain_filter. simpl.
  rewrite List.filter_app, List.map_app. reflexivity.
Qed.

Lemma periodic_fixup_frame n :
  n_addr (periodic_fixup n) = n_addr n /\
  arp_queue (periodic_fixup n) = arp_queue n /\
  refcnt (periodic_fixup n) = refcnt n /\
  nud_state (periodic_fixup n) = nud_state n /\
  confirmed (periodic_fixup n) = confirmed n.
Proof.
  unfold periodic_fixup.
  destruct (tst _ _); [auto|]. destruct (time_before _ _); cbn; auto.
Qed.

Lemma periodic_fixup_used n :
  tst (nud_state n) (Z.lor NUD_PERMANENT NUD_IN_TIMER) = false ->
  time_before (used (periodic_fixup n)) (confirmed (periodic_fixup n))
    = false.
Proof.
  intros Hs. unfold periodic_fixup. rewrite Hs.
  destruct (time_before (used n) (confirmed n)) eqn:Hb; [|exact Hb].
  cbn. unfold time_before, time_after. rewrite Z.sub_diag, swrap_0.
  reflexivity.
Qed.

(** What the sweep of [neigh_periodic_timer] takes and gives back. *)
Lemma periodic_sweep_collects tbl now :
  let tbl' := fst (periodic_sweep tbl now) in
  let tr := snd (periodic_sweep tbl now) in
  let taken := List.filter (fun n => periodic_discard n now) (linked tbl) in
  hash_buckets tbl' =
    map (fun c => map periodic_fixup
                    (List.filter (fun n => negb (periodic_discard n now)) c))
        (hash_buckets tbl) /\
  entries tbl' = entries tbl - Z.of_nat (length taken) /\
  (forall a, In (Ev_kmem_cache_free a) tr <-> In a (map n_addr taken)) /\
  (forall s, In (Ev_kfree_skb s) tr <->
             exists n, In n taken /\ In s (arp_queue n)) /\
  (forall n, In n (linked tbl') ->
     tst (nud_state n) (Z.lor NUD_PERMANENT NUD_IN_TIMER) = false ->
     time_before (used n) (confirmed n) = false).
Proof.
  cbv zeta. unfold periodic_sweep. cbn [fst snd].
  rewrite periodic_unlinked_filter.
  set (taken := List.filter (fun n => periodic_discard n now) (linked tbl)).
  assert (Hall : Forall (fun n => refcnt n = 1 /\ dead n <> 0)
                        (map (fun n => set_dead (periodic_fixup n) 1) taken)).
  { apply Forall_forall. intros m Hm.
    apply list_elem_of_In, in_map_iff in Hm as (n & <- & Hn).
    apply filter_In in Hn as [_ Hd]. cbn.
    destruct (periodic_fixup_frame n) as (_ & _ & Hr & _). rewrite Hr.
    split; [|discriminate].
    unfold periodic_discard in Hd.
    apply andb_true_iff in Hd as [Hd _]. apply andb_true_iff in Hd as [_ Hd].
    apply Z.eqb_eq. exact Hd. }
  destruct (release_all_last _ Hall) as (Hcount & Hfree & Hskb).
  split; [|split; [|split; [|split]]].
  - cbn. apply map_ext. intros c. rewrite periodic_chain_filter. reflexivity.
  - cbn. rewrite Hcount, length_map. reflexivity.
  - intros a. rewrite Hfree, map_map. split; intros Hin;
      apply in_map_iff in Hin as (n & <- & Hn); apply in_map_iff;
      exists n; (split; [|exact Hn]); cbn;
      destruct (periodic_fixup_frame n) as (Ha & _); rewrite ?Ha; reflexivity.
  - intros s. rewrite Hskb. split.
    + intros (m & Hm & Hs). apply in_map_iff in Hm as (n & <- & Hn).
      exists n. split; [exact Hn|]. cbn in Hs.
      destruct (periodic_fixup_frame n) as (_ & Hq & _). rewrite Hq in Hs.
      exact Hs.
    + intros (n & Hn & Hs). exists (set_dead (periodic_fixup n) 1).
      split.
      * apply (in_map (fun n => set_dead (periodic_fixup n) 1)). exact Hn.
      * cbn. destruct (periodic_fixup_frame n) as (_ & Hq & _).
        rewrite Hq. exact Hs.
  - intros n Hin Hst. cbn in Hin. unfold linked in Hin. cbn in Hin.
    apply in_concat in Hin as (c' & Hc' & Hn).
    apply in_map_iff in Hc' as (c & <- & Hc).
    rewrite periodic_chain_filter in Hn. cbn in Hn.
    apply in_map_iff in Hn as (n0 & <- & Hn0).
    destruct (periodic_fixup_frame n0) as (_ & _ & _ & Hs0 & _).
    rewrite Hs0 in Hst. apply periodic_fixup_used. exact Hst.
Qed.

Lemma parms_reread_rest blocks n :
  let n' := parms_reread blocks n in
  used n' = used n /\ confirmed n' = confirmed n /\
  arp_queue n' = arp_queue n /\ timer n' = timer n /\
  gc_staletime (parms n') = gc_staletime (parms n) /\
  parms_ptr (parms n') = parms_ptr (parms n) /\
  base_reachable_time (parms n') = base_reachable_time (parms n).
Proof.
  cbv zeta. unfold parms_reread.
  destruct (List.find _ blocks); cbn; auto 10.
Qed.

Lemma periodic_discard_reread blocks n now :
  periodic_discard (parms_reread blocks n) now = periodic_discard n now.
Proof.
  destruct (parms_reread_frame blocks n) as (_ & _ & _ & Er & _ & Es).
  destruct (parms_reread_rest blocks n) as (Eu & Ec & _ & _ & Eg & _).
  unfold periodic_discard. rewrite Er, Es, Eu, Ec, Eg. reflexivity.
Qed.

Lemma filter_map_comm {A B} (P : B -> bool) (f : A -> B) (l : list A) :
  List.filter P (map f l) = map f (List.filter (fun x => P (f x)) l).
Proof.
  induction l as [|x l IH]; [reflexivity|].
  cbn [map List.filter]. rewrite IH. destruct (P (f x)); reflexivity.
Qed.

Lemma parms_refresh_all_each rnd blocks rest :
  parms_refresh_all rnd blocks = Some rest ->
  Forall2 (fun p p' => parms_refresh rnd p = Some p') blocks rest.
Proof.
  revert rest. induction blocks as [|p l IH]; intros rest.
  - intros [= <-]. constructor.
  - cbn [parms_refresh_all].
    destruct (parms_refresh rnd p) as [p1|] eqn:Hp; [|discriminate].
    destruct (parms_refresh_all rnd l) as [l1|]; [|discriminate].
    intros [= <-]. constructor; [exact Hp|apply IH; reflexivity].
Qed.

(** What the refresh does to the parameter blocks. *)
Lemma periodic_refresh_blocks tbl rnd now tbl1 :
  periodic_refresh tbl rnd now = Some tbl1 ->
  exists blocks,
    hash_buckets tbl1 = map (map (parms_reread blocks)) (hash_buckets tbl) /\
    linked tbl1 = map (parms_reread blocks) (linked tbl) /\
    entries tbl1 = entries tbl /\
    (time_after now (ulong (last_rand tbl + 300 * HZ)) = false ->
     blocks = [] /\ tbl1 = tbl) /\
    (time_after now (ulong (last_rand tbl + 300 * HZ)) = true ->
     blocks = tbl_parms tbl1 :: parms_next tbl1 /\
     last_rand tbl1 = now /\
     Forall2 (fun p p' => parms_refresh rnd p = Some p')
             (tbl_parms tbl :: parms_next tbl) blocks).
Proof.
  unfold periodic_refresh.
  destruct (time_after now (ulong (last_rand tbl + 300 * HZ))).
  - destruct (parms_refresh rnd (tbl_parms tbl)) as [p|] eqn:Hp;
      [|discriminate].
    destruct (parms_refresh_all rnd (parms_next tbl)) as [rest|] eqn:Hrest;
      [|discriminate].
    intros [= <-]. exists (p :: rest).
    split; [reflexivity|]. split; [unfold linked; cbn; symmetry; apply concat_map|].
    split; [reflexivity|]. split; [discriminate|]. intros _.
    split; [reflexivity|]. split; [reflexivity|].
    constructor; [exact Hp|apply parms_refresh_all_each; exact Hrest].
  - intros [= <-]. exists [].
    assert (Hid : forall c : list neighbour, map (parms_reread []) c = c).
    { intros c. induction c as [|x c IH]; [reflexivity|].
      cbn [map]. rewrite IH. reflexivity. }
    split.
    { induction (hash_buckets tbl) as [|c l IH]; [reflexivity|].
      cbn [map]. rewrite Hid, <- IH. reflexivity. }
    split; [symmetry; apply Hid|]. split; [reflexivity|].
    split; [auto|discriminate].
Qed.

(** X16: what [neigh_periodic_timer] takes and gives back.  When [now]
    is after [last_rand + 300 * HZ] it stamps [last_rand] and gives
    every parameter block of the table a new [reachable_time] from
    [neigh_rand_reach_time], which the entries of these blocks read from
    then on; otherwise blocks and stamp stay.  The sweep then unlinks
    exactly the entries that are not PERMANENT, not in a timer state,
    referenced by the table only, and FAILED or unused for
    [gc_staletime] (counting a confirmation as a use); it frees each of
    them with the packets queued on it, frees nothing else, and takes
    them off the entry count.  An entry it looks at and keeps has
    [used] no earlier than [confirmed].  The timer of the table is set
    to [now + gc_interval]. *)
Theorem periodic_gc_collects tbl rnd now tbl' tr expires :
  neigh_periodic_timer tbl rnd now = Some (tbl', tr, expires) ->
  let due := time_after now (ulong (last_rand tbl + 300 * HZ)) in
  let taken := List.filter (fun n => periodic_discard n now) (linked tbl) in
  exists blocks,
    (due = false ->
     blocks = [] /\ tbl_parms tbl' = tbl_parms tbl /\
     parms_next tbl' = parms_next tbl /\ last_rand tbl' = last_rand tbl) /\
    (due = true ->
     blocks = tbl_parms tbl' :: parms_next tbl' /\ last_rand tbl' = now /\
     Forall2 (fun p p' => parms_refresh rnd p = Some p')
             (tbl_parms tbl :: parms_next tbl) blocks) /\
    hash_buckets tbl' =
      map (fun c =>
             map (fun n => periodic_fixup (parms_reread blocks n))
                 (List.filter (fun n => negb (periodic_discard n now)) c))
          (hash_buckets tbl) /\
    entries tbl' = entries tbl - Z.of_nat (length taken) /\
    (forall a, In (Ev_kmem_cache_free a) tr <-> In a (map n_addr taken)) /\
    (forall s, In (Ev_kfree_skb s) tr <->
               exists n, In n taken /\ In s (arp_queue n)) /\
    (forall n, In n (linked tbl') ->
       tst (nud_state n) (Z.lor NUD_PERMANENT NUD_IN_TIMER) = false ->
       time_before (used n) (confirmed n) = false) /\
    expires = ulong (now + gc_interval tbl).
Proof.
  intros Hrun. cbv zeta.
  apply neigh_periodic_timer_run in Hrun as (tbl1 & Hr & -> & -> & ->).
  apply periodic_refresh_blocks in Hr
    as (blocks & Hb & Hl & He & Hnot & Hdue).
  destruct (periodic_sweep_collects tbl1 now)
    as (Hbuckets & Hent & Hfree & Hskb & Hused).
  cbv zeta in Hbuckets, Hent, Hfree, Hskb, Hused.
  assert (Htaken : List.filter (fun n => periodic_discard n now) (linked tbl1) =
                   map (parms_reread blocks)
                       (List.filter (fun n => periodic_discard n now)
                                    (linked tbl))).
  { rewrite Hl, filter_map_comm. f_equal.
    apply List.filter_ext. intros n. apply periodic_discard_reread. }
  exists blocks.
  split.
  { intros Hd. destruct (Hnot Hd) as [-> ->]. auto. }
  split.
  { intros Hd. destruct (Hdue Hd) as (-> & Hlr & Hall).
    split; [reflexivity|]. split; [exact Hlr|exact Hall]. }
  split.
  { rewrite Hbuckets, Hb, map_map. apply map_ext. intros c.
    rewrite filter_map_comm, map_map. f_equal.
    apply List.filter_ext. intros n. rewrite periodic_discard_reread.
    reflexivity. }
  split.
  { rewrite Hent, Htaken, length_map, He. reflexivity. }
  split.
  { intros a. rewrite Hfree, Htaken, map_map.
    assert (Hm : map (fun n => n_addr (parms_reread blocks n))
                     (List.filter (fun n => periodic_discard n now) (linked tbl))
                 = map n_addr
                     (List.filter (fun n => periodic_discard n now) (linked tbl))).
    { apply map_ext. intros n.
      destruct (parms_reread_frame blocks n) as (Ea & _). exact Ea. }
    rewrite Hm. reflexivity. }
  split.
  { intros s. rewrite Hskb, Htaken. split.
    - intros (m & Hm & Hs). apply in_map_iff in Hm as (n & <- & Hn).
      exists n. split; [exact Hn|].
      destruct (parms_reread_rest blocks n) as (_ & _ & Eq & _).
      rewrite <- Eq. exact Hs.
    - intros (n & Hn & Hs). exists (parms_reread blocks n). split.
      + apply in_map. exact Hn.
      + destruct (parms_reread_rest blocks n) as (_ & _ & Eq & _).
        rewrite Eq. exact Hs. }
  split; [exact Hused|reflexivity].
Qed.

(** ** Device removal *)

Lemma dev_chain_filter unlink chain d :
  dev_chain unlink chain d =
    (List.filter (other_dev d) chain,
     concat (map (unlink_events unlink)
                 (List.filter (fun n => negb (other_dev d n)) chain))).
Proof.
  induction chain as [|n rest IH]; [reflexivity|].
  cbn [dev_chain List.filter]. rewrite IH.
  change (negb (d =? 0) && negb (dev_ptr (dev n) =? d))
    with (other_dev d n).
  destruct (other_dev d n); cbn [negb]; [reflexivity|].
  cbn [map concat].
  change (unlink_events unlink n)
    with (snd (unlink n) ++ snd (neigh_release (fst (unlink n)))).
  destruct (unlink n) as [n1 tr1]. cbn [fst snd].
  rewrite <- app_assoc. reflexivity.
Qed.

Lemma dev_walk_filter unlink buckets d :
  map fst (map (fun chain => dev_chain unlink chain d) buckets) =
    map (List.filter (other_dev d)) buckets /\
  concat (map snd (map (fun chain => dev_chain unlink chain d) buckets)) =
    concat (map (unlink_events unlink)
                (List.filter (fun n => negb (other_dev d n))
                             (concat buckets))).
Proof.
  induction buckets as [|c l [IH1 IH2]]; [split; reflexivity|].
  cbn [map concat]. rewrite IH1, IH2, dev_chain_filter. cbn [fst snd].
  split; [reflexivity|].
  rewrite List.filter_app, List.map_app, concat_app. reflexivity.
Qed.

Lemma pneigh_ifdown_chain_filter chain d :
  pneigh_ifdown_chain chain d = List.filter (pother_dev d) chain.
Proof.
  induction chain as [|n rest IH]; [reflexivity|].
  cbn [pneigh_ifdown_chain List.filter]. rewrite IH.
  change (pother_dev d n) with (negb ((d =? 0) || (pn_dev n =? d))).
  destruct ((d =? 0) || (pn_dev n =? d)); reflexivity.
Qed.

(** [neigh_ifdown] on one entry, by what else references it. *)
Lemma ifdown_unlink_events n :
  timer_ok n -> 1 <= refs_held n ->
  unlink_events ifdown_unlink n =
    if refs_held n =? 1 then free_events n
    else skb_queue_purge (arp_queue n).
Proof.
  intros Hok Href. unfold unlink_events, ifdown_unlink.
  rewrite (neigh_del_timer_shape n Hok).
  2: { intros Hp. unfold refs_held in Href.
       destruct (timer n); [lia|contradiction]. }
  unfold refs_held in *.
  destruct (timer n) as [e|] eqn:Ht.
  - cbn [refcnt set_dead set_refcnt set_timer].
    destruct (Z.eqb_spec (refcnt n - 1) 1) as [H1|H1]; cbn [negb fst snd].
    + destruct (release_last_dead
                  (set_dead (set_refcnt (set_timer n None) (refcnt n - 1)) 1))
        as (w & _ & Htr & Hw); [exact H1|discriminate|].
      rewrite Htr, (Hw eq_refl). reflexivity.
    + unfold neigh_release. cbn.
      destruct (Z.eqb_spec (refcnt n - 1 - 1) 0) as [Hz|_]; [lia|].
      rewrite !app_nil_r. reflexivity.
  - rewrite Z.sub_0_r in *. cbn [refcnt set_dead].
    destruct (Z.eqb_spec (refcnt n) 1) as [H1|H1]; cbn [negb fst snd].
    + destruct (release_last_dead (set_dead n 1))
        as (w & _ & Htr & Hw); [exact H1|discriminate|].
      rewrite Htr, (Hw Ht). reflexivity.
    + unfold neigh_release. cbn.
      destruct (Z.eqb_spec (refcnt n - 1) 0) as [Hz|_]; [lia|].
      rewrite !app_nil_r. reflexivity.
Qed.

(** [neigh_changeaddr] on one entry, by what else references it. *)
Lemma changeaddr_unlink_events n :
  timer_ok n -> 1 <= refs_held n ->
  unlink_events changeaddr_unlink n =
    if refs_held n =? 1 then free_events n else [].
Proof.
  intros Hok Href. unfold unlink_events, changeaddr_unlink.
  assert (Hok1 : timer_ok (set_dead n 1)) by exact Hok.
  rewrite (neigh_del_timer_shape (set_dead n 1) Hok1).
  2: { cbn. intros Hp. unfold refs_held in Href.
       destruct (timer n); [lia|contradiction]. }
  unfold refs_held in *. cbn [timer set_dead].
  destruct (timer n) as [e|] eqn:Ht.
  - cbn [fst snd refcnt set_dead].
    destruct (Z.eqb_spec (refcnt n - 1) 1) as [H1|H1].
    + destruct (release_last_dead
                  (set_refcnt (set_timer (set_dead n 1) None) (refcnt n - 1)))
        as (w & _ & Htr & Hw); [exact H1|discriminate|].
      rewrite Htr, (Hw eq_refl). reflexivity.
    + unfold neigh_release. cbn.
      destruct (Z.eqb_spec (refcnt n - 1 - 1) 0) as [Hz|_]; [lia|].
      reflexivity.
  - rewrite Z.sub_0_r in *. cbn [fst snd].
    destruct (Z.eqb_spec (refcnt n) 1) as [H1|H1].
    + destruct (release_last_dead (set_dead n 1))
        as (w & _ & Htr & Hw); [exact H1|discriminate|].
      rewrite Htr, (Hw Ht). reflexivity.
    + unfold neigh_release. cbn.
      destruct (Z.eqb_spec (refcnt n - 1) 0) as [Hz|_]; [lia|].
      reflexivity.
Qed.

Lemma concat_map_ext_in {A B} (f g : A -> list B) (l : list A) :
  (forall x, In x l -> f x = g x) ->
  concat (map f l) = concat (map g l).
Proof.
  induction l as [|x l IH]; intros H; [reflexivity|].
  cbn. rewrite (H x) by (left; reflexivity).
  rewrite IH; [reflexivity|]. intros y Hy. apply H. right. exact Hy.
Qed.

Lemma entries_freed_concat_if (P : neighbour -> bool)
                              (g : neighbour -> list event)
                              (l : list neighbour) :
  (forall n, entries_freed (g n) = 0) ->
  entries_freed
    (concat (map (fun n => if P n then free_events n else g n) l)) =
  Z.of_nat (length (List.filter P l)).
Proof.
  intros Hg. induction l as [|n l IH]; [reflexivity|].
  cbn [map concat List.filter]. rewrite entries_freed_app, IH.
  destruct (P n); cbn [length].
  - rewrite entries_freed_free_events. lia.
  - rewrite Hg. lia.
Qed.

Lemma concat_filter_none {A} (P : A -> bool) (l : list (list A)) :
  (forall x, P x = false) -> concat (map (List.filter P) l) = [].
Proof.
  intros HP. induction l as [|c l IH]; [reflexivity|].
  cbn. rewrite IH, app_nil_r.
  induction c as [|x c IHc]; [reflexivity|].
  cbn. rewrite HP. exact IHc.
Qed.

Lemma in_concat_map_events (g : neighbour -> list event) l e :
  In e (concat (map g l)) <-> exists n, In n l /\ In e (g n).
Proof.
  rewrite in_concat. split.
  - intros (t & Ht & He). apply in_map_iff in Ht as (n & <- & Hn). eauto.
  - intros (n & Hn & He). exists (g n). split; [apply in_map; exact Hn|exact He].
Qed.

Lemma kfree_in_free_events n s :
  In (Ev_kfree_skb s) (free_events n) <-> In s (arp_queue n).
Proof.
  unfold free_events, skb_queue_purge. rewrite in_app_iff. split.
  - intros [H|[H|[]]]; [|discriminate].
    apply in_map_iff in H as (s0 & [= ->] & H). exact H.
  - intros H. left. apply in_map. exact H.
Qed.

Lemma kfree_in_purge q s :
  In (Ev_kfree_skb s) (skb_queue_purge q) <-> In s q.
Proof.
  unfold skb_queue_purge. split.
  - intros H. apply in_map_iff in H as (s0 & [= ->] & H). exact H.
  - apply in_map.
Qed.

(** X17: what [neigh_ifdown] takes and gives back.  Afterwards the hash
    table links exactly the entries of other devices, in their buckets
    and in order, and the proxy table holds exactly the proxy entries of
    other devices; for a NULL device both are empty.  When each removed
    entry counts the table's reference and has its pending timer in a
    timer state, every packet queued on a removed entry is freed, an
    entry nobody else references is freed and taken off the entry
    count, and an entry somebody still references is not freed. *)
Theorem neigh_ifdown_removes tbl d :
  let tbl' := fst (neigh_ifdown tbl d) in
  let tr := snd (neigh_ifdown tbl d) in
  let removed := List.filter (fun n => negb (other_dev d n)) (linked tbl) in
  hash_buckets tbl' = map (List.filter (other_dev d)) (hash_buckets tbl) /\
  phash_buckets tbl' =
    map (List.filter (pother_dev d)) (phash_buckets tbl) /\
  (d = 0 -> linked tbl' = [] /\ concat (phash_buckets tbl') = []) /\
  ((forall n, In n removed -> timer_ok n /\ 1 <= refs_held n) ->
   tr = concat (map (fun n => if refs_held n =? 1 then free_events n
                              else skb_queue_purge (arp_queue n)) removed) /\
   entries tbl' =
     entries tbl
     - Z.of_nat (length (List.filter (fun n => refs_held n =? 1) removed)) /\
   (forall s, In (Ev_kfree_skb s) tr <->
              exists n, In n removed /\ In s (arp_queue n)) /\
   (forall a, In (Ev_kmem_cache_free a) tr <->
              exists n, In n removed /\ refs_held n = 1 /\ n_addr n = a)).
Proof.
  cbv zeta. unfold neigh_ifdown, pneigh_ifdown. cbn [fst snd].
  destruct (dev_walk_filter ifdown_unlink (hash_buckets tbl) d) as [Hb Htr].
  assert (Hp : map (fun chain => pneigh_ifdown_chain chain d)
                   (phash_buckets tbl) =
               map (List.filter (pother_dev d)) (phash_buckets tbl)).
  { apply map_ext. intros c. apply pneigh_ifdown_chain_filter. }
  cbn [hash_buckets phash_buckets entries set_phash_buckets set_entries
       set_hash_buckets].
  split; [exact Hb|]. split; [exact Hp|]. split.
  - intros Hd. unfold linked.
    cbn [hash_buckets phash_buckets set_phash_buckets set_entries
         set_hash_buckets].
    rewrite Hb, Hp. subst d.
    split; apply concat_filter_none; intros x; reflexivity.
  - intros Hall. rewrite Htr. fold (linked tbl).
    set (removed := List.filter (fun n => negb (other_dev d n)) (linked tbl))
      in *.
    assert (Heq : concat (map (unlink_events ifdown_unlink) removed) =
                  concat (map (fun n => if refs_held n =? 1 then free_events n
                                        else skb_queue_purge (arp_queue n))
                              removed)).
    { apply concat_map_ext_in. intros n Hn.
      destruct (Hall n Hn) as [Hok Hr].
      apply ifdown_unlink_events; assumption. }
    rewrite Heq. split; [reflexivity|]. split; [|split].
    + cbn. rewrite entries_freed_concat_if by (intros; apply entries_freed_purge).
      reflexivity.
    + intros s. rewrite in_concat_map_events. split.
      * intros (n & Hn & Hs). exists n. split; [exact Hn|].
        destruct (refs_held n =? 1);
          [apply kfree_in_free_events|apply kfree_in_purge]; exact Hs.
      * intros (n & Hn & Hs). exists n. split; [exact Hn|].
        destruct (refs_held n =? 1);
          [apply kfree_in_free_events|apply kfree_in_purge]; exact Hs.
    + intros a. rewrite in_concat_map_events. split.
      * intros (n & Hn & Ha). exists n. split; [exact Hn|].
        destruct (Z.eqb_spec (refs_held n) 1) as [H1|H1].
        -- split; [exact H1|]. unfold free_events, skb_queue_purge in Ha.
           apply in_app_iff in Ha as [Ha|[Ha|[]]]; [|congruence].
           apply in_map_iff in Ha as (s & Hs & _). discriminate.
        -- unfold skb_queue_purge in Ha.
           apply in_map_iff in Ha as (s & Hs & _). discriminate.
      * intros (n & Hn & H1 & <-). exists n. split; [exact Hn|].
        rewrite H1. change (1 =? 1) with true. cbv iota.
        unfold free_events. apply in_app_iff. right. left. reflexivity.
Qed.

(** X18: what [neigh_changeaddr] takes and gives back.  Afterwards the
    hash table links exactly the entries of other devices (none for a
    NULL device), in their buckets and in order.  When each removed
    entry counts the table's reference and has its pending timer in a
    timer state, an entry nobody else references is freed with the
    packets queued on it and taken off the entry count; for an entry
    somebody still references nothing is freed, not even its queued
    packets. *)
Theorem neigh_changeaddr_removes tbl d :
  let tbl' := fst (neigh_changeaddr tbl d) in
  let tr := snd (neigh_changeaddr tbl d) in
  let removed := List.filter (fun n => negb (other_dev d n)) (linked tbl) in
  hash_buckets tbl' = map (List.filter (other_dev d)) (hash_buckets tbl) /\
  phash_buckets tbl' = phash_buckets tbl /\
  (d = 0 -> linked tbl' = []) /\
  ((forall n, In n removed -> timer_ok n /\ 1 <= refs_held n) ->
   tr = concat (map free_events
                    (List.filter (fun n => refs_held n =? 1) removed)) /\
   entries tbl' =
     entries tbl
     - Z.of_nat (length (List.filter (fun n => refs_held n =? 1) removed))).
Proof.
  cbv zeta. unfold neigh_changeaddr. cbn [fst snd].
  destruct (dev_walk_filter changeaddr_unlink (hash_buckets tbl) d)
    as [Hb Htr].
  split; [cbn; exact Hb|]. split; [reflexivity|]. split.
  - intros ->. unfold linked. cbn. rewrite Hb.
    apply concat_filter_none; intros x; reflexivity.
  - intros Hall. rewrite Htr. fold (linked tbl).
    set (removed := List.filter (fun n => negb (other_dev d n)) (linked tbl))
      in *.
    assert (Heq : concat (map (unlink_events changeaddr_unlink) removed) =
                  concat (map (fun n => if refs_held n =? 1 then free_events n
                                        else []) removed)).
    { apply concat_map_ext_in. intros n Hn.
      destruct (Hall n Hn) as [Hok Hr].
      apply changeaddr_unlink_events; assumption. }
    rewrite Heq. split.
    + clear. induction removed as [|n l IH]; [reflexivity|].
      cbn [map concat List.filter]. rewrite IH.
      destruct (refs_held n =? 1); reflexivity.
    + cbn. rewrite entries_freed_concat_if by reflexivity. reflexivity.
Qed.

(** ** The proxy table: deletion *)

Lemma pneigh_hash_bound tbl pkey :
  (pneigh_hash tbl pkey < Z.to_nat (PNEIGH_HASHMASK + 1))%nat.
Proof.
  unfold pneigh_hash. cbv zeta.
  match goal with
  | |- (Z.to_nat (Z.land ?x _) < _)%nat => set (v := x)
  end.
  assert (H : 0 <= Z.land v PNEIGH_HASHMASK < 16).
  { unfold PNEIGH_HASHMASK. change 15 with (Z.ones 4).
    rewrite Z.land_ones by lia. apply Z.mod_pos_bound. reflexivity. }
  change (Z.to_nat (PNEIGH_HASHMASK + 1)) with 16%nat. lia.
Qed.

Lemma pbucket_lookup tbl h :
  (h < length (phash_buckets tbl))%nat ->
  phash_buckets tbl !! h = Some (pbucket tbl h).
Proof.
  intros Hh. unfold pbucket.
  destruct (lookup_lt_is_Some_2 _ _ Hh) as [c Hc]. rewrite Hc. reflexivity.
Qed.

Lemma pneigh_exact_spec tbl pkey d n :
  pneigh_exact tbl pkey d n = true <->
  pkey_dev tbl n = (key_of tbl pkey, d).
Proof.
  unfold pneigh_exact, pkey_dev, key_of, memcmp_eq.
  rewrite andb_true_iff, bool_decide_eq_true, Z.eqb_eq. split.
  - intros [-> ->]. reflexivity.
  - intros [= -> ->]. auto.
Qed.

Lemma pneigh_exact_match tbl pkey d n :
  pneigh_exact tbl pkey d n = true -> pneigh_match tbl pkey d n = true.
Proof.
  unfold pneigh_exact, pneigh_match. intros H.
  apply andb_true_iff in H as [-> ->]. reflexivity.
Qed.

(** The walk of [pneigh_delete], as a decomposition of the chain. *)
Lemma pneigh_unlink_spec tbl pkey d chain :
  match pneigh_unlink tbl pkey d chain with
  | Some (n, chain') =>
    exists pre post,
      chain = pre ++ n :: post /\ chain' = pre ++ post /\
      pneigh_exact tbl pkey d n = true /\
      (forall m, In m pre -> pneigh_exact tbl pkey d m = false)
  | None => forall m, In m chain -> pneigh_exact tbl pkey d m = false
  end.
Proof.
  induction chain as [|n rest IH]; cbn [pneigh_unlink]; [intros m []|].
  destruct (pneigh_exact tbl pkey d n) eqn:He.
  - exists [], rest. repeat split; auto. intros m [].
  - destruct (pneigh_unlink tbl pkey d rest) as [[m rest1]|].
    + destruct IH as (pre & post & -> & -> & Hm & Hpre).
      exists (n :: pre), post. repeat split; auto.
      intros x [<-|Hx]; auto.
    + intros m [<-|Hm]; auto.
Qed.

Lemma pneigh_unlink_first tbl pkey d pre n post :
  pneigh_exact tbl pkey d n = true ->
  (forall m, In m pre -> pneigh_exact tbl pkey d m = false) ->
  pneigh_unlink tbl pkey d (pre ++ n :: post) = Some (n, pre ++ post).
Proof.
  intros Hn. induction pre as [|x pre IH]; intros Hpre; cbn.
  - rewrite Hn. reflexivity.
  - rewrite (Hpre x) by (left; reflexivity).
    rewrite IH; [reflexivity|]. intros m Hm. apply Hpre. right. exact Hm.
Qed.

Lemma pneigh_delete_spec_first pdestructor tbl pkey d pre n post :
  length (phash_buckets tbl) = Z.to_nat (PNEIGH_HASHMASK + 1) ->
  pbucket tbl (pneigh_hash tbl pkey) = pre ++ n :: post ->
  pneigh_exact tbl pkey d n = true ->
  (forall m, In m pre -> pneigh_exact tbl pkey d m = false) ->
  pneigh_delete pdestructor tbl pkey d =
    (0,
     set_phash_buckets tbl
       (<[pneigh_hash tbl pkey := pre ++ post]> (phash_buckets tbl)),
     (if pdestructor then [Pev_pdestructor n] else []) ++ [Pev_kfree n]) /\
  pbucket (snd (fst (pneigh_delete pdestructor tbl pkey d)))
          (pneigh_hash tbl pkey) = pre ++ post.
Proof.
  intros Hlen Hc Hn Hpre.
  assert (Hh : (pneigh_hash tbl pkey < length (phash_buckets tbl))%nat).
  { rewrite Hlen. apply pneigh_hash_bound. }
  unfold pneigh_delete. rewrite Hc, (pneigh_unlink_first _ _ _ _ _ _ Hn Hpre).
  split; [reflexivity|]. cbn [fst snd]. unfold pbucket. cbn.
  rewrite list_lookup_insert_eq by exact Hh. reflexivity.
Qed.

(** X19: [pneigh_delete] removes the first proxy entry of the key's
    bucket whose key and device are exactly the ones asked for, frees
    it (after the table's destructor, when there is one) and returns 0;
    every other entry stays, in order.  When the bucket holds no such
    entry it returns [-ENOENT] and touches nothing.  The device must
    match exactly: an entry with a NULL device, which [pneigh_lookup]
    returns for any device, is not removed by a delete for a device. *)
Theorem pneigh_delete_spec pdestructor tbl pkey d :
  length (phash_buckets tbl) = Z.to_nat (PNEIGH_HASHMASK + 1) ->
  let h := pneigh_hash tbl pkey in
  ((forall m, In m (pbucket tbl h) -> pneigh_exact tbl pkey d m = false) ->
   pneigh_delete pdestructor tbl pkey d = (- ENOENT, tbl, [])) /\
  (forall pre n post,
     pbucket tbl h = pre ++ n :: post ->
     pneigh_exact tbl pkey d n = true ->
     (forall m, In m pre -> pneigh_exact tbl pkey d m = false) ->
     pneigh_delete pdestructor tbl pkey d =
       (0, set_phash_buckets tbl (<[h := pre ++ post]> (phash_buckets tbl)),
        (if pdestructor then [Pev_pdestructor n] else []) ++ [Pev_kfree n]) /\
     pbucket (snd (fst (pneigh_delete pdestructor tbl pkey d))) h =
       pre ++ post) /\
  (forall rc tbl' tr,
     pneigh_delete pdestructor tbl pkey d = (rc, tbl', tr) ->
     (rc = 0 \/ rc = - ENOENT) /\
     hash_buckets tbl' = hash_buckets tbl /\
     (forall i, i <> h -> pbucket tbl' i = pbucket tbl i) /\
     (forall w, In w (pbucket tbl h) -> d <> 0 -> pn_dev w = 0 ->
                In w (pbucket tbl' h))).
Proof.
  intros Hlen h.
  assert (Hh : (h < length (phash_buckets tbl))%nat).
  { rewrite Hlen. apply pneigh_hash_bound. }
  assert (Hset : forall c,
            pbucket (set_phash_buckets tbl (<[h := c]> (phash_buckets tbl))) h
            = c).
  { intros c. unfold pbucket. cbn.
    rewrite list_lookup_insert_eq by exact Hh. reflexivity. }
  split; [|split].
  - intros Hnone. unfold pneigh_delete. fold h.
    pose proof (pneigh_unlink_spec tbl pkey d (pbucket tbl h)) as Hs.
    destruct (pneigh_unlink tbl pkey d (pbucket tbl h)) as [[n c]|];
      [|reflexivity].
    destruct Hs as (pre & post & Hc & _ & Hn & _).
    rewrite (Hnone n) in Hn; [discriminate|].
    rewrite Hc. apply in_app_iff. right. left. reflexivity.
  - intros pre n post Hc Hn Hpre.
    apply pneigh_delete_spec_first; assumption.
  - intros rc tbl' tr. unfold pneigh_delete. fold h.
    pose proof (pneigh_unlink_spec tbl pkey d (pbucket tbl h)) as Hs.
    destruct (pneigh_unlink tbl pkey d (pbucket tbl h)) as [[n c]|].
    + destruct Hs as (pre & post & Hc & -> & Hn & Hpre).
      intros [= <- <- <-]. split; [auto|]. split; [reflexivity|]. split.
      * intros i Hi. unfold pbucket. cbn.
        rewrite list_lookup_insert_ne by auto. reflexivity.
      * intros w Hw Hd Hw0. rewrite Hset. rewrite Hc in Hw.
        apply in_app_iff in Hw as [Hw|[<-|Hw]]; apply in_app_iff; auto.
        exfalso. unfold pneigh_exact in Hn.
        apply andb_true_iff in Hn as [_ Hn]. apply Z.eqb_eq in Hn.
        congruence.
    + intros [= <- <- <-]. split; [auto|]. split; [reflexivity|].
      split; auto.
Qed.

Lemma pneigh_find_none_iff tbl pkey d chain :
  (forall m, In m chain -> pneigh_match tbl pkey d m = false) ->
  pneigh_find tbl pkey d chain = None.
Proof.
  induction chain as [|n rest IH]; intros H; [reflexivity|].
  cbn. rewrite (H n) by (left; reflexivity).
  apply IH. intros m Hm. apply H. right. exact Hm.
Qed.

Lemma pkey_dev_new tbl pkey d a :
  pkey_dev tbl {| pn_addr := a; pn_key := memcpy [] pkey (key_len tbl);
                  pn_dev := d |} = (key_of tbl pkey, d).
Proof.
  unfold pkey_dev, key_of, memcpy. cbn.
  rewrite drop_nil, app_nil_r, take_idemp. reflexivity.
Qed.

(** X20: a proxy entry created, found and deleted.  When no entry of
    the bucket matches the key for the device and the constructor
    accepts, [pneigh_lookup] with [creat] set links a new entry for
    exactly that key and device; a lookup without [creat] then returns
    this entry; and [pneigh_delete] for the same key and device frees
    it, returns 0 and leaves the proxy table as it was before the
    creation. *)
Theorem pneigh_create_delete pdestructor tbl pkey d a :
  length (phash_buckets tbl) = Z.to_nat (PNEIGH_HASHMASK + 1) ->
  (forall m, In m (pbucket tbl (pneigh_hash tbl pkey)) ->
             pneigh_match tbl pkey d m = false) ->
  (forall f n, pconstructor tbl = Some f -> f n = 0) ->
  let n := {| pn_addr := a; pn_key := memcpy [] pkey (key_len tbl);
              pn_dev := d |} in
  let tbl1 := snd (pneigh_lookup tbl pkey d 1 (Some a)) in
  pneigh_lookup tbl pkey d 1 (Some a) = (Some n, tbl1) /\
  pbucket tbl1 (pneigh_hash tbl pkey) =
    n :: pbucket tbl (pneigh_hash tbl pkey) /\
  pneigh_lookup tbl1 pkey d 0 None = (Some n, tbl1) /\
  exists tbl2,
    pneigh_delete pdestructor tbl1 pkey d =
      (0, tbl2,
       (if pdestructor then [Pev_pdestructor n] else []) ++ [Pev_kfree n]) /\
    phash_buckets tbl2 = phash_buckets tbl /\
    hash_buckets tbl2 = hash_buckets tbl.
Proof.
  intros Hlen Hnone Hcons n tbl1.
  set (h := pneigh_hash tbl pkey) in *.
  assert (Hh : (h < length (phash_buckets tbl))%nat).
  { rewrite Hlen. apply pneigh_hash_bound. }
  assert (Hlook : pneigh_lookup tbl pkey d 1 (Some a) =
                  (Some n,
                   set_phash_buckets tbl
                     (<[h := n :: pbucket tbl h]> (phash_buckets tbl)))).
  { unfold pneigh_lookup. fold h.
    rewrite (pneigh_find_none_iff _ _ _ _ Hnone).
    change (1 =? 0) with false. cbv iota. fold n.
    destruct (pconstructor tbl) as [f|] eqn:Hf; [|reflexivity].
    rewrite (Hcons f n eq_refl). reflexivity. }
  assert (Ht1 : tbl1 = set_phash_buckets tbl
                         (<[h := n :: pbucket tbl h]> (phash_buckets tbl))).
  { subst tbl1. rewrite Hlook. reflexivity. }
  assert (Hb1 : pbucket tbl1 h = n :: pbucket tbl h).
  { rewrite Ht1. unfold pbucket at 1. cbn.
    rewrite list_lookup_insert_eq by exact Hh. reflexivity. }
  assert (Hh1 : pneigh_hash tbl1 pkey = h) by (rewrite Ht1; reflexivity).
  assert (Hex : pneigh_exact tbl1 pkey d n = true).
  { apply pneigh_exact_spec. rewrite Ht1.
    apply (pkey_dev_new tbl pkey d a). }
  split; [rewrite Hlook, Ht1; reflexivity|]. split; [exact Hb1|]. split.
  - unfold pneigh_lookup. rewrite Hh1, Hb1. cbn [pneigh_find].
    rewrite (pneigh_exact_match _ _ _ _ Hex). reflexivity.
  - assert (Hlen1 : length (phash_buckets tbl1) =
                    Z.to_nat (PNEIGH_HASHMASK + 1)).
    { rewrite Ht1. cbn. rewrite length_insert. exact Hlen. }
    destruct (pneigh_delete_spec_first pdestructor tbl1 pkey d [] n
                (pbucket tbl h) Hlen1) as [Hdel _].
    + rewrite Hh1. exact Hb1.
    + exact Hex.
    + intros m [].
    + eexists. split; [exact Hdel|]. cbn [phash_buckets set_phash_buckets
        hash_buckets app].
      rewrite Hh1, Ht1. cbn [phash_buckets set_phash_buckets hash_buckets].
      split; [|reflexivity].
      rewrite list_insert_insert_eq. apply list_insert_id.
      apply pbucket_lookup. exact Hh.
Qed.

Lemma NoDup_app_remove {A} (l1 : list A) x l2 :
  NoDup (l1 ++ x :: l2) -> NoDup (l1 ++ l2) /\ x ∉ l1 ++ l2.
Proof.
  intros H. apply NoDup_app in H as (H1 & H12 & H2).
  apply NoDup_cons in H2 as [Hx H2]. split.
  - apply NoDup_app. split; [exact H1|]. split; [|exact H2].
    intros y Hy Hy2. apply (H12 y Hy). apply elem_of_cons. auto.
  - intros Hin. apply elem_of_app in Hin as [Hin|Hin]; [|auto].
    apply (H12 x Hin). apply elem_of_cons. auto.
Qed.

Lemma NoDup_map_filter {A B} (f : A -> B) (P : A -> bool) (l : list A) :
  NoDup (map f l) -> NoDup (map f (List.filter P l)).
Proof.
  induction l as [|x l IH]; intros H; [exact H|].
  cbn in H. apply NoDup_cons in H as [Hx H]. cbn.
  destruct (P x); [|apply IH; exact H].
  cbn. apply NoDup_cons. split; [|apply IH; exact H].
  intros Hin. apply Hx.
  apply list_elem_of_In, in_map_iff in Hin as (y & Hy & Hin).
  apply filter_In in Hin as [Hin _].
  apply list_elem_of_In, in_map_iff. exists y. auto.
Qed.

Lemma ptbl_ok_insert tbl h c :
  ptbl_ok tbl -> NoDup (map (pkey_dev tbl) c) ->
  ptbl_ok (set_phash_buckets tbl (<[h := c]> (phash_buckets tbl))).
Proof.
  intros [Hlen Hall] Hc. split.
  - cbn. rewrite length_insert. exact Hlen.
  - intros i chain. cbn.
    destruct (Nat.eq_dec i h) as [->|Hne].
    + destruct (Nat.lt_ge_cases h (length (phash_buckets tbl))) as [Hlt|Hge].
      * rewrite list_lookup_insert_eq by exact Hlt. intros [= <-]. exact Hc.
      * rewrite list_insert_ge by exact Hge. apply Hall.
    + rewrite list_lookup_insert_ne by auto. apply Hall.
Qed.

(** X21: a proxy key is registered once per device.  That no chain of
    the proxy table holds two entries with the same key and device is
    kept by [pneigh_lookup] (which creates only when nothing matches),
    by [pneigh_delete] and by [pneigh_ifdown]; so after a delete that
    returned 0 the entry is gone: the same delete again returns
    [-ENOENT], and what a lookup for that key and device still finds is
    an entry registered for every device. *)
Theorem pneigh_registered_once pdestructor tbl pkey d :
  ptbl_ok tbl ->
  (forall creat mem, ptbl_ok (snd (pneigh_lookup tbl pkey d creat mem))) /\
  ptbl_ok (snd (fst (pneigh_delete pdestructor tbl pkey d))) /\
  ptbl_ok (pneigh_ifdown tbl d) /\
  (forall tbl' tr,
     pneigh_delete pdestructor tbl pkey d = (0, tbl', tr) ->
     pneigh_delete pdestructor tbl' pkey d = (- ENOENT, tbl', []) /\
     forall n t mem,
       pneigh_lookup tbl' pkey d 0 mem = (Some n, t) ->
       pn_dev n = 0 /\ d <> 0).
Proof.
  intros Hok. pose proof Hok as [Hlen Hall].
  set (h := pneigh_hash tbl pkey).
  assert (Hh : (h < length (phash_buckets tbl))%nat).
  { rewrite Hlen. apply pneigh_hash_bound. }
  pose proof (Hall h _ (pbucket_lookup tbl h Hh)) as Hnd.
  split; [|split; [|split]].
  - intros creat mem. unfold pneigh_lookup. fold h.
    destruct (pneigh_find tbl pkey d (pbucket tbl h)) as [n|] eqn:Hf;
      [exact Hok|].
    destruct (creat =? 0); [exact Hok|].
    destruct mem as [a|]; [|exact Hok].
    destruct (match pconstructor tbl with
              | Some f => negb (f _ =? 0) | None => false end);
      [exact Hok|].
    cbn [snd]. apply ptbl_ok_insert; [exact Hok|].
    cbn [map]. apply NoDup_cons. split; [|exact Hnd].
    rewrite pkey_dev_new. intros Hin.
    apply list_elem_of_In, in_map_iff in Hin as (m & Hm & Hin).
    pose proof (pneigh_find_none _ _ _ _ Hf m Hin) as Hno.
    rewrite (pneigh_exact_match tbl pkey d m) in Hno; [discriminate|].
    apply pneigh_exact_spec. exact Hm.
  - unfold pneigh_delete. fold h.
    pose proof (pneigh_unlink_spec tbl pkey d (pbucket tbl h)) as Hs.
    destruct (pneigh_unlink tbl pkey d (pbucket tbl h)) as [[n c]|];
      [|exact Hok].
    destruct Hs as (pre & post & Hc & -> & _).
    cbn [fst snd]. apply ptbl_ok_insert; [exact Hok|].
    rewrite Hc in Hnd. rewrite List.map_app in Hnd. cbn [map] in Hnd.
    apply NoDup_app_remove in Hnd as [Hnd _].
    rewrite List.map_app. exact Hnd.
  - split.
    + unfold pneigh_ifdown. cbn. rewrite length_map. exact Hlen.
    + intros i chain. unfold pneigh_ifdown. cbn.
      change (map (fun c => pneigh_ifdown_chain c d) (phash_buckets tbl))
        with ((fun c => pneigh_ifdown_chain c d) <$> phash_buckets tbl).
      rewrite list_lookup_fmap.
      destruct (phash_buckets tbl !! i) as [c|] eqn:Hi; [|discriminate].
      intros [= <-]. rewrite pneigh_ifdown_chain_filter.
      apply (NoDup_map_filter (pkey_dev tbl)). apply (Hall i c Hi).
  - intros tbl' tr. unfold pneigh_delete at 1. fold h.
    pose proof (pneigh_unlink_spec tbl pkey d (pbucket tbl h)) as Hs.
    destruct (pneigh_unlink tbl pkey d (pbucket tbl h)) as [[n c]|];
      [|intros [= H]; vm_compute in H; discriminate].
    destruct Hs as (pre & post & Hc & -> & Hn & Hpre).
    intros [= <- _].
    set (tbl' := set_phash_buckets tbl
                   (<[h := pre ++ post]> (phash_buckets tbl))).
    assert (Hb' : pbucket tbl' h = pre ++ post).
    { unfold pbucket, tbl'. cbn.
      rewrite list_lookup_insert_eq by exact Hh. reflexivity. }
    assert (Hgone : forall m, In m (pre ++ post) ->
                      pneigh_exact tbl pkey d m = false).
    { intros m Hm.
      destruct (pneigh_exact tbl pkey d m) eqn:He; [|reflexivity].
      exfalso. rewrite Hc in Hnd. rewrite List.map_app in Hnd.
      cbn [map] in Hnd. apply NoDup_app_remove in Hnd as [_ Hnot].
      apply Hnot. rewrite <- List.map_app.
      apply pneigh_exact_spec in He, Hn. rewrite Hn, <- He.
      apply list_elem_of_In, in_map. exact Hm. }
    split.
    + assert (Hlen' : length (phash_buckets tbl') =
                      Z.to_nat (PNEIGH_HASHMASK + 1)).
      { unfold tbl'. cbn. rewrite length_insert. exact Hlen. }
      unfold pneigh_delete.
      change (pneigh_hash tbl' pkey) with h. rewrite Hb'.
      pose proof (pneigh_unlink_spec tbl' pkey d (pre ++ post)) as Hs'.
      destruct (pneigh_unlink tbl' pkey d (pre ++ post)) as [[n' c']|];
        [|reflexivity].
      destruct Hs' as (pre' & post' & Hc' & _ & Hn' & _).
      change (pneigh_exact tbl' pkey d n') with (pneigh_exact tbl pkey d n')
        in Hn'.
      rewrite (Hgone n') in Hn'; [discriminate|].
      rewrite Hc'. apply in_app_iff. right. left. reflexivity.
    + intros n0 t mem. unfold pneigh_lookup.
      change (pneigh_hash tbl' pkey) with h. rewrite Hb'.
      destruct (pneigh_find tbl' pkey d (pre ++ post)) as [m|] eqn:Hf;
        [|change (0 =? 0) with true; cbv iota; discriminate].
      intros [= <- _].
      destruct (pneigh_find_some _ _ _ _ _ Hf) as [Hin Hm].
      change (pneigh_match tbl' pkey d m) with (pneigh_match tbl pkey d m)
        in Hm.
      apply pneigh_match_spec in Hm as [Hkey Hdev].
      specialize (Hgone m Hin). unfold pneigh_exact in Hgone.
      rewrite Hkey in Hgone. cbn [andb] in Hgone.
      apply Z.eqb_neq in Hgone.
      destruct Hdev as [Hdev|Hdev]; [contradiction|].
      split; [exact Hdev|]. intros ->. contradiction.
Qed.

(** ** The proxy queue *)

Lemma wrap_congr w z : exists q, wrap w z = z + 2 ^ w * q.
Proof.
  unfold wrap. destruct (Z.eq_dec (2 ^ w) 0) as [E | E].
  - exists 0. rewrite E. rewrite Z.mod_0_r. lia.
  - exists (- (z / 2 ^ w)). pose proof (Z.div_mod z (2 ^ w) E). lia.
Qed.

Lemma swrap_congr w z : exists q, swrap w z = z + 2 ^ w * q.
Proof.
  unfold swrap. destruct (wrap_congr w (z + 2 ^ (w - 1))) as [q Hq].
  unfold wrap in Hq. exists q. lia.
Qed.

Lemma swrap_eq w x y :
  0 < w -> - 2 ^ (w - 1) <= y < 2 ^ (w - 1) ->
  (exists q, x = y + 2 ^ w * q) -> swrap w x = y.
Proof.
  intros Hw Hy [q ->]. unfold swrap.
  assert (HM : 2 ^ w = 2 * 2 ^ (w - 1)).
  { replace w with (Z.succ (w - 1)) at 1 by lia. apply Z.pow_succ_r. lia. }
  replace (y + 2 ^ w * q + 2 ^ (w - 1)) with (y + 2 ^ (w - 1) + q * 2 ^ w) by lia.
  rewrite Z.mod_add by lia. rewrite Z.mod_small by lia. lia.
Qed.

Lemma proxy_stamped_tdif skb now k j :
  0 < BITS_PER_LONG ->
  - 2 ^ (BITS_PER_LONG - 1) <= k - j < 2 ^ (BITS_PER_LONG - 1) ->
  proxy_tdif (proxy_stamped skb now k) (ulong (now + j)) = k - j.
Proof.
  intros Hw Hr. unfold proxy_tdif, proxy_stamped, ulong. cbn [ps_stamp_usec].
  apply swrap_eq; [assumption | assumption |].
  destruct (wrap_congr BITS_PER_LONG (now + k)) as [q1 H1].
  destruct (wrap_congr BITS_PER_LONG (now + j)) as [q2 H2].
  destruct (swrap_congr BITS_PER_LONG (wrap BITS_PER_LONG (now + k))) as [q3 H3].
  exists (q1 + q3 - q2). lia.
Qed.

Lemma proxy_walk_kept redo running now q : forall s0,
  (proxy_walk redo running q now s0).1.1 =
  List.filter (fun skb => negb (proxy_tdif skb now <=? 0)) q.
Proof.
  induction q as [| back rest IH]; intros s0; [reflexivity |].
  cbn [proxy_walk List.filter]. cbv zeta.
  destruct (proxy_tdif back now <=? 0); cbn [negb].
  - specialize (IH s0).
    destruct (proxy_walk redo running rest now s0) as [[kept tr] s]. exact IH.
  - match goal with |- context [proxy_walk _ _ rest now ?s1] =>
      specialize (IH s1); destruct (proxy_walk redo running rest now s1) as [[kept tr] s]
    end.
    cbn [fst] in *. now rewrite IH.
Qed.

Lemma proxy_walk_trace redo running now q : forall s0,
  (proxy_walk redo running q now s0).1.2 =
  concat (map (proxy_deliver redo running)
              (List.filter (fun skb => proxy_tdif skb now <=? 0) q)).
Proof.
  induction q as [| back rest IH]; intros s0; [reflexivity |].
  cbn [proxy_walk List.filter]. cbv zeta.
  destruct (proxy_tdif back now <=? 0).
  - specialize (IH s0).
    destruct (proxy_walk redo running rest now s0) as [[kept tr] s].
    cbn [fst snd map concat] in *. rewrite IH. reflexivity.
  - match goal with |- context [proxy_walk _ _ rest now ?s1] =>
      specialize (IH s1); destruct (proxy_walk redo running rest now s1) as [[kept tr] s]
    end.
    exact IH.
Qed.

Lemma proxy_walk_sched redo running now q : forall s0,
  0 <= s0 ->
  let kept := (proxy_walk redo running q now s0).1.1 in
  let s := (proxy_walk redo running q now s0).2 in
  0 <= s /\
  (s0 <> 0 -> 0 < s <= s0) /\
  (forall skb, In skb kept -> 0 < s <= proxy_tdif skb now) /\
  (s = s0 \/ exists skb, In skb kept /\ proxy_tdif skb now = s).
Proof.
  induction q as [| back rest IH]; intros s0 Hs0; cbv zeta.
  - cbn. split; [lia |]. split; [intros; lia |].
    split; [intros ? [] | now left].
  - cbn [proxy_walk]. cbv zeta.
    destruct (proxy_tdif back now <=? 0) eqn:Hd.
    + specialize (IH s0 Hs0). cbv zeta in IH.
      destruct (proxy_walk redo running rest now s0) as [[kept tr] s].
      cbn [fst snd] in *. exact IH.
    + apply Z.leb_gt in Hd.
      match goal with |- context [proxy_walk _ _ rest now ?s1] => set (s1' := s1) end.
      assert (H1 : 0 < s1' /\ s1' <= proxy_tdif back now /\ (s0 <> 0 -> s1' <= s0) /\
                   (s1' = s0 \/ s1' = proxy_tdif back now)).
      { subst s1'. destruct (s0 =? 0) eqn:E0; cbn [orb].
        - apply Z.eqb_eq in E0. lia.
        - apply Z.eqb_neq in E0.
          destruct (proxy_tdif back now <? s0) eqn:E1;
            [apply Z.ltb_lt in E1 | apply Z.ltb_ge in E1]; lia. }
      clearbody s1'.
      assert (Hs1 : 0 <= s1') by lia.
      specialize (IH s1' Hs1). cbv zeta in IH.
      destruct (proxy_walk redo running rest now s1') as [[kept tr] s].
      cbn [fst snd] in *.
      destruct IH as (Ha & Hb & Hc & He).
      assert (Hb' : 0 < s <= s1') by (apply Hb; lia).
      split; [lia |]. split; [intros; lia |]. split.
      * intros skb [<- | Hin]; [lia | apply Hc; exact Hin].
      * destruct He as [-> | (skb & Hin & Hsk)].
        -- destruct H1 as (_ & _ & _ & [-> | ->]); [now left |].
           right. exists back. split; [now left | reflexivity].
        -- right. exists skb. split; [now right | exact Hsk].
Qed.

(** X22: [neigh_proxy_process] removes from the proxy queue exactly the
    packets that are due ([stamp.tv_usec - now <= 0] as a [long]), in
    queue order, keeps the others in order, hands each due packet to
    [proxy_redo] when the table has the callback and the packet's device
    is running and frees it otherwise, and puts its device either way.
    The timer is left unarmed when nothing stays queued, and is
    otherwise armed to fire after the least wait of the packets that
    stay. *)
Theorem neigh_proxy_process_spec st redo running now later :
  let due := fun skb => proxy_tdif skb now <=? 0 in
  let kept := List.filter (fun skb => negb (due skb)) (proxy_queue st) in
  let r := neigh_proxy_process st redo running now later in
  proxy_queue r.1 = kept /\
  r.2 = concat (map (proxy_deliver redo running)
                    (List.filter due (proxy_queue st))) /\
  (kept = [] -> proxy_timer r.1 = None) /\
  (kept <> [] ->
   exists m, proxy_timer r.1 = Some (ulong (later + m)) /\
             (exists skb, In skb kept /\ proxy_tdif skb now = m) /\
             (forall skb, In skb kept -> 0 < m <= proxy_tdif skb now)).
Proof.
  cbv zeta. unfold neigh_proxy_process.
  pose proof (proxy_walk_kept redo running now (proxy_queue st) 0) as Hk.
  pose proof (proxy_walk_trace redo running now (proxy_queue st) 0) as Ht.
  pose proof (proxy_walk_sched redo running now (proxy_queue st) 0 (Z.le_refl 0)) as Hs.
  cbv zeta in Hs.
  destruct (proxy_walk redo running (proxy_queue st) now 0) as [[kept tr] s].
  cbn [fst snd proxy_queue proxy_timer] in *.
  destruct Hs as (Ha & _ & Hc & He).
  split; [exact Hk | split; [exact Ht |]].
  rewrite <- Hk. split.
  - intros ->. destruct He as [-> | (skb & [] & _)]. reflexivity.
  - intros Hne. destruct kept as [| k0 kept']; [congruence |].
    assert (Hpos : 0 < s) by (apply (Hc k0); now left).
    destruct (Z.eqb_spec s 0) as [E | _]; [lia |].
    exists s. split; [reflexivity |]. split; [| exact Hc].
    destruct He as [-> | He]; [lia | exact He].
Qed.

Lemma pneigh_enqueue_form st delay qlen skb now rnd :
  0 < delay ->
  pneigh_enqueue st delay qlen skb now rnd =
  Some (if u32 qlen <? u32 (Z.of_nat (length (proxy_queue st)))
        then (st, [Px_kfree_skb skb])
        else ({| proxy_queue := proxy_queue st ++ [proxy_stamped skb now (rnd mod delay)];
                 proxy_timer :=
                   Some (match proxy_timer st with
                         | Some expires =>
                           if time_before expires (ulong (now + rnd mod delay))
                           then expires else ulong (now + rnd mod delay)
                         | None => ulong (now + rnd mod delay)
                         end) |},
              [Px_dst_release (ps_dst skb); Px_dev_hold (ps_dev skb)])).
Proof.
  intros Hd. unfold pneigh_enqueue, proxy_stamped.
  destruct (Z.leb_spec delay 0) as [? | _]; [lia |]. cbv zeta.
  destruct (u32 qlen <? u32 (Z.of_nat (length (proxy_queue st)))); reflexivity.
Qed.

(** X23: with a positive [proxy_delay], [pneigh_enqueue] drops and
    frees the packet, leaving queue and timer alone, when more than
    [proxy_qlen] packets are queued; so a queue of at most
    [proxy_qlen + 1] packets stays so.  Otherwise the packet goes to the
    tail with its route released and a reference on its device, stamped
    to wait [rnd mod proxy_delay] ticks, and the timer is pending
    afterwards at that time or at the earlier time it was already set
    to: an enqueue never postpones the timer. *)
Theorem pneigh_enqueue_spec st delay qlen skb now rnd :
  0 < delay -> 0 <= qlen < 2 ^ 31 ->
  Z.of_nat (length (proxy_queue st)) < 2 ^ 32 ->
  exists st' tr,
    pneigh_enqueue st delay qlen skb now rnd = Some (st', tr) /\
    (Z.of_nat (length (proxy_queue st)) <= qlen + 1 ->
     Z.of_nat (length (proxy_queue st')) <= qlen + 1) /\
    (qlen < Z.of_nat (length (proxy_queue st)) ->
     st' = st /\ tr = [Px_kfree_skb skb]) /\
    (Z.of_nat (length (proxy_queue st)) <= qlen ->
     let k := rnd mod delay in
     0 <= k < delay /\
     proxy_queue st' = proxy_queue st ++ [proxy_stamped skb now k] /\
     tr = [Px_dst_release (ps_dst skb); Px_dev_hold (ps_dev skb)] /\
     exists e, proxy_timer st' = Some e /\
               (e = ulong (now + k) \/
                proxy_timer st = Some e /\ time_before e (ulong (now + k)) = true)).
Proof.
  intros Hd Hq Hlen.
  rewrite (pneigh_enqueue_form _ _ _ _ _ _ Hd).
  rewrite (u32_small qlen) by lia.
  rewrite (u32_small (Z.of_nat _)) by lia.
  destruct (Z.ltb_spec qlen (Z.of_nat (length (proxy_queue st)))) as [Hfull | Hroom];
    eexists _, _; (split; [reflexivity |]).
  - split; [intros H; exact H |]. split; [intros _; split; reflexivity | intros H; lia].
  - split.
    { intros _. cbn [proxy_queue]. rewrite length_app. cbn [length]. lia. }
    split; [intros H; lia |]. intros _. cbv zeta.
    split; [apply Z.mod_pos_bound; lia |].
    split; [reflexivity |]. split; [reflexivity |].
    cbn [proxy_timer].
    destruct (proxy_timer st) as [e0 |] eqn:Et.
    + destruct (time_before e0 (ulong (now + rnd mod delay))) eqn:Eb.
      * exists e0. split; [reflexivity |]. right. split; [reflexivity | exact Eb].
      * eexists. split; [reflexivity |]. now left.
    + eexists. split; [reflexivity |]. now left.
Qed.

(** X24: the delay of the proxy queue is respected.  A packet accepted
    at time [now] with draw [rnd] waits [rnd mod proxy_delay] ticks: a
    run of [neigh_proxy_process] [j] ticks after the enqueue keeps it
    queued when [j] is less, and otherwise takes it off the queue,
    hands it to [proxy_redo] (callback set, device running) or frees
    it, and puts its device. *)
Theorem proxy_delay_respected st delay qlen skb now rnd redo running j later :
  32 <= BITS_PER_LONG ->
  0 < delay < 2 ^ 31 -> 0 <= qlen < 2 ^ 31 ->
  Z.of_nat (length (proxy_queue st)) <= qlen ->
  0 <= j < 2 ^ 31 ->
  exists st1 tr1,
    pneigh_enqueue st delay qlen skb now rnd = Some (st1, tr1) /\
    let queued := proxy_stamped skb now (rnd mod delay) in
    let r := neigh_proxy_process st1 redo running (ulong (now + j)) later in
    In queued (proxy_queue st1) /\
    (j < rnd mod delay -> In queued (proxy_queue r.1)) /\
    (rnd mod delay <= j ->
     ~ In queued (proxy_queue r.1) /\
     exists tr_before tr_after,
       r.2 = tr_before ++ proxy_deliver redo running queued ++ tr_after).
Proof.
  intros Hw Hd Hq Hlen Hj.
  rewrite (pneigh_enqueue_form _ _ _ _ _ _ (proj1 Hd)).
  rewrite (u32_small qlen) by lia.
  rewrite (u32_small (Z.of_nat _)) by lia.
  destruct (Z.ltb_spec qlen (Z.of_nat (length (proxy_queue st)))) as [Hfull | _]; [lia |].
  eexists _, _. split; [reflexivity |]. cbv zeta.
  pose proof (Z.mod_pos_bound rnd delay (proj1 Hd)) as Hk.
  assert (Hp31 : 2 ^ 31 <= 2 ^ (BITS_PER_LONG - 1))
    by (apply Z.pow_le_mono_r; lia).
  assert (Htd : proxy_tdif (proxy_stamped skb now (rnd mod delay)) (ulong (now + j))
                = rnd mod delay - j)
    by (apply proxy_stamped_tdif; lia).
  match goal with |- context [neigh_proxy_process ?s _ _ _ _] => set (st1 := s) end.
  destruct (neigh_proxy_process_spec st1 redo running (ulong (now + j)) later)
    as (Hkept & Htr & _).
  rewrite Hkept, Htr. subst st1. cbn [proxy_queue].
  split; [apply in_or_app; right; now left |].
  split.
  - intros Hlt. apply filter_In. split; [apply in_or_app; right; now left |].
    rewrite Htd. destruct (Z.leb_spec (rnd mod delay - j) 0); [lia | reflexivity].
  - intros Hge. split.
    + intros Hin. apply filter_In in Hin. destruct Hin as [_ Hin].
      rewrite Htd in Hin.
      destruct (Z.leb_spec (rnd mod delay - j) 0); [discriminate | lia].
    + rewrite List.filter_app, List.map_app, concat_app.
      cbn [List.filter]. rewrite Htd.
      destruct (Z.leb_spec (rnd mod delay - j) 0); [| lia].
      cbn [map concat]. rewrite app_nil_r.
      eexists _, []. rewrite app_nil_r. reflexivity.
Qed.

Lemma dev_puts_app d t1 t2 : dev_puts d (t1 ++ t2) = (dev_puts d t1 + dev_puts d t2)%nat.
Proof. unfold dev_puts. now rewrite List.filter_app, length_app. Qed.

Lemma dev_holds_app d t1 t2 : dev_holds d (t1 ++ t2) = (dev_holds d t1 + dev_holds d t2)%nat.
Proof. unfold dev_holds. now rewrite List.filter_app, length_app. Qed.

Lemma proxy_deliver_puts redo running d skb :
  dev_puts d (proxy_deliver redo running skb) = (if ps_dev skb =? d then 1%nat else 0%nat) /\
  dev_holds d (proxy_deliver redo running skb) = 0%nat.
Proof.
  unfold proxy_deliver, dev_puts, dev_holds.
  destruct (redo && running (ps_dev skb)); cbn [List.filter];
    destruct (ps_dev skb =? d); split; reflexivity.
Qed.

Lemma proxy_deliver_balance redo running d due q :
  (dev_puts d (concat (map (proxy_deliver redo running) (List.filter due q))) +
   queued_on d (List.filter (fun skb => negb (due skb)) q))%nat = queued_on d q /\
  dev_holds d (concat (map (proxy_deliver redo running) (List.filter due q))) = 0%nat.
Proof.
  induction q as [| skb q IH]; [split; reflexivity |].
  destruct IH as [IH1 IH2].
  cbn [List.filter]. destruct (due skb); cbn [negb map concat].
  - rewrite dev_puts_app, dev_holds_app.
    destruct (proxy_deliver_puts redo running d skb) as [-> ->].
    split; [| exact IH2].
    unfold queued_on in *. cbn [List.filter].
    destruct (ps_dev skb =? d); cbn [length]; lia.
  - split; [| exact IH2].
    unfold queued_on in *. cbn [List.filter].
    destruct (ps_dev skb =? d); cbn [length]; lia.
Qed.

(** X25: the proxy queue accounts for its device references.  For every
    device, each of the three routines leaves the references taken
    ([dev_hold]) plus those owned by the packets queued before equal to
    the references dropped ([dev_put]) plus those owned by the packets
    queued afterwards: an accepted packet takes one, a dropped one
    none, each packet delivered by the timer or purged gives one back,
    and a purge leaves nothing queued. *)
Theorem proxy_dev_refs_balanced d st :
  (forall delay qlen skb now rnd st' tr,
     pneigh_enqueue st delay qlen skb now rnd = Some (st', tr) ->
     (dev_holds d tr + queued_on d (proxy_queue st))%nat =
     (dev_puts d tr + queued_on d (proxy_queue st'))%nat) /\
  (forall redo running now later,
     let r := neigh_proxy_process st redo running now later in
     (dev_holds d r.2 + queued_on d (proxy_queue st))%nat =
     (dev_puts d r.2 + queued_on d (proxy_queue r.1))%nat) /\
  (dev_holds d (pneigh_queue_purge (proxy_queue st)) + queued_on d (proxy_queue st))%nat =
  dev_puts d (pneigh_queue_purge (proxy_queue st)).
Proof.
  split; [| split].
  - intros delay qlen skb now rnd st' tr He. unfold pneigh_enqueue in He.
    destruct (delay <=? 0); [discriminate |]. cbv zeta in He.
    destruct (u32 qlen <? u32 (Z.of_nat (length (proxy_queue st))));
      injection He as <- <-.
    + reflexivity.
    + cbn [proxy_queue]. unfold queued_on, dev_holds, dev_puts.
      rewrite List.filter_app, length_app. cbn [List.filter ps_dev].
      destruct (ps_dev skb =? d); cbn [length]; lia.
  - intros redo running now later. cbv zeta.
    destruct (neigh_proxy_process_spec st redo running now later) as (Hk & Ht & _).
    rewrite Hk, Ht.
    destruct (proxy_deliver_balance redo running d
                (fun skb => proxy_tdif skb now <=? 0) (proxy_queue st)) as [H1 H2].
    rewrite H2. lia.
  - unfold pneigh_queue_purge.
    induction (proxy_queue st) as [| skb q IH]; [reflexivity |].
    cbn [map concat]. rewrite dev_puts_app, dev_holds_app.
    unfold queued_on in *. cbn [List.filter].
    assert (Hh : dev_holds d [Px_dev_put (ps_dev skb); Px_kfree_skb skb] = 0%nat)
      by reflexivity.
    assert (Hp : dev_puts d [Px_dev_put (ps_dev skb); Px_kfree_skb skb]
                 = (if ps_dev skb =? d then 1%nat else 0%nat)).
    { unfold dev_puts. cbn [List.filter]. destruct (ps_dev skb =? d); reflexivity. }
    rewrite Hh, Hp. destruct (ps_dev skb =? d); cbn [length]; lia.
Qed.

(** ** Releasing entries under a callback *)

Lemma for_each_release_chain_filter cb chain :
  for_each_release_chain cb chain =
    (map snd (List.filter (fun r => fst r =? 0) (map cb chain)),
     map (fun r => set_dead (snd r) 1)
         (List.filter (fun r => negb (fst r =? 0)) (map cb chain))).
Proof.
  induction chain as [| n rest IH]; [reflexivity |].
  cbn [for_each_release_chain map List.filter]. rewrite IH.
  destruct (cb n) as [release n1]. cbn [fst snd].
  destruct (release =? 0); reflexivity.
Qed.

Lemma for_each_release_chain_shrink cb c :
  (forall n, entry_kept n (snd (cb n))) ->
  chain_shrink c (fst (for_each_release_chain cb c)).
Proof.
  intros Hcb. induction c as [| n c IH]; [constructor |].
  cbn [for_each_release_chain]. specialize (Hcb n).
  destruct (cb n) as [release n1].
  destruct (for_each_release_chain cb c) as [kept gone].
  cbn [fst snd] in *.
  destruct (release =? 0); cbn [negb fst].
  - apply shrink_keep; assumption.
  - apply shrink_drop. exact IH.
Qed.

Lemma for_each_release_forced_chain now chain :
  for_each_release_chain (forced_gc_cb now) chain = forced_gc_chain chain now.
Proof.
  induction chain as [| n rest IH]; [reflexivity |].
  cbn [for_each_release_chain forced_gc_chain]. rewrite IH.
  unfold forced_gc_cb.
  destruct (forced_gc_chain rest now) as [kept gone].
  destruct (forced_gc_discard n now); reflexivity.
Qed.

(** X26: [__neigh_for_each_release] leaves in each bucket, in order and
    as the callback left them, exactly the entries for which the
    callback returned 0; the others are unlinked with [dead = 1] and
    released in the order of the walk, and the entry count drops by the
    number of entries this frees.  With the test of [neigh_forced_gc]
    as callback it leaves the buckets, the entry count and the trace
    that [neigh_forced_gc] leaves.  When the callback keeps the key,
    the device and the dead flag of an entry and the table's reference,
    the walk preserves the invariant of the table (one live entry per
    key and device, each in its bucket). *)
Theorem for_each_release_spec tbl cb :
  let r := __neigh_for_each_release tbl cb in
  let released chain :=
    map (fun v => set_dead (snd v) 1)
        (List.filter (fun v => negb (fst v =? 0)) (map cb chain)) in
  hash_buckets r.1 =
    map (fun chain => map snd (List.filter (fun v => fst v =? 0) (map cb chain)))
        (hash_buckets tbl) /\
  r.2 = release_all (concat (map released (hash_buckets tbl))) /\
  entries r.1 = entries tbl - entries_freed r.2 /\
  (forall now,
     let g := neigh_forced_gc tbl now in
     let f := __neigh_for_each_release tbl (forced_gc_cb now) in
     hash_buckets f.1 = hash_buckets g.1.2 /\
     entries f.1 = entries g.1.2 /\ f.2 = g.2) /\
  ((forall n, entry_kept n (snd (cb n))) -> tbl_ok tbl -> tbl_ok r.1).
Proof.
  cbv zeta. unfold __neigh_for_each_release. cbn [fst snd].
  assert (Hw : forall f, map (for_each_release_chain f) (hash_buckets tbl) =
               map (fun chain =>
                      (map snd (List.filter (fun v => fst v =? 0) (map f chain)),
                       map (fun v => set_dead (snd v) 1)
                           (List.filter (fun v => negb (fst v =? 0)) (map f chain))))
                   (hash_buckets tbl)).
  { intros f. apply map_ext. intros c. apply for_each_release_chain_filter. }
  split; [| split; [| split; [| split]]].
  - cbn [hash_buckets set_entries set_hash_buckets]. rewrite Hw, map_map.
    reflexivity.
  - rewrite Hw, map_map. reflexivity.
  - reflexivity.
  - intros now. unfold neigh_forced_gc, forced_gc_unlinked.
    cbn [fst snd hash_buckets entries set_entries set_hash_buckets set_last_flush].
    assert (He : map (for_each_release_chain (forced_gc_cb now)) (hash_buckets tbl) =
                 map (fun chain => forced_gc_chain chain now) (hash_buckets tbl)).
    { apply map_ext. intros c. apply for_each_release_forced_chain. }
    rewrite He, !map_map. repeat split; reflexivity.
  - intros Hcb. apply tbl_ok_shrink; try reflexivity.
    cbn [hash_buckets set_entries set_hash_buckets]. rewrite map_map.
    apply Forall2_map_self. intros c.
    apply for_each_release_chain_shrink. exact Hcb.
Qed.

(** ** Unloading a table *)

Lemma ifdown_all_entries tbl :
  (forall n, In n (linked tbl) -> timer_ok n /\ 1 <= refs_held n) ->
  linked (fst (neigh_ifdown tbl 0)) = [] /\
  concat (phash_buckets (fst (neigh_ifdown tbl 0))) = [] /\
  entries (fst (neigh_ifdown tbl 0)) =
    entries tbl
    - Z.of_nat (length (List.filter (fun n => refs_held n =? 1) (linked tbl))).
Proof.
  intros Hall. unfold neigh_ifdown, pneigh_ifdown, linked. cbn [fst snd].
  destruct (dev_walk_filter ifdown_unlink (hash_buckets tbl) 0) as [Hb Htr].
  cbn [hash_buckets phash_buckets entries set_phash_buckets set_entries
       set_hash_buckets].
  split; [| split].
  - rewrite Hb. apply concat_filter_none. intros x. reflexivity.
  - assert (Hp : map (fun chain => pneigh_ifdown_chain chain 0) (phash_buckets tbl) =
                 map (List.filter (pother_dev 0)) (phash_buckets tbl)).
    { apply map_ext. intros c. apply pneigh_ifdown_chain_filter. }
    rewrite Hp. apply concat_filter_none. intros x. reflexivity.
  - rewrite Htr.
    assert (Hf : List.filter (fun n => negb (other_dev 0 n)) (concat (hash_buckets tbl))
                 = concat (hash_buckets tbl)).
    { apply forallb_filter_id. apply forallb_forall. intros x _. reflexivity. }
    rewrite Hf.
    assert (Heq : concat (map (unlink_events ifdown_unlink) (concat (hash_buckets tbl))) =
                  concat (map (fun n => if refs_held n =? 1 then free_events n
                                        else skb_queue_purge (arp_queue n))
                              (concat (hash_buckets tbl)))).
    { apply concat_map_ext_in. intros n Hn.
      destruct (Hall n Hn) as [Hok Hr].
      apply ifdown_unlink_events; assumption. }
    rewrite Heq.
    rewrite entries_freed_concat_if by (intros; apply entries_freed_purge).
    reflexivity.
Qed.

Lemma filter_split_length {A} (P : A -> bool) (l : list A) :
  length l = (length (List.filter P l) +
              length (List.filter (fun x => negb (P x)) l))%nat.
Proof.
  induction l as [| x l IH]; [reflexivity |].
  cbn [List.filter]. destruct (P x); cbn [negb length]; lia.
Qed.

Lemma tables_unlink_in tables a b :
  NoDup tables -> (In b (tables_unlink tables a) <-> In b tables /\ b <> a).
Proof.
  induction tables as [| t rest IH]; intros Hnd.
  - cbn. split; [intros [] | intros [[] _]].
  - apply NoDup_cons in Hnd as [Hnotin Hnd]. specialize (IH Hnd).
    cbn [tables_unlink]. destruct (Z.eqb_spec t a) as [-> | Hne].
    + split.
      * intros Hin. split; [now right |]. intros ->.
        apply Hnotin, list_elem_of_In. exact Hin.
      * intros [[Heq | Hin] Hb]; [congruence | exact Hin].
    + cbn [In]. rewrite IH. split.
      * intros [<- | [Hin Hb]]; [split; [now left | exact Hne] |
                                 split; [now right | exact Hb]].
      * intros [[<- | Hin] Hb]; [now left | right; split; assumption].
Qed.

(** X27: [neigh_table_clear] and its leak check.  It returns 0, leaves
    both timers of the table unarmed, puts the device of and frees
    every packet of the proxy queue, leaves no entry linked in the hash
    table and no proxy entry, and takes the table off [neigh_tables]
    (first occurrence; the other tables stay).  When the entry count
    is the number of linked entries and each of them counts the table's
    reference, with a pending timer only in a timer state, the count
    left is the number of entries somebody else still references, and
    "neighbour leakage" is printed exactly when there is one. *)
Theorem neigh_table_clear_leak tbl tbl_addr gc st tables :
  entries tbl = Z.of_nat (length (linked tbl)) ->
  (forall n, In n (linked tbl) -> timer_ok n /\ 1 <= refs_held n) ->
  let r := neigh_table_clear tbl tbl_addr gc st tables in
  cr_ret r = 0 /\
  cr_gc_timer r = None /\
  cr_proxy r = {| proxy_queue := []; proxy_timer := None |} /\
  cr_pevents r = pneigh_queue_purge (proxy_queue st) /\
  linked (cr_tbl r) = [] /\
  concat (phash_buckets (cr_tbl r)) = [] /\
  (NoDup tables ->
   forall b, In b (cr_tables r) <-> In b tables /\ b <> tbl_addr) /\
  entries (cr_tbl r) =
    Z.of_nat (length (List.filter (fun n => negb (refs_held n =? 1))
                                  (linked tbl))) /\
  (cr_leak r = true <-> exists n, In n (linked tbl) /\ refs_held n <> 1).
Proof.
  intros Hcount Hall. cbv zeta. unfold neigh_table_clear, ifdown_proxy.
  cbn [proxy_queue proxy_timer].
  destruct (ifdown_all_entries tbl Hall) as (Hl & Hp & He).
  destruct (neigh_ifdown tbl 0) as [tbl1 tr]. cbn [fst] in Hl, Hp, He.
  cbn [cr_ret cr_gc_timer cr_proxy cr_pevents cr_tbl cr_tables cr_leak].
  assert (Hent : entries tbl1 =
                 Z.of_nat (length (List.filter (fun n => negb (refs_held n =? 1))
                                               (linked tbl)))).
  { rewrite He, Hcount.
    rewrite (filter_split_length (fun n => refs_held n =? 1) (linked tbl)).
    lia. }
  split; [reflexivity |]. split; [reflexivity |]. split; [reflexivity |].
  split; [unfold pneigh_queue_purge; cbn [map concat]; apply app_nil_r |].
  split; [exact Hl |]. split; [exact Hp |].
  split; [intros Hnd b; apply tables_unlink_in; exact Hnd |].
  split; [exact Hent |].
  rewrite Hent. split.
  - intros Hleak. apply negb_true_iff in Hleak. apply Z.eqb_neq in Hleak.
    destruct (List.filter (fun n => negb (refs_held n =? 1)) (linked tbl))
      as [| n l] eqn:Ef; [cbn in Hleak; lia |].
    assert (Hin : In n (List.filter (fun n => negb (refs_held n =? 1)) (linked tbl)))
      by (rewrite Ef; now left).
    apply filter_In in Hin as [Hin Hr]. exists n. split; [exact Hin |].
    apply negb_true_iff, Z.eqb_neq in Hr. exact Hr.
  - intros (n & Hin & Hr).
    assert (Hf : In n (List.filter (fun n => negb (refs_held n =? 1)) (linked tbl))).
    { apply filter_In. split; [exact Hin |].
      apply negb_true_iff, Z.eqb_neq. exact Hr. }
    apply negb_true_iff, Z.eqb_neq.
    destruct (List.filter (fun n => negb (refs_held n =? 1)) (linked tbl));
      [destruct Hf | cbn [length]; lia].
Qed.

(** ** The entry count *)

Lemma forced_gc_drift tbl now :
  count_drift (neigh_forced_gc tbl now).1.2 = count_drift tbl.
Proof.
  unfold count_drift, neigh_forced_gc, linked. cbn [fst snd].
  cbn [entries hash_buckets set_last_flush set_entries set_hash_buckets].
  rewrite forced_gc_unlinked_filter.
  set (taken := List.filter (fun n => forced_gc_discard n now) (linked tbl)).
  assert (Hall : Forall (fun n => refcnt n = 1 /\ dead n <> 0)
                        (map (fun n => set_dead n 1) taken)).
  { apply Forall_forall. intros m Hm.
    apply list_elem_of_In, in_map_iff in Hm as (n & <- & Hn).
    apply filter_In in Hn as [_ Hd]. cbn.
    split; [apply (forced_gc_discard_refcnt _ _ Hd) | discriminate]. }
  destruct (release_all_last _ Hall) as (Hcount & _).
  rewrite Hcount, length_map.
  assert (Hb : map (fun chain => fst (forced_gc_chain chain now)) (hash_buckets tbl) =
               map (List.filter (fun n => negb (forced_gc_discard n now)))
                   (hash_buckets tbl)).
  { apply map_ext. intros c. rewrite forced_gc_chain_filter. reflexivity. }
  rewrite Hb, concat_filter_map. fold (linked tbl).
  pose proof (filter_split_length (fun n => forced_gc_discard n now) (linked tbl)) as Hs.
  fold taken in Hs. lia.
Qed.

Lemma alloc_drift tbl now mem on tbl1 tr :
  neigh_alloc tbl now mem = (on, tbl1, tr) ->
  count_drift tbl1 =
    count_drift tbl + (match on with Some _ => 1 | None => 0 end) /\
  (forall n0, on = Some n0 -> dead n0 = 1 /\ refcnt n0 = 1).
Proof.
  unfold neigh_alloc.
  pose proof (forced_gc_drift tbl now) as Hgc.
  destruct (alloc_gc_trigger tbl now).
  - destruct (neigh_forced_gc tbl now) as [[shrunk t] tr0]. cbn [fst snd] in Hgc.
    destruct ((shrunk =? 0) && (gc_thresh3 t <? entries t)).
    + intros [= <- <- <-]. split; [lia | intros ? [=]].
    + destruct mem as [a |].
      * intros [= <- <- <-]. split; [| intros ? [= <-]; split; reflexivity].
        unfold count_drift in *. unfold linked in *.
        cbn [entries hash_buckets set_entries]. lia.
      * intros [= <- <- <-]. split; [lia | intros ? [=]].
  - destruct mem as [a |].
    + intros [= <- <- <-]. split; [| intros ? [= <-]; split; reflexivity].
      unfold count_drift, linked. cbn [entries hash_buckets set_entries]. lia.
    + intros [= <- <- <-]. split; [lia | intros ? [=]].
Qed.

Lemma create_release_drift tbl n tr :
  refcnt n = 1 -> dead n <> 0 ->
  count_drift (fst (create_release tbl n tr)) = count_drift tbl - 1.
Proof.
  intros Hr Hd. unfold create_release, count_drift, linked. cbn [fst].
  cbn [entries hash_buckets set_entries].
  destruct (release_last_dead n Hr Hd) as (w & Hw & Hrel & _).
  rewrite Hrel, entries_freed_app, entries_freed_free_events.
  destruct Hw as [-> | ->]; cbn [entries_freed]; lia.
Qed.

Lemma concat_insert_length {A} (l : list (list A)) h c c' :
  l !! h = Some c ->
  (length (concat (<[h := c']> l)) + length c =
   length (concat l) + length c')%nat.
Proof.
  revert h. induction l as [| x l IH]; intros h Hl; [destruct h; discriminate |].
  destruct h as [| h]; cbn in Hl.
  - injection Hl as ->. change (<[0%nat := c']> (c :: l)) with (c' :: l).
    cbn [concat]. rewrite !length_app. lia.
  - change (<[S h := c']> (x :: l)) with (x :: <[h := c']> l).
    cbn [concat]. rewrite !length_app. specialize (IH h Hl). lia.
Qed.

Lemma create_link_drift tbl pkey d n tr :
  tbl_ok tbl -> refcnt n = 1 -> dead n <> 0 ->
  count_drift (create_link tbl pkey d n tr).1.2 = count_drift tbl - 1.
Proof.
  intros Hok Hr Hd. unfold create_link.
  destruct (negb (parms_dead (parms n) =? 0)).
  { pose proof (create_release_drift tbl n tr Hr Hd) as H.
    destruct (create_release tbl n tr) as [t tr1]. exact H. }
  set (h := hash_val tbl pkey (dev_ptr d)).
  assert (Hh : hash_buckets tbl !! h = Some (bucket tbl h)).
  { apply bucket_lookup. destruct Hok as [Hlen _]. rewrite Hlen.
    apply hash_val_bound. }
  destruct (chain_find_hold tbl pkey (dev_ptr d) (bucket tbl h))
    as [[n1 chain] |] eqn:Hf.
  - apply chain_find_hold_some in Hf as (_ & _ & _ & _ & _ & _ & Hlen).
    assert (Hl : length chain = length (bucket tbl h)).
    { rewrite <- (length_map n_addr chain), Hlen. apply length_map. }
    pose proof (create_release_drift
                  (set_hash_buckets tbl (<[h := chain]> (hash_buckets tbl)))
                  n tr Hr Hd) as H.
    destruct (create_release _ n tr) as [t tr1]. cbn [fst snd] in *.
    rewrite H. unfold count_drift, linked.
    cbn [entries hash_buckets set_hash_buckets].
    pose proof (concat_insert_length (hash_buckets tbl) h _ chain Hh). lia.
  - cbn [fst snd]. unfold count_drift, linked.
    cbn [entries hash_buckets set_hash_buckets].
    pose proof (concat_insert_length (hash_buckets tbl) h _
                  (neigh_hold (set_dead n 0) :: bucket tbl h) Hh) as H.
    cbn [length] in H. lia.
Qed.

Lemma run_setup_alive f n :
  hook_alive f -> dead (snd (run_setup f n)) = dead n.
Proof.
  intros Hf. unfold run_setup. destruct f as [g |]; [| reflexivity].
  apply (Hf g n). reflexivity.
Qed.

(** X28: [neigh_create] keeps the entry count exact.  On a table in
    order whose hooks leave the dead flag of the entry they set up
    alone, the count of the table moves with the number of linked
    entries: the entry [neigh_alloc] counted is either linked or, when
    a hook fails, the parameters are dead or an entry for the key is
    already linked, destroyed and taken off the count again; and what
    the forced collection unlinks it takes off the count.  So a count
    that is the number of linked entries before the call is so after
    it, whether the call succeeds or fails. *)
Theorem neigh_create_count tbl pkey d now mem :
  tbl_ok tbl ->
  hook_alive (constructor tbl) -> hook_alive (parms_neigh_setup tbl) ->
  let tbl' := (neigh_create tbl pkey d now mem).1.2 in
  count_drift tbl' = count_drift tbl /\
  (entries tbl = Z.of_nat (length (linked tbl)) ->
   entries tbl' = Z.of_nat (length (linked tbl'))).
Proof.
  intros Hok Ha1 Ha2. cbv zeta.
  assert (Hd : count_drift (neigh_create tbl pkey d now mem).1.2 = count_drift tbl).
  2:{ split; [exact Hd |]. unfold count_drift in Hd. intros He. lia. }
  unfold neigh_create.
  destruct (neigh_alloc tbl now mem) as [[on tbl1] tr0] eqn:Hal.
  pose proof (alloc_ok _ _ _ _ _ _ Hal Hok) as Hok1.
  pose proof (alloc_spec _ _ _ _ _ _ Hal) as (_ & _ & Hc & Hp & _ & _).
  destruct (alloc_drift _ _ _ _ _ _ Hal) as [Hdr Hnew].
  pose proof Hok1 as (_ & Hc1 & Hc2 & _).
  destruct on as [n0 |]; [| cbn [fst snd]; lia].
  destruct (Hnew n0 eq_refl) as [Hdead0 Href0].
  set (n1 := set_dev _ d).
  assert (Hd1 : dead n1 = 1) by exact Hdead0.
  assert (Hr1 : refcnt n1 = 1) by exact Href0.
  clearbody n1.
  rewrite <- Hc in Ha1. rewrite <- Hp in Ha2.
  destruct (run_setup_kept (constructor tbl1) n1 Hc1) as (_ & _ & Hr2).
  pose proof (run_setup_alive (constructor tbl1) n1 Ha1) as Hd2.
  destruct (run_setup (constructor tbl1) n1) as [error n2].
  cbn [fst snd] in *.
  destruct (error <? 0).
  { pose proof (create_release_drift tbl1 n2 tr0) as H.
    destruct (create_release tbl1 n2 tr0) as [t tr1]. cbn [fst snd] in *.
    rewrite H; [lia | congruence | rewrite Hd2, Hd1; discriminate]. }
  destruct (run_setup_kept (parms_neigh_setup tbl1) n2 Hc2) as (_ & _ & Hr3).
  pose proof (run_setup_alive (parms_neigh_setup tbl1) n2 Ha2) as Hd3.
  destruct (run_setup (parms_neigh_setup tbl1) n2) as [error' n3].
  cbn [fst snd] in *.
  destruct (error' <? 0).
  { pose proof (create_release_drift tbl1 n3 tr0) as H.
    destruct (create_release tbl1 n3 tr0) as [t tr1]. cbn [fst snd] in *.
    rewrite H; [lia | congruence | rewrite Hd3, Hd2, Hd1; discriminate]. }
  rewrite create_link_drift; [lia | exact Hok1 | cbn; congruence |].
  cbn. rewrite Hd3, Hd2, Hd1. discriminate.
Qed.

(** ** The randomized reachable time *)

(** X29: for a positive [base] small enough that one and a half times
    [base] fits an [unsigned long], [neigh_rand_reach_time] returns a
    value from half of [base] (rounded down) up to, but not including,
    that plus [base], whatever [net_random()] gives; every value of the
    interval is returned for some draw.  For [base = 1] the result is
    0. *)
Theorem neigh_rand_reach_time_range base rnd :
  0 < base -> 0 <= rnd -> base + base / 2 <= 2 ^ BITS_PER_LONG ->
  exists r,
    neigh_rand_reach_time base rnd = Some r /\
    base / 2 <= r < base / 2 + base /\
    r = rnd mod base + base / 2 /\
    (base = 1 -> r = 0) /\
    (forall v, base / 2 <= v < base / 2 + base ->
               neigh_rand_reach_time base (v - base / 2) = Some v).
Proof.
  intros Hb Hr Hfit.
  assert (Hform : forall x, 0 <= x ->
            neigh_rand_reach_time base x = Some (x mod base + base / 2)).
  { intros x Hx. unfold neigh_rand_reach_time.
    destruct (Z.eqb_spec base 0) as [? | _]; [lia |].
    rewrite Z.shiftr_div_pow2 by lia. change (2 ^ 1) with 2.
    pose proof (Z.mod_pos_bound x base Hb) as Hm.
    assert (H2 : 0 <= base / 2) by (apply Z.div_pos; lia).
    unfold ulong, wrap. rewrite Z.mod_small by lia. reflexivity. }
  pose proof (Z.mod_pos_bound rnd base Hb) as Hm.
  exists (rnd mod base + base / 2).
  split; [apply Hform; exact Hr |]. split; [lia |]. split; [reflexivity |].
  split.
  - intros ->. rewrite Z.mod_1_r. reflexivity.
  - intros v Hv. rewrite Hform by lia.
    rewrite Z.mod_small by lia. f_equal. lia.
Qed.

End Neighbour.

(** ** Runs on concrete inputs *)

(** C4 at work: an entry in state NONE with no probes configured. *)
Lemma event_send_zero_probes_witness :
  exists n',
    __neigh_event_send 32
      (sample_neigh 1 [10; 0; 0; 1] NUD_NONE 1 [] (sample_parms 3 0 0 0))
      (Some (pkt 1)) 0 = (n', [Ev_kfree_skb (pkt 1)], 1) /\
    nud_state n' = NUD_FAILED /\
    arp_queue n' = [] /\
    forall s', Ev_error_report s' ∉ [Ev_kfree_skb (pkt 1)].
Proof.
  apply (event_send_zero_probes 32
           (sample_neigh 1 [10; 0; 0; 1] NUD_NONE 1 [] (sample_parms 3 0 0 0))
           (pkt 1) 0); reflexivity.
Defined.

(** The packet of C4 is freed, not handed to [error_report]. *)
Lemma event_send_zero_probes_frees :
  tst NUD_NONE
      (Z.lor NUD_CONNECTED (Z.lor NUD_DELAY (Z.lor NUD_PROBE
         (Z.lor NUD_STALE NUD_INCOMPLETE)))) = false /\
  ~ (let '(n', tr, _) :=
       __neigh_event_send 32
         (sample_neigh 1 [10; 0; 0; 1] NUD_NONE 1 [] (sample_parms 3 0 0 0))
         (Some (pkt 1)) 0 in
     nud_state n' = NUD_FAILED /\ In (Ev_error_report (pkt 1)) tr).
Proof.
  split; [reflexivity|].
  vm_compute. intros [_ [H|[]]]. discriminate H.
Qed.

(** C2 at work: a full queue of three. *)
Lemma arp_queue_bound_witness :
  let neigh := sample_neigh 1 [10; 0; 0; 1] NUD_INCOMPLETE 2
                 [pkt 1; pkt 2; pkt 3] (sample_parms 3 3 0 3) in
  let n' := fst (fst (__neigh_event_send 32 neigh (Some (pkt 4)) 0)) in
  let tr := snd (fst (__neigh_event_send 32 neigh (Some (pkt 4)) 0)) in
  queue_ok neigh /\
  queue_ok n' /\
  arp_queue n' = [pkt 2; pkt 3; pkt 4] /\
  tr = [Ev_kfree_skb (pkt 1)].
Proof.
  intros neigh n' tr.
  assert (Hok : queue_ok neigh).
  { split; [simpl; lia|vm_compute; discriminate]. }
  destruct (arp_queue_bound 100 32 cb_idle cb_idle (fun _ n _ => n))
    as (_ & Hsend & _).
  destruct (Hsend neigh (Some (pkt 4)) 0 n' tr 1 Hok eq_refl)
    as (Hok' & _ & Hdrop).
  destruct (Hdrop (pkt 4) eq_refl eq_refl) as [Hfull _].
  destruct Hfull as (oldest & rest & Hq & Hq' & Htr);
    [vm_compute; discriminate|].
  injection Hq as <- <-.
  split; [exact Hok|]. split; [exact Hok'|]. split; [exact Hq'|exact Htr].
Defined.

(** With [queue_len] zero the queue of an INCOMPLETE entry, empty and so
    within the limit, holds one packet after the send: the limit is
    exceeded, and no queued packet was freed, what the code unlinks
    there being the head of the empty queue. *)
Lemma event_send_queue_len_zero :
  let neigh := sample_neigh 1 [10; 0; 0; 1] NUD_INCOMPLETE 2 []
                 (sample_parms 0 3 0 3) in
  let n' := fst (fst (__neigh_event_send 32 neigh (Some (pkt 1)) 0)) in
  let tr := snd (fst (__neigh_event_send 32 neigh (Some (pkt 1)) 0)) in
  skb_queue_len (arp_queue neigh) <= queue_len (parms neigh) /\
  queue_len (parms n') = 0 /\
  arp_queue n' = [pkt 1] /\
  ~ skb_queue_len (arp_queue n') <= queue_len (parms n') /\
  (forall oldest, Ev_kfree_skb oldest ∉ tr).
Proof.
  split; [vm_compute; discriminate|].
  split; [reflexivity|]. split; [reflexivity|]. split.
  - vm_compute. intros H. apply H. reflexivity.
  - intros oldest Hin. vm_compute in Hin.
    apply list_elem_of_singleton in Hin. discriminate.
Qed.

(** C3 at work: an INCOMPLETE entry that has used its six probes, with
    two packets queued and a callback that leaves the entry alone. *)
Lemma timer_probe_budget_failure_witness :
  exists reported n1 n' tr',
    neigh_timer_handler 100 32 cb_idle cb_idle 3
      (set_probes
         (sample_neigh 1 [10; 0; 0; 1] NUD_INCOMPLETE 2 [pkt 1; pkt 2]
            (sample_parms 3 3 0 3)) 6) 10000 =
      Some (n', map Ev_error_report reported
                ++ skb_queue_purge (arp_queue n1) ++ tr') /\
    reported = [pkt 1; pkt 2] /\
    nud_state n' = NUD_FAILED /\
    arp_queue n' = [].
Proof.
  destruct (timer_probe_budget_failure 100 32 cb_idle cb_idle 3
              (set_probes
                 (sample_neigh 1 [10; 0; 0; 1] NUD_INCOMPLETE 2 [pkt 1; pkt 2]
                    (sample_parms 3 3 0 3)) 6) 10000)
    as (reported & n1 & n' & tr' & Hrun & _ & Hidle).
  - right. split; [reflexivity|]. vm_compute. discriminate.
  - intros m s _. unfold cb_idle. lia.
  - simpl. lia.
  - exists reported, n1, n', tr'. split; [exact Hrun|].
    apply Hidle. intros m s. split; reflexivity.
Defined.

(** C7 at work: a REACHABLE entry confirmed long ago and used 200 ticks
    ago becomes DELAY; a DELAY entry confirmed 200 ticks ago returns to
    REACHABLE; a DELAY entry confirmed long ago becomes PROBE with its
    counter at zero. *)
Lemma timer_reachable_delay_step_witness :
  (exists n' tr,
     neigh_timer_handler 100 32 cb_idle cb_idle 1
       (set_used (sample_neigh 1 [10; 0; 0; 1] NUD_REACHABLE 2 []
                    (sample_parms 3 3 0 3)) 9800) 10000 = Some (n', tr) /\
     nud_state n' = NUD_DELAY /\ output n' = fn_ops_output) /\
  (exists n' tr,
     neigh_timer_handler 100 32 cb_idle cb_idle 1
       (set_confirmed (sample_neigh 1 [10; 0; 0; 1] NUD_DELAY 2 []
                         (sample_parms 3 3 0 3)) 9800) 10000 = Some (n', tr) /\
     nud_state n' = NUD_REACHABLE /\ output n' = fn_ops_connected_output) /\
  (let n1 :=
     fst (timer_transition 100 32
            (set_timer (sample_neigh 1 [10; 0; 0; 1] NUD_DELAY 2 []
                          (sample_parms 3 3 0 3)) None) NUD_DELAY 10000) in
   nud_state n1 = NUD_PROBE /\ probes n1 = 0).
Proof.
  split; [|split].
  - destruct (proj1 (timer_reachable_delay_step 100 32 cb_idle cb_idle 1
                (set_used (sample_neigh 1 [10; 0; 0; 1] NUD_REACHABLE 2 []
                             (sample_parms 3 3 0 3)) 9800) 10000)
                eq_refl eq_refl)
      as (n' & tr & Hrun & Hs & Ho & _).
    exists n', tr. split; [exact Hrun|]. split; [exact Hs|exact Ho].
  - destruct (proj1 (proj2 (timer_reachable_delay_step 100 32 cb_idle cb_idle 1
                (set_confirmed (sample_neigh 1 [10; 0; 0; 1] NUD_DELAY 2 []
                                  (sample_parms 3 3 0 3)) 9800) 10000))
                eq_refl eq_refl)
      as (n' & tr & Hrun & Hs & Ho & _).
    exists n', tr. split; [exact Hrun|]. split; [exact Hs|exact Ho].
  - destruct (proj2 (proj2 (timer_reachable_delay_step 100 32 cb_idle cb_idle 1
                (sample_neigh 1 [10; 0; 0; 1] NUD_DELAY 2 []
                   (sample_parms 3 3 0 3)) 10000))
                eq_refl eq_refl)
      as (Hs & Hp & _).
    split; [exact Hs|exact Hp].
Defined.

(** A REACHABLE entry whose window has elapsed and that was last used
    long ago becomes STALE, not DELAY. *)
Lemma timer_reachable_goes_stale :
  let neigh := sample_neigh 1 [10; 0; 0; 1] NUD_REACHABLE 2 []
                 (sample_parms 3 3 0 3) in
  time_after 32 10000
    (ulong 32 (confirmed neigh + reachable_time (parms neigh))) = true /\
  exists n' tr,
    neigh_timer_handler 100 32 cb_idle cb_idle 1 neigh 10000 = Some (n', tr) /\
    nud_state n' = NUD_STALE /\
    nud_state n' <> NUD_DELAY.
Proof.
  split; [reflexivity|].
  eexists. eexists. split; [vm_compute; reflexivity|].
  split; [reflexivity|]. vm_compute. discriminate.
Qed.

(** C8 at work on a REACHABLE entry with WEAK_OVERRIDE: a different
    address makes it STALE and is not stored; the same address with the
    new state STALE leaves it REACHABLE. *)
Lemma update_weak_override_witness :
  let neigh := sample_neigh 1 [10; 0; 0; 1] NUD_REACHABLE 2 []
                 (sample_parms 3 3 0 3) in
  (exists n' tr,
     neigh_update 32 (fun _ n _ => n) 1 neigh (Some [9; 9; 9; 9; 9; 9])
       NUD_REACHABLE NEIGH_UPDATE_F_WEAK_OVERRIDE 10000 = Some (n', tr, 0) /\
     ha n' = [0; 1; 2; 3; 4; 5] /\ nud_state n' = NUD_STALE) /\
  (exists n',
     neigh_update 32 (fun _ n _ => n) 1 neigh (Some [0; 1; 2; 3; 4; 5])
       NUD_STALE NEIGH_UPDATE_F_WEAK_OVERRIDE 10000 = Some (n', [], 0) /\
     nud_state n' = NUD_REACHABLE /\ confirmed n' = 0).
Proof.
  intros neigh. split.
  - destruct (proj1 (update_weak_override 32 (fun _ n _ => n) 1 neigh
                       [9; 9; 9; 9; 9; 9] NUD_REACHABLE
                       NEIGH_UPDATE_F_WEAK_OVERRIDE 10000
                       (or_intror eq_refl) eq_refl eq_refl)
                ltac:(vm_compute; discriminate) eq_refl eq_refl eq_refl eq_refl)
      as (n' & tr & Hrun & Hha & Hs & _).
    exists n', tr. split; [exact Hrun|]. split; [exact Hha|exact Hs].
  - destruct (proj2 (update_weak_override 32 (fun _ n _ => n) 1 neigh
                       [0; 1; 2; 3; 4; 5] NUD_STALE
                       NEIGH_UPDATE_F_WEAK_OVERRIDE 10000
                       (or_intror eq_refl) eq_refl eq_refl)
                eq_refl eq_refl (or_introl eq_refl))
      as (n' & Hrun & Hs & _ & _ & _ & _ & _ & _ & Hc).
    exists n'. split; [exact Hrun|]. split; [exact Hs|exact Hc].
Defined.

(** The policy of C8 is not reached by every update.  A WEAK_OVERRIDE
    update without OVERRIDE that proposes another address for a
    PERMANENT entry, which is valid and connected, is refused with
    [-EPERM] when it is not administrative: the entry is not made
    STALE.  And such an update of a REACHABLE entry to a state that is
    not valid takes the entry to that state, not to STALE. *)
Lemma update_weak_override_refused :
  let perm := sample_neigh 1 [10; 0; 0; 1] NUD_PERMANENT 2 []
                (sample_parms 3 3 0 3) in
  let reach := sample_neigh 1 [10; 0; 0; 1] NUD_REACHABLE 2 []
                 (sample_parms 3 3 0 3) in
  tst (nud_state perm) NUD_VALID = true /\
  tst (nud_state perm) NUD_CONNECTED = true /\
  memcmp_eq [9; 9; 9; 9; 9; 9] (ha perm) (addr_len (dev perm)) = false /\
  tst NEIGH_UPDATE_F_WEAK_OVERRIDE NEIGH_UPDATE_F_OVERRIDE = false /\
  tst NEIGH_UPDATE_F_WEAK_OVERRIDE NEIGH_UPDATE_F_WEAK_OVERRIDE = true /\
  neigh_update 32 (fun _ n _ => n) 1 perm (Some [9; 9; 9; 9; 9; 9])
    NUD_REACHABLE NEIGH_UPDATE_F_WEAK_OVERRIDE 10000
    = Some (perm, [], - EPERM) /\
  nud_state perm <> NUD_STALE /\
  exists n',
    neigh_update 32 (fun _ n _ => n) 1 reach (Some [9; 9; 9; 9; 9; 9])
      NUD_NONE NEIGH_UPDATE_F_WEAK_OVERRIDE 10000 = Some (n', [], 0) /\
    nud_state n' = NUD_NONE /\ nud_state n' <> NUD_STALE.
Proof.
  repeat (split; [vm_compute; first [reflexivity | discriminate]|]).
  eexists. split; [vm_compute; reflexivity|].
  split; [reflexivity|vm_compute; discriminate].
Qed.

(** C5 at work: three packets sent to an unresolved entry, then the
    update that resolves it. *)
Lemma update_fifo_delivery_witness :
  let neigh := send_all 32
                 (sample_neigh 1 [10; 0; 0; 1] NUD_NONE 1 []
                    (sample_parms 3 3 0 3))
                 [pkt 1; pkt 2; pkt 3] 0 in
  exists sent n',
    neigh_update 32 (fun _ n _ => n) 4 neigh (Some [9; 9; 9; 9; 9; 9])
      NUD_REACHABLE NEIGH_UPDATE_F_OVERRIDE 10000 =
      Some (n', map (fun ts => Ev_output (fst ts) (snd ts)) sent ++ [], 0) /\
    map snd sent = [pkt 1; pkt 2; pkt 3] /\
    arp_queue n' = [].
Proof.
  intros neigh.
  destruct (update_fifo_delivery 32 (fun _ n _ => n) 4 neigh
              (Some [9; 9; 9; 9; 9; 9]) NUD_REACHABLE
              NEIGH_UPDATE_F_OVERRIDE 10000)
    as (n0 & sent & n1 & n' & Hrun & _ & _ & _ & Hq & Hfifo).
  - reflexivity.
  - reflexivity.
  - right. discriminate.
  - intros _. vm_compute. discriminate.
  - intros t m s _. lia.
  - vm_compute. lia.
  - destruct Hfifo as [Hsent Hq1].
    { intros t m s Hv. split; [exact Hv|reflexivity]. }
    exists sent, n'. rewrite Hq1 in Hrun.
    split; [exact Hrun|]. split; [exact Hsent|exact Hq].
Defined.


(** C9 at work: three entries, all held, above [gc_thresh3 = 1]: the
    collection unlinks nothing and the allocation is refused. *)
Lemma alloc_hard_limit_witness :
  let tbl := sample_tbl 0 1 3 (three_entries 2 NUD_STALE) in
  neigh_alloc 100 32 tbl 10000 (Some 0x3000) =
    (None, snd (fst (neigh_forced_gc 32 tbl 10000)), []) /\
  neigh_create 100 32 tbl [10; 0; 0; 9] sample_dev 10000 (Some 0x3000) =
    (ERR_PTR (- ENOBUFS), snd (fst (neigh_forced_gc 32 tbl 10000)), []).
Proof.
  intros tbl.
  destruct (proj1 (alloc_hard_limit 100 32 tbl 10000 (Some 0x3000) 0
                     (snd (fst (neigh_forced_gc 32 tbl 10000))) []
                     eq_refl eq_refl)
              eq_refl ltac:(vm_compute; reflexivity))
    as [Ha Hc].
  split; [exact Ha|]. apply Hc.
Defined.


(** With one of the three entries reclaimable the collection leaves two
    entries, still above [gc_thresh3 = 1], and the allocation goes
    through. *)
Lemma alloc_above_thresh3_succeeds :
  let tbl := sample_tbl 0 1 3 (three_entries 1 NUD_STALE) in
  let t := snd (fst (neigh_forced_gc 32 tbl 10000)) in
  alloc_gc_trigger 100 32 tbl 10000 = true /\
  gc_thresh3 t < entries t /\
  exists n, fst (fst (neigh_alloc 100 32 tbl 10000 (Some 0x3000))) = Some n /\
            n_addr n = 0x3000.
Proof.
  split; [reflexivity|]. split; [reflexivity|].
  eexists. split; [vm_compute; reflexivity|reflexivity].
Qed.


(** C6 at work: of three entries the forced collection unlinks the one
    that is unreferenced and STALE and keeps a held one; an INCOMPLETE
    entry used at the very tick of the collection stays linked under
    the forced collector, and under the periodic one in a run that
    refreshes the reachable times first. *)
Lemma gc_safety_witness :
  let tbl := sample_tbl 0 1 3 (three_entries 1 NUD_STALE) in
  let e1 := sample_neigh 0x2001 [10; 0; 0; 1] NUD_STALE 1 []
              (sample_parms 3 3 0 3) in
  let e2 := sample_neigh 0x2002 [10; 0; 0; 2] NUD_STALE 2 []
              (sample_parms 3 3 0 3) in
  let tbl' := sample_tbl 0 1 3 (three_entries 1 NUD_INCOMPLETE) in
  let e1' := sample_neigh 0x2001 [10; 0; 0; 1] NUD_INCOMPLETE 1 []
               (sample_parms 3 3 0 3) in
  (exists n0,
     In n0 (linked tbl) /\ set_dead e1 1 = set_dead n0 1 /\
     refcnt n0 = 1 /\ tst (nud_state n0) NUD_PERMANENT = false) /\
  In e2 (linked (snd (fst (neigh_forced_gc 32 tbl 10000)))) /\
  In e1' (linked (snd (fst (neigh_forced_gc 32 tbl' 50)))) /\
  (exists tbl2 tr expires n1,
     neigh_periodic_timer 100 32 tbl' (fun _ => 456) 40000
       = Some (tbl2, tr, expires) /\
     In n1 (linked tbl2) /\ n_addr n1 = 0x2001).
Proof.
  intros tbl e1 e2 tbl' e1'.
  split; [|split; [|split]].
  - destruct (proj1 (gc_safety 100 32 tbl 10000) (set_dead e1 1))
      as (n0 & Hin & Heq & Href & Hperm & _).
    { vm_compute. left. reflexivity. }
    exists n0. auto.
  - apply (proj1 (proj2 (gc_safety 100 32 tbl 10000)) e2).
    + vm_compute. right. left. reflexivity.
    + left. vm_compute. reflexivity.
  - apply (proj1 (proj2 (gc_safety 100 32 tbl' 50)) e1').
    + vm_compute. left. reflexivity.
    + right. right. split; reflexivity.
  - destruct (proj2 (proj2 (proj2 (proj2 (gc_safety 100 32 tbl' 40000))))
                (fun _ => 456))
      as (tbl2 & tr & expires & Hrun).
    { right. repeat constructor; vm_compute; discriminate. }
    destruct (proj1 (proj2 (proj2 (proj2 (gc_safety 100 32 tbl' 40000))))
                (fun _ => 456) tbl2 tr expires Hrun e1')
      as (n1 & Hin & Ha & _).
    { vm_compute. left. reflexivity. }
    { right. right. reflexivity. }
    exists tbl2, tr, expires, n1.
    split; [exact Hrun|]. split; [exact Hin|exact Ha].
Defined.


(** C10 at work: a proxy entry registered for 10.0.0.9 with a NULL
    device answers the lookup of that key for device [0x1000], and the
    lookup, made with the create flag set, leaves the table as it
    is. *)
Lemma pneigh_lookup_wildcard_witness :
  let tbl := snd (pneigh_lookup le32 (sample_tbl 0 1 0 empty_buckets)
                    [10; 0; 0; 9] 0 1 (Some 0x4000)) in
  exists n,
    pneigh_lookup le32 tbl [10; 0; 0; 9] 0x1000 1 (Some 0x4001) =
      (Some n, tbl) /\
    memcmp_eq (pn_key n) [10; 0; 0; 9] (key_len tbl) = true /\
    (pn_dev n = 0x1000 \/ pn_dev n = 0).
Proof.
  intros tbl.
  destruct (proj2 (pneigh_lookup_wildcard le32 tbl [10; 0; 0; 9] 0x1000 1
                     (Some 0x4001))
              {| pn_addr := 0x4000; pn_key := [10; 0; 0; 9]; pn_dev := 0 |})
    as (n & Hrun & _).
  - vm_compute. left. reflexivity.
  - reflexivity.
  - reflexivity.
  - exists n. split; [exact Hrun|].
    destruct (proj1 (pneigh_lookup_wildcard le32 tbl [10; 0; 0; 9] 0x1000 1
                       (Some 0x4001)) n tbl Hrun) as (Hk & Hd & _).
    split; [exact Hk|exact Hd].
Defined.



(** X1 at work: a lookup for 10.0.0.9 in a table that links it. *)
Lemma neigh_lookup_linked_witness :
  let key := [10; 0; 0; 9] in
  let tbl0 := sample_tbl 8 16 0 empty_buckets in
  let tbl1 := snd (fst (neigh_create 100 32 tbl0 key sample_dev 10
                          (Some 0x5000))) in
  tbl_ok tbl1 /\
  (exists n, fst (neigh_lookup tbl1 key 0x1000) = Some n /\
             n_addr n = 0x5000 /\ refcnt n = 3) /\
  fst (neigh_lookup tbl1 [10; 0; 0; 7] 0x1000) = None.
Proof.
  intros key tbl0 tbl1.
  assert (Hok : tbl_ok tbl0).
  { apply tbl_ok_empty; [reflexivity|apply hook_ok_none|apply hook_ok_none]. }
  assert (Hok1 : tbl_ok tbl1).
  { eapply (tbl_step_ok 100 32); [exact Hok|].
    apply (step_create 100 32 tbl0 key sample_dev 10 (Some 0x5000)). }
  split; [exact Hok1|]. split.
  - destruct (neigh_lookup_linked tbl1 key 0x1000 Hok1) as (Hres & _).
    rewrite Hres. vm_compute. eexists. split; [reflexivity|]. split; reflexivity.
  - destruct (neigh_lookup_linked tbl1 [10; 0; 0; 7] 0x1000 Hok1)
      as (Hres & _).
    rewrite Hres. vm_compute. reflexivity.
Defined.

(** X2 at work: creating 10.0.0.9 and looking it up. *)
Lemma create_then_lookup_witness :
  let key := [10; 0; 0; 9] in
  let tbl0 := sample_tbl 8 16 0 empty_buckets in
  let r1 := neigh_create 100 32 tbl0 key sample_dev 10 (Some 0x5000) in
  exists n,
    fst (neigh_lookup (snd (fst r1)) key (dev_ptr sample_dev)) = Some n /\
    n_addr n = 0x5000 /\ 3 <= refcnt n.
Proof.
  intros key tbl0 r1.
  assert (Hok : tbl_ok tbl0).
  { apply tbl_ok_empty; [reflexivity|apply hook_ok_none|apply hook_ok_none]. }
  assert (H1 : r1 = (Neigh 0x5000, snd (fst r1), snd r1))
    by (vm_compute; reflexivity).
  destruct (create_then_lookup 100 32 tbl0 key sample_dev 10 (Some 0x5000)
              0x5000 (snd (fst r1)) (snd r1) Hok H1)
    as (n & Hn & Ha & Hr & _).
  exists n. auto.
Defined.

(** X4 at work: a STALE entry with one reference and no timer. *)
Lemma event_send_timer_refs_witness :
  let neigh := sample_neigh 1 [10; 0; 0; 1] NUD_STALE 1 []
                 (sample_parms 3 3 0 3) in
  let n' := fst (fst (__neigh_event_send 32 neigh (Some (pkt 1)) 50)) in
  nud_state n' = NUD_DELAY /\ timer n' = Some 550 /\ refcnt n' = 2 /\
  timer_ok n' /\ refs_held n' = refs_held neigh.
Proof.
  intros neigh n'.
  assert (Hst : In (nud_state neigh) nud_states).
  { vm_compute. do 3 right. left. reflexivity. }
  assert (Hok : timer_ok neigh) by (intros H; contradiction).
  destruct (event_send_timer_refs 32 neigh (Some (pkt 1)) 50 Hst Hok)
    as (_ & Hok' & Hrefs & _).
  split; [reflexivity|]. split; [reflexivity|]. split; [reflexivity|].
  split; [exact Hok'|exact Hrefs].
Defined.

(** X5 at work: a plain update of a PERMANENT entry is refused, and so
    is an update that resolves an unresolved entry without an address;
    an update that resolves it with an address returns 0. *)
Lemma neigh_update_errors_witness :
  let perm := sample_neigh 1 [10; 0; 0; 1] NUD_PERMANENT 2 [pkt 1]
                (sample_parms 3 3 0 3) in
  let none := sample_neigh 2 [10; 0; 0; 2] NUD_NONE 2 [pkt 1]
                (sample_parms 3 3 0 3) in
  neigh_update 32 (fun _ n _ => n) 0 perm (Some [9; 9; 9; 9; 9; 9])
    NUD_REACHABLE NEIGH_UPDATE_F_OVERRIDE 100 = Some (perm, [], - EPERM) /\
  neigh_update 32 (fun _ n _ => n) 0 none None NUD_REACHABLE
    NEIGH_UPDATE_F_OVERRIDE 100 = Some (none, [], - EINVAL) /\
  exists n' tr,
    neigh_update 32 (fun _ n _ => n) 2 none (Some [9; 9; 9; 9; 9; 9])
      NUD_REACHABLE NEIGH_UPDATE_F_OVERRIDE 100 = Some (n', tr, 0).
Proof.
  intros perm none. split; [|split].
  - apply (proj1 (neigh_update_errors 32 (fun _ n _ => n) perm
                    (Some [9; 9; 9; 9; 9; 9]) NUD_REACHABLE
                    NEIGH_UPDATE_F_OVERRIDE 100) 0%nat).
    vm_compute. reflexivity.
  - apply (proj1 (neigh_update_errors 32 (fun _ n _ => n) none None
                    NUD_REACHABLE NEIGH_UPDATE_F_OVERRIDE 100) 0%nat).
    vm_compute. reflexivity.
  - apply (proj2 (neigh_update_errors 32 (fun _ n _ => n) none
                    (Some [9; 9; 9; 9; 9; 9]) NUD_REACHABLE
                    NEIGH_UPDATE_F_OVERRIDE 100) 2%nat).
    + intros t m s _. apply Nat.le_refl.
    + vm_compute. lia.
    + vm_compute. reflexivity.
Defined.

(** X6 at work: a REACHABLE entry whose timer is pending is made STALE
    by another address: the timer's reference goes with the timer. *)
Lemma neigh_update_timer_refs_witness :
  let neigh := set_timer
                 (sample_neigh 1 [10; 0; 0; 1] NUD_REACHABLE 2 []
                    (sample_parms 3 3 0 3)) (Some 3000) in
  exists n' tr,
    neigh_update 32 (fun _ n _ => n) 1 neigh (Some [9; 9; 9; 9; 9; 9])
      NUD_STALE NEIGH_UPDATE_F_OVERRIDE 100 = Some (n', tr, 0) /\
    nud_state n' = NUD_STALE /\ timer n' = None /\ refcnt n' = 1 /\
    timer_ok n' /\ refs_held n' = refs_held neigh.
Proof.
  intros neigh.
  assert (Hok : timer_ok neigh) by (intros _; reflexivity).
  assert (Hheld : timer neigh <> None -> 2 <= refcnt neigh)
    by (intros _; vm_compute; discriminate).
  let v := eval vm_compute in
             (neigh_update 32 (fun _ n _ => n) 1 neigh
                (Some [9; 9; 9; 9; 9; 9]) NUD_STALE
                NEIGH_UPDATE_F_OVERRIDE 100) in
  assert (Hrun : neigh_update 32 (fun _ n _ => n) 1 neigh
                   (Some [9; 9; 9; 9; 9; 9]) NUD_STALE
                   NEIGH_UPDATE_F_OVERRIDE 100 = v)
    by (vm_compute; reflexivity).
  destruct (neigh_update_timer_refs 32 (fun _ n _ => n) 1 neigh
              (Some [9; 9; 9; 9; 9; 9]) NUD_STALE NEIGH_UPDATE_F_OVERRIDE 100
              _ _ _ (fun _ m _ => same_trc_refl m) Hok Hheld Hrun)
    as (Hok' & Hrefs & _).
  eexists _, _. split; [exact Hrun|].
  split; [reflexivity|]. split; [reflexivity|]. split; [reflexivity|].
  split; [exact Hok'|exact Hrefs].
Defined.

(** X7 at work: a neighbour advertisement with the router bit. *)
Lemma neigh_update_router_flag_witness :
  let neigh := sample_neigh 1 [10; 0; 0; 1] NUD_STALE 2 []
                 (sample_parms 3 3 0 3) in
  let flgs := Z.lor NEIGH_UPDATE_F_OVERRIDE
                (Z.lor NEIGH_UPDATE_F_OVERRIDE_ISROUTER
                   NEIGH_UPDATE_F_ISROUTER) in
  exists n' tr,
    neigh_update 32 (fun _ n _ => n) 1 neigh (Some [0; 1; 2; 3; 4; 5])
      NUD_REACHABLE flgs 100 = Some (n', tr, 0) /\
    Z.testbit (flags n') 7 = true /\
    forall i, 0 <= i -> i <> 7 -> Z.testbit (flags n') i = false.
Proof.
  intros neigh flgs.
  let v := eval vm_compute in
             (neigh_update 32 (fun _ n _ => n) 1 neigh
                (Some [0; 1; 2; 3; 4; 5]) NUD_REACHABLE flgs 100) in
  assert (Hrun : neigh_update 32 (fun _ n _ => n) 1 neigh
                   (Some [0; 1; 2; 3; 4; 5]) NUD_REACHABLE flgs 100 = v)
    by (vm_compute; reflexivity).
  destruct (neigh_update_router_flag 32 (fun _ n _ => n) 1 neigh
              (Some [0; 1; 2; 3; 4; 5]) NUD_REACHABLE flgs 100 _ _ _
              (fun _ _ _ => eq_refl) ltac:(vm_compute; split; [discriminate|reflexivity])
              Hrun)
    as (Hother & _ & Hbit).
  eexists _, _. split; [exact Hrun|]. split.
  - apply Hbit; reflexivity.
  - intros i Hi Hne. rewrite (Hother i Hi Hne). apply Z.bits_0.
Defined.

(** X8 at work: an unresolved entry learns its address. *)
Lemma neigh_update_installs_witness :
  let neigh := set_ha (sample_neigh 1 [10; 0; 0; 1] NUD_INCOMPLETE 2 [pkt 1]
                         (sample_parms 3 3 0 3)) [0; 0; 0; 0; 0; 0; 7; 7] in
  exists n' tr,
    neigh_update 32 (fun _ n _ => n) 2 neigh (Some [9; 8; 7; 6; 5; 4])
      NUD_REACHABLE 0 100 = Some (n', tr, 0) /\
    memcmp_eq [9; 8; 7; 6; 5; 4] (ha n') 6 = true /\
    drop 6 (ha n') = [7; 7].
Proof.
  intros neigh.
  destruct (neigh_update_installs 32 (fun _ n _ => n) 2 neigh
              [9; 8; 7; 6; 5; 4] NUD_REACHABLE 0 100
              (fun _ _ _ => eq_refl) (fun _ m _ _ => Nat.le_refl _)
              ltac:(vm_compute; lia) (or_intror eq_refl) eq_refl
              ltac:(vm_compute; reflexivity) ltac:(vm_compute; lia)
              (or_intror eq_refl))
    as (n' & tr & Hrun & Hcmp & Hdrop).
  exists n', tr. split; [exact Hrun|]. split; [exact Hcmp|exact Hdrop].
Defined.

(** X9 at work: an administrative delete of an entry that is resolving,
    with a packet queued. *)
Lemma neigh_update_invalidate_witness :
  let neigh := set_timer
                 (sample_neigh 1 [10; 0; 0; 1] NUD_INCOMPLETE 2 [pkt 1]
                    (sample_parms 3 3 0 3)) (Some 200) in
  exists n',
    neigh_update 32 (fun _ n _ => n) 1 neigh None NUD_FAILED
      (Z.lor NEIGH_UPDATE_F_OVERRIDE NEIGH_UPDATE_F_ADMIN) 100 =
      Some (n', [], 0) /\
    nud_state n' = NUD_FAILED /\ timer n' = None /\ refcnt n' = 1 /\
    arp_queue n' = [pkt 1].
Proof.
  intros neigh.
  destruct (neigh_update_invalidate 32 (fun _ n _ => n) 1 neigh None
              NUD_FAILED (Z.lor NEIGH_UPDATE_F_OVERRIDE NEIGH_UPDATE_F_ADMIN)
              100 (or_introl eq_refl) eq_refl
              (fun _ => eq_refl) ltac:(intros _; vm_compute; discriminate))
    as (n' & Hrun & Hs & Ht & Hr & Hq & _).
  exists n'. split; [exact Hrun|]. split; [exact Hs|]. split; [exact Ht|].
  split; [|exact Hq].
  unfold refs_held in Hr. rewrite Ht in Hr. cbn in Hr. lia.
Defined.

(** X10 at work: the timer of a REACHABLE entry confirmed just now
    fires; it is re-armed for the end of the reachable time. *)
Lemma timer_handler_rearm_witness :
  let neigh := set_confirmed
                 (sample_neigh 1 [10; 0; 0; 1] NUD_REACHABLE 2 []
                    (sample_parms 3 3 0 3)) 9000 in
  exists n' tr,
    neigh_timer_handler 100 32 cb_idle cb_idle 1 neigh 10000 = Some (n', tr) /\
    timer n' = Some 12000 /\ refcnt n' = 2 /\
    refs_held n' = 1 /\ timer_ok n' /\ timer_armed n'.
Proof.
  intros neigh.
  let v := eval vm_compute in
             (neigh_timer_handler 100 32 cb_idle cb_idle 1 neigh 10000) in
  assert (Hrun : neigh_timer_handler 100 32 cb_idle cb_idle 1 neigh 10000 = v)
    by (vm_compute; reflexivity).
  destruct (timer_handler_rearm 100 32 cb_idle cb_idle 1 neigh 10000 _ _
              (fun m _ => same_trc_refl m) (fun m _ => same_trc_refl m)
              ltac:(vm_compute; discriminate) Hrun)
    as (Hok & Harmed & Hrefs & _).
  eexists _, _. split; [exact Hrun|].
  split; [reflexivity|]. split; [reflexivity|]. split; [exact Hrefs|].
  split; [exact Hok|exact Harmed].
Defined.

(** X11 at work: the second probe of an entry that is resolving. *)
Lemma timer_handler_solicits_witness :
  let neigh := set_probes
                 (sample_neigh 1 [10; 0; 0; 1] NUD_INCOMPLETE 2
                    [pkt 1; pkt 2] (sample_parms 3 3 0 3)) 4 in
  exists n',
    neigh_timer_handler 100 32 cb_idle cb_idle 1 neigh 10000 =
      Some (n', [Ev_solicit (Some (pkt 1))]) /\
    probes n' = 5 /\ timer n' = Some 10100 /\ refcnt n' = 2 /\
    arp_queue n' = [pkt 1; pkt 2].
Proof.
  intros neigh.
  destruct (timer_handler_solicits 100 32 cb_idle cb_idle 1 neigh 10000
              (fun _ _ => eq_refl) (or_introl eq_refl)
              ltac:(vm_compute; reflexivity) ltac:(vm_compute; discriminate))
    as (n' & Hrun & _ & Hp & Hq & Hr & _ & _ & _ & _ & Ht).
  exists n'. split; [exact Hrun|]. split; [exact Hp|]. split; [exact Ht|].
  split; [exact Hr|exact Hq].
Defined.

(** X12 at work: an entry that is resolving, four of its six probes
    used, two packets queued. *)
Lemma resolution_gives_up_witness :
  let neigh := set_probes
                 (sample_neigh 1 [10; 0; 0; 1] NUD_INCOMPLETE 2
                    [pkt 1; pkt 2] (sample_parms 3 3 0 3)) 4 in
  exists n',
    timer_fires 100 32 cb_idle cb_idle 3 neigh [100; 200; 300] =
      Some (n', [Ev_solicit (Some (pkt 1)); Ev_solicit (Some (pkt 1));
                 Ev_error_report (pkt 1); Ev_error_report (pkt 2)]) /\
    nud_state n' = NUD_FAILED /\ arp_queue n' = [] /\ timer n' = None /\
    refcnt n' = 1.
Proof.
  intros neigh.
  destruct (resolution_gives_up 100 32 cb_idle cb_idle 3 neigh
              [100; 200; 300] (fun _ _ => eq_refl) (fun _ _ => eq_refl)
              (or_introl eq_refl)
              ltac:(vm_compute; split; discriminate)
              ltac:(vm_compute; reflexivity)
              ltac:(vm_compute; discriminate)
              eq_refl ltac:(vm_compute; lia))
    as (n' & Hrun & Hres).
  exists n'. split; [exact Hrun|exact Hres].
Defined.

(** X13 at work: one packet sent through a fresh entry, three multicast
    probes configured. *)
Lemma resolution_from_scratch_witness :
  let neigh := sample_neigh 1 [10; 0; 0; 1] NUD_NONE 1 []
                 (sample_parms 3 3 0 3) in
  let n1 := fst (fst (__neigh_event_send 32 neigh (Some (pkt 7)) 0)) in
  exists n',
    timer_fires 100 32 cb_idle cb_idle 2 n1 [1; 101; 201; 301] =
      Some (n', [Ev_solicit (Some (pkt 7)); Ev_solicit (Some (pkt 7));
                 Ev_solicit (Some (pkt 7)); Ev_error_report (pkt 7)]) /\
    nud_state n' = NUD_FAILED /\ arp_queue n' = [] /\ refcnt n' = 1.
Proof.
  intros neigh n1.
  destruct (resolution_from_scratch 100 32 cb_idle cb_idle 2 neigh (pkt 7) 0
              [1; 101; 201; 301] (fun _ _ => eq_refl) (fun _ _ => eq_refl)
              (or_introl eq_refl) eq_refl
              ltac:(vm_compute; split; reflexivity)
              ltac:(vm_compute; discriminate)
              ltac:(vm_compute; discriminate)
              ltac:(vm_compute; discriminate)
              ltac:(vm_compute; reflexivity)
              ltac:(vm_compute; reflexivity)
              ltac:(vm_compute; discriminate)
              eq_refl ltac:(vm_compute; lia))
    as (_ & n' & Hrun & Hs & Hq & _ & Hr).
  exists n'. split; [exact Hrun|]. split; [exact Hs|]. split; [exact Hq|].
  exact Hr.
Defined.

(** X14 at work: the last reference of a dead entry with two packets
    queued, and a reference that is not the last. *)
Lemma neigh_release_frees_witness :
  let gone := set_dead (sample_neigh 0x2001 [10; 0; 0; 1] NUD_STALE 1
                          [pkt 1; pkt 2] (sample_parms 3 3 0 3)) 1 in
  let held := sample_neigh 0x2002 [10; 0; 0; 2] NUD_STALE 2 [pkt 3]
                (sample_parms 3 3 0 3) in
  snd (neigh_release gone) =
    [Ev_kfree_skb (pkt 1); Ev_kfree_skb (pkt 2); Ev_kmem_cache_free 0x2001] /\
  (forall e, In e (snd (neigh_release held)) -> e = Ev_warning).
Proof.
  intros gone held.
  destruct (neigh_release_frees gone) as (_ & _ & _).
  destruct (neigh_release_frees held) as (_ & Hother & _).
  split; [reflexivity|].
  apply Hother. intros [H _]. vm_compute in H. discriminate.
Defined.

(** X17 at work: the device of three entries goes down; the first is
    referenced by the table only, the others are held by callers. *)
Lemma neigh_ifdown_removes_witness :
  let tbl := sample_tbl 8 16 3 (three_entries 1 NUD_STALE) in
  let tbl' := fst (neigh_ifdown tbl 0x1000) in
  let tr := snd (neigh_ifdown tbl 0x1000) in
  linked tbl' = [] /\ entries tbl' = 2 /\
  tr = [Ev_kmem_cache_free 0x2001].
Proof.
  intros tbl tbl' tr.
  destruct (neigh_ifdown_removes tbl 0x1000) as (_ & _ & _ & Hacc).
  destruct Hacc as (Htr & Hent & _).
  { intros n Hn. vm_compute in Hn.
    destruct Hn as [<-|[<-|[<-|[]]]];
      (split; [intros H; exfalso; apply H; reflexivity
              |vm_compute; discriminate]). }
  split; [reflexivity|]. split; [exact Hent|exact Htr].
Defined.

(** X18 at work: the address of the device of three entries changes. *)
Lemma neigh_changeaddr_removes_witness :
  let tbl := sample_tbl 8 16 3 (three_entries 1 NUD_STALE) in
  let tbl' := fst (neigh_changeaddr tbl 0x1000) in
  let tr := snd (neigh_changeaddr tbl 0x1000) in
  linked tbl' = [] /\ entries tbl' = 2 /\
  tr = [Ev_kmem_cache_free 0x2001].
Proof.
  intros tbl tbl' tr.
  destruct (neigh_changeaddr_removes tbl 0x1000) as (_ & _ & _ & Hacc).
  destruct Hacc as (Htr & Hent).
  { intros n Hn. vm_compute in Hn.
    destruct Hn as [<-|[<-|[<-|[]]]];
      (split; [intros H; exfalso; apply H; reflexivity
              |vm_compute; discriminate]). }
  split; [reflexivity|]. split; [exact Hent|exact Htr].
Defined.

(** X19 at work: the entry of the sample device is deleted, the entry
    for every device in front of it stays; a delete for a device that
    has no entry of its own finds nothing. *)
Lemma pneigh_delete_spec_witness :
  let key := [10; 0; 0; 9] in
  let wild := {| pn_addr := 0x7000; pn_key := key; pn_dev := 0 |} in
  let own := {| pn_addr := 0x7100; pn_key := key; pn_dev := 0x1000 |} in
  let h := pneigh_hash le32 (sample_ptbl le32) key in
  pneigh_delete le32 true (sample_ptbl le32) key 0x1000 =
    (0,
     set_phash_buckets (sample_ptbl le32)
       (<[h := [wild]]> (phash_buckets (sample_ptbl le32))),
     [Pev_pdestructor own; Pev_kfree own]) /\
  pneigh_delete le32 true (sample_ptbl le32) key 0x2000 =
    (- ENOENT, sample_ptbl le32, []).
Proof.
  intros key wild own h.
  assert (Hlen : length (phash_buckets (sample_ptbl le32)) =
                 Z.to_nat (PNEIGH_HASHMASK + 1)) by (vm_compute; reflexivity).
  split.
  - destruct (pneigh_delete_spec le32 true (sample_ptbl le32) key 0x1000 Hlen)
      as (_ & Hfirst & _).
    destruct (Hfirst [wild] own []) as [Hdel _].
    + vm_compute. reflexivity.
    + vm_compute. reflexivity.
    + intros m [<-|[]]. vm_compute. reflexivity.
    + exact Hdel.
  - destruct (pneigh_delete_spec le32 true (sample_ptbl le32) key 0x2000 Hlen)
      as (Hnone & _).
    apply Hnone. intros m Hm. vm_compute in Hm.
    destruct Hm as [<-|[<-|[]]]; vm_compute; reflexivity.
Defined.

(** X20 at work: 10.0.0.9 is registered for the sample device in an
    empty proxy table, found, and deleted. *)
Lemma pneigh_create_delete_witness :
  let key := [10; 0; 0; 9] in
  let tbl := sample_tbl 8 16 0 empty_buckets in
  let n := {| pn_addr := 0x7000; pn_key := key; pn_dev := 0x1000 |} in
  let tbl1 := snd (pneigh_lookup le32 tbl key 0x1000 1 (Some 0x7000)) in
  pneigh_lookup le32 tbl key 0x1000 1 (Some 0x7000) = (Some n, tbl1) /\
  pneigh_lookup le32 tbl1 key 0x1000 0 None = (Some n, tbl1) /\
  exists tbl2,
    pneigh_delete le32 false tbl1 key 0x1000 = (0, tbl2, [Pev_kfree n]) /\
    phash_buckets tbl2 = phash_buckets tbl.
Proof.
  intros key tbl n tbl1.
  destruct (pneigh_create_delete le32 false tbl key 0x1000 0x7000)
    as (Hc & _ & Hl & tbl2 & Hd & Hp & _).
  - vm_compute. reflexivity.
  - intros m Hm. vm_compute in Hm. destruct Hm.
  - intros f m Hf. discriminate Hf.
  - split; [exact Hc|]. split; [exact Hl|].
    exists tbl2. split; [exact Hd|exact Hp].
Defined.

(** X21 at work: once the entry of the sample device is deleted, the
    same delete finds nothing, and a lookup falls back on the entry for
    every device. *)
Lemma pneigh_registered_once_witness :
  let key := [10; 0; 0; 9] in
  let r := pneigh_delete le32 true (sample_ptbl le32) key 0x1000 in
  fst (fst r) = 0 /\
  pneigh_delete le32 true (snd (fst r)) key 0x1000 =
    (- ENOENT, snd (fst r), []) /\
  ptbl_ok (snd (fst r)).
Proof.
  intros key r.
  assert (Hok : ptbl_ok (sample_ptbl le32)).
  { split; [vm_compute; reflexivity|].
    intros i chain Hi.
    destruct (Nat.eq_dec i (pneigh_hash le32 (sample_ptbl le32) key))
      as [->|Hne].
    - vm_compute in Hi. injection Hi as <-.
      apply NoDup_cons. split.
      + intros Hin. apply list_elem_of_singleton in Hin. discriminate.
      + apply NoDup_singleton.
    - unfold sample_ptbl in Hi. cbn [phash_buckets set_phash_buckets] in Hi.
      rewrite list_lookup_insert_ne in Hi by (intros H; apply Hne; rewrite <- H;
                                               reflexivity).
      apply lookup_replicate in Hi as [-> _]. apply NoDup_nil_2. }
  destruct (pneigh_registered_once le32 true (sample_ptbl le32) key 0x1000 Hok)
    as (_ & Hok' & _ & Honce).
  assert (Hr : r = (0, snd (fst r), snd r)) by (vm_compute; reflexivity).
  destruct (Honce _ _ Hr) as [Hagain _].
  split; [reflexivity|]. split; [exact Hagain|exact Hok'].
Defined.

(** X23 at work: with [proxy_qlen] 1 and one packet queued, a second
    one is accepted and waits 1234 mod 80 = 34 ticks. *)
Lemma pneigh_enqueue_spec_witness :
  let st := {| proxy_queue := [proxy_stamped 32 (sample_pskb 1) 1000 5];
               proxy_timer := Some 1005 |} in
  exists st' tr,
    pneigh_enqueue 32 st 80 1 (sample_pskb 2) 1000 1234 = Some (st', tr) /\
    proxy_queue st' =
      [proxy_stamped 32 (sample_pskb 1) 1000 5;
       proxy_stamped 32 (sample_pskb 2) 1000 34] /\
    tr = [Px_dst_release 0x9000; Px_dev_hold 0x1000] /\
    exists e, proxy_timer st' = Some e.
Proof.
  intros st.
  destruct (pneigh_enqueue_spec 32 st 80 1 (sample_pskb 2) 1000 1234)
    as (st' & tr & He & _ & _ & Hacc); [lia | lia | vm_compute; reflexivity |].
  destruct Hacc as (_ & Hq & Htr & e & Ht & _); [simpl; lia |].
  exists st', tr. split; [exact He |]. split; [exact Hq |].
  split; [exact Htr |]. exists e. exact Ht.
Defined.

(** X24 at work: a packet accepted at tick 1000 with draw 1234 and a
    delay of 80 waits 34 ticks; the timer run at tick 1040 takes it off
    the queue. *)
Lemma proxy_delay_respected_witness :
  let st := {| proxy_queue := []; proxy_timer := None |} in
  exists st1 tr1,
    pneigh_enqueue 32 st 80 64 (sample_pskb 7) 1000 1234 = Some (st1, tr1) /\
    ~ In (proxy_stamped 32 (sample_pskb 7) 1000 34)
         (proxy_queue
            (fst (neigh_proxy_process 32 st1 true (fun _ => true) 1040 1041))).
Proof.
  intros st.
  destruct (proxy_delay_respected 32 st 80 64 (sample_pskb 7) 1000 1234
              true (fun _ => true) 40 1041)
    as (st1 & tr1 & He & _ & _ & Hdue); [lia | lia | lia | simpl; lia | lia |].
  destruct Hdue as [Hout _]; [vm_compute; discriminate |].
  exists st1, tr1. split; [exact He | exact Hout].
Defined.

(** X27 at work: a table of three entries is unloaded while callers
    hold two of them: the count left is 2 and the leak is reported. *)
Lemma neigh_table_clear_leak_witness :
  let tbl := sample_tbl 8 16 3 (three_entries 1 NUD_STALE) in
  let st := {| proxy_queue := [sample_pskb 1]; proxy_timer := Some 50 |} in
  let r := neigh_table_clear tbl 0x5000 (Some 7) st [0x4000; 0x5000] in
  cr_ret r = 0 /\ linked (cr_tbl r) = [] /\ entries (cr_tbl r) = 2 /\
  cr_leak r = true /\
  cr_pevents r = [Px_dev_put 0x1000; Px_kfree_skb (sample_pskb 1)].
Proof.
  intros tbl st r.
  destruct (neigh_table_clear_leak tbl 0x5000 (Some 7) st [0x4000; 0x5000])
    as (Hret & _ & _ & Hpev & Hl & _ & _ & Hent & Hleak).
  - vm_compute. reflexivity.
  - intros n Hn. vm_compute in Hn.
    destruct Hn as [<-|[<-|[<-|[]]]];
      (split; [intros H; exfalso; apply H; reflexivity
              |vm_compute; discriminate]).
  - split; [exact Hret |]. split; [exact Hl |]. split; [exact Hent |].
    split; [| exact Hpev].
    apply Hleak.
    exists (sample_neigh 0x2002 [10; 0; 0; 2] NUD_STALE 2 [] (sample_parms 3 3 0 3)).
    split; [vm_compute; right; left; reflexivity | vm_compute; discriminate].
Defined.

(** X28 at work: the constructor of the protocol refuses the entry; the
    table still counts and links nothing. *)
Lemma neigh_create_count_witness :
  let tbl :=
    {| key_len := 4; hash := sample_hash;
       constructor := Some (fun n => (- EINVAL, n));
       parms_neigh_setup := None; pconstructor := None;
       tbl_parms := sample_parms 3 3 0 3; parms_next := [];
       gc_interval := 3000;
       gc_thresh2 := 8; gc_thresh3 := 16; last_flush := 0;
       last_rand := 0; entries := 0; hash_buckets := empty_buckets;
       phash_buckets := replicate 16 [] |} in
  let r := neigh_create 100 32 tbl [10; 0; 0; 9] sample_dev 10 (Some 0x5000) in
  fst (fst r) = ERR_PTR (- EINVAL) /\
  entries (snd (fst r)) = Z.of_nat (length (linked (snd (fst r)))).
Proof.
  intros tbl r.
  assert (Hok : tbl_ok tbl).
  { apply tbl_ok_empty; [reflexivity | | apply hook_ok_none].
    intros g n [= <-]. cbn. auto. }
  destruct (neigh_create_count 100 32 tbl [10; 0; 0; 9] sample_dev 10
              (Some 0x5000) Hok) as [_ Hcount].
  - intros g n [= <-]. reflexivity.
  - intros g n [=].
  - split; [vm_compute; reflexivity |]. apply Hcount. reflexivity.
Defined.

(** X29 at work: a base of 3000 ticks and the draw 123456 give 2956
    ticks, between 1500 and 4500. *)
Lemma neigh_rand_reach_time_range_witness :
  exists r, neigh_rand_reach_time 32 3000 123456 = Some r /\
            1500 <= r < 4500.
Proof.
  destruct (neigh_rand_reach_time_range 32 3000 123456) as (r & Hr & Hb & _);
    [lia | lia | vm_compute; discriminate |].
  exists r. split; [exact Hr |].
  change (3000 / 2) with 1500 in Hb. lia.
Defined.

(** X16 at work: at tick 40000 the refresh is due; with the draw 456
    the block of the table gets the reachable time 456 mod 3000 + 1500,
    the entry nobody holds is collected, and a kept entry reads the new
    reachable time. *)
Lemma periodic_gc_collects_witness :
  let tbl := sample_tbl 0 1 3 (three_entries 1 NUD_STALE) in
  exists tbl' tr expires n,
    neigh_periodic_timer 100 32 tbl (fun _ => 456) 40000
      = Some (tbl', tr, expires) /\
    entries tbl' = 2 /\ last_rand tbl' = 40000 /\ expires = 43000 /\
    reachable_time (tbl_parms tbl') = 1956 /\
    hash_buckets tbl' !! 2%nat = Some [n] /\
    n_addr n = 0x2002 /\ reachable_time (parms n) = 1956.
Proof.
  intros tbl.
  destruct (neigh_periodic_timer 100 32 tbl (fun _ => 456) 40000)
    as [[[tbl' tr] expires]|] eqn:Hrun; [|vm_compute in Hrun; discriminate].
  destruct (periodic_gc_collects 100 32 tbl (fun _ => 456) 40000 tbl' tr
              expires Hrun)
    as (blocks & _ & Hdue & Hb & He & _ & _ & _ & Hexp).
  destruct Hdue as (Hblocks & Hlast & Hall); [reflexivity|].
  apply Forall2_cons_inv_l in Hall as (p' & rest & Hp & Hrest & Heq).
  rewrite Hblocks in Heq. injection Heq as Hp' Hn'.
  apply Forall2_nil_inv_l in Hrest. subst rest.
  vm_compute in Hp. injection Hp as <-.
  rewrite Hblocks, Hp', Hn' in Hb.
  exists tbl', tr, expires. eexists.
  split; [reflexivity|]. split; [rewrite He; reflexivity|].
  split; [exact Hlast|]. split; [rewrite Hexp; reflexivity|].
  split; [rewrite Hp'; reflexivity|].
  split; [rewrite Hb; vm_compute; reflexivity|].
  split; reflexivity.
Defined.
